(** * cascade: a shallow embedding of the scheduling simulator core

    The development follows the C++ sources under [src/sim]:
    - [types.h]      node types, node states, execution options, nodes;
    - [random.cpp]   the seeded xoshiro-style generator [SeededRng];
    - [provider.cpp] [Tier] (queue + concurrency cap) and [LatencySampler];
    - [workflow.cpp] the workflow DAG, its state machine and its expansion;
    - [scheduler.cpp] option selection and the dispatch loop.

    Conventions.
    - [std::uint64_t] values are integers in [Z] reduced modulo [2^64] after
      every operation that can leave the range; [int] values are integers in
      [Z] (signed overflow is undefined behaviour in C++, so only executions
      without it are described).  The counter of a tier is a
      [std::atomic<int>], whose [fetch_add] and [fetch_sub] are defined to
      wrap around: it is reduced to the range of [int] after each of them.
    - [double] values are exact rationals in [Q].  Every comparison made by
      the modelled code is between quotients of small integers and decimal
      literals, or between values that are stored and compared unchanged, so
      that no rounding step can flip them; the transcendental samplers
      (lognormal, gamma) are Section variables.
    - C++ exceptions leave the object in the state reached at the [throw];
      the workflow monad therefore returns the state together with either
      a value or the exception message. *)

From stdpp Require Import gmap strings list fin_maps sorting.
From Stdlib Require Import QArith ZArith Lia Lqa Sorting.Sorted.

Local Open Scope Z_scope.

(* ===================================================================== *)
(** * Definitions                                                         *)
(* ===================================================================== *)

(** ** sim/types.h *)

Abbreviation WorkflowId := Z (only parsing).   (* std::uint32_t *)
Abbreviation NodeId := Z (only parsing).       (* std::uint64_t *)
Abbreviation AttemptId := Z (only parsing).    (* std::uint64_t *)

Inductive NodeType :=
  Plan | LoadPDF | Chunk | Embed | SimilaritySearch | ExtractEvidence
| Aggregate | DecideNext.

Inductive ResourceClass := cpu | io | embed | llm.

Inductive NodeState :=
  WaitingDeps | Runnable | Queued | Running | Succeeded | Failed | Cancelled.

#[global] Instance NodeType_eq_dec : EqDecision NodeType.
Proof. solve_decision. Defined.
#[global] Instance ResourceClass_eq_dec : EqDecision ResourceClass.
Proof. solve_decision. Defined.
#[global] Instance NodeState_eq_dec : EqDecision NodeState.
Proof. solve_decision. Defined.

Definition IsTerminal (s : NodeState) : bool :=
  bool_decide (s = Succeeded) || bool_decide (s = Failed)
  || bool_decide (s = Cancelled).

Definition IsActive (s : NodeState) : bool :=
  bool_decide (s = Runnable) || bool_decide (s = Queued)
  || bool_decide (s = Running).

Record ExecutionOption := mkExecutionOption {
  provider : string;
  tier_id : Z;
  price_per_call : Q;
  timeout_ms : Z;
  max_retries : Z
}.

Record Node := mkNode {
  id : NodeId;
  workflow_id : WorkflowId;
  type : NodeType;
  resource_class : ResourceClass;
  idempotent : bool;
  state : NodeState;
  iter : Z;
  pdf_idx : Z;
  subquery_idx : Z;
  deps : list NodeId;
  children : list NodeId;
  preference_list : list ExecutionOption;
  output_size_est : Z;
  evidence_count_est : Z
}.

(** Arithmetic on [std::uint64_t]. *)
Definition u64 (x : Z) : Z := x mod 2 ^ 64.

(** The values of an [int], and the two's complement wrap-around of the
    arithmetic of a [std::atomic<int>]. *)
Definition is_int (x : Z) : Prop := - 2 ^ 31 <= x <= 2 ^ 31 - 1.
Definition wrap_int (x : Z) : Z := (x + 2 ^ 31) mod 2 ^ 32 - 2 ^ 31.

(** Strict comparison of two doubles, [a < b]. *)
Definition Qlt_bool (a b : Q) : bool := negb (Qle_bool b a).

(** ** sim/random.cpp *)

Module SeededRng.

(** The four words [s_[0..3]] of the generator. *)
Record t := mk { s0 : Z; s1 : Z; s2 : Z; s3 : Z }.

(** [SeededRng::SeededRng(seed)]: four rounds of SplitMix64. *)
Definition splitmix (s : Z) : Z :=
  let z := s in
  let z := u64 (Z.lxor z (Z.shiftr z 30) * 0xbf58476d1ce4e5b9) in
  let z := u64 (Z.lxor z (Z.shiftr z 27) * 0x94d049bb133111eb) in
  Z.lxor z (Z.shiftr z 31).

Definition init (seed : Z) : t :=
  let a := u64 (u64 seed + 0x9e3779b97f4a7c15) in
  let b := u64 (a + 0x9e3779b97f4a7c15) in
  let c := u64 (b + 0x9e3779b97f4a7c15) in
  let d := u64 (c + 0x9e3779b97f4a7c15) in
  mk (splitmix a) (splitmix b) (splitmix c) (splitmix d).

Definition Rotl (x k : Z) : Z :=
  Z.lor (u64 (Z.shiftl x k)) (Z.shiftr x (64 - k)).

(** [SeededRng::U64]: the output word and the advanced state. *)
Definition U64 (r : t) : Z * t :=
  let result := u64 (Rotl (u64 (s0 r + s3 r)) 23 + s0 r) in
  let tt := u64 (Z.shiftl (s1 r) 17) in
  let s2' := Z.lxor (s2 r) (s0 r) in
  let s3' := Z.lxor (s3 r) (s1 r) in
  let s1' := Z.lxor (s1 r) s2' in
  let s0' := Z.lxor (s0 r) s3' in
  let s2'' := Z.lxor s2' tt in
  let s3'' := Rotl s3' 45 in
  (result, mk s0' s1' s2'' s3'').

(** [SeededRng::Uniform01]: the top 53 bits over [2^53]; the quotient is
    exactly representable, so the rational is the double. *)
Definition Uniform01 (r : t) : Q * t :=
  let '(w, r') := U64 r in
  (Qmake (Z.shiftr w 11) (2 ^ 53)%positive, r').

Definition Uniform (a b : Q) (r : t) : Q * t :=
  let '(u, r') := Uniform01 r in
  ((a + u * (b - a))%Q, r').

(** [SeededRng::Bernoulli]. *)
Definition Bernoulli (p : Q) (r : t) : bool * t :=
  if Qle_bool p 0 then (false, r)
  else if Qle_bool 1 p then (true, r)
  else let '(u, r') := Uniform01 r in (Qlt_bool u p, r').

End SeededRng.

(** ** sim/config.h *)

Inductive Dist := Lognormal | Gamma | Linear.

Module LatencyParams.
Record t := mk {
  dist : Dist;
  param1 : Q;
  param2 : Q;
  tail_multiplier : Q;   (* occasional heavy tail (e.g. cache miss) *)
  tail_prob : Q          (* probability of applying tail_multiplier *)
}.
End LatencyParams.

Module TierConfig.
Record t := mk {
  provider : string;
  tier_id : Z;
  rate_per_sec : Q;
  capacity : Q;
  concurrency_cap : Z;
  price_per_call : Q;
  p_fail : Q;
  default_timeout_ms : Z;
  default_max_retries : Z
}.
End TierConfig.

Module LatencyConfig.
(** [by_type] is an [unordered_map<NodeType, LatencyParams>]; the key type
    is a finite enumeration, so the map is a partial function. *)
Record t := mk { by_type : NodeType -> option LatencyParams.t }.

Definition default_params : LatencyParams.t :=
  LatencyParams.mk Lognormal 5 (8 # 10) 1 0.

Definition Get (c : t) (ty : NodeType) : LatencyParams.t :=
  match by_type c ty with
  | Some p => p
  | None => default_params
  end.
End LatencyConfig.

(** ** sim/provider.h, sim/provider.cpp *)

Module LatencyContext.
Record t := mk {
  node_type : NodeType;
  pdf_size_est : Z;
  num_chunks_est : Z;
  token_length_est : Z
}.
End LatencyContext.

Module LatencySample.
Record t := mk {
  service_time_ms : Q;
  failed : bool;
  timeout : bool
}.
End LatencySample.

Module QueuedAttempt.
Record t := mk {
  node_id : NodeId;
  workflow_id : WorkflowId;
  node_type : NodeType;
  provider : string;
  tier_id : Z;
  tokens_needed : Z;
  timeout_ms : Z;
  max_retries : Z;
  latency_ctx : LatencyContext.t;
  attempt_id : AttemptId;
  cancelled : Z   (* key of the cancellation flag the attempt points to *)
}.
End QueuedAttempt.

(** [std::max(a, b)] on doubles: [b] when [a < b], otherwise [a]. *)
Definition Qmax_d (a b : Q) : Q := if Qlt_bool a b then b else a.

Module Tier.

(** The queue, and the [in_flight] counter, a [std::atomic<int>] that
    [fetch_add] and [fetch_sub] move with wrap-around.  The token bucket
    only delays a worker after a successful dequeue and is left out. *)
Record t := mk {
  config : TierConfig.t;
  queue : list QueuedAttempt.t;
  in_flight : Z
}.

Definition make (c : TierConfig.t) : t := mk c [] 0.

Definition provider (x : t) : string := TierConfig.provider (config x).
Definition tier_id (x : t) : Z := TierConfig.tier_id (config x).
Definition concurrency_cap (x : t) : Z :=
  TierConfig.concurrency_cap (config x).

Definition can_accept (x : t) : bool := in_flight x <? concurrency_cap x.

Definition Enqueue (a : QueuedAttempt.t) (x : t) : t :=
  mk (config x) (queue x ++ [a]) (in_flight x).

(** [TryDequeue]: [None] is the [false] return ([out] untouched). *)
Definition TryDequeue (x : t) : option QueuedAttempt.t * t :=
  match queue x with
  | [] => (None, x)
  | a :: rest =>
      if concurrency_cap x <=? in_flight x then (None, x)
      else (Some a, mk (config x) rest (wrap_int (in_flight x + 1)))
  end.

(** [BlockingDequeue]: the caller waits on the condition variable until
    the queue is non-empty and [in_flight < concurrency_cap]; [None] means
    that the wait predicate is false, and the caller stays blocked without
    touching the tier. *)
Definition BlockingDequeue (x : t) : option (QueuedAttempt.t * t) :=
  match queue x with
  | a :: rest =>
      if in_flight x <? concurrency_cap x
      then Some (a, mk (config x) rest (wrap_int (in_flight x + 1)))
      else None
  | [] => None
  end.

Definition OnAttemptFinish (x : t) : t :=
  mk (config x) (queue x) (wrap_int (in_flight x - 1)).

(** Calls made on a tier, each of them atomic (the queue operations run
    under [queue_mutex_], the counter is a [std::atomic<int>]). *)
Inductive op :=
| OpEnqueue (a : QueuedAttempt.t)
| OpTryDequeue
| OpBlockingDequeue
| OpOnAttemptFinish.

(** One call: the new tier and the attempt handed to the caller, if any. *)
Definition step (o : op) (x : t) : t * option QueuedAttempt.t :=
  match o with
  | OpEnqueue a => (Enqueue a x, None)
  | OpTryDequeue => let '(r, x') := TryDequeue x in (x', r)
  | OpBlockingDequeue =>
      match BlockingDequeue x with
      | Some (a, x') => (x', Some a)
      | None => (x, None)
      end
  | OpOnAttemptFinish => (OnAttemptFinish x, None)
  end.

(** A sequence of calls; the second component lists the attempts that left
    the queue, in the order in which they left. *)
Fixpoint run (os : list op) (x : t) : t * list QueuedAttempt.t :=
  match os with
  | [] => (x, [])
  | o :: os' =>
      let '(x1, r) := step o x in
      let '(x2, out) := run os' x1 in
      (x2, match r with Some a => a :: out | None => out end)
  end.

(** The attempts passed to [Enqueue], in call order. *)
Fixpoint enqueued (os : list op) : list QueuedAttempt.t :=
  match os with
  | [] => []
  | OpEnqueue a :: os' => a :: enqueued os'
  | _ :: os' => enqueued os'
  end.

(** The number of [OnAttemptFinish] calls. *)
Fixpoint finishes (os : list op) : Z :=
  match os with
  | [] => 0
  | OpOnAttemptFinish :: os' => 1 + finishes os'
  | _ :: os' => finishes os'
  end.

End Tier.

Module LatencySampler.
Section Sampler.

(** [SeededRng::Lognormal] and [SeededRng::Gamma] go through [exp], [log],
    [sqrt] and [cos]; they are taken as given: any functions from the two
    parameters and the stream to a value and the advanced stream. *)
Variable RngLognormal : Q -> Q -> SeededRng.t -> Q * SeededRng.t.
Variable RngGamma : Q -> Q -> SeededRng.t -> Q * SeededRng.t.

(** The raw service time of [SampleServiceTime], before the tail step. *)
Definition raw_service_time (params : LatencyParams.t)
    (ctx : LatencyContext.t) (r : SeededRng.t) : Q * SeededRng.t :=
  match LatencyParams.dist params with
  | Lognormal =>
      let mu := LatencyParams.param1 params in
      let sigma := LatencyParams.param2 params in
      let ty := LatencyContext.node_type ctx in
      let mu :=
        if bool_decide (ty = Plan) || bool_decide (ty = ExtractEvidence)
           || bool_decide (ty = DecideNext)
        then (mu + (1 # 1000)
                   * inject_Z (LatencyContext.token_length_est ctx))%Q
        else mu in
      RngLognormal mu sigma r
  | Gamma =>
      RngGamma (LatencyParams.param1 params) (LatencyParams.param2 params) r
  | Linear =>
      let base := LatencyParams.param1 params in
      let coeff := LatencyParams.param2 params in
      let ty := LatencyContext.node_type ctx in
      let '(raw, r') :=
        if bool_decide (ty = Chunk) then
          let '(u, r') := SeededRng.Uniform (-5) 5 r in
          ((base + coeff * inject_Z (LatencyContext.pdf_size_est ctx)
            + u)%Q, r')
        else if bool_decide (ty = SimilaritySearch) then
          ((base + coeff * inject_Z (LatencyContext.num_chunks_est ctx))%Q,
           r)
        else
          let '(u, r') := SeededRng.Uniform (-2) 2 r in
          ((base + u)%Q, r') in
      (Qmax_d 1 raw, r')
  end.

(** The tail step of [SampleServiceTime]: [Some b] reports the Bernoulli
    draw that was made, [None] that none was made ([tail_prob > 0.0] is
    tested first and [&&] short-circuits); the boolean tells whether
    [raw *= tail_multiplier] was executed. *)
Definition tail_step (params : LatencyParams.t) (r : SeededRng.t)
    : option bool * bool * SeededRng.t :=
  let tp := LatencyParams.tail_prob params in
  let tm := LatencyParams.tail_multiplier params in
  let '(draw, r') :=
    if Qlt_bool 0 tp
    then let '(b, r') := SeededRng.Bernoulli tp r in (Some b, r')
    else (None, r) in
  if bool_decide (draw = Some true) then (draw, true, r')
  else if Qeq_bool tp 0 && negb (Qeq_bool tm 1) then (draw, true, r')
  else (draw, false, r').

Definition SampleServiceTime (params : LatencyParams.t)
    (ctx : LatencyContext.t) (r : SeededRng.t) : Q * SeededRng.t :=
  let '(raw, r1) := raw_service_time params ctx r in
  let '(_, multiplied, r2) := tail_step params r1 in
  let raw :=
    if multiplied then (raw * LatencyParams.tail_multiplier params)%Q
    else raw in
  (Qmax_d 1 raw, r2).

Definition Sample (config : LatencyConfig.t) (ctx : LatencyContext.t)
    (timeout_ms : Z) (p_fail : Q) (r : SeededRng.t)
    : LatencySample.t * SeededRng.t :=
  let params := LatencyConfig.Get config (LatencyContext.node_type ctx) in
  let '(service, r1) := SampleServiceTime params ctx r in
  let '(fail, r2) := SeededRng.Bernoulli p_fail r1 in
  if fail then (LatencySample.mk service true false, r2)
  else if (0 <? timeout_ms) && Qlt_bool (inject_Z timeout_ms) service
  then (LatencySample.mk (inject_Z timeout_ms) false true, r2)
  else (LatencySample.mk service false false, r2).

End Sampler.
End LatencySampler.

(** ** sim/workflow.h, sim/workflow.cpp *)

Module WorkloadParams.
Record t := mk {
  pdfs : Z;
  subqueries_per_iter : Z;
  max_iters : Z;
  seed : Z
}.
End WorkloadParams.

Module ProviderConfig.
Record t := mk {
  tiers : list TierConfig.t;
  latency : LatencyConfig.t
}.
End ProviderConfig.

Inductive DecideAction := Stop | Continue.

#[global] Instance DecideAction_eq_dec : EqDecision DecideAction.
Proof. solve_decision. Defined.

(** Field updates of a [Node]. *)
Definition set_id (v : NodeId) (n : Node) : Node :=
  mkNode v (workflow_id n) (type n) (resource_class n) (idempotent n)
    (state n) (iter n) (pdf_idx n) (subquery_idx n) (deps n) (children n)
    (preference_list n) (output_size_est n) (evidence_count_est n).
Definition set_workflow_id (v : WorkflowId) (n : Node) : Node :=
  mkNode (id n) v (type n) (resource_class n) (idempotent n)
    (state n) (iter n) (pdf_idx n) (subquery_idx n) (deps n) (children n)
    (preference_list n) (output_size_est n) (evidence_count_est n).
Definition set_state (v : NodeState) (n : Node) : Node :=
  mkNode (id n) (workflow_id n) (type n) (resource_class n) (idempotent n)
    v (iter n) (pdf_idx n) (subquery_idx n) (deps n) (children n)
    (preference_list n) (output_size_est n) (evidence_count_est n).
Definition set_deps (v : list NodeId) (n : Node) : Node :=
  mkNode (id n) (workflow_id n) (type n) (resource_class n) (idempotent n)
    (state n) (iter n) (pdf_idx n) (subquery_idx n) v (children n)
    (preference_list n) (output_size_est n) (evidence_count_est n).
Definition set_children (v : list NodeId) (n : Node) : Node :=
  mkNode (id n) (workflow_id n) (type n) (resource_class n) (idempotent n)
    (state n) (iter n) (pdf_idx n) (subquery_idx n) (deps n) v
    (preference_list n) (output_size_est n) (evidence_count_est n).
Definition set_preference_list (v : list ExecutionOption) (n : Node) : Node :=
  mkNode (id n) (workflow_id n) (type n) (resource_class n) (idempotent n)
    (state n) (iter n) (pdf_idx n) (subquery_idx n) (deps n) (children n)
    v (output_size_est n) (evidence_count_est n).

(** [static std::uint64_t Mix64(std::uint64_t x)]. *)
Definition Mix64 (x : Z) : Z :=
  let x := Z.lxor x (Z.shiftr x 30) in
  let x := u64 (x * 0xbf58476d1ce4e5b9) in
  let x := Z.lxor x (Z.shiftr x 27) in
  let x := u64 (x * 0x94d049bb133111eb) in
  Z.lxor x (Z.shiftr x 31).

Definition ResourceForType (t : NodeType) : ResourceClass :=
  match t with
  | LoadPDF => io
  | Chunk => cpu
  | Embed => embed
  | SimilaritySearch => cpu
  | ExtractEvidence => llm
  | Plan => llm
  | Aggregate => cpu
  | DecideNext => llm
  end.

(** [std::sort] of a preference list by [a.price_per_call < b.price_per_call]
    (the relative order of equal prices, which [std::sort] leaves open, is
    the order of insertion). *)
Fixpoint insert_by_price (o : ExecutionOption) (l : list ExecutionOption)
    : list ExecutionOption :=
  match l with
  | [] => [o]
  | x :: l' =>
      if Qlt_bool (price_per_call o) (price_per_call x) then o :: x :: l'
      else x :: insert_by_price o l'
  end.

Definition sort_by_price (l : list ExecutionOption) : list ExecutionOption :=
  foldr insert_by_price [] l.

Module Workflow.

Record t := mk {
  id_ : WorkflowId;
  params_ : WorkloadParams.t;
  provider_config_ : option ProviderConfig.t;  (* null or the config *)
  nodes : gmap Z Node;                         (* graph_.nodes *)
  next_node_id : NodeId;                       (* graph_.next_node_id *)
  done_ : bool;
  completed_iters_ : Z;
  stop_iter_ : option Z
}.

Definition set_nodes (m : gmap Z Node) (w : t) : t :=
  mk (id_ w) (params_ w) (provider_config_ w) m (next_node_id w)
     (done_ w) (completed_iters_ w) (stop_iter_ w).

(** *** Member functions run in a state monad with exceptions *)

Inductive Res (A : Type) :=
| Ok (a : A)
| Throw (msg : string).
Arguments Ok {A} a.
Arguments Throw {A} msg.

Definition M (A : Type) : Type := t -> t * Res A.

Definition ret {A} (a : A) : M A := fun w => (w, Ok a).
Definition throw {A} (msg : string) : M A := fun w => (w, Throw msg).
Definition bind {A B} (m : M A) (k : A -> M B) : M B :=
  fun w =>
    match m w with
    | (w', Ok a) => k a w'
    | (w', Throw msg) => (w', Throw msg)
    end.
Definition get : M t := fun w => (w, Ok w).
Definition modify (f : t -> t) : M unit := fun w => (f w, Ok ()).

Notation "'let*' x := m 'in' k" := (bind m (fun x => k))
  (at level 10, x name, m at level 100, k at level 200).
Notation "m >> k" := (bind m (fun _ => k))
  (at level 58, left associativity).

(** [for (x : l) body], the accumulator standing for the local variables
    that the loop body updates. *)
Fixpoint foldM {A B} (f : B -> A -> M B) (acc : B) (l : list A) : M B :=
  match l with
  | [] => ret acc
  | x :: l' => let* acc' := f acc x in foldM f acc' l'
  end.

Definition forM_ {A} (l : list A) (f : A -> M unit) : M unit :=
  foldM (fun _ x => f x) () l.

(** [node(nid)] / [node_mut(nid)]. *)
Definition node (nid : NodeId) : M Node :=
  fun w =>
    match nodes w !! nid with
    | Some n => (w, Ok n)
    | None => (w, Throw "Unknown node id")
    end.

(** A write through the reference returned by [node_mut(nid)]. *)
Definition update_node (nid : NodeId) (f : Node -> Node) : M unit :=
  modify (fun w => set_nodes (alter f nid (nodes w)) w).

Definition NewNodeId : M NodeId :=
  fun w =>
    (mk (id_ w) (params_ w) (provider_config_ w) (nodes w)
        (u64 (next_node_id w + 1))
        (done_ w) (completed_iters_ w) (stop_iter_ w),
     Ok (next_node_id w)).

(** [AddNode]; the result is the key under which the node was stored. *)
Definition AddNode (n : Node) : M NodeId :=
  let* n := (if bool_decide (id n = 0)
             then let* i := NewNodeId in ret (set_id i n)
             else ret n) in
  let* w := get in
  let n := if bool_decide (workflow_id n = 0)
           then set_workflow_id (id_ w) n else n in
  match nodes w !! id n with
  | Some _ => throw "Duplicate node id"
  | None =>
      modify (set_nodes (<[id n := n]> (nodes w))) >> ret (id n)
  end.

Definition AddEdge (from to : NodeId) : M unit :=
  node from >> node to >>
  update_node from (fun a => set_children (children a ++ [to]) a) >>
  update_node to (fun b => set_deps (deps b ++ [from]) b).

(** The loop of [DepsSatisfied] over a list of dependencies. *)
Fixpoint deps_succeeded (ds : list NodeId) : M bool :=
  match ds with
  | [] => ret true
  | d :: ds' =>
      let* dep := node d in
      if bool_decide (state dep <> Succeeded) then ret false
      else deps_succeeded ds'
  end.

Definition DepsSatisfied (n : Node) : M bool := deps_succeeded (deps n).

Definition InitializeStateFromDeps (nid : NodeId) : M unit :=
  let* n := node nid in
  if IsTerminal (state n) then ret ()
  else
    let* ok := DepsSatisfied n in
    update_node nid (set_state (if ok then Runnable else WaitingDeps)).

Definition require (ok : bool) (msg : string) : M unit :=
  if ok then ret () else throw ("Invalid node transition: " +:+ msg).

Definition SetState (nid : NodeId) (next : NodeState) : M unit :=
  let* n := node nid in
  if bool_decide (state n = next) then ret ()
  else
    (if IsTerminal (state n)
     then require false "terminal state cannot transition"
     else ret ()) >>
    match next with
    | WaitingDeps =>
        let* ok := DepsSatisfied n in
        require (negb ok) "cannot move to WaitingDeps when deps satisfied"
    | Runnable =>
        let* ok := DepsSatisfied n in
        require ok "cannot move to Runnable before deps satisfied"
    | Queued =>
        require (bool_decide (state n = Runnable))
                "Queued only allowed from Runnable"
    | Running =>
        require (bool_decide (state n = Queued)
                 || bool_decide (state n = Runnable))
                "Running only allowed from Queued/Runnable"
    | Succeeded =>
        require (bool_decide (state n = Running)
                 || bool_decide (state n = Queued)
                 || bool_decide (state n = Runnable))
                "Succeeded only allowed from Running/Queued/Runnable"
    | Failed =>
        require (bool_decide (state n = Running)
                 || bool_decide (state n = Queued)
                 || bool_decide (state n = Runnable))
                "Failed only allowed from Running/Queued/Runnable"
    | Cancelled => ret ()
    end >>
    update_node nid (set_state next).

(** The keys of [graph_.nodes] in the order in which a range-for visits
    them (unspecified for [std::unordered_map]; here the order of the
    finite map). *)
Definition node_ids (w : t) : list NodeId := (map_to_list (nodes w)).*1.

(** The body of the loop of [RefreshRunnable]. *)
Definition refresh_node (newly : list NodeId) (nid : NodeId)
    : M (list NodeId) :=
  let* n := node nid in
  if IsTerminal (state n) || bool_decide (state n = Queued)
     || bool_decide (state n = Running)
  then ret newly
  else
    let* ready := DepsSatisfied n in
    if ready && bool_decide (state n <> Runnable) then
      update_node nid (set_state Runnable) >> ret (newly ++ [nid])
    else if negb ready && bool_decide (state n <> WaitingDeps) then
      update_node nid (set_state WaitingDeps) >> ret newly
    else ret newly.

Definition RefreshRunnable : M (list NodeId) :=
  let* w := get in
  foldM refresh_node [] (node_ids w).

(** [RunnableNodes]: the keys of the [Runnable] nodes, in the order of
    the map, then sorted by [std::sort]. *)
Definition RunnableNodes (w : t) : list NodeId :=
  merge_sort Z.le
    (omap (fun kn : Z * Node =>
             if bool_decide (state kn.2 = Runnable) then Some kn.1 else None)
          (map_to_list (nodes w))).

Definition MarkQueued (nid : NodeId) : M unit := SetState nid Queued.
Definition MarkRunning (nid : NodeId) : M unit := SetState nid Running.

Definition MarkFailed (nid : NodeId) : M unit :=
  SetState nid Failed >> RefreshRunnable >> ret ().

Definition Cancel (nid : NodeId) : M unit :=
  let* n := node nid in
  if IsTerminal (state n) then ret ()
  else update_node nid (set_state Cancelled) >> RefreshRunnable >> ret ().

Definition prune_node (stop_iter : Z) (nid : NodeId) : M unit :=
  let* n := node nid in
  if IsTerminal (state n) then ret ()
  else if stop_iter <? iter n then update_node nid (set_state Cancelled)
  else ret ().

Definition PruneAfterStop (stop_iter : Z) : M unit :=
  let* w := get in
  forM_ (node_ids w) (prune_node stop_iter) >>
  RefreshRunnable >> ret ().

(** [PopulatePreferenceListForNode], on the node stored under [nid]. *)
Definition preference_for (rc : ResourceClass) (tiers : list TierConfig.t)
    : list ExecutionOption :=
  sort_by_price
    (omap (fun tc =>
             if bool_decide (rc = embed)
                && bool_decide (TierConfig.provider tc = "embed_provider")
             then Some (mkExecutionOption (TierConfig.provider tc)
                          (TierConfig.tier_id tc)
                          (TierConfig.price_per_call tc)
                          (TierConfig.default_timeout_ms tc)
                          (TierConfig.default_max_retries tc))
             else if bool_decide (rc = llm)
                     && bool_decide
                          (TierConfig.provider tc = "llm_provider")
             then Some (mkExecutionOption (TierConfig.provider tc)
                          (TierConfig.tier_id tc)
                          (TierConfig.price_per_call tc)
                          (TierConfig.default_timeout_ms tc)
                          (TierConfig.default_max_retries tc))
             else None)
          tiers).

Definition PopulatePreferenceListForNode (nid : NodeId) : M unit :=
  let* w := get in
  match provider_config_ w with
  | None => ret ()
  | Some pc =>
      update_node nid (fun n =>
        set_preference_list
          (preference_for (resource_class n) (ProviderConfig.tiers pc)) n)
  end.

(** A freshly declared [Node] after the assignments every creation site
    makes ([idempotent = true], empty edge lists, no estimates). *)
Definition new_node (nid : NodeId) (wid : WorkflowId) (ty : NodeType)
    (rc : ResourceClass) (it p q : Z) : Node :=
  mkNode nid wid ty rc true WaitingDeps it p q [] [] [] 0 0.

Definition with_state (s : NodeState) (n : Node) : Node := set_state s n.

Definition with_output_size_est (v : Z) (n : Node) : Node :=
  mkNode (id n) (workflow_id n) (type n) (resource_class n) (idempotent n)
    (state n) (iter n) (pdf_idx n) (subquery_idx n) (deps n) (children n)
    (preference_list n) v (evidence_count_est n).

Definition with_evidence_count_est (v : Z) (n : Node) : Node :=
  mkNode (id n) (workflow_id n) (type n) (resource_class n) (idempotent n)
    (state n) (iter n) (pdf_idx n) (subquery_idx n) (deps n) (children n)
    (preference_list n) (output_size_est n) v.

Definition EnsureInitialPlan : M unit :=
  let* plan_id := NewNodeId in
  let* w := get in
  let plan :=
    with_output_size_est
      (u64 (200 + 10 * WorkloadParams.subqueries_per_iter (params_ w)
            + 3 * WorkloadParams.pdfs (params_ w)))
      (with_state Runnable   (* root node has no deps *)
         (new_node plan_id (id_ w) Plan llm 0 (-1) (-1))) in
  let* p := AddNode plan in
  PopulatePreferenceListForNode p.

(** The evidence estimate of [ExtractEvidence(p, q)] at iteration [it]. *)
Definition evidence_hash (seed : Z) (wid : WorkflowId) (it p q : Z) : Z :=
  Mix64 (Z.lxor (Z.lxor (Z.lxor (Z.lxor seed
           (u64 (Z.shiftl (u64 wid) 32)))
           (u64 (u64 it * 0x9e3779b97f4a7c15)))
           (u64 (Z.shiftl (u64 p) 8)))
           (u64 q)).

(** The body of the inner loop of [ExpandIterationFromPlan] (one
    subquery [q] of pdf [p]). *)
Definition expand_subquery (embed_id : NodeId) (it p : Z)
    (extract_nodes : list NodeId) (q : Z) : M (list NodeId) :=
  let* w := get in
  let* ss_id := NewNodeId in
  let ss :=
    new_node ss_id (id_ w) SimilaritySearch
      (ResourceForType SimilaritySearch) it p q in
  let* ex_id := NewNodeId in
  let h := evidence_hash (WorkloadParams.seed (params_ w)) (id_ w) it p q in
  let ex :=
    with_evidence_count_est (h mod 4)   (* 0..3 *)
      (new_node ex_id (id_ w) ExtractEvidence
         (ResourceForType ExtractEvidence) it p q) in
  let* ss_ref := AddNode ss in
  let* ex_ref := AddNode ex in
  PopulatePreferenceListForNode ss_ref >>
  PopulatePreferenceListForNode ex_ref >>
  AddEdge embed_id ss_id >>
  AddEdge ss_id ex_id >>
  ret (extract_nodes ++ [ex_id]).

(** The body of the outer loop (one pdf [p]). *)
Definition expand_pdf (plan_node : NodeId) (it : Z)
    (extract_nodes : list NodeId) (p : Z) : M (list NodeId) :=
  let* w := get in
  let* load_id := NewNodeId in
  let load :=
    new_node load_id (id_ w) LoadPDF (ResourceForType LoadPDF) it p (-1) in
  let* chunk_id := NewNodeId in
  let chunk :=
    new_node chunk_id (id_ w) Chunk (ResourceForType Chunk) it p (-1) in
  let* embed_id := NewNodeId in
  let embed :=
    new_node embed_id (id_ w) Embed (ResourceForType Embed) it p (-1) in
  let* l := AddNode load in
  let* c := AddNode chunk in
  let* e := AddNode embed in
  PopulatePreferenceListForNode l >>
  PopulatePreferenceListForNode c >>
  PopulatePreferenceListForNode e >>
  AddEdge plan_node load_id >>
  AddEdge load_id chunk_id >>
  AddEdge chunk_id embed_id >>
  let K := WorkloadParams.subqueries_per_iter (params_ w) in
  if bool_decide (K = 0) then ret extract_nodes
  else foldM (expand_subquery embed_id it p) extract_nodes (seqZ 0 K).

(** The guard of [ExpandIterationFromPlan]: some node is an [Aggregate]
    of iteration [it]. *)
Definition has_aggregate (it : Z) (w : t) : bool :=
  existsb (fun n => bool_decide (type n = Aggregate)
                    && bool_decide (iter n = it))
          (map_to_list (nodes w)).*2.

Definition ExpandIterationFromPlan (plan_node : NodeId) : M unit :=
  let* plan := node plan_node in
  let it := iter plan in
  let* w := get in
  if WorkloadParams.max_iters (params_ w) <=? it then ret ()
  else if has_aggregate it w then ret ()
  else
    let* extract_nodes :=
      foldM (expand_pdf plan_node it) []
            (seqZ 0 (WorkloadParams.pdfs (params_ w))) in
    let* agg_id := NewNodeId in
    let agg :=
      new_node agg_id (id_ w) Aggregate (ResourceForType Aggregate)
        it (-1) (-1) in
    let* decide_id := NewNodeId in
    let decide :=
      new_node decide_id (id_ w) DecideNext (ResourceForType DecideNext)
        it (-1) (-1) in
    let* agg_ref := AddNode agg in
    let* decide_ref := AddNode decide in
    PopulatePreferenceListForNode agg_ref >>
    PopulatePreferenceListForNode decide_ref >>
    match extract_nodes with
    | _ :: _ => forM_ extract_nodes (fun ex_id => AddEdge ex_id agg_id)
    | [] => AddEdge plan_node agg_id
    end >>
    AddEdge agg_id decide_id >>
    InitializeStateFromDeps agg_id >>
    InitializeStateFromDeps decide_id.

Definition IterEvidenceTotal (w : t) (it : Z) : Z :=
  foldl (fun total n =>
           if bool_decide (iter n = it)
              && bool_decide (type n = ExtractEvidence)
           then total + evidence_count_est n else total)
        0 (map_to_list (nodes w)).*2.

Definition IterPdfCoverageCount (w : t) (it : Z) : Z :=
  Z.of_nat (size
    (foldl (fun (covered : gset Z) n =>
              if bool_decide (iter n <> it)
                 || bool_decide (type n <> ExtractEvidence)
              then covered
              else if 0 <? evidence_count_est n
                   then {[pdf_idx n]} ∪ covered else covered)
           ∅ (map_to_list (nodes w)).*2)).

(** [std::min(a, b)] on doubles: [b] when [b < a], otherwise [a]. *)
Definition Qmin_d (a b : Q) : Q := if Qlt_bool b a then b else a.

(** The tie-breaker [u01] of [ComputeDecideAction]. *)
Definition tie_breaker (seed : Z) (wid : WorkflowId) (it : Z) : Q :=
  let h := Mix64 (Z.lxor (Z.lxor seed (u64 (Z.shiftl (u64 wid) 1)))
                         (u64 (u64 it * 0xD1B54A32D192ED03))) in
  (inject_Z (Z.land h 0xFFFF) / 65535)%Q.

Definition ComputeDecideAction (w : t) (it : Z) : DecideAction :=
  let P := WorkloadParams.pdfs (params_ w) in
  let K := WorkloadParams.subqueries_per_iter (params_ w) in
  if WorkloadParams.max_iters (params_ w) <=? it + 1 then Stop
  else
    let total := IterEvidenceTotal w it in
    let covered := IterPdfCoverageCount w it in
    let coverage := (inject_Z covered / inject_Z (Z.max 1 P))%Q in
    let denom := inject_Z (Z.max 1 (P * Z.max 1 K * 2)) in
    let confidence := Qmin_d 1 (inject_Z total / denom)%Q in
    let u01 := tie_breaker (WorkloadParams.seed (params_ w)) (id_ w) it in
    let strong :=
      Qle_bool (60 # 100) coverage && Qle_bool (50 # 100) confidence in
    let borderline :=
      Qle_bool (45 # 100) coverage && Qle_bool (35 # 100) confidence
      && Qlt_bool (70 # 100) u01 in
    if strong || borderline then Stop else Continue.

Definition set_stopped (it : Z) (w : t) : t :=
  mk (id_ w) (params_ w) (provider_config_ w) (nodes w) (next_node_id w)
     true (completed_iters_ w) (Some it).

Definition set_completed_iters (v : Z) (w : t) : t :=
  mk (id_ w) (params_ w) (provider_config_ w) (nodes w) (next_node_id w)
     (done_ w) v (stop_iter_ w).

Definition OnDecideNext (decide_node : NodeId) : M unit :=
  let* dn := node decide_node in
  let it := iter dn in
  let* w := get in
  match ComputeDecideAction w it with
  | Stop =>
      modify (set_stopped it) >> PruneAfterStop it
  | Continue =>
      let next_iter := it + 1 in
      let* plan_id := NewNodeId in
      let plan :=
        with_output_size_est
          (u64 (220 + 15 * WorkloadParams.subqueries_per_iter (params_ w)
                + 4 * WorkloadParams.pdfs (params_ w)))
          (new_node plan_id (id_ w) Plan llm next_iter (-1) (-1)) in
      let* plan_ref := AddNode plan in
      PopulatePreferenceListForNode plan_ref >>
      AddEdge decide_node plan_id >>
      InitializeStateFromDeps plan_id
  end.

Definition MarkSucceeded (nid : NodeId) : M unit :=
  let* n := node nid in
  let ty := type n in
  let it := iter n in
  SetState nid Succeeded >>
  (if bool_decide (ty = Plan) then ExpandIterationFromPlan nid
   else if bool_decide (ty = DecideNext) then
     OnDecideNext nid >>
     modify (fun w =>
               set_completed_iters (Z.max (completed_iters_ w) (it + 1)) w)
   else ret ()) >>
  RefreshRunnable >> ret ().

(** The body of [Workflow::Workflow(id, params, provider_config)]. *)
Definition constructor (params : WorkloadParams.t) : M unit :=
  (if WorkloadParams.pdfs params <=? 0
   then throw "WorkloadParams.pdfs must be > 0" else ret ()) >>
  (if WorkloadParams.subqueries_per_iter params <? 0
   then throw "WorkloadParams.subqueries_per_iter must be >= 0"
   else ret ()) >>
  (if WorkloadParams.max_iters params <=? 0
   then throw "WorkloadParams.max_iters must be > 0" else ret ()) >>
  EnsureInitialPlan >>
  RefreshRunnable >> ret ().

(** The constructor, run on the members' initial values; a [Throw] means
    that no object is constructed. *)
Definition construct (wid : WorkflowId) (params : WorkloadParams.t)
    (pc : ProviderConfig.t) : t * Res unit :=
  constructor params (mk wid params (Some pc) ∅ 1 false 0 None).

(** The public mutators of the state machine. *)
Inductive mutator :=
| CallMarkQueued (nid : NodeId)
| CallMarkRunning (nid : NodeId)
| CallMarkSucceeded (nid : NodeId)
| CallMarkFailed (nid : NodeId)
| CallCancel (nid : NodeId)
| CallRefreshRunnable
| CallPruneAfterStop (stop_iter : Z).

Definition call (c : mutator) : M unit :=
  match c with
  | CallMarkQueued nid => MarkQueued nid
  | CallMarkRunning nid => MarkRunning nid
  | CallMarkSucceeded nid => MarkSucceeded nid
  | CallMarkFailed nid => MarkFailed nid
  | CallCancel nid => Cancel nid
  | CallRefreshRunnable => RefreshRunnable >> ret ()
  | CallPruneAfterStop k => PruneAfterStop k
  end.

(** The workflow after a sequence of calls, exceptions included: a caller
    that catches the exception goes on with the object as it was left. *)
Definition calls (cs : list mutator) (w : t) : t :=
  foldl (fun w c => (call c w).1) w cs.

End Workflow.

(** ** Vocabulary of the properties of the workflow *)

Module WorkflowSpec.

(** Triples for the workflow monad: from a state in [P], a normal return
    of [a] ends in [Q a], an exception ends in [E]. *)
Definition hoare {A} (P : Workflow.t -> Prop) (m : Workflow.M A)
    (Q : A -> Workflow.t -> Prop) (E : Workflow.t -> Prop) : Prop :=
  forall w, P w ->
    match m w with
    | (w', Workflow.Ok a) => Q a w'
    | (w', Workflow.Throw _) => E w'
    end.

(** [m] relates every state to the state it leaves, exception or not. *)
Definition rel {A} (R : relation Workflow.t) (m : Workflow.M A) : Prop :=
  forall w, R w (m w).1.

(** Every parent of [n] is stored in [w] and is [Succeeded]. *)
Definition parents_succeeded (w : Workflow.t) (n : Node) : Prop :=
  forall d, d ∈ deps n ->
    exists dn, Workflow.nodes w !! d = Some dn /\ state dn = Succeeded.

(** The state machine: a change from [s] to [s'] of a node that ends as
    [n'] in the workflow [w']. *)
Definition permitted (w' : Workflow.t) (n' : Node) (s s' : NodeState)
    : Prop :=
  IsTerminal s = false /\
  match s' with
  | Runnable => parents_succeeded w' n'
  | Queued => s = Runnable
  | Running => s = Queued \/ s = Runnable
  | Succeeded | Failed => s = Runnable \/ s = Queued \/ s = Running
  | Cancelled => True
  | WaitingDeps => True
  end.

(** From [w] to [w'] every node is kept, and keeps its state or changes
    it as the state machine permits; a node that is new in [w'] waits for
    its dependencies, is cancelled, or is runnable with all parents
    succeeded. *)
Definition respects (w w' : Workflow.t) : Prop :=
  (forall nid n, Workflow.nodes w !! nid = Some n ->
     exists n', Workflow.nodes w' !! nid = Some n' /\
       (state n' = state n \/ permitted w' n' (state n) (state n'))) /\
  (forall nid n', Workflow.nodes w !! nid = None ->
     Workflow.nodes w' !! nid = Some n' ->
     state n' = WaitingDeps \/ state n' = Cancelled \/
     (state n' = Runnable /\ parents_succeeded w' n')).

(** Steps that create nodes and edges: no stored node changes state, and
    new nodes are created waiting. *)
Definition structural (w w' : Workflow.t) : Prop :=
  (forall nid n, Workflow.nodes w !! nid = Some n ->
     exists n', Workflow.nodes w' !! nid = Some n' /\ state n' = state n) /\
  (forall nid n', Workflow.nodes w !! nid = None ->
     Workflow.nodes w' !! nid = Some n' -> state n' = WaitingDeps).

(** Steps that re-evaluate states: no node is created, nothing but the
    state of a node changes, and a node that changes state was not terminal
    and becomes waiting, cancelled, or runnable with all parents
    succeeded. *)
Definition settles (w w' : Workflow.t) : Prop :=
  (forall nid, Workflow.nodes w !! nid = None ->
     Workflow.nodes w' !! nid = None) /\
  (forall nid n, Workflow.nodes w !! nid = Some n ->
     exists n', Workflow.nodes w' !! nid = Some n' /\
       n' = set_state (state n') n /\
       (state n' = state n \/
        (IsTerminal (state n) = false /\
         (state n' = WaitingDeps \/ state n' = Cancelled \/
          (state n' = Runnable /\ parents_succeeded w' n'))))).

(** Creation steps followed by re-evaluation steps. *)
Definition evolves (w w' : Workflow.t) : Prop :=
  exists w1, structural w w1 /\ settles w1 w'.

(** The [ExtractEvidence] nodes of iteration [k]. *)
Definition evidence_nodes (w : Workflow.t) (k : Z) : list Node :=
  filter (fun n => iter n = k /\ type n = ExtractEvidence)
         (map_to_list (Workflow.nodes w)).*2.

(** What the stop decision reads from such a node. *)
Definition evidence_of (n : Node) : Z * Z :=
  (pdf_idx n, evidence_count_est n).

(** The decision in the words of the specification, as a function of the
    seed, the workflow id, the iteration, the workload sizes and the
    (pdf index, evidence count) pairs of the iteration. *)
Definition covered_pdfs (ev : list (Z * Z)) : gset Z :=
  list_to_set (fst <$> filter (fun e : Z * Z => 0 < e.2) ev).

Definition total_evidence (ev : list (Z * Z)) : Z :=
  foldr Z.add 0 (snd <$> ev).

Definition coverage_of (pdfs : Z) (ev : list (Z * Z)) : Q :=
  let distinct := Z.of_nat (size (covered_pdfs ev)) in
  (inject_Z distinct / inject_Z (Z.max 1 pdfs))%Q.

Definition confidence_of (pdfs subqueries : Z) (ev : list (Z * Z)) : Q :=
  let denom := Z.max 1 (pdfs * Z.max 1 subqueries * 2) in
  Workflow.Qmin_d 1 (inject_Z (total_evidence ev) / inject_Z denom)%Q.

Definition stop_condition (params : WorkloadParams.t) (wid : WorkflowId)
    (k : Z) (ev : list (Z * Z)) : Prop :=
  let coverage := coverage_of (WorkloadParams.pdfs params) ev in
  let confidence :=
    confidence_of (WorkloadParams.pdfs params)
                  (WorkloadParams.subqueries_per_iter params) ev in
  let u := Workflow.tie_breaker (WorkloadParams.seed params) wid k in
  WorkloadParams.max_iters params <= k + 1 \/
  ((60 # 100) <= coverage /\ (50 # 100) <= confidence)%Q \/
  ((45 # 100) <= coverage /\ (35 # 100) <= confidence /\ (70 # 100) < u)%Q.

(** Steps that keep the type and the iteration of every stored node,
    create no [Aggregate] and no [DecideNext] node, and do not reset the
    [done_] flag. *)
Definition plain_growth (w w' : Workflow.t) : Prop :=
  (Workflow.done_ w = true -> Workflow.done_ w' = true) /\
  forall nid,
    match Workflow.nodes w !! nid with
    | Some n =>
        exists n', Workflow.nodes w' !! nid = Some n' /\
                   type n' = type n /\ iter n' = iter n
    | None =>
        forall n', Workflow.nodes w' !! nid = Some n' ->
                   type n' <> Aggregate /\ type n' <> DecideNext
    end.

(** Steps that touch neither [done_] nor [stop_iter_]. *)
Definition same_flags (w w' : Workflow.t) : Prop :=
  Workflow.done_ w' = Workflow.done_ w /\
  Workflow.stop_iter_ w' = Workflow.stop_iter_ w.

(** What [PopulatePreferenceListForNode] makes of a node of [w]. *)
Definition populate (w : Workflow.t) (n : Node) : Node :=
  match Workflow.provider_config_ w with
  | Some pc =>
      set_preference_list
        (Workflow.preference_for (resource_class n) (ProviderConfig.tiers pc))
        n
  | None => n
  end.

(** The [done_] flag is not reset. *)
Definition done_kept (w w' : Workflow.t) : Prop :=
  Workflow.done_ w = true -> Workflow.done_ w' = true.

(** Some stored node has type [ty] and iteration [k]. *)
Definition has_kind (ty : NodeType) (k : Z) (w : Workflow.t) : Prop :=
  exists nid n, Workflow.nodes w !! nid = Some n /\ type n = ty /\ iter n = k.

(** At most one node of type [ty] per iteration. *)
Definition one_per_iteration (ty : NodeType) (w : Workflow.t) : Prop :=
  forall i j ni nj,
    Workflow.nodes w !! i = Some ni -> Workflow.nodes w !! j = Some nj ->
    type ni = ty -> type nj = ty -> iter ni = iter nj -> i = j.

(** The invariant behind "one aggregate, one decision per iteration": a
    decision node never exists without the aggregate of its iteration. *)
Definition aggregate_decide_inv (w : Workflow.t) : Prop :=
  one_per_iteration Aggregate w /\ one_per_iteration DecideNext w /\
  (forall k, has_kind DecideNext k w -> has_kind Aggregate k w).

(** Workflows obtained from the constructor by calls of the mutators. *)
Definition reachable (w : Workflow.t) : Prop :=
  exists wid params pc cs,
    (Workflow.construct wid params pc).2 = Workflow.Ok () /\
    w = Workflow.calls cs (Workflow.construct wid params pc).1.

End WorkflowSpec.

(** ** Vocabulary of the properties of the workflow graph *)

Module GraphSpec.

(** The graph of [w] is well formed: a node is stored under its own id,
    every dependency and every child of a stored node is stored, and the
    two edge lists mirror each other. *)
Definition well_formed (w : Workflow.t) : Prop :=
  (forall k n, Workflow.nodes w !! k = Some n -> id n = k) /\
  (forall k n d, Workflow.nodes w !! k = Some n ->
     d ∈ deps n \/ d ∈ children n -> is_Some (Workflow.nodes w !! d)) /\
  (forall a b na nb,
     Workflow.nodes w !! a = Some na -> Workflow.nodes w !! b = Some nb ->
     (b ∈ children na <-> a ∈ deps nb)).

(** [done_] tells whether [stop_iter_] is set. *)
Definition flags_agree (w : Workflow.t) : Prop :=
  Workflow.done_ w = true <-> is_Some (Workflow.stop_iter_ w).

(** From [w] to [w']: the identity, the workload and the provider
    configuration are the same, [completed_iters_] did not decrease, every
    stored node is kept with its type and its iteration, edge lists only
    grow at their end, a well-formed graph stays well formed, and [done_]
    keeps telling whether [stop_iter_] is set. *)
Definition grows (w w' : Workflow.t) : Prop :=
  Workflow.id_ w' = Workflow.id_ w /\
  Workflow.params_ w' = Workflow.params_ w /\
  Workflow.provider_config_ w' = Workflow.provider_config_ w /\
  Workflow.completed_iters_ w <= Workflow.completed_iters_ w' /\
  (forall k n, Workflow.nodes w !! k = Some n ->
     exists n', Workflow.nodes w' !! k = Some n' /\
       deps n `prefix_of` deps n' /\ children n `prefix_of` children n' /\
       type n' = type n /\ iter n' = iter n) /\
  (well_formed w -> well_formed w') /\
  (flags_agree w -> flags_agree w').

(** The dependencies of [n] are all stored in [w] as [Succeeded]. *)
Definition deps_ok (w : Workflow.t) (n : Node) : bool :=
  forallb (fun d =>
             match Workflow.nodes w !! d with
             | Some dn => bool_decide (state dn = Succeeded)
             | None => false
             end) (deps n).

(** What [RefreshRunnable] makes of a node of [w]. *)
Definition settle (w : Workflow.t) (n : Node) : Node :=
  if IsTerminal (state n) || bool_decide (state n = Queued)
     || bool_decide (state n = Running)
  then n
  else set_state (if deps_ok w n then Runnable else WaitingDeps) n.

(** The nodes that [RefreshRunnable] reports. *)
Definition becomes_runnable (w : Workflow.t) (n : Node) : bool :=
  bool_decide (state n <> Runnable)
  && bool_decide (state (settle w n) = Runnable).

(** The [Runnable] nodes are those whose dependencies have all succeeded:
    every [Runnable] node has all its parents [Succeeded], and every node
    in [WaitingDeps] has a parent that is not. *)
Definition ready_iff_runnable (w : Workflow.t) : Prop :=
  forall k n, Workflow.nodes w !! k = Some n ->
    (state n = Runnable -> WorkflowSpec.parents_succeeded w n) /\
    (state n = WaitingDeps -> ~ WorkflowSpec.parents_succeeded w n).

(** The tier [tc] serves the resource class [rc]: embed nodes go to the
    tiers of "embed_provider", llm nodes to those of "llm_provider". *)
Definition serves (rc : ResourceClass) (tc : TierConfig.t) : bool :=
  bool_decide (rc = embed)
  && bool_decide (TierConfig.provider tc = "embed_provider")
  || bool_decide (rc = llm)
     && bool_decide (TierConfig.provider tc = "llm_provider").

(** The execution option that the tier [tc] stands for. *)
Definition option_of (tc : TierConfig.t) : ExecutionOption :=
  mkExecutionOption (TierConfig.provider tc) (TierConfig.tier_id tc)
    (TierConfig.price_per_call tc) (TierConfig.default_timeout_ms tc)
    (TierConfig.default_max_retries tc).

End GraphSpec.

(** ** The layout of an expansion *)

Module ExpansionSpec.

(** [w] with another node map and another id counter. *)
Definition with_graph (m : gmap Z Node) (next : NodeId) (w : Workflow.t)
    : Workflow.t :=
  Workflow.mk (Workflow.id_ w) (Workflow.params_ w)
    (Workflow.provider_config_ w) m next (Workflow.done_ w)
    (Workflow.completed_iters_ w) (Workflow.stop_iter_ w).

(** A node with its edges. *)
Definition linked (ds cs : list NodeId) (n : Node) : Node :=
  set_deps ds (set_children cs n).

(** A node of the workflow [w] as it is declared at a creation site of the
    expansion and then populated. *)
Definition made (w : Workflow.t) (ty : NodeType) (it p q : Z) (nid : NodeId)
    : Node :=
  WorkflowSpec.populate w
    (Workflow.new_node nid (Workflow.id_ w) ty (ResourceForType ty) it p q).

(** The evidence node of [(p, q)]. *)
Definition made_evidence (w : Workflow.t) (it p q : Z) (nid : NodeId)
    : Node :=
  WorkflowSpec.populate w
    (Workflow.with_evidence_count_est
       (Workflow.evidence_hash
          (WorkloadParams.seed (Workflow.params_ w)) (Workflow.id_ w)
          it p q mod 4)
       (Workflow.new_node nid (Workflow.id_ w) ExtractEvidence
          (ResourceForType ExtractEvidence) it p q)).

(** Ids taken by an expansion that starts at the id [base], with [K]
    subqueries per pdf: each pdf takes [stride K] consecutive ids. *)
Definition stride (K : Z) : Z := 3 + 2 * K.
Definition load_id (base K p : Z) : NodeId := base + p * stride K.
Definition chunk_id (base K p : Z) : NodeId := base + p * stride K + 1.
Definition embed_id (base K p : Z) : NodeId := base + p * stride K + 2.
Definition ss_id (base K p q : Z) : NodeId := base + p * stride K + 3 + 2 * q.
Definition ex_id (base K p q : Z) : NodeId :=
  base + p * stride K + 3 + 2 * q + 1.
Definition agg_id (base K P : Z) : NodeId := base + P * stride K.
Definition decide_id (base K P : Z) : NodeId := base + P * stride K + 1.

Definition ss_ids (base K p : Z) : list NodeId := ss_id base K p <$> seqZ 0 K.
Definition ex_ids (base K p : Z) : list NodeId := ex_id base K p <$> seqZ 0 K.
Definition load_ids (base K P : Z) : list NodeId :=
  load_id base K <$> seqZ 0 P.
Definition all_ss_ids (base K P : Z) : list NodeId :=
  seqZ 0 P ≫= ss_ids base K.
Definition all_ex_ids (base K P : Z) : list NodeId :=
  seqZ 0 P ≫= ex_ids base K.

(** The ids of the nodes of each type that an expansion creates, and how
    many they are. *)
Definition new_ids (base K P : Z) (ty : NodeType) : list NodeId :=
  match ty with
  | Plan => []
  | LoadPDF => load_ids base K P
  | Chunk => chunk_id base K <$> seqZ 0 P
  | Embed => embed_id base K <$> seqZ 0 P
  | SimilaritySearch => all_ss_ids base K P
  | ExtractEvidence => all_ex_ids base K P
  | Aggregate => [agg_id base K P]
  | DecideNext => [decide_id base K P]
  end.

Definition new_count (K P : Z) (ty : NodeType) : Z :=
  match ty with
  | Plan => 0
  | LoadPDF | Chunk | Embed => P
  | SimilaritySearch | ExtractEvidence => P * K
  | Aggregate | DecideNext => 1
  end.

(** The sources of the edges into the aggregate of an expansion. *)
Definition agg_deps (plan_node base K P : Z) : list NodeId :=
  if decide (K = 0) then [plan_node] else all_ex_ids base K P.

(** [nid] is stored in [m] as a node of type [ty], iteration [it], pdf
    [p] and subquery [q], with the dependencies [ds] and the children
    [cs]. *)
Definition node_is (m : gmap Z Node) (nid : NodeId) (ty : NodeType)
    (it p q : Z) (ds cs : list NodeId) : Prop :=
  exists n, m !! nid = Some n /\ id n = nid /\ type n = ty /\ iter n = it /\
            pdf_idx n = p /\ subquery_idx n = q /\
            deps n = ds /\ children n = cs.

(** The node map [m'] after the subqueries below [q] of pdf [p] have been
    expanded from the map [m], in which [e] is the embed node [e0] and [n0]
    the first free id. *)
Definition subqueries_done (w : Workflow.t) (it p e n0 : Z)
    (m : gmap Z Node) (e0 : Node) (q : Z) (m' : gmap Z Node) : Prop :=
  (forall j, n0 + 2 * q <= j -> m' !! j = None) /\
  (forall j, j < n0 -> j <> e -> m' !! j = m !! j) /\
  m' !! e
  = Some (set_children
            (children e0 ++ ((fun i => n0 + 2 * i) <$> seqZ 0 q)) e0) /\
  (forall i, 0 <= i < q ->
     m' !! (n0 + 2 * i)
     = Some (linked [e] [n0 + 2 * i + 1]
               (made w SimilaritySearch it p i (n0 + 2 * i))) /\
     m' !! (n0 + 2 * i + 1)
     = Some (linked [n0 + 2 * i] []
               (made_evidence w it p i (n0 + 2 * i + 1)))).

(** The nodes of pdf [p] in the map [m'], [n0] being the first of their
    ids. *)
Definition pdf_nodes (w : Workflow.t) (it plan_node p n0 K : Z)
    (m' : gmap Z Node) : Prop :=
  m' !! n0
  = Some (linked [plan_node] [n0 + 1] (made w LoadPDF it p (-1) n0)) /\
  m' !! (n0 + 1)
  = Some (linked [n0] [n0 + 2] (made w Chunk it p (-1) (n0 + 1))) /\
  m' !! (n0 + 2)
  = Some (linked [n0 + 1] ((fun i => n0 + 3 + 2 * i) <$> seqZ 0 K)
            (made w Embed it p (-1) (n0 + 2))) /\
  (forall i, 0 <= i < K ->
     m' !! (n0 + 3 + 2 * i)
     = Some (linked [n0 + 2] [n0 + 3 + 2 * i + 1]
               (made w SimilaritySearch it p i (n0 + 3 + 2 * i))) /\
     m' !! (n0 + 3 + 2 * i + 1)
     = Some (linked [n0 + 3 + 2 * i] []
               (made_evidence w it p i (n0 + 3 + 2 * i + 1)))).

(** The node map [m'] after pdf [p] has been expanded from the map [m], in
    which [plan_node] is the node [pl] and [n0] the first free id. *)
Definition pdf_done (w : Workflow.t) (it plan_node p n0 K : Z)
    (m : gmap Z Node) (pl : Node) (m' : gmap Z Node) : Prop :=
  (forall j, n0 + stride K <= j -> m' !! j = None) /\
  (forall j, j < n0 -> j <> plan_node -> m' !! j = m !! j) /\
  m' !! plan_node = Some (set_children (children pl ++ [n0]) pl) /\
  pdf_nodes w it plan_node p n0 K m'.

(** The node map [m'] after the pdfs below [P'] have been expanded from
    the map [m], in which [plan_node] is the node [pl] and [base] the first
    free id. *)
Definition pdfs_done (w : Workflow.t) (it plan_node base K : Z)
    (m : gmap Z Node) (pl : Node) (P' : Z) (m' : gmap Z Node) : Prop :=
  (forall j, base + P' * stride K <= j -> m' !! j = None) /\
  (forall j, j < base -> j <> plan_node -> m' !! j = m !! j) /\
  m' !! plan_node
  = Some (set_children (children pl ++ load_ids base K P') pl) /\
  (forall p, 0 <= p < P' ->
     pdf_nodes w it plan_node p (base + p * stride K) K m').

(** The evidence nodes of the pdfs below [P'], in the order of their
    creation. *)
Definition ex_keys (base K P' : Z) : list NodeId :=
  seqZ 0 P' ≫=
    (fun p => (fun i => base + p * stride K + 3 + 2 * i + 1) <$> seqZ 0 K).

(** The sources of the edges into the aggregate. *)
Definition feeds (plan_node : NodeId) (extract_nodes : list NodeId)
    : list NodeId :=
  match extract_nodes with
  | [] => [plan_node]
  | _ :: _ => extract_nodes
  end.

End ExpansionSpec.

(** ** sim/provider.cpp: the token bucket *)

Module TokenBucket.

(** Time points of the steady clock are seconds in [Q]. *)
Record t := mk {
  rate_per_sec_ : Q;
  capacity_ : Q;
  tokens_ : Q;
  last_refill_ : Q
}.

(** [TokenBucket::TokenBucket], when the steady clock reads [now]. *)
Definition make (rate_per_sec capacity now : Q) : Workflow.Res t :=
  if Qle_bool rate_per_sec 0 || Qle_bool capacity 0
  then Workflow.Throw "TokenBucket: rate and capacity must be positive"
  else Workflow.Ok (mk rate_per_sec capacity capacity now).

Section Rounding.

(** The bucket adds, subtracts and multiplies doubles that are not small
    quotients: [fl] rounds the exact result of one such operation to the
    double that is stored. *)
Variable fl : Q -> Q.

(** [Refill], when the steady clock reads [now]. *)
Definition Refill (now : Q) (b : t) : t :=
  let elapsed := fl (now - last_refill_ b) in
  mk (rate_per_sec_ b) (capacity_ b)
     (Workflow.Qmin_d (capacity_ b)
        (fl (tokens_ b + fl (elapsed * rate_per_sec_ b))))
     now.

(** The loop of [Acquire].  Every round starts with the test
    [tokens_ < tokens] and, when it holds, refills: once in the loop body
    and then in the predicate of [wait_for], each refill being followed by
    the same test.  [clock] lists the readings of the steady clock at the
    successive refills; [None] means that the caller is still waiting when
    these readings are used up. *)
Fixpoint acquire_loop (tokens : Q) (clock : list Q) (b : t) : option t :=
  match clock with
  | [] => if Qlt_bool (tokens_ b) tokens then None else Some b
  | now :: rest =>
      if Qlt_bool (tokens_ b) tokens
      then acquire_loop tokens rest (Refill now b)
      else Some b
  end.

(** [Acquire]: the bucket when the call returns. *)
Definition Acquire (tokens : Q) (clock : list Q) (b : t) : option t :=
  if Qle_bool tokens 0 then Some b
  else
    match acquire_loop tokens clock b with
    | Some b' =>
        Some (mk (rate_per_sec_ b') (capacity_ b')
                 (fl (tokens_ b' - tokens)) (last_refill_ b'))
    | None => None
    end.

End Rounding.

End TokenBucket.

(** ** sim/worker.cpp *)

Module LocalQueue.

(** [LocalQueue], and [ResultQueue], whose [Push], [TryPop],
    [BlockingPop] and [Shutdown] are the same code; [A] is the type of the
    items.  Every member function runs under [mutex_]. *)
Record t (A : Type) := mk { queue_ : list A; shutdown_ : bool }.
Arguments mk {A} _ _.
Arguments queue_ {A} _.
Arguments shutdown_ {A} _.

Definition Push {A} (x : A) (q : t A) : t A :=
  if shutdown_ q then q else mk (queue_ q ++ [x]) (shutdown_ q).

(** [TryPop]: [None] is the [false] return ([out] untouched). *)
Definition TryPop {A} (q : t A) : option A * t A :=
  match queue_ q with
  | [] => (None, q)
  | x :: rest =>
      if shutdown_ q then (None, q) else (Some x, mk rest (shutdown_ q))
  end.

(** [BlockingPop]: the outer [None] means that the wait predicate is
    false and the caller stays blocked; [Some (None, q)] is the return
    that leaves [out] untouched. *)
Definition BlockingPop {A} (q : t A) : option (option A * t A) :=
  match queue_ q with
  | x :: rest => Some (Some x, mk rest (shutdown_ q))
  | [] => if shutdown_ q then Some (None, q) else None
  end.

(** [TimedPop], on the queue as it is when the wait ends (by the
    predicate or by the timeout); [None] is the [false] return. *)
Definition TimedPop {A} (q : t A) : option A * t A :=
  match queue_ q with
  | x :: rest => (Some x, mk rest (shutdown_ q))
  | [] => (None, q)
  end.

Definition Shutdown {A} (q : t A) : t A := mk (queue_ q) true.

(** Calls made on a queue. *)
Inductive op (A : Type) :=
| OpPush (x : A)
| OpTryPop
| OpBlockingPop
| OpTimedPop
| OpShutdown.
Arguments OpPush {A} x.
Arguments OpTryPop {A}.
Arguments OpBlockingPop {A}.
Arguments OpTimedPop {A}.
Arguments OpShutdown {A}.

(** One call: the new queue and the item handed to the caller, if any (a
    [BlockingPop] that would block leaves the queue as it is). *)
Definition step {A} (o : op A) (q : t A) : t A * option A :=
  match o with
  | OpPush x => (Push x q, None)
  | OpTryPop => let '(r, q') := TryPop q in (q', r)
  | OpBlockingPop =>
      match BlockingPop q with
      | Some (r, q') => (q', r)
      | None => (q, None)
      end
  | OpTimedPop => let '(r, q') := TimedPop q in (q', r)
  | OpShutdown => (Shutdown q, None)
  end.

(** A sequence of calls, with the items handed out, in order. *)
Fixpoint run {A} (os : list (op A)) (q : t A) : t A * list A :=
  match os with
  | [] => (q, [])
  | o :: os' =>
      let '(q1, r) := step o q in
      let '(q2, out) := run os' q1 in
      (q2, match r with Some x => x :: out | None => out end)
  end.

(** The items pushed before the first [Shutdown], in call order. *)
Fixpoint accepted {A} (os : list (op A)) : list A :=
  match os with
  | [] => []
  | OpPush x :: os' => x :: accepted os'
  | OpShutdown :: _ => []
  | _ :: os' => accepted os'
  end.

End LocalQueue.

Module Worker.
Section Local.

Variable RngLognormal : Q -> Q -> SeededRng.t -> Q * SeededRng.t.
Variable RngGamma : Q -> Q -> SeededRng.t -> Q * SeededRng.t.

(** [SampleLocalServiceTime], the sampler of the cpu and io workers. *)
Definition SampleLocalServiceTime (ty : NodeType) (ctx : LatencyContext.t)
    (config : LatencyConfig.t) (r : SeededRng.t) : Q * SeededRng.t :=
  let params := LatencyConfig.Get config ty in
  let '(raw, r1) :=
    match LatencyParams.dist params with
    | Lognormal =>
        RngLognormal (LatencyParams.param1 params)
                     (LatencyParams.param2 params) r
    | Gamma =>
        RngGamma (LatencyParams.param1 params)
                 (LatencyParams.param2 params) r
    | Linear =>
        let base := LatencyParams.param1 params in
        let coeff := LatencyParams.param2 params in
        let '(raw, r') :=
          if bool_decide (ty = Chunk) then
            let '(u, r') := SeededRng.Uniform (-5) 5 r in
            ((base + coeff * inject_Z (LatencyContext.pdf_size_est ctx)
              + u)%Q, r')
          else if bool_decide (ty = SimilaritySearch) then
            ((base
              + coeff * inject_Z (LatencyContext.num_chunks_est ctx))%Q, r)
          else
            let '(u, r') := SeededRng.Uniform (-2) 2 r in
            ((base + u)%Q, r') in
        (Qmax_d 1 raw, r')
    end in
  let '(multiplied, r2) :=
    if Qlt_bool 0 (LatencyParams.tail_prob params)
    then SeededRng.Bernoulli (LatencyParams.tail_prob params) r1
    else (false, r1) in
  let raw :=
    if multiplied then (raw * LatencyParams.tail_multiplier params)%Q
    else raw in
  (Qmax_d 1 raw, r2).

End Local.
End Worker.

(** ** sim/metrics.cpp *)

(** [a <= b] on doubles, decided. *)
#[global] Instance Qle_decision (a b : Q) : Decision (a <= b)%Q :=
  match Qlt_le_dec b a with
  | left H => right (Qlt_not_le _ _ H)
  | right H => left H
  end.

Module QuantileEstimator.

Record t := mk { samples_ : list Q; max_samples_ : nat }.

Definition make (max_samples : nat) : t := mk [] max_samples.

(** [Add]: [push_back], then [pop_front] when the window is exceeded. *)
Definition Add (value : Q) (e : t) : t :=
  let s := samples_ e ++ [value] in
  mk (if (max_samples_ e <? length s)%nat then tail s else s)
     (max_samples_ e).

(** The vector [sorted_] after [std::sort]. *)
Definition sorted (e : t) : list Q := merge_sort Qle (samples_ e).

(** [P50]: the index is the truncation of [0.50 * size], a product that
    is exact. *)
Definition P50 (e : t) : Q :=
  match samples_ e with
  | [] => 100%Q
  | _ :: _ =>
      let n := length (sorted e) in
      nth (Nat.min (n / 2) (n - 1)) (sorted e) 0%Q
  end.

End QuantileEstimator.

(** ** sim/scheduler.h, sim/scheduler.cpp *)

Inductive SchedulerPolicy :=
| fifo_cheapest
| dag_cheapest
| dag_escalation
| full.

#[global] Instance SchedulerPolicy_eq_dec : EqDecision SchedulerPolicy.
Proof. solve_decision. Defined.

Module SchedulerConfig.
(** The fields read by [SelectOption] and by the loop of [Dispatch]; the
    weights of the score are read by [ScoreAndSort] only. *)
Record t := mk {
  policy : SchedulerPolicy;
  disable_escalation : bool;
  enable_model_routing : bool;
  max_in_flight_global : Z;
  budget_per_workflow : Q;
  escalation_benefit_cost_threshold : Q
}.
End SchedulerConfig.

Module LocalTask.
Record t := mk {
  node_id : NodeId;
  workflow_id : WorkflowId;
  node_type : NodeType;
  resource_class : ResourceClass;
  latency_ctx : LatencyContext.t;
  timeout_ms : Z;
  attempt_id : AttemptId
}.
End LocalTask.

Module LatencyEstimateStore.
(** The two estimates the scheduler reads, as functions of their keys. *)
Record t := mk {
  GetP50 : NodeType -> string -> Z -> Q;
  GetP95QueueWait : string -> Z -> Q
}.
End LatencyEstimateStore.

Module ProviderManager.

Record t := mk { tiers : list Tier.t }.

Definition make (c : ProviderConfig.t) : t :=
  mk (Tier.make <$> ProviderConfig.tiers c).

(** [tier_index_[provider][tier_id]]: the constructor assigns the index of
    every tier in turn, so the last tier of a key is the one indexed. *)
Fixpoint tier_index (provider : string) (tier_id : Z) (ts : list Tier.t)
    (i : nat) : option nat :=
  match ts with
  | [] => None
  | x :: rest =>
      match tier_index provider tier_id rest (S i) with
      | Some j => Some j
      | None =>
          if bool_decide (Tier.provider x = provider)
             && bool_decide (Tier.tier_id x = tier_id)
          then Some i else None
      end
  end.

(** [GetTier]: the position of the tier and the tier it points to;
    [None] is the null pointer. *)
Definition GetTier (pm : t) (provider : string) (tier_id : Z)
    : option (nat * Tier.t) :=
  match tier_index provider tier_id (tiers pm) 0 with
  | Some i =>
      match tiers pm !! i with
      | Some x => Some (i, x)
      | None => None
      end
  | None => None
  end.

(** First tier of [provider_name] that can accept, in iteration order. *)
Fixpoint first_accepting (provider_name : string) (ts : list Tier.t)
    (i : nat) : option (nat * Tier.t) :=
  match ts with
  | [] => None
  | x :: rest =>
      if bool_decide (Tier.provider x = provider_name) && Tier.can_accept x
      then Some (i, x)
      else first_accepting provider_name rest (S i)
  end.

End ProviderManager.

(** [ProviderManager::ProviderManager], when the steady clock reads
    [now]: every tier is built in turn, with its token bucket, whose
    constructor may throw. *)
Definition ProviderManager_ctor (c : ProviderConfig.t) (now : Q)
    : Workflow.Res ProviderManager.t :=
  foldl (fun acc tc =>
           match acc with
           | Workflow.Throw msg => Workflow.Throw msg
           | Workflow.Ok pm =>
               match TokenBucket.make (TierConfig.rate_per_sec tc)
                       (TierConfig.capacity tc) now with
               | Workflow.Throw msg => Workflow.Throw msg
               | Workflow.Ok _ =>
                   Workflow.Ok
                     (ProviderManager.mk
                        (ProviderManager.tiers pm ++ [Tier.make tc]))
               end
           end)
        (Workflow.Ok (ProviderManager.mk [])) (ProviderConfig.tiers c).

Module ScoredNode.
Record t := mk {
  node_id : NodeId;
  workflow_id : WorkflowId;
  score : Q;
  age_ms : Q
}.
End ScoredNode.

Module Scheduler.

(** What a dispatch pass reads and writes: the workflows (a missing key is
    a null pointer), the tiers, the two local queues (each with its
    [shutdown_] flag), the attempt counter, the cancellation flags and the
    two counters of the pass. *)
Record pass := mkPass {
  workflows : gmap Z Workflow.t;
  provider_mgr : ProviderManager.t;
  cpu_queue : LocalQueue.t LocalTask.t;
  io_queue : LocalQueue.t LocalTask.t;
  next_attempt_id : Z;
  cancelled_flags : gmap Z bool;
  in_flight : Z;
  dispatched : Z
}.

Section Scheduler.

Variable config_ : SchedulerConfig.t.
Variable latency_store_ : LatencyEstimateStore.t.

(** [workflow_cost[wid]]: a missing entry reads as 0. *)
Definition budget_left (workflow_cost : gmap Z Q) (wid : WorkflowId) : Q :=
  (SchedulerConfig.budget_per_workflow config_
   - default 0 (workflow_cost !! wid))%Q.

Definition commits_to_baseline : bool :=
  SchedulerConfig.disable_escalation config_
  || bool_decide (SchedulerConfig.policy config_ = fifo_cheapest)
  || bool_decide (SchedulerConfig.policy config_ = dag_cheapest).

(** The loop of [SelectOption]: [Some opt] is the value of [chosen] when
    the loop breaks, [None] when it runs to the end of the list. *)
Fixpoint select_loop (pm : ProviderManager.t) (n : Node) (budget : Q)
    (is_critical : bool) (front : ExecutionOption)
    (opts : list ExecutionOption) : option ExecutionOption :=
  match opts with
  | [] => None
  | opt :: rest =>
      if Qlt_bool budget (price_per_call opt)
      then select_loop pm n budget is_critical front rest
      else
        match ProviderManager.GetTier pm (provider opt) (tier_id opt) with
        | None => select_loop pm n budget is_critical front rest
        | Some (_, x) =>
            if negb (Tier.can_accept x)
            then select_loop pm n budget is_critical front rest
            else
              let chosen := Some opt in
              if commits_to_baseline then chosen
              else if negb is_critical then chosen
              else
                let delta_cost :=
                  (price_per_call opt - price_per_call front)%Q in
                if Qle_bool delta_cost 0 then chosen
                else
                  let ect_cheap :=
                    (LatencyEstimateStore.GetP95QueueWait latency_store_
                       (provider front) (tier_id front)
                     + LatencyEstimateStore.GetP50 latency_store_
                         (type n) (provider front) (tier_id front))%Q in
                  let ect_fast :=
                    (LatencyEstimateStore.GetP95QueueWait latency_store_
                       (provider opt) (tier_id opt)
                     + LatencyEstimateStore.GetP50 latency_store_
                         (type n) (provider opt) (tier_id opt))%Q in
                  let benefit := (ect_cheap - ect_fast)%Q in
                  if Qle_bool
                       (SchedulerConfig.escalation_benefit_cost_threshold
                          config_)
                       (benefit / delta_cost)
                  then Some opt
                  else chosen
        end
  end.

Definition SelectOption (pm : ProviderManager.t) (n : Node)
    (workflow_cost : gmap Z Q) (is_critical : bool)
    : option ExecutionOption :=
  match preference_list n with
  | [] => None
  | front :: _ =>
      match select_loop pm n (budget_left workflow_cost (workflow_id n))
              is_critical front (preference_list n) with
      | Some chosen => Some chosen
      | None => Some front
      end
  end.

(** Nodes in [Queued] or [Running] over the workflows that are not done. *)
Definition count_in_flight (wfs : gmap Z Workflow.t) : Z :=
  map_fold (fun _ wf acc =>
    if Workflow.done_ wf then acc
    else
      map_fold (fun _ n a =>
        if bool_decide (state n = Queued) || bool_decide (state n = Running)
        then a + 1 else a) acc (Workflow.nodes wf)) 0 wfs.

(** Key of a cancellation flag. *)
Definition flag_key (wid : WorkflowId) (nid : NodeId) : Z :=
  Z.lor (u64 (Z.shiftl wid 32)) nid.

Definition local_task (sn : ScoredNode.t) (n : Node) (aid : AttemptId)
    : LocalTask.t :=
  LocalTask.mk (ScoredNode.node_id sn) (ScoredNode.workflow_id sn) (type n)
    (resource_class n)
    (LatencyContext.mk (type n) (output_size_est n) 50 100) 5000 aid.

Definition provider_attempt (sn : ScoredNode.t) (n : Node)
    (dispatch_provider : string) (dispatch_tier_id : Z)
    (dispatch_timeout_ms dispatch_max_retries : Z) (aid : AttemptId)
    : QueuedAttempt.t :=
  QueuedAttempt.mk (ScoredNode.node_id sn) (ScoredNode.workflow_id sn)
    (type n) dispatch_provider
    dispatch_tier_id 1 dispatch_timeout_ms dispatch_max_retries
    (LatencyContext.mk (type n) 0 0 (output_size_est n)) aid
    (flag_key (ScoredNode.workflow_id sn) (ScoredNode.node_id sn)).

(** The tier a provider-backed node goes to, with the provider, tier id,
    timeout and retries of the attempt; [None] is the [continue]. *)
Definition route (pm : ProviderManager.t) (sn : ScoredNode.t) (n : Node)
    (workflow_cost : gmap Z Q)
    (is_critical_path : option (NodeId -> WorkflowId -> bool))
    : option (nat * Tier.t * string * Z * Z * Z) :=
  if SchedulerConfig.enable_model_routing config_
     && negb (bool_decide (preference_list n = []))
  then
    let is_critical :=
      match is_critical_path with
      | Some f => f (ScoredNode.node_id sn) (ScoredNode.workflow_id sn)
      | None => false
      end in
    match SelectOption pm n workflow_cost is_critical with
    | None => None
    | Some opt =>
        match ProviderManager.GetTier pm (provider opt) (tier_id opt) with
        | None => None
        | Some (i, x) =>
            if negb (Tier.can_accept x) then None
            else Some (i, x, provider opt, tier_id opt, timeout_ms opt,
                       max_retries opt)
        end
    end
  else
    let provider_name :=
      if bool_decide (resource_class n = embed)
      then "embed_provider" else "llm_provider" in
    match ProviderManager.first_accepting provider_name
            (ProviderManager.tiers pm) 0 with
    | None => None
    | Some (i, x) =>
        Some (i, x, Tier.provider x, Tier.tier_id x,
              TierConfig.default_timeout_ms (Tier.config x),
              TierConfig.default_max_retries (Tier.config x))
    end.

(** One round of the loop of [Dispatch] past the admission test. *)
Definition dispatch_node (workflow_cost : gmap Z Q)
    (is_critical_path : option (NodeId -> WorkflowId -> bool))
    (sn : ScoredNode.t) (st : pass) : Workflow.Res pass :=
  match workflows st !! ScoredNode.workflow_id sn with
  | None => Workflow.Ok st
  | Some wf =>
      if Workflow.done_ wf then Workflow.Ok st
      else
        match Workflow.node (ScoredNode.node_id sn) wf with
        | (_, Workflow.Throw msg) => Workflow.Throw msg
        | (_, Workflow.Ok n) =>
            if negb (bool_decide (state n = Runnable)) then Workflow.Ok st
            else if bool_decide (resource_class n = cpu)
                    || bool_decide (resource_class n = io)
            then
              let task := local_task sn n (next_attempt_id st) in
              match Workflow.MarkQueued (ScoredNode.node_id sn) wf with
              | (_, Workflow.Throw msg) => Workflow.Throw msg
              | (wf', Workflow.Ok _) =>
                  Workflow.Ok
                    (mkPass
                       (<[ScoredNode.workflow_id sn := wf']>
                          (workflows st))
                       (provider_mgr st)
                       (if bool_decide (resource_class n = cpu)
                        then LocalQueue.Push task (cpu_queue st)
                        else cpu_queue st)
                       (if bool_decide (resource_class n = cpu)
                        then io_queue st
                        else LocalQueue.Push task (io_queue st))
                       (u64 (next_attempt_id st + 1))
                       (cancelled_flags st)
                       (in_flight st + 1) (dispatched st + 1))
              end
            else
              match route (provider_mgr st) sn n workflow_cost
                      is_critical_path with
              | None => Workflow.Ok st
              | Some (i, _, dispatch_provider, dispatch_tier_id,
                      dispatch_timeout_ms, dispatch_max_retries) =>
                  let attempt :=
                    provider_attempt sn n dispatch_provider dispatch_tier_id
                      dispatch_timeout_ms dispatch_max_retries
                      (next_attempt_id st) in
                  match Workflow.MarkQueued (ScoredNode.node_id sn) wf with
                  | (_, Workflow.Throw msg) => Workflow.Throw msg
                  | (wf', Workflow.Ok _) =>
                      Workflow.Ok
                        (mkPass
                           (<[ScoredNode.workflow_id sn := wf']>
                              (workflows st))
                           (ProviderManager.mk
                              (alter (Tier.Enqueue attempt) i
                                 (ProviderManager.tiers (provider_mgr st))))
                           (cpu_queue st) (io_queue st)
                           (u64 (next_attempt_id st + 1))
                           (<[flag_key (ScoredNode.workflow_id sn)
                                (ScoredNode.node_id sn) := false]>
                              (cancelled_flags st))
                           (in_flight st + 1) (dispatched st + 1))
                  end
              end
        end
  end.

Fixpoint dispatch_loop (workflow_cost : gmap Z Q)
    (is_critical_path : option (NodeId -> WorkflowId -> bool))
    (scored : list ScoredNode.t) (st : pass) : Workflow.Res pass :=
  match scored with
  | [] => Workflow.Ok st
  | sn :: rest =>
      if SchedulerConfig.max_in_flight_global config_ <=? in_flight st
      then Workflow.Ok st
      else
        match dispatch_node workflow_cost is_critical_path sn st with
        | Workflow.Ok st' =>
            dispatch_loop workflow_cost is_critical_path rest st'
        | Workflow.Throw msg => Workflow.Throw msg
        end
  end.

(** [Dispatch] on the result [scored] of [ScoreAndSort]: the state after
    the pass, whose [dispatched] is the number returned. *)
Definition Dispatch (wfs : gmap Z Workflow.t) (pm : ProviderManager.t)
    (cpu_q io_q : LocalQueue.t LocalTask.t) (workflow_cost : gmap Z Q)
    (next_attempt : AttemptId) (flags : gmap Z bool)
    (is_critical_path : option (NodeId -> WorkflowId -> bool))
    (scored : list ScoredNode.t) : Workflow.Res pass :=
  dispatch_loop workflow_cost is_critical_path scored
    (mkPass wfs pm cpu_q io_q next_attempt flags (count_in_flight wfs) 0).

End Scheduler.
End Scheduler.

Module SchedulerSpec.

(** The options [SelectOption] does not skip: the price is within the
    budget left and the target tier exists and can accept. *)
Definition eligible (pm : ProviderManager.t) (budget : Q)
    (opt : ExecutionOption) : bool :=
  negb (Qlt_bool budget (price_per_call opt))
  && match ProviderManager.GetTier pm (provider opt) (tier_id opt) with
     | Some (_, x) => Tier.can_accept x
     | None => false
     end.

(** Cheapest first. *)
Definition by_price (a b : ExecutionOption) : Prop :=
  (price_per_call a <= price_per_call b)%Q.

End SchedulerSpec.

(** ** main.cpp, sim/controller.cpp *)

Module Cli.

Inductive Policy := fifo_cheapest | dag_cheapest | dag_escalation | full.

Definition ToString (p : Policy) : string :=
  match p with
  | fifo_cheapest => "fifo_cheapest"
  | dag_cheapest => "dag_cheapest"
  | dag_escalation => "dag_escalation"
  | full => "full"
  end.

Definition ParsePolicy (s : string) : option Policy :=
  if bool_decide (s = "fifo_cheapest") then Some fifo_cheapest
  else if bool_decide (s = "dag_cheapest") then Some dag_cheapest
  else if bool_decide (s = "dag_escalation") then Some dag_escalation
  else if bool_decide (s = "full") then Some full
  else None.

Record CliOptions := mkCliOptions {
  workflows : Z;
  pdfs : Z;
  iters : Z;
  subqueries : Z;
  policy : Policy;
  seed : Z;
  time_scale : Z;
  out_dir : string;
  enable_model_routing : bool;
  disable_hedging : bool;
  disable_escalation : bool;
  disable_dag_priority : bool;
  heavy_tail_prob : Q;
  heavy_tail_multiplier : Q
}.

(** The lambda [require_pos] of [Validate]. *)
Definition require_pos (v : Z) (name : string) : Workflow.Res unit :=
  if v <=? 0 then Workflow.Throw (name +:+ " must be > 0")
  else Workflow.Ok ().

Definition Validate (o : CliOptions) : Workflow.Res unit :=
  match require_pos (workflows o) "workflows" with
  | Workflow.Throw msg => Workflow.Throw msg
  | Workflow.Ok _ =>
  match require_pos (pdfs o) "pdfs" with
  | Workflow.Throw msg => Workflow.Throw msg
  | Workflow.Ok _ =>
  match require_pos (iters o) "iters" with
  | Workflow.Throw msg => Workflow.Throw msg
  | Workflow.Ok _ =>
  if subqueries o <? 0 then Workflow.Throw "subqueries must be >= 0"
  else
  match require_pos (time_scale o) "time_scale" with
  | Workflow.Throw msg => Workflow.Throw msg
  | Workflow.Ok _ =>
  if bool_decide (out_dir o = "")
  then Workflow.Throw "out_dir must be non-empty"
  else Workflow.Ok ()
  end end end end.

End Cli.

Definition ToSchedulerPolicy (p : Cli.Policy) : SchedulerPolicy :=
  match p with
  | Cli.fifo_cheapest => fifo_cheapest
  | Cli.dag_cheapest => dag_cheapest
  | Cli.dag_escalation => dag_escalation
  | Cli.full => full
  end.

Module ControllerConfig.
(** The fields that [RunSimulation] copies from the options and that the
    constructor of the controller reads. *)
Record t := mk {
  workflows : Z;
  pdfs : Z;
  iters : Z;
  subqueries : Z;
  seed : Z;
  time_scale : Z;
  policy : SchedulerPolicy;
  disable_hedging : bool;
  disable_escalation : bool;
  disable_dag_priority : bool
}.
End ControllerConfig.

Module Controller.

(** The [ControllerConfig] that [RunSimulation] fills in. *)
Definition config_of (o : Cli.CliOptions) : ControllerConfig.t :=
  ControllerConfig.mk (Cli.workflows o) (Cli.pdfs o) (Cli.iters o)
    (Cli.subqueries o) (Cli.seed o) (Cli.time_scale o)
    (ToSchedulerPolicy (Cli.policy o)) (Cli.disable_hedging o)
    (Cli.disable_escalation o) (Cli.disable_dag_priority o).

(** The loop of [Controller::Controller] that creates the workflows
    [1 .. workflows]; an exception of a [Workflow] constructor leaves the
    constructor of the controller. *)
Definition add_workflow (config_ : ControllerConfig.t)
    (provider_config_ : ProviderConfig.t)
    (workflows_ : Workflow.Res (gmap Z Workflow.t)) (i : Z)
    : Workflow.Res (gmap Z Workflow.t) :=
  match workflows_ with
  | Workflow.Throw msg => Workflow.Throw msg
  | Workflow.Ok m =>
      let wp :=
        WorkloadParams.mk (ControllerConfig.pdfs config_)
          (ControllerConfig.subqueries config_)
          (ControllerConfig.iters config_) (ControllerConfig.seed config_) in
      match Workflow.construct (i + 1) wp provider_config_ with
      | (_, Workflow.Throw msg) => Workflow.Throw msg
      | (wf, Workflow.Ok _) => Workflow.Ok (<[Workflow.id_ wf := wf]> m)
      end
  end.

Definition create_workflows (config_ : ControllerConfig.t)
    (provider_config_ : ProviderConfig.t)
    : Workflow.Res (gmap Z Workflow.t) :=
  foldl (add_workflow config_ provider_config_) (Workflow.Ok ∅)
        (seqZ 0 (ControllerConfig.workflows config_)).

End Controller.

(** ** Vocabulary of the properties of a dispatch pass *)

Module DispatchSpec.



(** From [wf] to [wf'] nothing happened but that some [Runnable] nodes
    became [Queued]. *)
Definition queued_only (wf wf' : Workflow.t) : Prop :=
  wf' = Workflow.set_nodes (Workflow.nodes wf') wf /\
  forall k,
    match Workflow.nodes wf !! k with
    | Some n =>
        Workflow.nodes wf' !! k = Some n \/
        (state n = Runnable /\
         Workflow.nodes wf' !! k = Some (set_state Queued n))
    | None => Workflow.nodes wf' !! k = None
    end.

(** The attempt [a] asks for one token and names the tier [x]. *)
Definition addressed_to (x : Tier.t) (a : QueuedAttempt.t) : Prop :=
  QueuedAttempt.provider a = Tier.provider x /\
  QueuedAttempt.tier_id a = Tier.tier_id x /\
  QueuedAttempt.tokens_needed a = 1.



(** Every scored node is a stored node of its workflow. *)
Definition scored_known (wfs : gmap Z Workflow.t)
    (scored : list ScoredNode.t) : Prop :=
  forall sn wf, sn ∈ scored ->
    wfs !! ScoredNode.workflow_id sn = Some wf ->
    is_Some (Workflow.nodes wf !! ScoredNode.node_id sn).

End DispatchSpec.

(** ** Concrete inputs used by the examples *)

Module Examples.

(** A similarity-search latency: linear, base 20, 2 per chunk, with a
    tail multiplier of 3 that is never to be applied ([tail_prob = 0]). *)
Definition ss_params : LatencyParams.t :=
  LatencyParams.mk Linear 20 2 3 0.

Definition ss_config : LatencyConfig.t :=
  LatencyConfig.mk (fun ty =>
    if bool_decide (ty = SimilaritySearch) then Some ss_params else None).

Definition ss_ctx : LatencyContext.t :=
  LatencyContext.mk SimilaritySearch 0 50 100.

(** The same latency without a tail multiplier. *)
Definition plain_config : LatencyConfig.t :=
  LatencyConfig.mk (fun ty =>
    if bool_decide (ty = SimilaritySearch)
    then Some (LatencyParams.mk Linear 20 2 1 0) else None).

(** Stand-in for the lognormal and gamma samplers on inputs whose
    distribution is linear, where neither is called. *)
Definition unused_sampler (_ _ : Q) (r : SeededRng.t) : Q * SeededRng.t :=
  (1%Q, r).

Definition llm_slow : TierConfig.t :=
  TierConfig.mk "llm_provider" 0 5 20 2 (1 # 100) (3 # 100) 30000 3.

Definition llm_fast : TierConfig.t :=
  TierConfig.mk "llm_provider" 1 20 50 4 (5 # 100) (2 # 100) 15000 3.
Definition embed_slow : TierConfig.t :=
  TierConfig.mk "embed_provider" 0 20 50 4 (1 # 10000) (2 # 100) 10000 3.
Definition embed_fast : TierConfig.t :=
  TierConfig.mk "embed_provider" 1 100 200 8 (5 # 10000) (1 # 100) 5000 3.

(** The built-in tiers of [ProviderConfig::ProviderConfig]. *)
Definition providers : ProviderConfig.t :=
  ProviderConfig.mk [embed_slow; embed_fast; llm_slow; llm_fast]
                    plain_config.

(** Workflow 1 with two pdfs, one subquery per iteration, at most two
    iterations and seed 1: as constructed, after its plan succeeded, and
    after every node up to the extraction of iteration 0 succeeded. *)
Definition wf_new : Workflow.t :=
  (Workflow.construct 1 (WorkloadParams.mk 2 1 2 1) providers).1.
(** The node stored under [nid] ([Plan(0)] of a workflow that stores no
    such node stands in otherwise). *)
Definition node_of (w : Workflow.t) (nid : Z) : Node :=
  match Workflow.nodes w !! nid with
  | Some n => n
  | None => Workflow.new_node 0 0 Plan llm 0 (-1) (-1)
  end.
Definition root_plan : Node := node_of wf_new 1.
Definition wf_expanded : Workflow.t :=
  Workflow.calls [Workflow.CallMarkSucceeded 1] wf_new.
Definition wf_extracted : Workflow.t :=
  Workflow.calls (Workflow.CallMarkSucceeded <$> seqZ 2 10) wf_expanded.

(** ... and after the aggregate of iteration 0 succeeded, which leaves the
    decision node 13 runnable. *)
Definition wf_aggregated : Workflow.t :=
  Workflow.calls [Workflow.CallMarkSucceeded 12] wf_extracted.

(** The same workflow once the decision of iteration 0 and every node of
    iteration 1 up to its aggregate succeeded: the decision node 26 of the
    last iteration is runnable. *)
Definition wf_last : Workflow.t :=
  Workflow.calls (Workflow.CallMarkSucceeded <$> seqZ 13 13) wf_aggregated.

(** A scheduler with model routing and no budget at all, estimates that
    are the same everywhere, the tiers of [providers], all idle, and a pass
    over the root plan of [wf_new], whose cheapest option costs 0.01. *)
Definition no_budget : SchedulerConfig.t :=
  SchedulerConfig.mk full false true 200 0 (1 # 2).

Definition flat_store : LatencyEstimateStore.t :=
  LatencyEstimateStore.mk (fun _ _ _ => 100%Q) (fun _ _ => 0%Q).

Definition idle_tiers : ProviderManager.t := ProviderManager.make providers.

Definition root_scored : ScoredNode.t := ScoredNode.mk 1 1 0 0.

(** A local queue as the controller creates it: empty and open. *)
Definition idle_queue : LocalQueue.t LocalTask.t := LocalQueue.mk [] false.

Definition root_pass : Scheduler.pass :=
  Scheduler.mkPass {[1 := wf_new]} idle_tiers idle_queue idle_queue 1 ∅ 0 0.

(** A scheduler with the default budget, and its pass over the root plan
    of [wf_new] with all tiers idle. *)
Definition with_budget : SchedulerConfig.t :=
  SchedulerConfig.mk full false true 200 10 (1 # 2).


Definition dispatch_root : Workflow.Res Scheduler.pass :=
  Scheduler.Dispatch with_budget flat_store {[1 := wf_new]} idle_tiers
    idle_queue idle_queue ∅ 1 ∅ None [root_scored].



(** The pass a dispatch returned ([root_pass] stands in for none). *)
Definition pass_of (r : Workflow.Res Scheduler.pass) : Scheduler.pass :=
  match r with
  | Workflow.Ok st => st
  | Workflow.Throw _ => root_pass
  end.

(** The token bucket of [llm_slow] (5 tokens per second, capacity 20),
    built when the clock reads 0, with exact arithmetic. *)
Definition exact (x : Q) : Q := x.

Definition llm_bucket : TokenBucket.t := TokenBucket.mk 5 20 20 0.

(** The options of a run with three workflows. *)
Definition three_workflows : Cli.CliOptions :=
  Cli.mkCliOptions 3 2 2 1 Cli.full 1 50 "out" false false false false
    (2 # 100) 50.

(** [wf_aggregated] after its decision node 13 succeeded: the decision
    was to continue, and node 14 is the plan of iteration 1. *)
Definition wf_decided : Workflow.t :=
  Workflow.calls [Workflow.CallMarkSucceeded 13] wf_aggregated.

Definition attempt (n : Z) : QueuedAttempt.t :=
  QueuedAttempt.mk n 1 Plan "llm_provider" 0 1 30000 3
    (LatencyContext.mk Plan 0 0 100) n n.

(** [wf_expanded] after the load of pdf 0 (node 2) failed: its chunk
    (node 3) waits for it. *)
Definition wf_load_failed : Workflow.t :=
  Workflow.calls [Workflow.CallMarkFailed 2] wf_expanded.

(** A tier configured with a negative cap, and two calls on it. *)
Definition llm_no_slot : TierConfig.t :=
  TierConfig.mk "llm_provider" 0 5 20 (-1) (1 # 100) (3 # 100) 30000 3.

Definition no_slot_calls : list Tier.op :=
  [Tier.OpEnqueue (attempt 1); Tier.OpTryDequeue].

Definition tier_calls : list Tier.op :=
  [Tier.OpEnqueue (attempt 1); Tier.OpEnqueue (attempt 2);
   Tier.OpEnqueue (attempt 3); Tier.OpTryDequeue; Tier.OpBlockingDequeue;
   Tier.OpTryDequeue; Tier.OpOnAttemptFinish; Tier.OpBlockingDequeue].

End Examples.

(* ===================================================================== *)
(** * Properties                                                          *)
(* ===================================================================== *)

Lemma Qlt_bool_iff (a b : Q) : Qlt_bool a b = true <-> (a < b)%Q.
Proof.
  unfold Qlt_bool. rewrite negb_true_iff.
  split.
  - intros H. apply Qnot_le_lt. intros Hle.
    apply Qle_bool_iff in Hle. congruence.
  - intros H. destruct (Qle_bool b a) eqn:E; [|reflexivity].
    apply Qle_bool_iff in E. exfalso. exact (Qlt_not_le _ _ H E).
Qed.

(** ** The random stream *)

(** C10. [Bernoulli p] returns [false] for every [p <= 0] and [true] for
    every [p >= 1], in both cases leaving the four state words untouched;
    for [0 < p < 1] it takes exactly one [Uniform01] draw (one [U64] step)
    and answers whether that draw is strictly below [p]. *)
Theorem Bernoulli_boundary_and_draw (p : Q) (r : SeededRng.t) :
  ((p <= 0)%Q -> SeededRng.Bernoulli p r = (false, r)) /\
  ((1 <= p)%Q -> SeededRng.Bernoulli p r = (true, r)) /\
  ((0 < p)%Q -> (p < 1)%Q ->
     SeededRng.Bernoulli p r =
       (Qlt_bool (SeededRng.Uniform01 r).1 p, (SeededRng.U64 r).2) /\
     ((SeededRng.Bernoulli p r).1 = true <->
        (Qmake (Z.shiftr (SeededRng.U64 r).1 11) (2 ^ 53)%positive < p)%Q)).
Proof.
  unfold SeededRng.Bernoulli, SeededRng.Uniform01.
  destruct (SeededRng.U64 r) as [w r'] eqn:EU. cbn [fst snd].
  split; [|split].
  - intros Hp. apply Qle_bool_iff in Hp. now rewrite Hp.
  - intros Hp. destruct (Qle_bool p 0) eqn:E0.
    + apply Qle_bool_iff in E0. exfalso.
      apply (Qlt_not_le 0 1); [reflexivity|]. now apply Qle_trans with p.
    + apply Qle_bool_iff in Hp. now rewrite Hp.
  - intros H0 H1.
    destruct (Qle_bool p 0) eqn:E0.
    { apply Qle_bool_iff in E0. exfalso. exact (Qlt_not_le _ _ H0 E0). }
    destruct (Qle_bool 1 p) eqn:E1.
    { apply Qle_bool_iff in E1. exfalso. exact (Qlt_not_le _ _ H1 E1). }
    cbn [fst snd]. split; [reflexivity|]. apply Qlt_bool_iff.
Qed.

Lemma Bernoulli_boundary_and_draw_witness :
  SeededRng.Bernoulli 0 (SeededRng.init 1) = (false, SeededRng.init 1) /\
  SeededRng.Bernoulli 1 (SeededRng.init 1) = (true, SeededRng.init 1) /\
  (SeededRng.Bernoulli (1 # 2) (SeededRng.init 1)).2
    = (SeededRng.U64 (SeededRng.init 1)).2.
Proof.
  pose proof (Bernoulli_boundary_and_draw 0 (SeededRng.init 1)) as (H0 & _ & _).
  pose proof (Bernoulli_boundary_and_draw 1 (SeededRng.init 1)) as (_ & H1 & _).
  pose proof (Bernoulli_boundary_and_draw (1 # 2) (SeededRng.init 1))
    as (_ & _ & Hh).
  split; [apply H0; vm_compute; discriminate|].
  split; [apply H1; vm_compute; discriminate|].
  destruct Hh as [Hh _]; [reflexivity | reflexivity |].
  rewrite Hh. reflexivity.
Defined.

Import WorkflowSpec.

(** ** The stop decision *)


Lemma foldl_total (k : Z) (l : list Node) (a : Z) :
  foldl (fun total n =>
           if bool_decide (iter n = k) && bool_decide (type n = ExtractEvidence)
           then total + evidence_count_est n else total) a l
  = a + total_evidence
          (evidence_of <$> filter (fun n => iter n = k /\ type n = ExtractEvidence) l).
Proof.
  revert a. induction l as [|n l IH]; intros a; cbn [foldl].
  - unfold total_evidence. cbn. lia.
  - rewrite IH. rewrite filter_cons.
    destruct (decide (iter n = k /\ type n = ExtractEvidence)) as [[H1 H2]|Hn].
    + rewrite !bool_decide_eq_true_2 by assumption. cbn.
      unfold total_evidence. cbn. lia.
    + destruct (bool_decide (iter n = k)) eqn:E1;
        destruct (bool_decide (type n = ExtractEvidence)) eqn:E2; cbn; try reflexivity.
      apply bool_decide_eq_true in E1, E2. tauto.
Qed.

Lemma foldl_covered (k : Z) (l : list Node) (acc : gset Z) :
  foldl (fun (covered : gset Z) n =>
           if bool_decide (iter n <> k) || bool_decide (type n <> ExtractEvidence)
           then covered
           else if 0 <? evidence_count_est n
                then {[pdf_idx n]} ∪ covered else covered) acc l
  = covered_pdfs
      (evidence_of <$> filter (fun n => iter n = k /\ type n = ExtractEvidence) l)
    ∪ acc.
Proof.
  revert acc. induction l as [|n l IH]; intros acc; cbn [foldl].
  - unfold covered_pdfs. cbn. now rewrite (left_id_L ∅ (∪)).
  - rewrite IH. rewrite filter_cons.
    destruct (decide (iter n = k /\ type n = ExtractEvidence)) as [[H1 H2]|Hn].
    + rewrite !bool_decide_eq_false_2 by (intros ?; congruence). cbn [orb].
      unfold covered_pdfs. rewrite fmap_cons, filter_cons. cbn [evidence_of snd].
      destruct (Z.ltb_spec 0 (evidence_count_est n)).
      * rewrite decide_True by assumption. cbn [fmap list_fmap list_to_set fst].
        rewrite (assoc_L (∪)). f_equal. apply (comm_L (∪)).
      * rewrite decide_False by lia. reflexivity.
    + destruct (bool_decide (iter n <> k)) eqn:E1; cbn [orb]; [reflexivity|].
      destruct (bool_decide (type n <> ExtractEvidence)) eqn:E2; [reflexivity|].
      apply bool_decide_eq_false in E1, E2.
      exfalso. apply Hn. split.
      * destruct (decide (iter n = k)); [assumption | contradiction].
      * destruct (decide (type n = ExtractEvidence)); [assumption | contradiction].
Qed.

Lemma IterEvidenceTotal_spec (w : Workflow.t) (k : Z) :
  Workflow.IterEvidenceTotal w k
  = total_evidence (evidence_of <$> evidence_nodes w k).
Proof. unfold Workflow.IterEvidenceTotal. rewrite foldl_total. apply Z.add_0_l. Qed.

Lemma IterPdfCoverageCount_spec (w : Workflow.t) (k : Z) :
  Workflow.IterPdfCoverageCount w k
  = Z.of_nat (size (covered_pdfs (evidence_of <$> evidence_nodes w k))).
Proof.
  unfold Workflow.IterPdfCoverageCount. rewrite foldl_covered.
  now rewrite (right_id_L ∅ (∪)).
Qed.

Lemma total_evidence_perm (ev ev' : list (Z * Z)) :
  ev ≡ₚ ev' -> total_evidence ev = total_evidence ev'.
Proof.
  unfold total_evidence.
  induction 1 as [|x l l' _ IH|x y l|l1 l2 l3 _ IH1 _ IH2]; cbn in *; lia.
Qed.

Lemma covered_pdfs_perm (ev ev' : list (Z * Z)) :
  ev ≡ₚ ev' -> covered_pdfs ev = covered_pdfs ev'.
Proof.
  intros Hp. unfold covered_pdfs.
  apply list_to_set_perm_L. now rewrite Hp.
Qed.

Lemma ComputeDecideAction_stop (w : Workflow.t) (k : Z) :
  Workflow.ComputeDecideAction w k = Stop <->
  stop_condition (Workflow.params_ w) (Workflow.id_ w) k
                 (evidence_of <$> evidence_nodes w k).
Proof.
  unfold Workflow.ComputeDecideAction, stop_condition, coverage_of,
    confidence_of.
  rewrite IterEvidenceTotal_spec, IterPdfCoverageCount_spec.
  cbv zeta.
  set (cov := (inject_Z _ / inject_Z (Z.max 1 _))%Q).
  set (conf := Workflow.Qmin_d 1 _).
  set (u := Workflow.tie_breaker _ _ _).
  destruct (Z.leb_spec (WorkloadParams.max_iters (Workflow.params_ w)) (k + 1))
    as [Hm | Hm].
  { split; [intros _; left; exact Hm | reflexivity]. }
  destruct (Qle_bool (60 # 100) cov && Qle_bool (50 # 100) conf
            || Qle_bool (45 # 100) cov && Qle_bool (35 # 100) conf
               && Qlt_bool (70 # 100) u) eqn:E.
  - split; [intros _ | reflexivity]. right.
    apply orb_true_iff in E as [E | E].
    + apply andb_true_iff in E as [E1 E2].
      left. split; now apply Qle_bool_iff.
    + apply andb_true_iff in E as [E E3].
      apply andb_true_iff in E as [E1 E2].
      right. repeat split; try now apply Qle_bool_iff.
      now apply Qlt_bool_iff.
  - split; [discriminate|]. intros [H | [[H1 H2] | (H1 & H2 & H3)]].
    + lia.
    + apply Qle_bool_iff in H1, H2. rewrite H1, H2 in E. discriminate E.
    + apply Qle_bool_iff in H1, H2. apply Qlt_bool_iff in H3.
      rewrite H1, H2, H3 in E. cbn in E. rewrite orb_true_r in E.
      discriminate E.
Qed.

Lemma stop_condition_perm params wid k (ev ev' : list (Z * Z)) :
  ev ≡ₚ ev' -> stop_condition params wid k ev -> stop_condition params wid k ev'.
Proof.
  intros Hp. unfold stop_condition, coverage_of, confidence_of.
  now rewrite (covered_pdfs_perm _ _ Hp), (total_evidence_perm _ _ Hp).
Qed.

Lemma ComputeDecideAction_same_evidence (w w2 : Workflow.t) (k : Z) :
  Workflow.params_ w2 = Workflow.params_ w ->
  Workflow.id_ w2 = Workflow.id_ w ->
  evidence_of <$> evidence_nodes w2 k ≡ₚ evidence_of <$> evidence_nodes w k ->
  Workflow.ComputeDecideAction w2 k = Workflow.ComputeDecideAction w k.
Proof.
  intros Hp Hi He.
  pose proof (ComputeDecideAction_stop w k) as H1.
  pose proof (ComputeDecideAction_stop w2 k) as H2.
  rewrite Hp, Hi in H2.
  destruct (Workflow.ComputeDecideAction w k) eqn:E1;
    destruct (Workflow.ComputeDecideAction w2 k) eqn:E2; try reflexivity.
  - exfalso. assert (Hs : Continue = Stop); [|discriminate Hs].
    apply H2. apply (stop_condition_perm _ _ _ _ _ (symmetry He)).
    now apply H1.
  - exfalso. assert (Hs : Continue = Stop); [|discriminate Hs].
    apply H1. apply (stop_condition_perm _ _ _ _ _ He). now apply H2.
Qed.

(** C3. [ComputeDecideAction w k] returns [Stop] exactly under the stop
    condition of the specification evaluated on the workload parameters,
    the workflow id, [k] and the (pdf index, evidence count) pairs of the
    iteration-[k] [ExtractEvidence] nodes, and [Continue] otherwise; two
    workflows with the same parameters and id and the same pairs, in any
    order, decide alike. *)
Theorem ComputeDecideAction_stop_iff (w : Workflow.t) (k : Z) :
  (Workflow.ComputeDecideAction w k = Stop <->
     stop_condition (Workflow.params_ w) (Workflow.id_ w) k
                    (evidence_of <$> evidence_nodes w k)) /\
  (Workflow.ComputeDecideAction w k = Continue <->
     ~ stop_condition (Workflow.params_ w) (Workflow.id_ w) k
                      (evidence_of <$> evidence_nodes w k)) /\
  (forall w2,
     Workflow.params_ w2 = Workflow.params_ w ->
     Workflow.id_ w2 = Workflow.id_ w ->
     evidence_of <$> evidence_nodes w2 k ≡ₚ evidence_of <$> evidence_nodes w k ->
     Workflow.ComputeDecideAction w2 k = Workflow.ComputeDecideAction w k).
Proof.
  split; [apply ComputeDecideAction_stop|]. split.
  - rewrite <- ComputeDecideAction_stop.
    destruct (Workflow.ComputeDecideAction w k); split; congruence.
  - intros w2. apply ComputeDecideAction_same_evidence.
Qed.

Lemma ComputeDecideAction_stop_iff_witness :
  Workflow.ComputeDecideAction Examples.wf_extracted 0
  = Workflow.ComputeDecideAction Examples.wf_expanded 0 /\
  (Workflow.ComputeDecideAction Examples.wf_expanded 1 = Stop).
Proof.
  destruct (ComputeDecideAction_stop_iff Examples.wf_expanded 0)
    as (_ & _ & Hsame).
  destruct (ComputeDecideAction_stop_iff Examples.wf_expanded 1)
    as (Hstop & _ & _).
  split.
  - apply Hsame; vm_compute; reflexivity.
  - apply Hstop. left. vm_compute. discriminate.
Defined.

(** ** Reasoning about the workflow monad *)

Section MonadRules.
Context {A B : Type}.

Lemma bind_ok (m : Workflow.M A) (k : A -> Workflow.M B) w w' a :
  m w = (w', Workflow.Ok a) -> Workflow.bind m k w = k a w'.
Proof. unfold Workflow.bind. now intros ->. Qed.

Lemma bind_throw (m : Workflow.M A) (k : A -> Workflow.M B) w w' msg :
  m w = (w', Workflow.Throw msg) ->
  Workflow.bind m k w = (w', Workflow.Throw msg).
Proof. unfold Workflow.bind. now intros ->. Qed.

Lemma rel_bind (R : relation Workflow.t) `{!Transitive R}
    (m : Workflow.M A) (k : A -> Workflow.M B) :
  rel R m -> (forall a, rel R (k a)) -> rel R (Workflow.bind m k).
Proof.
  intros Hm Hk w. unfold Workflow.bind.
  specialize (Hm w). destruct (m w) as [w1 [a|msg]]; cbn in *.
  - etransitivity; [exact Hm | apply Hk].
  - exact Hm.
Qed.

(** A step in [R1] followed by steps in [R2] stays in [R3] as soon as
    [R1] alone and [R1] then [R2] do. *)
Lemma rel_bind_seq (R1 R2 R3 : relation Workflow.t)
    (m : Workflow.M A) (k : A -> Workflow.M B) :
  (forall x y, R1 x y -> R3 x y) ->
  (forall x y z, R1 x y -> R2 y z -> R3 x z) ->
  rel R1 m -> (forall a, rel R2 (k a)) -> rel R3 (Workflow.bind m k).
Proof.
  intros H1 H12 Hm Hk w. unfold Workflow.bind.
  specialize (Hm w). destruct (m w) as [w1 [a|msg]]; cbn in *.
  - eapply H12; [exact Hm | apply Hk].
  - now apply H1.
Qed.

Lemma hoare_bind (P : Workflow.t -> Prop) (Q : A -> Workflow.t -> Prop)
    (Q' : B -> Workflow.t -> Prop) (E : Workflow.t -> Prop)
    (m : Workflow.M A) (k : A -> Workflow.M B) :
  hoare P m Q E -> (forall a, hoare (Q a) (k a) Q' E) ->
  hoare P (Workflow.bind m k) Q' E.
Proof.
  intros Hm Hk w HP. unfold Workflow.bind.
  specialize (Hm w HP). destruct (m w) as [w1 [a|msg]].
  - now apply Hk.
  - exact Hm.
Qed.

Lemma hoare_weaken (P P' : Workflow.t -> Prop)
    (Q Q' : A -> Workflow.t -> Prop) (E E' : Workflow.t -> Prop)
    (m : Workflow.M A) :
  hoare P m Q E ->
  (forall w, P' w -> P w) -> (forall a w, Q a w -> Q' a w) ->
  (forall w, E w -> E' w) ->
  hoare P' m Q' E'.
Proof.
  intros Hm HP HQ HE w Hw. specialize (Hm w (HP w Hw)).
  destruct (m w) as [w1 [a|msg]]; auto.
Qed.

End MonadRules.

Lemma rel_foldM {A B} (R : relation Workflow.t) `{!PreOrder R}
    (f : B -> A -> Workflow.M B) (l : list A) (acc : B) :
  (forall acc x, rel R (f acc x)) -> rel R (Workflow.foldM f acc l).
Proof.
  intros Hf. revert acc. induction l as [|x l IH]; intros acc; cbn.
  - intros w. reflexivity.
  - apply rel_bind; [apply _ | apply Hf | intros a; apply IH].
Qed.

Lemma hoare_foldM {A B} (I : B -> Workflow.t -> Prop) (E : Workflow.t -> Prop)
    (f : B -> A -> Workflow.M B) (l : list A) (acc : B) :
  (forall acc x, x ∈ l -> hoare (I acc) (f acc x) I E) ->
  hoare (I acc) (Workflow.foldM f acc l) I E.
Proof.
  revert acc. induction l as [|x l IH]; intros acc Hf; cbn.
  - intros w Hw. exact Hw.
  - eapply hoare_bind.
    + apply Hf. apply list_elem_of_here.
    + intros a. apply IH. intros acc' y Hy. apply Hf.
      now apply list_elem_of_further.
Qed.

Lemma rel_ret {A} (R : relation Workflow.t) `{!Reflexive R} (a : A) :
  rel R (Workflow.ret a).
Proof. intros w. reflexivity. Qed.

Lemma rel_throw {A} (R : relation Workflow.t) `{!Reflexive R} msg :
  rel R (Workflow.throw (A := A) msg).
Proof. intros w. reflexivity. Qed.

Lemma rel_get (R : relation Workflow.t) `{!Reflexive R} : rel R Workflow.get.
Proof. intros w. reflexivity. Qed.

Lemma rel_node (R : relation Workflow.t) `{!Reflexive R} nid :
  rel R (Workflow.node nid).
Proof.
  intros w. unfold Workflow.node. destruct (_ !! _); reflexivity.
Qed.

Lemma rel_require (R : relation Workflow.t) `{!Reflexive R} ok msg :
  rel R (Workflow.require ok msg).
Proof. intros w. unfold Workflow.require. destruct ok; reflexivity. Qed.

Lemma rel_if {A} (R : relation Workflow.t) (b : bool) (m1 m2 : Workflow.M A) :
  rel R m1 -> rel R m2 -> rel R (if b then m1 else m2).
Proof. destruct b; auto. Qed.

Lemma rel_forM_ {A} (R : relation Workflow.t) `{!PreOrder R}
    (l : list A) (f : A -> Workflow.M unit) :
  (forall x, rel R (f x)) -> rel R (Workflow.forM_ l f).
Proof. intros Hf. apply rel_foldM; [apply _ | intros _ x; apply Hf]. Qed.

(** The dependency check only reads. *)
Lemma deps_succeeded_reads (ds : list Z) (w : Workflow.t) :
  (Workflow.deps_succeeded ds w).1 = w /\
  ((Workflow.deps_succeeded ds w).2 = Workflow.Ok true ->
   forall d, d ∈ ds ->
     exists dn, Workflow.nodes w !! d = Some dn /\ state dn = Succeeded).
Proof.
  induction ds as [|d ds IH]; cbn.
  - split; [reflexivity|]. intros _ d Hd. now apply elem_of_nil in Hd.
  - unfold Workflow.bind, Workflow.node.
    destruct (Workflow.nodes w !! d) as [dn|] eqn:Ed; cbn; [|split; [reflexivity | discriminate]].
    destruct (decide (state dn <> Succeeded)) as [Hs|Hs].
    + rewrite bool_decide_eq_true_2 by assumption. cbn.
      split; [reflexivity | discriminate].
    + rewrite bool_decide_eq_false_2 by assumption.
      destruct IH as [IH1 IH2]. split; [exact IH1|].
      intros Hok d' Hd'. apply elem_of_cons in Hd' as [-> | Hd'].
      * exists dn. split; [assumption|].
        destruct (decide (state dn = Succeeded)); [assumption | contradiction].
      * now apply IH2.
Qed.

Lemma DepsSatisfied_reads (n : Node) (w : Workflow.t) :
  (Workflow.DepsSatisfied n w).1 = w /\
  ((Workflow.DepsSatisfied n w).2 = Workflow.Ok true -> parents_succeeded w n).
Proof. apply deps_succeeded_reads. Qed.

(** ** The two kinds of steps *)

#[local] Instance structural_preorder : PreOrder structural.
Proof.
  split.
  - intros w. split.
    + intros nid n Hn. exists n. auto.
    + intros nid n' H1 H2. congruence.
  - intros w1 w2 w3 [Ha Hb] [Hc Hd]. split.
    + intros nid n Hn. destruct (Ha nid n Hn) as (n2 & Hn2 & Hs2).
      destruct (Hc nid n2 Hn2) as (n3 & Hn3 & Hs3).
      exists n3. split; [assumption | congruence].
    + intros nid n3 Hn1 Hn3.
      destruct (Workflow.nodes w2 !! nid) as [n2|] eqn:Hn2.
      * destruct (Hc nid n2 Hn2) as (n3' & Hn3' & Hs3).
        assert (n3' = n3) as -> by congruence.
        rewrite Hs3. now apply (Hb nid).
      * now apply (Hd nid).
Qed.

Lemma settles_succeeded (w w' : Workflow.t) d dn :
  settles w w' -> Workflow.nodes w !! d = Some dn -> state dn = Succeeded ->
  exists dn', Workflow.nodes w' !! d = Some dn' /\ state dn' = Succeeded.
Proof.
  intros [_ H] Hd Hs. destruct (H d dn Hd) as (dn' & Hd' & _ & Hst).
  exists dn'. split; [assumption|].
  destruct Hst as [Hst | [Hnt _]]; [congruence|].
  rewrite Hs in Hnt. discriminate Hnt.
Qed.

Lemma parents_succeeded_settles (w w' : Workflow.t) (n n' : Node) :
  settles w w' -> deps n' = deps n ->
  parents_succeeded w n -> parents_succeeded w' n'.
Proof.
  intros Hs Hd Hp d Hin. rewrite Hd in Hin.
  destruct (Hp d Hin) as (dn & Hdn & Hsd).
  now apply (settles_succeeded w w' d dn).
Qed.

Lemma set_state_same (n : Node) : set_state (state n) n = n.
Proof. now destruct n. Qed.

#[local] Instance settles_preorder : PreOrder settles.
Proof.
  split.
  - intros w. split; [auto|]. intros nid n Hn. exists n.
    split; [assumption|]. split; [now rewrite set_state_same | now left].
  - intros w1 w2 w3 H12 H23.
    pose proof H12 as [Ha Hb]. pose proof H23 as [Hc Hd]. split; [auto|].
    intros nid n Hn. destruct (Hb nid n Hn) as (n2 & Hn2 & Hd2 & Hs2).
    destruct (Hd nid n2 Hn2) as (n3 & Hn3 & Hd3 & Hs3).
    exists n3. split; [assumption|].
    split; [rewrite Hd3 at 1; now rewrite Hd2|].
    destruct Hs3 as [Hs3 | [Hnt3 Hs3]].
    + rewrite Hs3. destruct Hs2 as [Hs2 | [Hnt2 Hs2]]; [now left|].
      right. split; [assumption|].
      destruct Hs2 as [Hs2 | [Hs2 | [Hs2 Hp2]]]; auto.
      right. right. split; [assumption|].
      apply (parents_succeeded_settles w2 w3 n2 n3); auto.
      now rewrite Hd3.
    + right. split; [|assumption].
      destruct Hs2 as [Hs2 | [Hnt2 _]]; [congruence | assumption].
Qed.

(** Writing a state through [node_mut]. *)
Lemma lookup_update_node (w : Workflow.t) nid (f : Node -> Node) j :
  Workflow.nodes (Workflow.update_node nid f w).1 !! j
  = if decide (nid = j) then f <$> Workflow.nodes w !! j
    else Workflow.nodes w !! j.
Proof.
  unfold Workflow.update_node, Workflow.modify. cbn.
  destruct (decide (nid = j)) as [->|Hne].
  - now rewrite lookup_alter_eq.
  - now rewrite lookup_alter_ne.
Qed.

Lemma structural_update_node nid (f : Node -> Node) :
  (forall n, state (f n) = state n) ->
  rel structural (Workflow.update_node nid f).
Proof.
  intros Hf w. split.
  - intros j n Hn. rewrite lookup_update_node.
    destruct (decide (nid = j)); rewrite Hn; cbn; eauto.
  - intros j n' Hn. rewrite lookup_update_node, Hn.
    destruct (decide (nid = j)); discriminate.
Qed.

Lemma settles_update_node (w : Workflow.t) nid n (s : NodeState) :
  Workflow.nodes w !! nid = Some n ->
  IsTerminal (state n) = false ->
  s = WaitingDeps \/ s = Cancelled \/ (s = Runnable /\ parents_succeeded w n) ->
  settles w (Workflow.update_node nid (set_state s) w).1.
Proof.
  intros Hn Hnt Hs. split.
  - intros j Hj. rewrite lookup_update_node, Hj.
    now destruct (decide (nid = j)).
  - intros j m Hm. rewrite lookup_update_node, Hm.
    destruct (decide (nid = j)) as [->|Hne].
    2:{ exists m. split; [reflexivity|].
        split; [now rewrite set_state_same | now left]. }
    assert (m = n) as -> by congruence.
    exists (set_state s n). split; [reflexivity|]. split; [reflexivity|].
    right. split; [assumption|]. cbn [state set_state].
    destruct Hs as [Hs | [Hs | [Hs Hp]]]; auto.
    right. right. split; [assumption|].
    intros d Hd. cbn [deps set_state] in Hd. destruct (Hp d Hd) as (dn & Hdn & Hds).
    rewrite lookup_update_node.
    destruct (decide (j = d)) as [<-|Hne].
    + assert (dn = n) as -> by congruence.
      rewrite Hds in Hnt. discriminate Hnt.
    + eauto.
Qed.

Lemma structural_same_nodes (w w' : Workflow.t) :
  Workflow.nodes w' = Workflow.nodes w -> structural w w'.
Proof.
  intros H. split.
  - intros nid n Hn. rewrite H. eauto.
  - intros nid n' H1 H2. rewrite H in H2. congruence.
Qed.

Lemma rel_NewNodeId : rel structural Workflow.NewNodeId.
Proof. intros w. now apply structural_same_nodes. Qed.

Lemma rel_modify_flags (f : Workflow.t -> Workflow.t) :
  (forall w, Workflow.nodes (f w) = Workflow.nodes w) ->
  rel structural (Workflow.modify f).
Proof. intros Hf w. apply structural_same_nodes. apply Hf. Qed.

Lemma structural_insert_fresh (w : Workflow.t) (n : Node) :
  Workflow.nodes w !! id n = None -> state n = WaitingDeps ->
  structural w (Workflow.set_nodes (<[id n := n]> (Workflow.nodes w)) w).
Proof.
  intros Hf Hs. split; cbn.
  - intros j m Hm. exists m. split; [|reflexivity].
    rewrite lookup_insert_ne; [assumption|].
    intros Heq. rewrite Heq, Hm in Hf. discriminate Hf.
  - intros j m Hj Hm.
    destruct (decide (id n = j)) as [<-|Hne].
    + rewrite lookup_insert_eq in Hm. injection Hm as <-. exact Hs.
    + rewrite lookup_insert_ne in Hm by assumption.
      rewrite Hj in Hm. discriminate Hm.
Qed.

(** [AddNode] stores [n] under its id, or under a new id when that is 0. *)
Lemma AddNode_cases (n : Node) (w : Workflow.t) :
  let w0 := if bool_decide (id n = 0) then (Workflow.NewNodeId w).1 else w in
  let n0 := if bool_decide (id n = 0)
            then set_id (Workflow.next_node_id w) n else n in
  let n1 := if bool_decide (workflow_id n0 = 0)
            then set_workflow_id (Workflow.id_ w) n0 else n0 in
  (Workflow.nodes w !! id n1 = None /\
   Workflow.AddNode n w
   = (Workflow.set_nodes (<[id n1 := n1]> (Workflow.nodes w)) w0,
      Workflow.Ok (id n1))) \/
  (is_Some (Workflow.nodes w !! id n1) /\
   Workflow.AddNode n w = (w0, Workflow.Throw "Duplicate node id")).
Proof.
  cbv zeta. unfold Workflow.AddNode, Workflow.bind.
  destruct (bool_decide (id n = 0)); cbn;
    match goal with
    | |- context [bool_decide (workflow_id ?x = 0)] =>
        destruct (bool_decide (workflow_id x = 0)); cbn
    end;
    match goal with
    | |- context [Workflow.nodes w !! ?k] =>
        destruct (Workflow.nodes w !! k) eqn:E; cbn; eauto
    end.
Qed.

Lemma structural_nodes_eq (w w1 w2 : Workflow.t) :
  structural w w1 -> Workflow.nodes w2 = Workflow.nodes w1 -> structural w w2.
Proof.
  intros H12 Heq. etransitivity; [exact H12|].
  now apply structural_same_nodes.
Qed.

Lemma rel_AddNode (n : Node) :
  state n = WaitingDeps -> rel structural (Workflow.AddNode n).
Proof.
  intros Hs w. destruct (AddNode_cases n w) as [[Hf ->] | [_ ->]]; cbn [fst].
  - eapply structural_nodes_eq;
      [apply structural_insert_fresh; [exact Hf|] | reflexivity].
    repeat case_bool_decide; cbn; exact Hs.
  - apply structural_same_nodes. now destruct (bool_decide (id n = 0)).
Qed.

Lemma rel_AddEdge (from to : Z) : rel structural (Workflow.AddEdge from to).
Proof.
  unfold Workflow.AddEdge.
  repeat (apply rel_bind; [apply _ | | intros _]);
    try (apply rel_node; apply _);
    apply structural_update_node; reflexivity.
Qed.

Lemma rel_PopulatePreferenceListForNode (nid : Z) :
  rel structural (Workflow.PopulatePreferenceListForNode nid).
Proof.
  intros w. unfold Workflow.PopulatePreferenceListForNode, Workflow.bind.
  cbn [Workflow.get]. destruct (Workflow.provider_config_ w).
  - apply structural_update_node. reflexivity.
  - reflexivity.
Qed.

(** Steps through a straight-line body made of structural calls. *)
Ltac rel_structural :=
  repeat first
    [ progress cbv zeta
    | apply rel_get; apply _
    | apply rel_node; apply _
    | apply rel_NewNodeId
    | apply rel_AddNode; reflexivity
    | apply rel_PopulatePreferenceListForNode
    | apply rel_AddEdge
    | apply rel_ret; apply _
    | apply rel_if
    | apply rel_bind; [apply _ | | intros ?] ].

Lemma rel_expand_subquery embed_id it p acc q :
  rel structural (Workflow.expand_subquery embed_id it p acc q).
Proof. unfold Workflow.expand_subquery. rel_structural. Qed.

Lemma rel_expand_pdf plan_node it acc p :
  rel structural (Workflow.expand_pdf plan_node it acc p).
Proof.
  unfold Workflow.expand_pdf. rel_structural.
  apply rel_foldM; [apply _ | intros ? ?; apply rel_expand_subquery].
Qed.

(** Running the dependency check and going on with its answer. *)
Lemma bind_DepsSatisfied {B} (n : Node) (k : bool -> Workflow.M B) w :
  (exists ok, Workflow.DepsSatisfied n w = (w, Workflow.Ok ok) /\
     (ok = true -> parents_succeeded w n) /\
     Workflow.bind (Workflow.DepsSatisfied n) k w = k ok w) \/
  (exists msg, Workflow.bind (Workflow.DepsSatisfied n) k w
               = (w, Workflow.Throw msg)).
Proof.
  destruct (DepsSatisfied_reads n w) as [H1 H2]. unfold Workflow.bind.
  destruct (Workflow.DepsSatisfied n w) as [w1 [ok|msg]]; cbn in *; subst w1.
  - left. exists ok. split; [reflexivity|]. split; [|reflexivity].
    intros ->. now apply H2.
  - right. eauto.
Qed.

Lemma rel_InitializeStateFromDeps nid :
  rel settles (Workflow.InitializeStateFromDeps nid).
Proof.
  intros w. unfold Workflow.InitializeStateFromDeps.
  unfold Workflow.bind at 1, Workflow.node.
  destruct (Workflow.nodes w !! nid) as [n|] eqn:En; [|reflexivity].
  destruct (IsTerminal (state n)) eqn:Et; [reflexivity|].
  destruct (bind_DepsSatisfied n
              (fun ok => Workflow.update_node nid
                 (set_state (if ok then Runnable else WaitingDeps))) w)
    as [(ok & _ & Hp & ->) | (msg & ->)]; [|reflexivity].
  apply (settles_update_node w nid n); [assumption..|].
  destruct ok; auto.
Qed.

Lemma rel_refresh_node newly nid :
  rel settles (Workflow.refresh_node newly nid).
Proof.
  intros w. unfold Workflow.refresh_node.
  unfold Workflow.bind at 1, Workflow.node.
  destruct (Workflow.nodes w !! nid) as [n|] eqn:En; [|reflexivity].
  destruct (IsTerminal (state n)) eqn:Et; [reflexivity|]. cbn [orb].
  destruct (bool_decide (state n = Queued) || bool_decide (state n = Running));
    [reflexivity|].
  match goal with
  | |- settles w (Workflow.bind (Workflow.DepsSatisfied n) ?k w).1 =>
      destruct (bind_DepsSatisfied n k w)
        as [(ok & _ & Hp & ->) | (msg & ->)]; [|reflexivity]
  end.
  destruct (ok && bool_decide (state n <> Runnable)) eqn:E1.
  - apply andb_true_iff in E1 as [-> _].
    unfold Workflow.bind.
    destruct (Workflow.update_node nid (set_state Runnable) w) as [w1 r] eqn:Eu.
    assert (w1 = (Workflow.update_node nid (set_state Runnable) w).1) as ->
        by now rewrite Eu.
    assert (Hs : settles w (Workflow.update_node nid (set_state Runnable) w).1).
    { apply (settles_update_node w nid n); auto. }
    destruct r; exact Hs.
  - destruct (negb ok && bool_decide (state n <> WaitingDeps)); [|reflexivity].
    unfold Workflow.bind.
    destruct (Workflow.update_node nid (set_state WaitingDeps) w) as [w1 r] eqn:Eu.
    assert (w1 = (Workflow.update_node nid (set_state WaitingDeps) w).1) as ->
        by now rewrite Eu.
    assert (Hs : settles w (Workflow.update_node nid (set_state WaitingDeps) w).1).
    { apply (settles_update_node w nid n); auto. }
    destruct r; exact Hs.
Qed.

Lemma rel_RefreshRunnable : rel settles Workflow.RefreshRunnable.
Proof.
  unfold Workflow.RefreshRunnable.
  apply rel_bind; [apply _ | apply rel_get; apply _ | intros w0].
  apply rel_foldM; [apply _ | intros ? ?; apply rel_refresh_node].
Qed.

Lemma rel_prune_node k nid : rel settles (Workflow.prune_node k nid).
Proof.
  intros w. unfold Workflow.prune_node.
  unfold Workflow.bind at 1, Workflow.node.
  destruct (Workflow.nodes w !! nid) as [n|] eqn:En; [|reflexivity].
  destruct (IsTerminal (state n)) eqn:Et; [reflexivity|].
  destruct (k <? iter n); [|reflexivity].
  apply (settles_update_node w nid n); auto.
Qed.

Lemma rel_PruneAfterStop k : rel settles (Workflow.PruneAfterStop k).
Proof.
  unfold Workflow.PruneAfterStop.
  apply rel_bind; [apply _ | apply rel_get; apply _ | intros w0].
  apply rel_bind; [apply _ | | intros _; apply rel_ret; apply _].
  apply rel_bind; [apply _ | | intros _; apply rel_RefreshRunnable].
  apply rel_forM_; [apply _ | intros x; apply rel_prune_node].
Qed.

(** [rel_bind] from one given state. *)
Lemma rel_bind_at {A B} (R : relation Workflow.t) `{!Transitive R}
    (m : Workflow.M A) (k : A -> Workflow.M B) (w : Workflow.t) :
  R w (m w).1 -> (forall a, rel R (k a)) -> R w (Workflow.bind m k w).1.
Proof.
  intros Hm Hk. unfold Workflow.bind.
  destruct (m w) as [w1 [a|msg]]; cbn in *.
  - etransitivity; [exact Hm | apply Hk].
  - exact Hm.
Qed.

Lemma rel_Cancel nid : rel settles (Workflow.Cancel nid).
Proof.
  intros w. unfold Workflow.Cancel.
  unfold Workflow.bind at 1, Workflow.node.
  destruct (Workflow.nodes w !! nid) as [n|] eqn:En; [|reflexivity].
  destruct (IsTerminal (state n)) eqn:Et; [reflexivity|].
  apply rel_bind_at; [apply _ | | intros _; apply rel_ret; apply _].
  apply rel_bind_at; [apply _ | | intros _; apply rel_RefreshRunnable].
  apply (settles_update_node w nid n); auto.
Qed.

(** ** Creation followed by re-evaluation *)


Lemma settles_nodes_eq (w w1 w2 : Workflow.t) :
  settles w w1 -> Workflow.nodes w2 = Workflow.nodes w1 -> settles w w2.
Proof.
  intros [Ha Hb] Heq. split.
  - intros nid Hn. rewrite Heq. auto.
  - intros nid n Hn. destruct (Hb nid n Hn) as (n' & Hn' & Hd & Hs).
    exists n'. rewrite Heq. split; [assumption|]. split; [assumption|].
    destruct Hs as [Hs | [Hnt Hs]]; [now left|]. right. split; [assumption|].
    destruct Hs as [Hs | [Hs | [Hs Hp]]]; auto.
    right. right. split; [assumption|].
    intros d Hin. rewrite Heq. now apply Hp.
Qed.

Lemma evolves_of_structural (w w' : Workflow.t) : structural w w' -> evolves w w'.
Proof. intros H. exists w'. split; [assumption | reflexivity]. Qed.

Lemma evolves_of_settles (w w' : Workflow.t) : settles w w' -> evolves w w'.
Proof. intros H. exists w. split; [reflexivity | assumption]. Qed.

Lemma structural_evolves (w w1 w2 : Workflow.t) :
  structural w w1 -> evolves w1 w2 -> evolves w w2.
Proof.
  intros H1 (w' & H2 & H3). exists w'. split; [|assumption].
  now transitivity w1.
Qed.

Lemma evolves_settles (w w1 w2 : Workflow.t) :
  evolves w w1 -> settles w1 w2 -> evolves w w2.
Proof.
  intros (w' & H1 & H2) H3. exists w'. split; [assumption|].
  now transitivity w1.
Qed.

Lemma evolves_nodes_eq (w w1 w2 : Workflow.t) :
  evolves w w1 -> Workflow.nodes w2 = Workflow.nodes w1 -> evolves w w2.
Proof.
  intros (w' & H1 & H2) Heq. exists w'. split; [assumption|].
  now apply (settles_nodes_eq w' w1 w2).
Qed.

#[local] Instance evolves_refl : Reflexive evolves.
Proof. intros w. apply evolves_of_structural. reflexivity. Qed.

Lemma rel_evolves_bind_S {A B} (m : Workflow.M A) (k : A -> Workflow.M B) :
  rel structural m -> (forall a, rel evolves (k a)) ->
  rel evolves (Workflow.bind m k).
Proof.
  apply rel_bind_seq; [apply evolves_of_structural | apply structural_evolves].
Qed.

Lemma rel_evolves_bind_T {A B} (m : Workflow.M A) (k : A -> Workflow.M B) :
  rel evolves m -> (forall a, rel settles (k a)) ->
  rel evolves (Workflow.bind m k).
Proof. apply rel_bind_seq; [auto | apply evolves_settles]. Qed.

Lemma rel_evolves_of_S {A} (m : Workflow.M A) :
  rel structural m -> rel evolves m.
Proof. intros H w. apply evolves_of_structural, H. Qed.

Lemma rel_evolves_of_T {A} (m : Workflow.M A) :
  rel settles m -> rel evolves m.
Proof. intros H w. apply evolves_of_settles, H. Qed.

Lemma rel_ExpandIterationFromPlan plan_node :
  rel evolves (Workflow.ExpandIterationFromPlan plan_node).
Proof.
  unfold Workflow.ExpandIterationFromPlan.
  apply rel_evolves_bind_S; [apply rel_node; apply _ | intros plan].
  apply rel_evolves_bind_S; [apply rel_get; apply _ | intros w0].
  apply rel_if; [apply rel_ret; apply _|].
  apply rel_if; [apply rel_ret; apply _|].
  apply rel_evolves_bind_S.
  { apply rel_foldM; [apply _ | intros ? ?; apply rel_expand_pdf]. }
  intros extract_nodes.
  apply rel_evolves_bind_S; [apply rel_NewNodeId | intros agg_id].
  apply rel_evolves_bind_S; [apply rel_NewNodeId | intros decide_id].
  apply rel_evolves_bind_S; [apply rel_AddNode; reflexivity | intros agg_ref].
  apply rel_evolves_bind_S; [apply rel_AddNode; reflexivity | intros dec_ref].
  apply rel_evolves_bind_T; [|intros _; apply rel_InitializeStateFromDeps].
  apply rel_evolves_bind_T; [|intros _; apply rel_InitializeStateFromDeps].
  apply rel_evolves_of_S.
  apply rel_bind; [apply _ | | intros _; apply rel_AddEdge].
  apply rel_bind; [apply _ | | intros _].
  { rel_structural. }
  destruct extract_nodes; [apply rel_AddEdge|].
  apply rel_forM_; [apply _ | intros x; apply rel_AddEdge].
Qed.

Lemma rel_OnDecideNext decide_node :
  rel evolves (Workflow.OnDecideNext decide_node).
Proof.
  unfold Workflow.OnDecideNext.
  apply rel_evolves_bind_S; [apply rel_node; apply _ | intros dn].
  apply rel_evolves_bind_S; [apply rel_get; apply _ | intros w0].
  destruct (Workflow.ComputeDecideAction w0 (iter dn)).
  - apply rel_evolves_bind_S; [now apply rel_modify_flags|].
    intros _. apply rel_evolves_of_T, rel_PruneAfterStop.
  - cbv zeta.
    apply rel_evolves_bind_S; [apply rel_NewNodeId | intros plan_id].
    apply rel_evolves_bind_S; [apply rel_AddNode; reflexivity | intros pr].
    apply rel_evolves_bind_T; [|intros _; apply rel_InitializeStateFromDeps].
    apply rel_evolves_of_S. rel_structural.
Qed.

(** ** The guarded write of [SetState] *)


Lemma evolves_respects (w w' : Workflow.t) : evolves w w' -> respects w w'.
Proof.
  intros (w1 & [Sa Sb] & [Ta Tb]). split.
  - intros nid n Hn. destruct (Sa nid n Hn) as (n1 & Hn1 & Hs1).
    destruct (Tb nid n1 Hn1) as (n' & Hn' & _ & Hs').
    exists n'. split; [assumption|]. rewrite <- Hs1.
    destruct Hs' as [Hs' | [Hnt Hs']]; [now left|]. right.
    split; [assumption|].
    destruct Hs' as [-> | [-> | [-> Hp]]]; auto.
  - intros nid n' Hn Hn'.
    destruct (Workflow.nodes w1 !! nid) as [n1|] eqn:Hn1.
    + pose proof (Sb nid n1 Hn Hn1) as Hs1.
      destruct (Tb nid n1 Hn1) as (n2 & Hn2 & _ & Hs2).
      assert (n2 = n') as -> by congruence.
      destruct Hs2 as [Hs2 | [_ Hs2]]; [left; congruence|].
      destruct Hs2 as [Hs2 | [Hs2 | Hs2]]; auto.
    + rewrite (Ta nid Hn1) in Hn'. discriminate Hn'.
Qed.

Lemma SetState_cases (nid : Z) (next : NodeState) (w : Workflow.t) :
  (exists r, Workflow.SetState nid next w = (w, r)) \/
  (exists n,
      Workflow.nodes w !! nid = Some n /\ state n <> next /\
      IsTerminal (state n) = false /\
      match next with
      | Runnable => parents_succeeded w n
      | Queued => state n = Runnable
      | Running => state n = Queued \/ state n = Runnable
      | Succeeded | Failed =>
          state n = Runnable \/ state n = Queued \/ state n = Running
      | WaitingDeps | Cancelled => True
      end /\
      Workflow.SetState nid next w
      = ((Workflow.update_node nid (set_state next) w).1, Workflow.Ok ())).
Proof.
  destruct (Workflow.SetState nid next w) as [w' r] eqn:E.
  unfold Workflow.SetState in E. unfold Workflow.bind at 1, Workflow.node in E.
  destruct (Workflow.nodes w !! nid) as [n|] eqn:En;
    [|injection E as <- <-; left; eauto].
  case_bool_decide as Hsame; [injection E as <- <-; left; eauto|].
  destruct (IsTerminal (state n)) eqn:Et; [injection E as <- <-; left; eauto|].
  unfold Workflow.bind at 1 2 in E. cbn [Workflow.ret] in E.
  destruct next; cbn [Workflow.ret Workflow.require] in E.
  - (* WaitingDeps *)
    match type of E with
    | context [Workflow.bind (Workflow.DepsSatisfied n) ?k w] =>
        destruct (bind_DepsSatisfied n k w)
          as [(ok & _ & Hp & Hb) | (msg & Hb)]; rewrite Hb in E;
          [|injection E as <- <-; left; eauto]
    end.
    destruct ok; cbn in E; injection E as <- <-; [left; eauto|].
    right. exists n. auto 10.
  - (* Runnable *)
    match type of E with
    | context [Workflow.bind (Workflow.DepsSatisfied n) ?k w] =>
        destruct (bind_DepsSatisfied n k w)
          as [(ok & _ & Hp & Hb) | (msg & Hb)]; rewrite Hb in E;
          [|injection E as <- <-; left; eauto]
    end.
    destruct ok; cbn in E; injection E as <- <-; [|left; eauto].
    right. exists n. auto 10.
  - case_bool_decide as H1; cbn in E; injection E as <- <-; [|left; eauto].
    right. exists n. auto 10.
  - case_bool_decide as H1; cbn in E;
      [injection E as <- <-; right; exists n; auto 10|].
    case_bool_decide as H2; cbn in E; injection E as <- <-;
      [right; exists n; auto 10 | left; eauto].
  - case_bool_decide as H1; cbn in E;
      [injection E as <- <-; right; exists n; auto 10|].
    case_bool_decide as H2; cbn in E;
      [injection E as <- <-; right; exists n; auto 10|].
    case_bool_decide as H3; cbn in E; injection E as <- <-;
      [right; exists n; auto 10 | left; eauto].
  - case_bool_decide as H1; cbn in E;
      [injection E as <- <-; right; exists n; auto 10|].
    case_bool_decide as H2; cbn in E;
      [injection E as <- <-; right; exists n; auto 10|].
    case_bool_decide as H3; cbn in E; injection E as <- <-;
      [right; exists n; auto 10 | left; eauto].
  - cbn in E. injection E as <- <-. right. exists n. auto 10.
Qed.

(** A single guarded write respects the state machine. *)
Lemma respects_update_node (w : Workflow.t) nid n (next : NodeState) :
  Workflow.nodes w !! nid = Some n ->
  IsTerminal (state n) = false ->
  match next with
  | Runnable => parents_succeeded w n
  | Queued => state n = Runnable
  | Running => state n = Queued \/ state n = Runnable
  | Succeeded | Failed =>
      state n = Runnable \/ state n = Queued \/ state n = Running
  | WaitingDeps | Cancelled => True
  end ->
  respects w (Workflow.update_node nid (set_state next) w).1.
Proof.
  intros Hn Hnt Hg.
  assert (Hsettle :
    next = WaitingDeps \/ next = Cancelled \/
    (next = Runnable /\ parents_succeeded w n) ->
    respects w (Workflow.update_node nid (set_state next) w).1).
  { intros H. apply evolves_respects, evolves_of_settles.
    now apply (settles_update_node w nid n). }
  assert (Hdirect :
    (match next with
     | Queued => state n = Runnable
     | Running => state n = Queued \/ state n = Runnable
     | Succeeded | Failed =>
         state n = Runnable \/ state n = Queued \/ state n = Running
     | _ => False
     end) ->
    respects w (Workflow.update_node nid (set_state next) w).1).
  { intros H. split.
    - intros j m Hm. rewrite lookup_update_node, Hm.
      destruct (decide (nid = j)) as [->|Hne]; [|exists m; auto].
      assert (m = n) as -> by congruence.
      exists (set_state next n). split; [reflexivity|]. right.
      split; [assumption|]. cbn [state set_state].
      destruct next; try contradiction; exact H.
    - intros j m Hj Hm. rewrite lookup_update_node, Hj in Hm.
      destruct (decide (nid = j)); discriminate Hm. }
  destruct next; auto.
Qed.

(** A write of a terminal state followed by creation and re-evaluation. *)
Lemma respects_terminal_then_evolves (w w' : Workflow.t) nid n next :
  Workflow.nodes w !! nid = Some n ->
  IsTerminal (state n) = false ->
  next = Succeeded \/ next = Failed ->
  state n = Runnable \/ state n = Queued \/ state n = Running ->
  evolves (Workflow.update_node nid (set_state next) w).1 w' ->
  respects w w'.
Proof.
  intros Hn Hnt Hnext Hact Hev.
  apply evolves_respects in Hev as [Ra Rb]. split.
  - intros j m Hm.
    destruct (Ra j (if decide (nid = j) then set_state next m else m))
      as (m' & Hm' & Hs).
    { rewrite lookup_update_node, Hm. now destruct (decide (nid = j)). }
    exists m'. split; [assumption|].
    destruct (decide (nid = j)) as [->|Hne]; [|exact Hs].
    assert (m = n) as -> by congruence. cbn [state set_state] in Hs.
    right. split; [assumption|].
    destruct Hs as [-> | [Ht _]].
    + destruct Hnext as [-> | ->]; exact Hact.
    + destruct Hnext as [-> | ->]; discriminate Ht.
  - intros j m' Hj Hm'. apply (Rb j m'); [|assumption].
    rewrite lookup_update_node, Hj. now destruct (decide (nid = j)).
Qed.

#[local] Instance respects_refl : Reflexive respects.
Proof. intros w. apply evolves_respects. reflexivity. Qed.

Lemma respects_SetState nid next w :
  respects w (Workflow.SetState nid next w).1.
Proof.
  destruct (SetState_cases nid next w)
    as [[r ->] | (n & Hn & _ & Hnt & Hg & ->)]; [reflexivity|].
  now apply (respects_update_node w nid n).
Qed.

(** [SetState] to a terminal state, then whatever creates and settles. *)
Lemma respects_SetState_then {A} nid next (k : Workflow.M A) w :
  next = Succeeded \/ next = Failed ->
  rel evolves k ->
  respects w (Workflow.bind (Workflow.SetState nid next) (fun _ => k) w).1.
Proof.
  intros Hnext Hk. unfold Workflow.bind.
  destruct (SetState_cases nid next w)
    as [[r ->] | (n & Hn & _ & Hnt & Hg & ->)].
  - destruct r; [|reflexivity]. apply evolves_respects, Hk.
  - apply (respects_terminal_then_evolves w _ nid n next);
      [exact Hn | exact Hnt | exact Hnext
      | destruct Hnext as [-> | ->]; exact Hg | apply Hk].
Qed.

Lemma bind_assoc {A B C} (m : Workflow.M A) (f : A -> Workflow.M B)
    (g : B -> Workflow.M C) (w : Workflow.t) :
  Workflow.bind (Workflow.bind m f) g w
  = Workflow.bind m (fun a => Workflow.bind (f a) g) w.
Proof.
  unfold Workflow.bind. destruct (m w) as [w1 [a|msg]]; reflexivity.
Qed.

Lemma rel_RefreshRunnable_ret :
  rel settles (Workflow.bind Workflow.RefreshRunnable
                 (fun _ => Workflow.ret ())).
Proof.
  apply rel_bind; [apply _ | apply rel_RefreshRunnable|].
  intros _. apply rel_ret; apply _.
Qed.

Lemma rel_MarkSucceeded_tail (ty : NodeType) (it : Z) nid :
  rel evolves
    (Workflow.bind
       (if bool_decide (ty = Plan)
        then Workflow.ExpandIterationFromPlan nid
        else if bool_decide (ty = DecideNext)
             then Workflow.bind (Workflow.OnDecideNext nid)
                    (fun _ => Workflow.modify (fun w =>
                       Workflow.set_completed_iters
                         (Z.max (Workflow.completed_iters_ w) (it + 1)) w))
             else Workflow.ret ())
       (fun _ => Workflow.bind Workflow.RefreshRunnable
                   (fun _ => Workflow.ret ()))).
Proof.
  apply rel_evolves_bind_T; [|intros _; apply rel_RefreshRunnable_ret].
  apply rel_if; [apply rel_ExpandIterationFromPlan|].
  apply rel_if; [|apply rel_ret; apply _].
  intros w. unfold Workflow.bind.
  pose proof (rel_OnDecideNext nid w) as H.
  destruct (Workflow.OnDecideNext nid w) as [w1 [[]|msg]]; cbn in *;
    [|exact H].
  now apply (evolves_nodes_eq w w1).
Qed.

Lemma respects_call (c : Workflow.mutator) (w : Workflow.t) :
  respects w (Workflow.call c w).1.
Proof.
  destruct c as [nid|nid|nid|nid|nid| |k]; cbn [Workflow.call].
  - apply respects_SetState.
  - apply respects_SetState.
  - unfold Workflow.MarkSucceeded.
    unfold Workflow.bind at 1, Workflow.node.
    destruct (Workflow.nodes w !! nid) as [n|]; [|reflexivity].
    rewrite !bind_assoc.
    apply respects_SetState_then; [now left|].
    apply rel_MarkSucceeded_tail.
  - unfold Workflow.MarkFailed. rewrite bind_assoc.
    apply respects_SetState_then; [now right|].
    apply rel_evolves_of_T, rel_RefreshRunnable_ret.
  - apply evolves_respects, evolves_of_settles, rel_Cancel.
  - apply evolves_respects, evolves_of_settles, rel_RefreshRunnable_ret.
  - apply evolves_respects, evolves_of_settles, rel_PruneAfterStop.
Qed.

(** C2. Whatever mutator is called on whatever workflow, exception or not,
    every stored node [n] is still stored afterwards, as [n'], and: a node
    in a terminal state keeps its state; it became [Runnable] only with all
    its parents [Succeeded]; [Queued] only from [Runnable]; [Running] only
    from [Queued] or [Runnable]; [Succeeded] or [Failed] only from
    [Runnable], [Queued] or [Running]; [Cancelled] only from a state that is
    not terminal. *)
Theorem mutators_respect_state_machine (c : Workflow.mutator)
    (w : Workflow.t) (nid : Z) (n : Node) :
  Workflow.nodes w !! nid = Some n ->
  exists n',
    Workflow.nodes (Workflow.call c w).1 !! nid = Some n' /\
    (IsTerminal (state n) = true -> state n' = state n) /\
    (state n' = Runnable ->
       state n = Runnable \/ parents_succeeded (Workflow.call c w).1 n') /\
    (state n' = Queued -> state n = Queued \/ state n = Runnable) /\
    (state n' = Running ->
       state n = Running \/ state n = Queued \/ state n = Runnable) /\
    (state n' = Succeeded ->
       state n = Succeeded \/
       state n = Runnable \/ state n = Queued \/ state n = Running) /\
    (state n' = Failed ->
       state n = Failed \/
       state n = Runnable \/ state n = Queued \/ state n = Running) /\
    (state n' = Cancelled ->
       state n = Cancelled \/ IsTerminal (state n) = false).
Proof.
  intros Hn. destruct (respects_call c w) as [Hold _].
  destruct (Hold nid n Hn) as (n' & Hn' & Hs). exists n'.
  split; [exact Hn'|].
  destruct Hs as [Hs | [Hnt Hp]].
  - rewrite Hs. repeat split; auto.
  - split; [intros Ht; congruence|].
    repeat split; intros Hs'; rewrite Hs' in Hp; right; tauto.
Qed.

Lemma mutators_respect_state_machine_witness :
  exists n',
    Workflow.nodes
      (Workflow.call (Workflow.CallMarkSucceeded 1) Examples.wf_new).1 !! 1
    = Some n' /\ state n' = Succeeded.
Proof.
  destruct (mutators_respect_state_machine (Workflow.CallMarkSucceeded 1)
              Examples.wf_new 1
              Examples.root_plan)
    as (n' & Hn' & _).
  { vm_compute. reflexivity. }
  exists n'. split; [exact Hn'|].
  vm_compute in Hn'. injection Hn' as <-. reflexivity.
Defined.

(** ** One aggregate and one decision per iteration *)

#[local] Instance plain_growth_preorder : PreOrder plain_growth.
Proof.
  split.
  - intros w. split; [auto|]. intros nid.
    destruct (Workflow.nodes w !! nid) as [n|] eqn:E.
    + exists n. auto.
    + intros n' H. discriminate H.
  - intros w1 w2 w3 [D12 H12] [D23 H23]. split; [auto|]. intros nid.
    specialize (H12 nid). specialize (H23 nid).
    destruct (Workflow.nodes w1 !! nid) as [n1|] eqn:E1.
    + destruct H12 as (n2 & E2 & Ht & Hi). rewrite E2 in H23.
      destruct H23 as (n3 & E3 & Ht3 & Hi3).
      exists n3. split; [assumption|]. split; congruence.
    + intros n3 E3. destruct (Workflow.nodes w2 !! nid) as [n2|] eqn:E2.
      * destruct H23 as (n3' & E3' & Ht3 & Hi3).
        assert (n3' = n3) as -> by congruence.
        rewrite Ht3. now apply H12.
      * now apply H23.
Qed.

Lemma plain_growth_same_nodes (w w' : Workflow.t) :
  Workflow.nodes w' = Workflow.nodes w ->
  (Workflow.done_ w = true -> Workflow.done_ w' = true) ->
  plain_growth w w'.
Proof.
  intros H Hd. split; [assumption|]. intros nid. rewrite H.
  destruct (Workflow.nodes w !! nid) as [n|].
  - exists n. auto.
  - intros n' Hn. discriminate Hn.
Qed.

Lemma rel_reads {A} (R : relation Workflow.t) `{!Reflexive R}
    (m : Workflow.M A) :
  (forall w, (m w).1 = w) -> rel R m.
Proof. intros H w. rewrite H. reflexivity. Qed.

Lemma rel_DepsSatisfied (R : relation Workflow.t) `{!Reflexive R} n :
  rel R (Workflow.DepsSatisfied n).
Proof. apply rel_reads; [apply _|]. intros w. apply DepsSatisfied_reads. Qed.

Lemma plain_update_node nid (f : Node -> Node) :
  (forall n, type (f n) = type n /\ iter (f n) = iter n) ->
  rel plain_growth (Workflow.update_node nid f).
Proof.
  intros Hf w. split; [auto|]. intros j. rewrite lookup_update_node.
  destruct (Workflow.nodes w !! j) as [n|] eqn:E.
  - destruct (decide (nid = j)); cbn; [|eauto].
    exists (f n). split; [reflexivity | apply Hf].
  - destruct (decide (nid = j)); intros n' H; discriminate H.
Qed.

Lemma plain_AddNode (n : Node) :
  type n <> Aggregate -> type n <> DecideNext ->
  rel plain_growth (Workflow.AddNode n).
Proof.
  intros H1 H2 w.
  destruct (AddNode_cases n w) as [[Hf ->] | [_ ->]]; cbn [fst].
  - split; [now destruct (bool_decide (id n = 0))|].
    intros j. cbn [Workflow.nodes Workflow.set_nodes].
    match type of Hf with
    | Workflow.nodes w !! id ?n1 = None => set (n1' := n1) in *
    end.
    destruct (Workflow.nodes w !! j) as [m|] eqn:E.
    + exists m. split; [|auto]. rewrite lookup_insert_ne; [assumption|].
      intros Heq. rewrite Heq, E in Hf. discriminate Hf.
    + intros n'. destruct (decide (id n1' = j)) as [Hj|Hj].
      * rewrite Hj, lookup_insert_eq. intros [= <-].
        subst n1'. repeat case_bool_decide; cbn; auto.
      * rewrite lookup_insert_ne by assumption. rewrite E. discriminate.
  - apply plain_growth_same_nodes; now destruct (bool_decide (id n = 0)).
Qed.

Ltac rel_plain :=
  repeat first
    [ progress cbv zeta
    | apply rel_get; apply _
    | apply rel_node; apply _
    | apply rel_ret; apply _
    | apply rel_throw; apply _
    | apply rel_require; apply _
    | apply rel_DepsSatisfied; apply _
    | apply plain_update_node; intros ?; split; reflexivity
    | apply plain_AddNode; discriminate
    | (intros ?; apply plain_growth_same_nodes; [reflexivity | auto])
    | apply rel_if
    | apply rel_foldM; [apply _ | intros ? ?]
    | apply rel_bind; [apply _ | | intros ?] ].

Lemma plain_SetState nid next : rel plain_growth (Workflow.SetState nid next).
Proof. unfold Workflow.SetState. destruct next; rel_plain. Qed.

Lemma plain_refresh_node newly nid :
  rel plain_growth (Workflow.refresh_node newly nid).
Proof. unfold Workflow.refresh_node. rel_plain. Qed.

Lemma plain_RefreshRunnable : rel plain_growth Workflow.RefreshRunnable.
Proof.
  unfold Workflow.RefreshRunnable.
  apply rel_bind; [apply _ | apply rel_get; apply _ | intros w0].
  apply rel_foldM; [apply _ | intros ? ?; apply plain_refresh_node].
Qed.

Lemma plain_PruneAfterStop k : rel plain_growth (Workflow.PruneAfterStop k).
Proof.
  unfold Workflow.PruneAfterStop.
  apply rel_bind; [apply _ | apply rel_get; apply _ | intros w0].
  apply rel_bind; [apply _ | | intros _; apply rel_ret; apply _].
  apply rel_bind; [apply _ | | intros _; apply plain_RefreshRunnable].
  apply rel_forM_; [apply _ | intros x].
  unfold Workflow.prune_node. rel_plain.
Qed.

Lemma plain_Cancel nid : rel plain_growth (Workflow.Cancel nid).
Proof.
  unfold Workflow.Cancel.
  apply rel_bind; [apply _ | apply rel_node; apply _ | intros n].
  apply rel_if; [apply rel_ret; apply _|].
  apply rel_bind; [apply _ | | intros _; apply rel_ret; apply _].
  apply rel_bind; [apply _ | | intros _; apply plain_RefreshRunnable].
  apply plain_update_node. intros ?; split; reflexivity.
Qed.

Lemma plain_AddEdge from to : rel plain_growth (Workflow.AddEdge from to).
Proof. unfold Workflow.AddEdge. rel_plain. Qed.

Lemma plain_PopulatePreferenceListForNode nid :
  rel plain_growth (Workflow.PopulatePreferenceListForNode nid).
Proof.
  intros w. unfold Workflow.PopulatePreferenceListForNode, Workflow.bind.
  cbn [Workflow.get]. destruct (Workflow.provider_config_ w).
  - apply plain_update_node. intros n. split; reflexivity.
  - reflexivity.
Qed.

Lemma plain_InitializeStateFromDeps nid :
  rel plain_growth (Workflow.InitializeStateFromDeps nid).
Proof. unfold Workflow.InitializeStateFromDeps. rel_plain. Qed.

Lemma plain_NewNodeId : rel plain_growth Workflow.NewNodeId.
Proof. intros w. now apply plain_growth_same_nodes. Qed.

Lemma plain_expand_subquery embed_id it p acc q :
  rel plain_growth (Workflow.expand_subquery embed_id it p acc q).
Proof.
  unfold Workflow.expand_subquery.
  repeat first
    [ progress cbv zeta
    | apply rel_get; apply _
    | apply rel_ret; apply _
    | apply plain_NewNodeId
    | apply plain_AddNode; discriminate
    | apply plain_PopulatePreferenceListForNode
    | apply plain_AddEdge
    | apply rel_bind; [apply _ | | intros ?] ].
Qed.

Lemma plain_expand_pdf plan_node it acc p :
  rel plain_growth (Workflow.expand_pdf plan_node it acc p).
Proof.
  unfold Workflow.expand_pdf.
  repeat first
    [ progress cbv zeta
    | apply rel_get; apply _
    | apply rel_ret; apply _
    | apply plain_NewNodeId
    | apply plain_AddNode; discriminate
    | apply plain_PopulatePreferenceListForNode
    | apply plain_AddEdge
    | apply rel_if
    | apply rel_foldM; [apply _ | intros ? ?; apply plain_expand_subquery]
    | apply rel_bind; [apply _ | | intros ?] ].
Qed.

Lemma plain_OnDecideNext nid : rel plain_growth (Workflow.OnDecideNext nid).
Proof.
  unfold Workflow.OnDecideNext.
  apply rel_bind; [apply _ | apply rel_node; apply _ | intros dn].
  apply rel_bind; [apply _ | apply rel_get; apply _ | intros w0].
  destruct (Workflow.ComputeDecideAction w0 (iter dn)).
  - apply rel_bind; [apply _ | | intros _; apply plain_PruneAfterStop].
    intros w. now apply plain_growth_same_nodes.
  - repeat first
      [ progress cbv zeta
      | apply plain_NewNodeId
      | apply plain_AddNode; discriminate
      | apply plain_PopulatePreferenceListForNode
      | apply plain_AddEdge
      | apply plain_InitializeStateFromDeps
      | apply rel_bind; [apply _ | | intros ?] ].
Qed.

Lemma plain_growth_kind (w w' : Workflow.t) ty i n' :
  plain_growth w w' -> ty = Aggregate \/ ty = DecideNext ->
  Workflow.nodes w' !! i = Some n' -> type n' = ty ->
  exists n, Workflow.nodes w !! i = Some n /\ type n = ty /\ iter n = iter n'.
Proof.
  intros [_ Hp] Hty Hn' Ht. specialize (Hp i).
  destruct (Workflow.nodes w !! i) as [n|].
  - destruct Hp as (n2 & Hn2 & Ht2 & Hi2).
    assert (n2 = n') as -> by congruence.
    exists n. split; [reflexivity|]. split; congruence.
  - destruct (Hp n' Hn') as [H1 H2]. destruct Hty; congruence.
Qed.

Lemma plain_growth_has_kind (w w' : Workflow.t) ty k :
  plain_growth w w' -> has_kind ty k w -> has_kind ty k w'.
Proof.
  intros [_ Hp] (i & n & Hn & Ht & Hi). specialize (Hp i). rewrite Hn in Hp.
  destruct Hp as (n' & Hn' & Ht' & Hi'). exists i, n'.
  split; [assumption|]. split; congruence.
Qed.

Lemma plain_growth_no_kind (w w' : Workflow.t) ty k :
  plain_growth w w' -> ty = Aggregate \/ ty = DecideNext ->
  ~ has_kind ty k w -> ~ has_kind ty k w'.
Proof.
  intros Hp Hty Hno (i & n' & Hn' & Ht & Hi). apply Hno.
  destruct (plain_growth_kind w w' ty i n' Hp Hty Hn' Ht)
    as (n & Hn & Ht0 & Hi0).
  exists i, n. split; [assumption|]. split; congruence.
Qed.

Lemma plain_growth_one_per_iteration (w w' : Workflow.t) ty :
  plain_growth w w' -> ty = Aggregate \/ ty = DecideNext ->
  one_per_iteration ty w -> one_per_iteration ty w'.
Proof.
  intros Hp Hty H1 i j ni nj Hi Hj Hti Htj Hit.
  destruct (plain_growth_kind w w' ty i ni Hp Hty Hi Hti) as (mi & ? & ? & ?).
  destruct (plain_growth_kind w w' ty j nj Hp Hty Hj Htj) as (mj & ? & ? & ?).
  apply (H1 i j mi mj); congruence.
Qed.

Lemma plain_growth_inv (w w' : Workflow.t) :
  plain_growth w w' -> aggregate_decide_inv w -> aggregate_decide_inv w'.
Proof.
  intros Hp (Ha & Hd & Hda). split; [|split].
  - apply (plain_growth_one_per_iteration w w'); auto.
  - apply (plain_growth_one_per_iteration w w'); auto.
  - intros k (i & n' & Hn' & Ht & Hi).
    destruct (plain_growth_kind w w' DecideNext i n' Hp (or_intror eq_refl)
                Hn' Ht) as (n & Hn & Ht0 & Hi0).
    apply (plain_growth_has_kind w w'); [assumption|].
    apply Hda. exists i, n. split; [assumption|]. split; congruence.
Qed.

Lemma has_aggregate_spec (it : Z) (w : Workflow.t) :
  Workflow.has_aggregate it w = true <-> has_kind Aggregate it w.
Proof.
  unfold Workflow.has_aggregate, has_kind. rewrite existsb_exists. split.
  - intros (n & Hin & Hb). apply andb_true_iff in Hb as [H1 H2].
    apply bool_decide_eq_true in H1, H2.
    apply list_elem_of_In, list_elem_of_fmap in Hin as ([i n'] & -> & Hin).
    apply elem_of_map_to_list in Hin. exists i, n'. auto.
  - intros (i & n & Hn & Ht & Hi). exists n. split.
    + apply list_elem_of_In, list_elem_of_fmap. exists (i, n).
      split; [reflexivity|]. now apply elem_of_map_to_list.
    + now rewrite !bool_decide_eq_true_2.
Qed.

Lemma hoare_of_rel {A} (R : relation Workflow.t) (P Q : Workflow.t -> Prop)
    (m : Workflow.M A) :
  rel R m -> (forall w w', P w -> R w w' -> Q w') ->
  hoare P m (fun _ => Q) Q.
Proof.
  intros Hm HR w HP. specialize (Hm w).
  destruct (m w) as [w' [a|msg]]; cbn in *; eauto.
Qed.

Lemma hoare_ret {A} (P : Workflow.t -> Prop) (E : Workflow.t -> Prop) (a : A) :
  hoare P (Workflow.ret a) (fun _ => P) E.
Proof. intros w HP. exact HP. Qed.

(** Storing the aggregate of an iteration that has neither an aggregate nor
    a decision node. *)
Lemma AddNode_aggregate (n : Node) :
  type n = Aggregate ->
  hoare (fun w => aggregate_decide_inv w /\
                  ~ has_kind Aggregate (iter n) w /\
                  ~ has_kind DecideNext (iter n) w)
        (Workflow.AddNode n)
        (fun _ w => aggregate_decide_inv w /\
                    has_kind Aggregate (iter n) w /\
                    ~ has_kind DecideNext (iter n) w)
        aggregate_decide_inv.
Proof.
  intros Hty w ((Ha & Hd & Hda) & Hna & Hnd).
  destruct (AddNode_cases n w) as [[Hf ->] | [_ ->]].
  2:{ apply (plain_growth_inv w); [|repeat split; assumption].
      apply plain_growth_same_nodes; now destruct (bool_decide (id n = 0)). }
  match type of Hf with
  | Workflow.nodes w !! id ?n1 = None => set (n1' := n1) in *
  end.
  assert (Ht1 : type n1' = Aggregate /\ iter n1' = iter n).
  { subst n1'. repeat case_bool_decide; cbn; auto. }
  destruct Ht1 as [Ht1 Hi1].
  assert (Hlook : forall j m,
    <[id n1' := n1']> (Workflow.nodes w) !! j = Some m ->
    (j = id n1' /\ m = n1') \/ (j <> id n1' /\ Workflow.nodes w !! j = Some m)).
  { intros j m. destruct (decide (id n1' = j)) as [<-|Hne].
    - rewrite lookup_insert_eq. intros [= <-]. now left.
    - rewrite lookup_insert_ne by assumption. intros H. right. auto. }
  assert (Hkeep : forall ty k, has_kind ty k w ->
    has_kind ty k (Workflow.set_nodes (<[id n1' := n1']> (Workflow.nodes w))
      (if bool_decide (id n = 0) then (Workflow.NewNodeId w).1 else w))).
  { intros ty k (j & m & Hm & Ht & Hi). exists j, m. cbn.
    split; [|auto]. rewrite lookup_insert_ne; [assumption|].
    intros Heq. rewrite Heq, Hm in Hf. discriminate Hf. }
  split; [split; [|split]|split].
  - intros i j ni nj Hi Hj Hti Htj Hit. cbn in Hi, Hj.
    destruct (Hlook i ni Hi) as [[-> ->] | [Hi1' Hi2]];
      destruct (Hlook j nj Hj) as [[-> ->] | [Hj1 Hj2]]; try reflexivity.
    + exfalso. apply Hna. exists j, nj. repeat split; congruence.
    + exfalso. apply Hna. exists i, ni. repeat split; congruence.
    + now apply (Ha i j ni nj).
  - intros i j ni nj Hi Hj Hti Htj Hit. cbn in Hi, Hj.
    destruct (Hlook i ni Hi) as [[-> ->] | [Hi1' Hi2]]; [congruence|].
    destruct (Hlook j nj Hj) as [[-> ->] | [Hj1 Hj2]]; [congruence|].
    now apply (Hd i j ni nj).
  - intros k (j & m & Hm & Ht & Hk). cbn in Hm.
    destruct (Hlook j m Hm) as [[-> ->] | [Hj1 Hj2]]; [congruence|].
    apply Hkeep, Hda. exists j, m. auto.
  - exists (id n1'), n1'. cbn. rewrite lookup_insert_eq. auto.
  - intros (j & m & Hm & Ht & Hk). cbn in Hm.
    destruct (Hlook j m Hm) as [[-> ->] | [Hj1 Hj2]]; [congruence|].
    apply Hnd. exists j, m. auto.
Qed.

Lemma AddNode_decide (n : Node) :
  type n = DecideNext ->
  hoare (fun w => aggregate_decide_inv w /\
                  has_kind Aggregate (iter n) w /\
                  ~ has_kind DecideNext (iter n) w)
        (Workflow.AddNode n)
        (fun _ w => aggregate_decide_inv w)
        aggregate_decide_inv.
Proof.
  intros Hty w ((Ha & Hd & Hda) & Hagg & Hnd).
  destruct (AddNode_cases n w) as [[Hf ->] | [_ ->]].
  2:{ apply (plain_growth_inv w); [|repeat split; assumption].
      apply plain_growth_same_nodes; now destruct (bool_decide (id n = 0)). }
  match type of Hf with
  | Workflow.nodes w !! id ?n1 = None => set (n1' := n1) in *
  end.
  assert (Ht1 : type n1' = DecideNext /\ iter n1' = iter n).
  { subst n1'. repeat case_bool_decide; cbn; auto. }
  destruct Ht1 as [Ht1 Hi1].
  assert (Hlook : forall j m,
    <[id n1' := n1']> (Workflow.nodes w) !! j = Some m ->
    (j = id n1' /\ m = n1') \/ (j <> id n1' /\ Workflow.nodes w !! j = Some m)).
  { intros j m. destruct (decide (id n1' = j)) as [<-|Hne].
    - rewrite lookup_insert_eq. intros [= <-]. now left.
    - rewrite lookup_insert_ne by assumption. intros H. right. auto. }
  assert (Hkeep : forall ty k, has_kind ty k w ->
    has_kind ty k (Workflow.set_nodes (<[id n1' := n1']> (Workflow.nodes w))
      (if bool_decide (id n = 0) then (Workflow.NewNodeId w).1 else w))).
  { intros ty k (j & m & Hm & Ht & Hi). exists j, m. cbn.
    split; [|auto]. rewrite lookup_insert_ne; [assumption|].
    intros Heq. rewrite Heq, Hm in Hf. discriminate Hf. }
  split; [|split].
  - intros i j ni nj Hi Hj Hti Htj Hit. cbn in Hi, Hj.
    destruct (Hlook i ni Hi) as [[-> ->] | [Hi1' Hi2]]; [congruence|].
    destruct (Hlook j nj Hj) as [[-> ->] | [Hj1 Hj2]]; [congruence|].
    now apply (Ha i j ni nj).
  - intros i j ni nj Hi Hj Hti Htj Hit. cbn in Hi, Hj.
    destruct (Hlook i ni Hi) as [[-> ->] | [Hi1' Hi2]];
      destruct (Hlook j nj Hj) as [[-> ->] | [Hj1 Hj2]]; try reflexivity.
    + exfalso. apply Hnd. exists j, nj. repeat split; congruence.
    + exfalso. apply Hnd. exists i, ni. repeat split; congruence.
    + now apply (Hd i j ni nj).
  - intros k (j & m & Hm & Ht & Hk). cbn in Hm.
    destruct (Hlook j m Hm) as [[-> ->] | [Hj1 Hj2]].
    + rewrite <- Hk, Hi1. now apply Hkeep.
    + apply Hkeep, Hda. exists j, m. auto.
Qed.

Lemma hoare_of_rel_post {A} (R : relation Workflow.t)
    (P Q E : Workflow.t -> Prop) (m : Workflow.M A) :
  rel R m -> (forall w w', P w -> R w w' -> Q w' /\ E w') ->
  hoare P m (fun _ => Q) E.
Proof.
  intros Hm HR w HP. specialize (Hm w).
  destruct (m w) as [w' [a|msg]]; cbn in *; now apply (HR w w').
Qed.

Lemma keeps_of_plain {A} (m : Workflow.M A) :
  rel plain_growth m ->
  hoare aggregate_decide_inv m (fun _ => aggregate_decide_inv)
        aggregate_decide_inv.
Proof.
  intros Hm. apply (hoare_of_rel plain_growth); [assumption|].
  intros w w' Hi Hp. now apply (plain_growth_inv w).
Qed.

Lemma keeps_ExpandIterationFromPlan plan_node :
  hoare aggregate_decide_inv (Workflow.ExpandIterationFromPlan plan_node)
        (fun _ => aggregate_decide_inv) aggregate_decide_inv.
Proof.
  unfold Workflow.ExpandIterationFromPlan.
  eapply hoare_bind; [apply keeps_of_plain, rel_node; apply _|].
  intros plan. cbv zeta.
  eapply hoare_bind with (Q := fun w0 w => aggregate_decide_inv w /\ w0 = w).
  { intros w Hw. cbn. auto. }
  intros w0.
  destruct (WorkloadParams.max_iters (Workflow.params_ w0) <=? iter plan).
  { intros w [Hw _]. exact Hw. }
  destruct (Workflow.has_aggregate (iter plan) w0) eqn:Eagg.
  { intros w [Hw _]. exact Hw. }
  set (K := fun w => aggregate_decide_inv w /\
                     ~ has_kind Aggregate (iter plan) w /\
                     ~ has_kind DecideNext (iter plan) w).
  assert (HK : forall w, aggregate_decide_inv w /\ w0 = w -> K w).
  { intros w [Hw <-]. split; [assumption|].
    assert (Hna : ~ has_kind Aggregate (iter plan) w0).
    { intros H. apply has_aggregate_spec in H. congruence. }
    split; [assumption|]. intros H. apply Hna. now apply Hw. }
  assert (Hplain : forall {A} (m : Workflow.M A),
             rel plain_growth m ->
             hoare K m (fun _ => K) aggregate_decide_inv).
  { intros A m Hm. apply (hoare_of_rel_post plain_growth); [assumption|].
    intros w w' (Hi & Hna & Hnd) Hp.
    assert (aggregate_decide_inv w') by now apply (plain_growth_inv w).
    split; [|assumption]. split; [assumption|].
    split; apply (plain_growth_no_kind w w'); auto. }
  eapply hoare_weaken with (P := K) (Q := fun _ => aggregate_decide_inv)
                           (E := aggregate_decide_inv); auto.
  eapply hoare_bind.
  { apply Hplain. apply rel_foldM; [apply _ | intros ? ?; apply plain_expand_pdf]. }
  intros extract_nodes.
  eapply hoare_bind; [apply Hplain, plain_NewNodeId | intros agg_id].
  eapply hoare_bind; [apply Hplain, plain_NewNodeId | intros decide_id].
  eapply hoare_bind.
  { apply (AddNode_aggregate
             (Workflow.new_node agg_id (Workflow.id_ w0) Aggregate
                (ResourceForType Aggregate) (iter plan) (-1) (-1))).
    reflexivity. }
  intros agg_ref.
  eapply hoare_bind.
  { apply (AddNode_decide
             (Workflow.new_node decide_id (Workflow.id_ w0) DecideNext
                (ResourceForType DecideNext) (iter plan) (-1) (-1))).
    reflexivity. }
  intros decide_ref. apply keeps_of_plain.
  apply rel_bind; [apply _ | | intros _; apply plain_InitializeStateFromDeps].
  apply rel_bind; [apply _ | | intros _; apply plain_InitializeStateFromDeps].
  apply rel_bind; [apply _ | | intros _; apply plain_AddEdge].
  apply rel_bind; [apply _ | | intros _].
  - apply rel_bind; [apply _ | | intros _];
      apply plain_PopulatePreferenceListForNode.
  - destruct extract_nodes; [apply plain_AddEdge|].
    apply rel_forM_; [apply _ | intros x; apply plain_AddEdge].
Qed.

Lemma keeps_call (c : Workflow.mutator) :
  hoare aggregate_decide_inv (Workflow.call c)
        (fun _ => aggregate_decide_inv) aggregate_decide_inv.
Proof.
  destruct c as [nid|nid|nid|nid|nid| |k]; cbn [Workflow.call].
  - apply keeps_of_plain, plain_SetState.
  - apply keeps_of_plain, plain_SetState.
  - unfold Workflow.MarkSucceeded.
    eapply hoare_bind; [apply keeps_of_plain, rel_node; apply _ | intros n].
    cbv zeta.
    eapply hoare_bind with (Q := fun _ => aggregate_decide_inv);
      [|intros _; apply hoare_ret].
    eapply hoare_bind with (Q := fun _ => aggregate_decide_inv);
      [|intros _; apply keeps_of_plain, plain_RefreshRunnable].
    eapply hoare_bind with (Q := fun _ => aggregate_decide_inv);
      [apply keeps_of_plain, plain_SetState | intros _].
    destruct (bool_decide (type n = Plan));
      [apply keeps_ExpandIterationFromPlan|].
    destruct (bool_decide (type n = DecideNext)); [|apply hoare_ret].
    apply keeps_of_plain.
    apply rel_bind; [apply _ | apply plain_OnDecideNext | intros _].
    intros w. now apply plain_growth_same_nodes.
  - apply keeps_of_plain. unfold Workflow.MarkFailed.
    apply rel_bind; [apply _ | | intros _; apply rel_ret; apply _].
    apply rel_bind; [apply _ | apply plain_SetState |].
    intros _; apply plain_RefreshRunnable.
  - apply keeps_of_plain, plain_Cancel.
  - apply keeps_of_plain.
    apply rel_bind; [apply _ | apply plain_RefreshRunnable |].
    intros _; apply rel_ret; apply _.
  - apply keeps_of_plain, plain_PruneAfterStop.
Qed.

Lemma inv_call (c : Workflow.mutator) (w : Workflow.t) :
  aggregate_decide_inv w -> aggregate_decide_inv (Workflow.call c w).1.
Proof.
  intros Hw. pose proof (keeps_call c w Hw) as H.
  destruct (Workflow.call c w) as [w' [a|msg]]; exact H.
Qed.

Lemma inv_calls (cs : list Workflow.mutator) (w : Workflow.t) :
  aggregate_decide_inv w -> aggregate_decide_inv (Workflow.calls cs w).
Proof.
  revert w. induction cs as [|c cs IH]; intros w Hw; [exact Hw|].
  apply IH. now apply inv_call.
Qed.

Lemma plain_constructor params : rel plain_growth (Workflow.constructor params).
Proof.
  unfold Workflow.constructor, Workflow.EnsureInitialPlan.
  repeat first
    [ progress cbv zeta
    | apply rel_get; apply _
    | apply rel_ret; apply _
    | apply rel_throw; apply _
    | apply plain_NewNodeId
    | apply plain_RefreshRunnable
    | apply plain_AddNode; discriminate
    | apply plain_PopulatePreferenceListForNode
    | apply rel_if
    | apply rel_bind; [apply _ | | intros ?] ].
Qed.

Lemma inv_construct wid params pc :
  aggregate_decide_inv (Workflow.construct wid params pc).1.
Proof.
  unfold Workflow.construct.
  set (w0 := Workflow.mk wid params (Some pc) ∅ 1 false 0 None).
  apply (plain_growth_inv w0); [apply plain_constructor|].
  split; [|split].
  - intros i j ni nj Hi. cbn in Hi. rewrite lookup_empty in Hi. discriminate.
  - intros i j ni nj Hi. cbn in Hi. rewrite lookup_empty in Hi. discriminate.
  - intros k (i & n & Hn & _). cbn in Hn. rewrite lookup_empty in Hn.
    discriminate.
Qed.

Lemma reachable_inv (w : Workflow.t) : reachable w -> aggregate_decide_inv w.
Proof.
  intros (wid & params & pc & cs & _ & ->).
  apply inv_calls, inv_construct.
Qed.

(** The guard of the expansion. *)
Lemma ExpandIterationFromPlan_guarded (plan_node : Z) (w : Workflow.t) plan :
  Workflow.nodes w !! plan_node = Some plan ->
  has_kind Aggregate (iter plan) w ->
  Workflow.ExpandIterationFromPlan plan_node w = (w, Workflow.Ok ()).
Proof.
  intros Hp Hagg. apply has_aggregate_spec in Hagg.
  unfold Workflow.ExpandIterationFromPlan, Workflow.bind, Workflow.node.
  rewrite Hp. cbn [Workflow.get]. rewrite Hagg.
  now destruct (_ <=? _).
Qed.

(** C9. Expanding an iteration whose aggregate already exists returns
    normally and leaves the whole workflow as it was, also when the
    expansion is reached by marking the succeeded plan succeeded once more;
    and every workflow obtained from the constructor by mutator calls has at
    most one [Aggregate] and at most one [DecideNext] node per iteration. *)
Theorem expansion_once_per_iteration :
  (forall (w : Workflow.t) (plan_node : Z) (plan : Node),
      Workflow.nodes w !! plan_node = Some plan ->
      has_kind Aggregate (iter plan) w ->
      Workflow.ExpandIterationFromPlan plan_node w = (w, Workflow.Ok ())) /\
  (forall (w : Workflow.t) (plan_node : Z) (plan : Node),
      Workflow.nodes w !! plan_node = Some plan ->
      type plan = Plan -> state plan = Succeeded ->
      has_kind Aggregate (iter plan) w ->
      Workflow.nodes (Workflow.MarkSucceeded plan_node w).1
      = Workflow.nodes (Workflow.RefreshRunnable w).1) /\
  (forall w : Workflow.t,
      reachable w ->
      one_per_iteration Aggregate w /\ one_per_iteration DecideNext w).
Proof.
  split; [exact (fun w p n => ExpandIterationFromPlan_guarded p w n)|].
  split.
  - intros w plan_node plan Hp Hty Hst Hagg.
    unfold Workflow.MarkSucceeded.
    unfold Workflow.bind at 1, Workflow.node. rewrite Hp. cbv zeta.
    rewrite Hty, bool_decide_eq_true_2 by reflexivity.
    assert (Hset : Workflow.SetState plan_node Succeeded w = (w, Workflow.Ok ())).
    { unfold Workflow.SetState, Workflow.bind, Workflow.node. rewrite Hp.
      now rewrite bool_decide_eq_true_2. }
    rewrite !bind_assoc.
    rewrite (bind_ok _ _ _ _ _ Hset).
    rewrite (bind_ok _ _ _ _ _
               (ExpandIterationFromPlan_guarded plan_node w plan Hp Hagg)).
    unfold Workflow.bind.
    destruct (Workflow.RefreshRunnable w) as [w' [l|msg]]; reflexivity.
  - intros w Hr. destruct (reachable_inv w Hr) as (Ha & Hd & _). auto.
Qed.

Lemma expansion_once_per_iteration_witness :
  Workflow.ExpandIterationFromPlan 1 Examples.wf_expanded
  = (Examples.wf_expanded, Workflow.Ok ()) /\
  one_per_iteration Aggregate Examples.wf_extracted /\
  one_per_iteration DecideNext Examples.wf_extracted.
Proof.
  destruct expansion_once_per_iteration as (Hguard & _ & Hone).
  split.
  - eapply Hguard; [vm_compute; reflexivity|].
    exists 12. eexists. split; [vm_compute; reflexivity|].
    split; vm_compute; reflexivity.
  - apply Hone.
    exists 1, (WorkloadParams.mk 2 1 2 1), Examples.providers,
      (Workflow.CallMarkSucceeded 1 :: (Workflow.CallMarkSucceeded <$> seqZ 2 10)).
    split; vm_compute; reflexivity.
Defined.

(** ** Running the calls that cannot fail *)

Lemma set_nodes_same (w : Workflow.t) : Workflow.set_nodes (Workflow.nodes w) w = w.
Proof. now destruct w. Qed.

Lemma PopulatePreferenceListForNode_eq (nid : Z) (w : Workflow.t) :
  Workflow.PopulatePreferenceListForNode nid w
  = (Workflow.set_nodes (alter (populate w) nid (Workflow.nodes w)) w,
     Workflow.Ok ()).
Proof.
  unfold Workflow.PopulatePreferenceListForNode, Workflow.bind, populate.
  cbn [Workflow.get]. destruct (Workflow.provider_config_ w); [reflexivity|].
  cbn. rewrite alter_id by auto. now rewrite set_nodes_same.
Qed.

Lemma AddNode_stored (n : Node) (w : Workflow.t) :
  id n <> 0 -> workflow_id n = Workflow.id_ w ->
  Workflow.nodes w !! id n = None ->
  Workflow.AddNode n w
  = (Workflow.set_nodes (<[id n := n]> (Workflow.nodes w)) w,
     Workflow.Ok (id n)).
Proof.
  intros Hid Hw Hf. unfold Workflow.AddNode, Workflow.bind.
  rewrite bool_decide_eq_false_2 by assumption. cbn.
  assert (Hn : (if bool_decide (workflow_id n = 0)
                then set_workflow_id (Workflow.id_ w) n else n) = n).
  { case_bool_decide as H0; [|reflexivity].
    destruct n; cbn in *. now rewrite <- Hw, H0. }
  rewrite Hn, Hf. reflexivity.
Qed.

Lemma AddEdge_eq (from to : Z) (w : Workflow.t) :
  is_Some (Workflow.nodes w !! from) -> is_Some (Workflow.nodes w !! to) ->
  Workflow.AddEdge from to w
  = (Workflow.set_nodes
       (alter (fun b => set_deps (deps b ++ [from]) b) to
          (alter (fun a => set_children (children a ++ [to]) a) from
             (Workflow.nodes w))) w,
     Workflow.Ok ()).
Proof.
  intros [a Ha] [b Hb]. unfold Workflow.AddEdge, Workflow.bind, Workflow.node.
  rewrite Ha, Hb. reflexivity.
Qed.

Lemma SetState_terminal_from_active (nid : Z) (n : Node) (next : NodeState)
    (w : Workflow.t) :
  Workflow.nodes w !! nid = Some n -> IsActive (state n) = true ->
  next = Succeeded \/ next = Failed ->
  Workflow.SetState nid next w
  = ((Workflow.update_node nid (set_state next) w).1, Workflow.Ok ()).
Proof.
  intros Hn Ha Hnext. unfold Workflow.SetState, Workflow.bind, Workflow.node.
  rewrite Hn.
  destruct Hnext as [-> | ->]; destruct (state n); try discriminate Ha;
    reflexivity.
Qed.

(** ** The decision reads no state *)

Lemma evidence_nodes_alter (f : Node -> Node) (nid : Z) (w : Workflow.t)
    (k : Z) :
  (forall n, iter (f n) = iter n /\ type (f n) = type n /\
             evidence_of (f n) = evidence_of n) ->
  evidence_of <$> evidence_nodes
                    (Workflow.set_nodes (alter f nid (Workflow.nodes w)) w) k
  ≡ₚ evidence_of <$> evidence_nodes w k.
Proof.
  intros Hf. unfold evidence_nodes. cbn [Workflow.nodes Workflow.set_nodes].
  destruct (Workflow.nodes w !! nid) as [n|] eqn:En.
  - assert (Halt : alter f nid (Workflow.nodes w)
                   = <[nid := f n]> (delete nid (Workflow.nodes w))).
    { apply map_eq. intros j. destruct (decide (nid = j)) as [<-|Hne].
      - now rewrite lookup_alter_eq, lookup_insert_eq, En.
      - now rewrite lookup_alter_ne, lookup_insert_ne, lookup_delete_ne. }
    rewrite Halt.
    rewrite (map_to_list_insert (delete nid (Workflow.nodes w)) nid (f n))
      by apply lookup_delete_eq.
    rewrite <- (map_to_list_delete (Workflow.nodes w) nid n En).
    rewrite !fmap_cons. cbn [snd]. rewrite !filter_cons.
    destruct (Hf n) as (Hi & Ht & He).
    destruct (decide (iter n = k /\ type n = ExtractEvidence)) as [Hp|Hp].
    + rewrite decide_True by (rewrite Hi, Ht; exact Hp).
      rewrite !fmap_cons, He. reflexivity.
    + rewrite decide_False by (rewrite Hi, Ht; exact Hp). reflexivity.
  - assert (Halt : alter f nid (Workflow.nodes w) = Workflow.nodes w).
    { apply map_eq. intros j. destruct (decide (nid = j)) as [<-|Hne].
      - now rewrite lookup_alter_eq, En.
      - now rewrite lookup_alter_ne. }
    now rewrite Halt.
Qed.

Lemma ComputeDecideAction_update_state (nid : Z) (s : NodeState)
    (w : Workflow.t) (k : Z) :
  Workflow.ComputeDecideAction (Workflow.update_node nid (set_state s) w).1 k
  = Workflow.ComputeDecideAction w k.
Proof.
  apply ComputeDecideAction_same_evidence; [reflexivity..|].
  apply evidence_nodes_alter. intros n. repeat split.
Qed.

(** ** The pruning loop *)

(** What the loop of [PruneAfterStop] makes of a node once visited. *)
Lemma prune_node_eq (k nid : Z) (n : Node) (w : Workflow.t) :
  Workflow.nodes w !! nid = Some n ->
  Workflow.prune_node k nid w
  = (Workflow.set_nodes
       (alter (fun m => if negb (IsTerminal (state m)) && (k <? iter m)
                        then set_state Cancelled m else m)
              nid (Workflow.nodes w)) w,
     Workflow.Ok ()).
Proof.
  intros Hn. unfold Workflow.prune_node, Workflow.bind, Workflow.node.
  rewrite Hn.
  assert (Hsame : forall g : Node -> Node, g n = n ->
            Workflow.set_nodes (alter g nid (Workflow.nodes w)) w = w).
  { intros g Hg. rewrite alter_id; [apply set_nodes_same|].
    intros x Hx. assert (x = n) as -> by congruence. exact Hg. }
  destruct (IsTerminal (state n)) eqn:Et; cbn.
  { rewrite Hsame; [reflexivity | now rewrite Et]. }
  destruct (k <? iter n) eqn:Ek; cbn.
  - match goal with
    | |- context [alter ?g nid (Workflow.nodes w)] =>
        replace (alter g nid (Workflow.nodes w))
          with (alter (set_state Cancelled) nid (Workflow.nodes w));
          [reflexivity|]
    end.
    apply map_eq. intros j. destruct (decide (nid = j)) as [<-|Hne].
    + rewrite !lookup_alter_eq, Hn. cbn. now rewrite Et, Ek.
    + now rewrite !lookup_alter_ne.
  - rewrite Hsame; [reflexivity | now rewrite Et, Ek].
Qed.

Lemma prune_loop (k : Z) (l : list Z) (w : Workflow.t) :
  (forall j, j ∈ l -> is_Some (Workflow.nodes w !! j)) ->
  exists w',
    Workflow.forM_ l (Workflow.prune_node k) w = (w', Workflow.Ok ()) /\
    same_flags w w' /\
    (forall j, Workflow.nodes w !! j = None -> Workflow.nodes w' !! j = None) /\
    (forall j m, Workflow.nodes w !! j = Some m ->
       exists m', Workflow.nodes w' !! j = Some m' /\
         (j ∈ l -> IsTerminal (state m) = false -> k < iter m ->
          state m' = Cancelled) /\
         (IsTerminal (state m) = true -> state m' = state m) /\
         iter m' = iter m).
Proof.
  revert w. induction l as [|j0 l IH]; intros w Hl.
  - exists w. split; [reflexivity|]. split; [split; reflexivity|].
    split; [auto|]. intros j m Hm. exists m. split; [assumption|].
    split; [|auto]. intros Hin. now apply elem_of_nil in Hin.
  - destruct (Hl j0 (list_elem_of_here _ _)) as [n0 Hn0].
    unfold Workflow.forM_. cbn [Workflow.foldM].
    rewrite (bind_ok _ _ _ _ _ (prune_node_eq k j0 n0 w Hn0)).
    set (g := fun m => if negb (IsTerminal (state m)) && (k <? iter m)
                       then set_state Cancelled m else m).
    set (w1 := Workflow.set_nodes (alter g j0 (Workflow.nodes w)) w).
    assert (Hlook : forall j, Workflow.nodes w1 !! j
                      = if decide (j0 = j) then g <$> Workflow.nodes w !! j
                        else Workflow.nodes w !! j).
    { intros j. subst w1. cbn. destruct (decide (j0 = j)) as [<-|Hne].
      - now rewrite lookup_alter_eq.
      - now rewrite lookup_alter_ne. }
    destruct (IH w1) as (w' & Hrun & [Hd Hs] & Hnone & Hsome).
    { intros j Hj. rewrite Hlook.
      destruct (Hl j (list_elem_of_further _ _ _ Hj)) as [x Hx].
      rewrite Hx. destruct (decide (j0 = j)); cbn; eauto. }
    exists w'. split; [exact Hrun|]. split; [split; assumption|]. split.
    + intros j Hj. apply Hnone. rewrite Hlook, Hj.
      now destruct (decide (j0 = j)).
    + intros j m Hm.
      destruct (Hsome j (if decide (j0 = j) then g m else m))
        as (m' & Hm' & Hc & Ht & Hi).
      { rewrite Hlook, Hm. now destruct (decide (j0 = j)). }
      exists m'. split; [assumption|].
      assert (Hg : forall x, IsTerminal (state x) = true -> g x = x).
      { intros x Hx. unfold g. now rewrite Hx. }
      assert (Hgi : forall x, iter (g x) = iter x).
      { intros x. unfold g. now destruct (_ && _). }
      split; [|split].
      * intros Hin Hnt Hk. destruct (decide (j0 = j)) as [<-|Hne].
        -- rewrite Ht; unfold g; rewrite Hnt;
             destruct (Z.ltb_spec k (iter m)); try lia; reflexivity.
        -- apply Hc; auto.
           apply elem_of_cons in Hin as [Heq | Hin]; [congruence | assumption].
      * intros Hterm. destruct (decide (j0 = j)).
        -- rewrite (Hg m Hterm) in Ht. now apply Ht.
        -- now apply Ht.
      * destruct (decide (j0 = j)); [now rewrite Hi, Hgi | assumption].
Qed.

(** ** Calls that leave the flags alone *)

#[local] Instance same_flags_preorder : PreOrder same_flags.
Proof.
  split.
  - intros w. split; reflexivity.
  - intros w1 w2 w3 [H1 H2] [H3 H4]. split; congruence.
Qed.

Lemma flags_update_node nid f : rel same_flags (Workflow.update_node nid f).
Proof. intros w. split; reflexivity. Qed.

Lemma flags_refresh_node newly nid :
  rel same_flags (Workflow.refresh_node newly nid).
Proof.
  unfold Workflow.refresh_node.
  repeat first
    [ apply rel_node; apply _
    | apply rel_ret; apply _
    | apply rel_DepsSatisfied; apply _
    | apply flags_update_node
    | apply rel_if
    | apply rel_bind; [apply _ | | intros ?] ].
Qed.

Lemma flags_RefreshRunnable : rel same_flags Workflow.RefreshRunnable.
Proof.
  unfold Workflow.RefreshRunnable.
  apply rel_bind; [apply _ | apply rel_get; apply _ | intros w0].
  apply rel_foldM; [apply _ | intros ? ?; apply flags_refresh_node].
Qed.

Lemma settles_terminal (w w' : Workflow.t) j m :
  settles w w' -> Workflow.nodes w !! j = Some m ->
  IsTerminal (state m) = true ->
  exists m', Workflow.nodes w' !! j = Some m' /\ state m' = state m.
Proof.
  intros [_ H] Hm Ht. destruct (H j m Hm) as (m' & Hm' & _ & Hs).
  exists m'. split; [assumption|].
  destruct Hs as [Hs | [Hnt _]]; congruence.
Qed.

Lemma settles_same_nodes (w w' : Workflow.t) :
  Workflow.nodes w' = Workflow.nodes w -> settles w w'.
Proof. intros H. apply (settles_nodes_eq w w w'); [reflexivity | exact H]. Qed.

(** What follows [OnDecideNext] in [MarkSucceeded]. *)
Lemma MarkSucceeded_rest_settles (it : Z) :
  rel settles
    (Workflow.bind
       (Workflow.modify (fun w =>
          Workflow.set_completed_iters
            (Z.max (Workflow.completed_iters_ w) (it + 1)) w))
       (fun _ => Workflow.bind Workflow.RefreshRunnable
                   (fun _ => Workflow.ret ()))).
Proof.
  apply rel_bind; [apply _ | | intros _; apply rel_RefreshRunnable_ret].
  intros w. now apply settles_same_nodes.
Qed.

Lemma MarkSucceeded_rest_flags (it : Z) :
  rel same_flags
    (Workflow.bind
       (Workflow.modify (fun w =>
          Workflow.set_completed_iters
            (Z.max (Workflow.completed_iters_ w) (it + 1)) w))
       (fun _ => Workflow.bind Workflow.RefreshRunnable
                   (fun _ => Workflow.ret ()))).
Proof.
  apply rel_bind; [apply _ | | intros _].
  - intros w. split; reflexivity.
  - apply rel_bind; [apply _ | apply flags_RefreshRunnable|].
    intros _. apply rel_ret; apply _.
Qed.

Lemma MarkSucceeded_rest_plain (it : Z) :
  rel plain_growth
    (Workflow.bind
       (Workflow.modify (fun w =>
          Workflow.set_completed_iters
            (Z.max (Workflow.completed_iters_ w) (it + 1)) w))
       (fun _ => Workflow.bind Workflow.RefreshRunnable
                   (fun _ => Workflow.ret ()))).
Proof.
  apply rel_bind; [apply _ | | intros _].
  - intros w. apply plain_growth_same_nodes; [reflexivity | auto].
  - apply rel_bind; [apply _ | apply plain_RefreshRunnable|].
    intros _. apply rel_ret; apply _.
Qed.

(** [MarkSucceeded] on an active [DecideNext] node, up to [OnDecideNext]. *)
Lemma MarkSucceeded_decide (nid : Z) (n : Node) (w : Workflow.t) :
  Workflow.nodes w !! nid = Some n -> type n = DecideNext ->
  IsActive (state n) = true ->
  Workflow.MarkSucceeded nid w
  = Workflow.bind (Workflow.OnDecideNext nid)
      (fun _ => Workflow.bind
         (Workflow.modify (fun w =>
            Workflow.set_completed_iters
              (Z.max (Workflow.completed_iters_ w) (iter n + 1)) w))
         (fun _ => Workflow.bind Workflow.RefreshRunnable
                     (fun _ => Workflow.ret ())))
      (Workflow.update_node nid (set_state Succeeded) w).1.
Proof.
  intros Hn Hty Ha. unfold Workflow.MarkSucceeded.
  unfold Workflow.bind at 1, Workflow.node. rewrite Hn. cbv zeta.
  rewrite Hty. rewrite bool_decide_eq_false_2 by discriminate.
  rewrite bool_decide_eq_true_2 by reflexivity.
  rewrite !bind_assoc.
  rewrite (bind_ok _ _ _ _ _
             (SetState_terminal_from_active nid n Succeeded w Hn Ha
                (or_introl eq_refl))).
  unfold Workflow.bind.
  destruct (Workflow.OnDecideNext nid _) as [w1 [[]|msg]]; reflexivity.
Qed.

Lemma elem_of_node_ids (w : Workflow.t) (j : Z) :
  j ∈ Workflow.node_ids w <-> is_Some (Workflow.nodes w !! j).
Proof.
  unfold Workflow.node_ids. rewrite list_elem_of_fmap. split.
  - intros ([j' m] & -> & Hin). apply elem_of_map_to_list in Hin.
    cbn. eauto.
  - intros [m Hm]. exists (j, m). split; [reflexivity|].
    now apply elem_of_map_to_list.
Qed.

(** [OnDecideNext] when the decision is [Stop]: the flags are set, the
    pruning loop runs to its end, and a refresh follows. *)
Lemma OnDecideNext_stop (nid : Z) (dn : Node) (w : Workflow.t) :
  Workflow.nodes w !! nid = Some dn ->
  Workflow.ComputeDecideAction w (iter dn) = Stop ->
  exists w2,
    Workflow.OnDecideNext nid w
    = Workflow.bind Workflow.RefreshRunnable (fun _ => Workflow.ret ()) w2 /\
    Workflow.done_ w2 = true /\ Workflow.stop_iter_ w2 = Some (iter dn) /\
    (forall j, Workflow.nodes w !! j = None -> Workflow.nodes w2 !! j = None) /\
    (forall j m, Workflow.nodes w !! j = Some m ->
       exists m', Workflow.nodes w2 !! j = Some m' /\
         (IsTerminal (state m) = false -> iter dn < iter m ->
          state m' = Cancelled) /\
         (IsTerminal (state m) = true -> state m' = state m)).
Proof.
  intros Hdn Hstop.
  set (w1 := Workflow.set_stopped (iter dn) w).
  destruct (prune_loop (iter dn) (Workflow.node_ids w1) w1)
    as (w2 & Hrun & [Hd Hs] & Hnone & Hsome).
  { intros j Hj. now apply elem_of_node_ids. }
  exists w2. split; [|split; [|split; [|split]]].
  - unfold Workflow.OnDecideNext.
    unfold Workflow.bind at 1, Workflow.node. rewrite Hdn.
    unfold Workflow.bind at 1. cbn [Workflow.get]. rewrite Hstop.
    unfold Workflow.bind at 1. cbn [Workflow.modify]. fold w1.
    unfold Workflow.PruneAfterStop.
    unfold Workflow.bind at 1. cbn [Workflow.get].
    rewrite bind_assoc. now rewrite (bind_ok _ _ _ _ _ Hrun).
  - now rewrite Hd.
  - now rewrite Hs.
  - intros j Hj. now apply Hnone.
  - intros j m Hm. destruct (Hsome j m Hm) as (m' & Hm' & Hc & Ht & _).
    exists m'. split; [assumption|]. split; [|assumption].
    intros Hnt Hk. apply Hc; [|assumption..].
    apply elem_of_node_ids. eauto.
Qed.

(** The state left by [bind m k] when [m] runs like [m'] from [w2]. *)
Lemma bind_rel_from {A B} (R : relation Workflow.t) `{!Transitive R}
    (m m' : Workflow.M A) (k : A -> Workflow.M B) (w w2 : Workflow.t) :
  m w = m' w2 -> rel R m' -> (forall a, rel R (k a)) ->
  R w2 (Workflow.bind m k w).1.
Proof.
  intros Heq Hm Hk. unfold Workflow.bind. rewrite Heq.
  specialize (Hm w2). destruct (m' w2) as [w3 [a|msg]]; cbn in *.
  - etransitivity; [exact Hm | apply Hk].
  - exact Hm.
Qed.

Lemma MarkSucceeded_stop (w : Workflow.t) (nid : Z) (n : Node) :
  Workflow.nodes w !! nid = Some n -> type n = DecideNext ->
  IsActive (state n) = true ->
  Workflow.ComputeDecideAction w (iter n) = Stop ->
  Workflow.done_ (Workflow.MarkSucceeded nid w).1 = true /\
  Workflow.stop_iter_ (Workflow.MarkSucceeded nid w).1 = Some (iter n) /\
  (forall j m, Workflow.nodes w !! j = Some m ->
     IsTerminal (state m) = false -> iter n < iter m ->
     exists m', Workflow.nodes (Workflow.MarkSucceeded nid w).1 !! j = Some m' /\
                state m' = Cancelled) /\
  (forall j, Workflow.nodes w !! j = None ->
     Workflow.nodes (Workflow.MarkSucceeded nid w).1 !! j = None).
Proof.
  intros Hn Hty Ha Hstop.
  rewrite (MarkSucceeded_decide nid n w Hn Hty Ha).
  set (w0 := (Workflow.update_node nid (set_state Succeeded) w).1).
  assert (Hlook : forall j, Workflow.nodes w0 !! j
                    = if decide (nid = j)
                      then set_state Succeeded <$> Workflow.nodes w !! j
                      else Workflow.nodes w !! j).
  { intros j. apply lookup_update_node. }
  assert (Hn0 : Workflow.nodes w0 !! nid = Some (set_state Succeeded n)).
  { rewrite Hlook, decide_True, Hn by reflexivity. reflexivity. }
  destruct (OnDecideNext_stop nid (set_state Succeeded n) w0 Hn0)
    as (w2 & Heq & Hd & Hs & Hnone & Hsome).
  { cbn [iter set_state]. subst w0.
    now rewrite ComputeDecideAction_update_state. }
  cbn [iter set_state] in *.
  match goal with
  | |- context [Workflow.bind (Workflow.OnDecideNext nid) ?k w0] =>
      pose proof (bind_rel_from settles _ _ k w0 w2 Heq
                    rel_RefreshRunnable_ret
                    (fun _ => MarkSucceeded_rest_settles (iter n))) as Hset;
      pose proof (bind_rel_from same_flags _ _ k w0 w2 Heq
                    ltac:(apply rel_bind;
                          [apply _ | apply flags_RefreshRunnable
                          | intros _; apply rel_ret; apply _])
                    (fun _ => MarkSucceeded_rest_flags (iter n))) as [Hf1 Hf2]
  end.
  split; [congruence|]. split; [congruence|]. split.
  - intros j m Hm Hnt Hk.
    assert (Hne : nid <> j).
    { intros <-. assert (m = n) by congruence. subst m. lia. }
    destruct (Hsome j m) as (m2 & Hm2 & Hc & _).
    { rewrite Hlook, decide_False by assumption. exact Hm. }
    destruct (settles_terminal _ _ j m2 Hset Hm2) as (m' & Hm' & Hst).
    { now rewrite (Hc Hnt Hk). }
    exists m'. split; [assumption|]. rewrite Hst. now apply Hc.
  - intros j Hj. destruct Hset as [Hsn _]. apply Hsn, Hnone.
    rewrite Hlook, Hj. now destruct (decide (nid = j)).
Qed.

Lemma InitializeStateFromDeps_single (pid nid : Z) (p d : Node)
    (w : Workflow.t) :
  Workflow.nodes w !! pid = Some p -> IsTerminal (state p) = false ->
  deps p = [nid] ->
  Workflow.nodes w !! nid = Some d -> state d = Succeeded ->
  Workflow.InitializeStateFromDeps pid w
  = ((Workflow.update_node pid (set_state Runnable) w).1, Workflow.Ok ()).
Proof.
  intros Hp Hnt Hdeps Hd Hs.
  unfold Workflow.InitializeStateFromDeps, Workflow.bind, Workflow.node.
  rewrite Hp, Hnt. unfold Workflow.DepsSatisfied. rewrite Hdeps.
  cbn [Workflow.deps_succeeded]. unfold Workflow.bind, Workflow.node.
  rewrite Hd. rewrite bool_decide_eq_false_2 by (intros H; now apply H).
  reflexivity.
Qed.

Lemma OnDecideNext_continue (nid : Z) (dn : Node) (w : Workflow.t) :
  Workflow.nodes w !! nid = Some dn -> state dn = Succeeded ->
  Workflow.ComputeDecideAction w (iter dn) = Continue ->
  Workflow.next_node_id w <> 0 ->
  Workflow.nodes w !! Workflow.next_node_id w = None ->
  exists w4,
    Workflow.OnDecideNext nid w = (w4, Workflow.Ok ()) /\
    same_flags w w4 /\
    (exists p, Workflow.nodes w4 !! Workflow.next_node_id w = Some p /\
       type p = Plan /\ iter p = iter dn + 1 /\ deps p = [nid] /\
       state p = Runnable) /\
    Workflow.nodes w4 !! nid
    = Some (set_children (children dn ++ [Workflow.next_node_id w]) dn) /\
    (forall j, j <> Workflow.next_node_id w -> j <> nid ->
       Workflow.nodes w4 !! j = Workflow.nodes w !! j).
Proof.
  intros Hdn Hs Hcont Hnz Hfresh.
  set (pid := Workflow.next_node_id w) in *.
  assert (Hne : nid <> pid) by (intros ->; congruence).
  unfold Workflow.OnDecideNext.
  unfold Workflow.bind at 1, Workflow.node. rewrite Hdn.
  unfold Workflow.bind at 1. cbn [Workflow.get]. rewrite Hcont. cbv zeta.
  unfold Workflow.bind at 1. cbn [Workflow.NewNodeId]. fold pid.
  match goal with
  | |- context [Workflow.bind (Workflow.AddNode ?pl) ?k ?x] =>
      set (plan := pl); set (w1 := x)
  end.
  rewrite (bind_ok _ _ _ _ _ (AddNode_stored plan w1 Hnz eq_refl Hfresh)).
  cbn [id plan Workflow.with_output_size_est Workflow.new_node].
  rewrite !bind_assoc.
  rewrite (bind_ok _ _ _ _ _ (PopulatePreferenceListForNode_eq pid _)).
  match goal with
  | |- context [Workflow.bind (Workflow.AddEdge nid pid) ?k ?x] =>
      set (w2 := x)
  end.
  assert (H2pid : Workflow.nodes w2 !! pid = Some (populate w plan)).
  { subst w2. cbn. rewrite lookup_alter_eq, lookup_insert_eq. reflexivity. }
  assert (H2nid : Workflow.nodes w2 !! nid = Some dn).
  { subst w2. cbn. rewrite lookup_alter_ne, lookup_insert_ne by auto.
    exact Hdn. }
  rewrite (bind_ok _ _ _ _ _
             (AddEdge_eq nid pid w2 ltac:(eauto) ltac:(eauto))).
  match goal with
  | |- context [Workflow.InitializeStateFromDeps pid ?x] =>
      set (w3 := x)
  end.
  assert (H3pid : Workflow.nodes w3 !! pid
                  = Some (set_deps (deps (populate w plan) ++ [nid])
                            (populate w plan))).
  { subst w3. cbn [Workflow.nodes Workflow.set_nodes].
    rewrite lookup_alter_eq, lookup_alter_ne, H2pid by auto. reflexivity. }
  assert (H3nid : Workflow.nodes w3 !! nid
                  = Some (set_children (children dn ++ [pid]) dn)).
  { subst w3. cbn [Workflow.nodes Workflow.set_nodes].
    rewrite lookup_alter_ne, lookup_alter_eq, H2nid by auto. reflexivity. }
  assert (Hpop : forall x, populate w x = x \/
                   exists l, populate w x = set_preference_list l x).
  { intros x. unfold populate. destruct (Workflow.provider_config_ w); eauto. }
  rewrite (InitializeStateFromDeps_single pid nid _ _ w3 H3pid
             ltac:(destruct (Hpop plan) as [-> | [l ->]]; reflexivity)
             ltac:(destruct (Hpop plan) as [-> | [l ->]]; reflexivity)
             H3nid Hs).
  eexists. split; [reflexivity|]. split; [split; reflexivity|].
  split; [|split].
  - rewrite lookup_update_node, decide_True, H3pid by reflexivity.
    eexists. split; [reflexivity|].
    destruct (Hpop plan) as [-> | [l ->]]; repeat split; reflexivity.
  - rewrite lookup_update_node, decide_False by auto. exact H3nid.
  - intros j Hj1 Hj2. rewrite lookup_update_node, decide_False by auto.
    subst w3 w2. cbn [Workflow.nodes Workflow.set_nodes].
    rewrite !lookup_alter_ne, lookup_insert_ne by auto. reflexivity.
Qed.

Lemma MarkSucceeded_continue (w : Workflow.t) (nid : Z) (n : Node) :
  Workflow.nodes w !! nid = Some n -> type n = DecideNext ->
  IsActive (state n) = true ->
  Workflow.ComputeDecideAction w (iter n) = Continue ->
  Workflow.next_node_id w <> 0 ->
  Workflow.nodes w !! Workflow.next_node_id w = None ->
  (exists p,
      Workflow.nodes (Workflow.MarkSucceeded nid w).1
        !! Workflow.next_node_id w = Some p /\
      type p = Plan /\ iter p = iter n + 1 /\ deps p = [nid]) /\
  (forall j, Workflow.nodes w !! j = None -> j <> Workflow.next_node_id w ->
     Workflow.nodes (Workflow.MarkSucceeded nid w).1 !! j = None) /\
  (forall j m, Workflow.nodes w !! j = Some m ->
     exists m', Workflow.nodes (Workflow.MarkSucceeded nid w).1 !! j = Some m' /\
                deps m' = deps m) /\
  (exists d,
      Workflow.nodes (Workflow.MarkSucceeded nid w).1 !! nid = Some d /\
      children d = children n ++ [Workflow.next_node_id w]) /\
  Workflow.done_ (Workflow.MarkSucceeded nid w).1 = Workflow.done_ w.
Proof.
  intros Hn Hty Ha Hcont Hnz Hfresh.
  rewrite (MarkSucceeded_decide nid n w Hn Hty Ha).
  set (w0 := (Workflow.update_node nid (set_state Succeeded) w).1).
  set (pid := Workflow.next_node_id w) in *.
  assert (Hne : nid <> pid) by (intros ->; congruence).
  assert (Hlook : forall j, Workflow.nodes w0 !! j
                    = if decide (nid = j)
                      then set_state Succeeded <$> Workflow.nodes w !! j
                      else Workflow.nodes w !! j).
  { intros j. apply lookup_update_node. }
  assert (Hn0 : Workflow.nodes w0 !! nid = Some (set_state Succeeded n)).
  { rewrite Hlook, decide_True, Hn by reflexivity. reflexivity. }
  destruct (OnDecideNext_continue nid (set_state Succeeded n) w0 Hn0 eq_refl)
    as (w4 & Heq & [Hd4 Hs4] & (p & Hp & Hpt & Hpi & Hpd & _) & Hnid & Hoth).
  { cbn [iter set_state]. subst w0.
    now rewrite ComputeDecideAction_update_state. }
  { exact Hnz. }
  { change (Workflow.next_node_id w0) with pid.
    rewrite Hlook, decide_False by auto. exact Hfresh. }
  change (Workflow.next_node_id w0) with pid in *.
  cbn [iter set_state children] in *.
  rewrite (bind_ok _ _ _ _ _ Heq).
  match goal with
  | |- context [(?rest w4).1] =>
      pose proof (MarkSucceeded_rest_settles (iter n) w4) as [Hsn Hss];
      pose proof (MarkSucceeded_rest_flags (iter n) w4) as [Hf _];
      set (w' := (rest w4).1) in *
  end.
  assert (Hkeep : forall j m, Workflow.nodes w4 !! j = Some m ->
            exists m', Workflow.nodes w' !! j = Some m' /\
                       m' = set_state (state m') m).
  { intros j m Hm. destruct (Hss j m Hm) as (m' & Hm' & Hmm & _). eauto. }
  split; [|split; [|split; [|split]]].
  - destruct (Hkeep pid p Hp) as (p' & Hp' & Hpp). exists p'.
    split; [assumption|]. rewrite Hpp. auto.
  - intros j Hj Hjp. apply Hsn. rewrite Hoth; [|assumption|].
    + rewrite Hlook, Hj. now destruct (decide (nid = j)).
    + intros ->. congruence.
  - intros j m Hm. destruct (decide (j = nid)) as [->|Hjn].
    + destruct (Hkeep nid _ Hnid) as (m' & Hm' & Hmm). exists m'.
      split; [exact Hm'|]. rewrite Hmm. cbn. congruence.
    + assert (Hjp : j <> pid) by (intros ->; congruence).
      destruct (Hkeep j m) as (m' & Hm' & Hmm).
      { rewrite Hoth, Hlook, decide_False by auto. exact Hm. }
      exists m'. split; [exact Hm' | rewrite Hmm; reflexivity].
  - destruct (Hkeep nid _ Hnid) as (m' & Hm' & Hmm). exists m'.
    split; [exact Hm' | rewrite Hmm; reflexivity].
  - subst w'. rewrite Hf, Hd4. reflexivity.
Qed.

(** ** The flag and the terminal states across calls *)

#[local] Instance done_kept_preorder : PreOrder done_kept.
Proof.
  split.
  - intros w H. exact H.
  - intros w1 w2 w3 H12 H23 H. apply H23, H12, H.
Qed.

Lemma rel_weaken {A} (R R' : relation Workflow.t) (m : Workflow.M A) :
  (forall x y, R x y -> R' x y) -> rel R m -> rel R' m.
Proof. intros H Hm w. apply H, Hm. Qed.

Lemma done_of_plain {A} (m : Workflow.M A) :
  rel plain_growth m -> rel done_kept m.
Proof. apply rel_weaken. intros x y [H _]. exact H. Qed.

Lemma done_AddNode (n : Node) : rel done_kept (Workflow.AddNode n).
Proof.
  intros w. destruct (AddNode_cases n w) as [[_ ->] | [_ ->]]; cbn [fst];
    now destruct (bool_decide (id n = 0)).
Qed.

Lemma done_ExpandIterationFromPlan plan_node :
  rel done_kept (Workflow.ExpandIterationFromPlan plan_node).
Proof.
  unfold Workflow.ExpandIterationFromPlan.
  apply rel_bind; [apply _ | apply rel_node; apply _ | intros plan].
  apply rel_bind; [apply _ | apply rel_get; apply _ | intros w0].
  apply rel_if; [apply rel_ret; apply _|].
  apply rel_if; [apply rel_ret; apply _|].
  apply rel_bind; [apply _ | | intros extract_nodes].
  { apply done_of_plain, rel_foldM; [apply _|].
    intros ? ?; apply plain_expand_pdf. }
  apply rel_bind; [apply _ | apply done_of_plain, plain_NewNodeId | intros ?].
  apply rel_bind; [apply _ | apply done_of_plain, plain_NewNodeId | intros ?].
  apply rel_bind; [apply _ | apply done_AddNode | intros ?].
  apply rel_bind; [apply _ | apply done_AddNode | intros ?].
  apply done_of_plain.
  apply rel_bind; [apply _ | | intros _; apply plain_InitializeStateFromDeps].
  apply rel_bind; [apply _ | | intros _; apply plain_InitializeStateFromDeps].
  apply rel_bind; [apply _ | | intros _; apply plain_AddEdge].
  apply rel_bind; [apply _ | | intros _].
  - apply rel_bind; [apply _ | | intros _];
      apply plain_PopulatePreferenceListForNode.
  - destruct extract_nodes; [apply plain_AddEdge|].
    apply rel_forM_; [apply _ | intros x; apply plain_AddEdge].
Qed.

Lemma done_call (c : Workflow.mutator) : rel done_kept (Workflow.call c).
Proof.
  destruct c as [nid|nid|nid|nid|nid| |k]; cbn [Workflow.call].
  - apply done_of_plain, plain_SetState.
  - apply done_of_plain, plain_SetState.
  - unfold Workflow.MarkSucceeded.
    apply rel_bind; [apply _ | apply rel_node; apply _ | intros n].
    cbv zeta.
    apply rel_bind; [apply _ | | intros _; apply rel_ret; apply _].
    apply rel_bind;
      [apply _ | | intros _; apply done_of_plain, plain_RefreshRunnable].
    apply rel_bind; [apply _ | apply done_of_plain, plain_SetState | intros _].
    apply rel_if; [apply done_ExpandIterationFromPlan|].
    apply rel_if; [|apply rel_ret; apply _].
    apply done_of_plain.
    apply rel_bind; [apply _ | apply plain_OnDecideNext | intros _].
    intros w. apply plain_growth_same_nodes; [reflexivity | auto].
  - apply done_of_plain. unfold Workflow.MarkFailed.
    apply rel_bind; [apply _ | | intros _; apply rel_ret; apply _].
    apply rel_bind; [apply _ | apply plain_SetState |].
    intros _; apply plain_RefreshRunnable.
  - apply done_of_plain, plain_Cancel.
  - apply done_of_plain.
    apply rel_bind; [apply _ | apply plain_RefreshRunnable |].
    intros _; apply rel_ret; apply _.
  - apply done_of_plain, plain_PruneAfterStop.
Qed.

Lemma terminal_kept_call (c : Workflow.mutator) (w : Workflow.t) j m :
  Workflow.nodes w !! j = Some m -> IsTerminal (state m) = true ->
  exists m', Workflow.nodes (Workflow.call c w).1 !! j = Some m' /\
             state m' = state m.
Proof.
  intros Hm Ht. destruct (respects_call c w) as [Hold _].
  destruct (Hold j m Hm) as (m' & Hm' & [Hs | [Hnt _]]); [eauto | congruence].
Qed.

Lemma done_and_terminal_calls (cs : list Workflow.mutator) (w : Workflow.t) :
  Workflow.done_ w = true ->
  Workflow.done_ (Workflow.calls cs w) = true /\
  (forall j m, Workflow.nodes w !! j = Some m ->
     IsTerminal (state m) = true ->
     exists m', Workflow.nodes (Workflow.calls cs w) !! j = Some m' /\
                state m' = state m).
Proof.
  revert w. induction cs as [|c cs IH]; intros w Hd.
  - split; [exact Hd|]. intros j m Hm _. eauto.
  - cbn [Workflow.calls foldl].
    destruct (IH (Workflow.call c w).1 (done_call c w Hd)) as [IHd IHt].
    split; [exact IHd|]. intros j m Hm Ht.
    destruct (terminal_kept_call c w j m Hm Ht) as (m1 & Hm1 & Hs1).
    destruct (IHt j m1 Hm1) as (m' & Hm' & Hs'); [congruence|].
    exists m'. split; [assumption | congruence].
Qed.

(** C7. When an active [DecideNext] node of iteration [k] is marked
    succeeded and the decision is [Stop], the workflow ends up [done_] with
    [stop_iter_ = k], every node that was not terminal and has an iteration
    above [k] is [Cancelled], and no node is created; when the decision is
    [Continue] (and the next node id is free), exactly one node is created,
    a [Plan] of iteration [k + 1] whose only dependency is the decision
    node, no stored node gets a new dependency, the decision node gets the
    plan as its new child, and [done_] is left as it was; and once [done_]
    holds, it holds after any further mutator calls, and no terminal node
    changes state again. *)
Theorem decide_next_stop_or_continue (w : Workflow.t) (nid : Z) (n : Node) :
  Workflow.nodes w !! nid = Some n -> type n = DecideNext ->
  IsActive (state n) = true ->
  (Workflow.ComputeDecideAction w (iter n) = Stop ->
     Workflow.done_ (Workflow.MarkSucceeded nid w).1 = true /\
     Workflow.stop_iter_ (Workflow.MarkSucceeded nid w).1 = Some (iter n) /\
     (forall j m, Workflow.nodes w !! j = Some m ->
        IsTerminal (state m) = false -> iter n < iter m ->
        exists m',
          Workflow.nodes (Workflow.MarkSucceeded nid w).1 !! j = Some m' /\
          state m' = Cancelled) /\
     (forall j, Workflow.nodes w !! j = None ->
        Workflow.nodes (Workflow.MarkSucceeded nid w).1 !! j = None)) /\
  (Workflow.ComputeDecideAction w (iter n) = Continue ->
   Workflow.next_node_id w <> 0 ->
   Workflow.nodes w !! Workflow.next_node_id w = None ->
     (exists p,
         Workflow.nodes (Workflow.MarkSucceeded nid w).1
           !! Workflow.next_node_id w = Some p /\
         type p = Plan /\ iter p = iter n + 1 /\ deps p = [nid]) /\
     (forall j, Workflow.nodes w !! j = None ->
        j <> Workflow.next_node_id w ->
        Workflow.nodes (Workflow.MarkSucceeded nid w).1 !! j = None) /\
     (forall j m, Workflow.nodes w !! j = Some m ->
        exists m',
          Workflow.nodes (Workflow.MarkSucceeded nid w).1 !! j = Some m' /\
          deps m' = deps m) /\
     (exists d,
         Workflow.nodes (Workflow.MarkSucceeded nid w).1 !! nid = Some d /\
         children d = children n ++ [Workflow.next_node_id w]) /\
     Workflow.done_ (Workflow.MarkSucceeded nid w).1 = Workflow.done_ w) /\
  (forall (cs : list Workflow.mutator) (w0 : Workflow.t),
     Workflow.done_ w0 = true ->
     Workflow.done_ (Workflow.calls cs w0) = true /\
     (forall j m, Workflow.nodes w0 !! j = Some m ->
        IsTerminal (state m) = true ->
        exists m', Workflow.nodes (Workflow.calls cs w0) !! j = Some m' /\
                   state m' = state m)).
Proof.
  intros Hn Hty Ha. split; [|split].
  - now apply MarkSucceeded_stop.
  - now apply MarkSucceeded_continue.
  - intros cs w0. apply done_and_terminal_calls.
Qed.

Lemma decide_next_stop_or_continue_witness :
  (exists p,
      Workflow.nodes (Workflow.MarkSucceeded 13 Examples.wf_aggregated).1 !! 14
      = Some p /\
      type p = Plan /\ iter p = 1 /\ deps p = [13]) /\
  Workflow.done_ (Workflow.MarkSucceeded 26 Examples.wf_last).1 = true /\
  Workflow.stop_iter_ (Workflow.MarkSucceeded 26 Examples.wf_last).1 = Some 1 /\
  Workflow.done_
    (Workflow.calls [Workflow.CallRefreshRunnable; Workflow.CallMarkQueued 26]
       (Workflow.MarkSucceeded 26 Examples.wf_last).1) = true.
Proof.
  destruct (decide_next_stop_or_continue Examples.wf_aggregated 13
              (Examples.node_of Examples.wf_aggregated 13))
    as (_ & Hcont & _); [vm_compute; reflexivity ..|].
  destruct Hcont as ((p & Hp & Hty & Hit & Hdeps) & _);
    [vm_compute; reflexivity | vm_compute; discriminate
    | vm_compute; reflexivity |].
  destruct (decide_next_stop_or_continue Examples.wf_last 26
              (Examples.node_of Examples.wf_last 26))
    as (Hstop & _ & Hdone); [vm_compute; reflexivity ..|].
  destruct Hstop as (Hd & Hs & _); [vm_compute; reflexivity|].
  split; [|split; [exact Hd | split; [exact Hs|]]].
  - exists p. split; [exact Hp|]. auto.
  - apply Hdone. exact Hd.
Defined.

(** ** Option selection and dispatch *)

Import SchedulerSpec.

Lemma select_loop_find cfg store pm n budget crit front opts :
  Scheduler.select_loop cfg store pm n budget crit front opts
  = List.find (eligible pm budget) opts.
Proof.
  induction opts as [|opt rest IH]; [reflexivity|].
  cbn [Scheduler.select_loop List.find]. unfold eligible at 1.
  destruct (Qlt_bool budget (price_per_call opt)); [exact IH|].
  destruct (ProviderManager.GetTier pm (provider opt) (tier_id opt))
    as [[i x]|]; [|exact IH].
  destruct (Tier.can_accept x); [|exact IH].
  cbn [negb andb].
  destruct (Scheduler.commits_to_baseline cfg); [reflexivity|].
  destruct (negb crit); [reflexivity|].
  destruct (Qle_bool _ 0); [reflexivity|].
  destruct (Qle_bool _ _); reflexivity.
Qed.

Lemma SelectOption_find cfg store pm n cost crit :
  Scheduler.SelectOption cfg store pm n cost crit
  = match preference_list n with
    | [] => None
    | front :: _ =>
        Some (default front
                (List.find
                   (eligible pm (Scheduler.budget_left cfg cost (workflow_id n)))
                   (preference_list n)))
    end.
Proof.
  unfold Scheduler.SelectOption.
  destruct (preference_list n) as [|front rest] eqn:E; [reflexivity|].
  rewrite select_loop_find. now destruct (List.find _ _).
Qed.

Lemma eligible_spec pm budget opt :
  eligible pm budget opt = true <->
  (price_per_call opt <= budget)%Q /\
  exists i x, ProviderManager.GetTier pm (provider opt) (tier_id opt)
              = Some (i, x) /\ Tier.can_accept x = true.
Proof.
  unfold eligible. rewrite andb_true_iff, negb_true_iff.
  split.
  - intros [Hp Ht]. split.
    + destruct (Qlt_le_dec budget (price_per_call opt)) as [Hlt|Hle];
        [|exact Hle].
      apply Qlt_bool_iff in Hlt. congruence.
    + destruct (ProviderManager.GetTier _ _ _) as [[i x]|]; [|discriminate].
      eauto.
  - intros [Hp (i & x & -> & Hx)]. split; [|exact Hx].
    destruct (Qlt_bool budget (price_per_call opt)) eqn:E; [|reflexivity].
    apply Qlt_bool_iff in E. exfalso. exact (Qlt_not_le _ _ E Hp).
Qed.

Lemma find_none_iff {A} (f : A -> bool) (l : list A) :
  List.find f l = None <-> forall x, x ∈ l -> f x = false.
Proof.
  induction l as [|a l IH]; cbn.
  - split; [|reflexivity]. intros _ x Hx. inversion Hx.
  - destruct (f a) eqn:E.
    + split; [discriminate|]. intros H. rewrite H in E; [discriminate|].
      apply list_elem_of_here.
    + rewrite IH. split.
      * intros H x Hx. apply elem_of_cons in Hx as [->|Hx]; auto.
      * intros H x Hx. apply H. now apply list_elem_of_further.
Qed.

Lemma MarkQueued_runnable (nid : Z) (n : Node) (wf : Workflow.t) :
  Workflow.nodes wf !! nid = Some n -> state n = Runnable ->
  Workflow.MarkQueued nid wf
  = ((Workflow.update_node nid (set_state Queued) wf).1, Workflow.Ok ()).
Proof.
  intros Hn Hs. unfold Workflow.MarkQueued, Workflow.SetState.
  unfold Workflow.bind at 1. unfold Workflow.node at 1. rewrite Hn.
  rewrite Hs. cbn. reflexivity.
Qed.

Lemma insert_by_price_sorted o l :
  StronglySorted by_price l -> StronglySorted by_price (insert_by_price o l).
Proof.
  assert (Hall : forall l x, by_price x o -> Forall (by_price x) l ->
                   Forall (by_price x) (insert_by_price o l)).
  { clear l. induction l as [|a l IH]; intros x Hxo Hx; cbn.
    - repeat constructor. exact Hxo.
    - destruct (Qlt_bool _ _).
      + constructor; assumption.
      + inversion Hx; subst. constructor; auto. }
  induction l as [|a l IH]; intros Hs; cbn.
  - repeat constructor.
  - inversion Hs as [|? ? Hl Ha]; subst.
    destruct (Qlt_bool (price_per_call o) (price_per_call a)) eqn:E.
    + constructor; [exact Hs|]. apply Qlt_bool_iff in E.
      constructor; [now apply Qlt_le_weak|].
      eapply Forall_impl; [exact Ha|]. intros b Hb. unfold by_price in *.
      eapply Qle_trans; [apply Qlt_le_weak, E | exact Hb].
    + constructor; [auto|]. apply Hall; [|exact Ha].
      unfold by_price. destruct (Qlt_le_dec (price_per_call o) (price_per_call a))
        as [Hlt|Hle]; [|exact Hle].
      apply Qlt_bool_iff in Hlt. congruence.
Qed.

Lemma preference_for_sorted rc tiers :
  StronglySorted by_price (Workflow.preference_for rc tiers).
Proof.
  unfold Workflow.preference_for, sort_by_price.
  induction (omap _ tiers) as [|o l IH]; cbn.
  - constructor.
  - now apply insert_by_price_sorted.
Qed.

Lemma GetTier_lookup pm p tid i x :
  ProviderManager.GetTier pm p tid = Some (i, x) ->
  ProviderManager.tiers pm !! i = Some x.
Proof.
  unfold ProviderManager.GetTier.
  destruct (ProviderManager.tier_index _ _ _ _) as [j|]; [|discriminate].
  destruct (ProviderManager.tiers pm !! j) as [y|] eqn:E; [|discriminate].
  intros [= <- <-]. exact E.
Qed.

(** C1 (amended). [SelectOption] walks the preference list in its stored
    order, which [PopulatePreferenceListForNode] makes cheapest first, and
    skips every option whose price exceeds the budget left or whose tier is
    missing or cannot accept; the first option that is not skipped is
    selected, and when every option is skipped the first option of the list
    is selected all the same.  So the selected option is within the budget
    left, on a tier that can accept, whenever some option of the list is;
    and with model routing enabled, [Dispatch] enqueues an attempt for a
    runnable provider-backed node with a non-empty list exactly when the
    tier of the selected option exists and can accept, whatever the budget
    left. *)
Theorem SelectOption_first_eligible_else_front
    (cfg : SchedulerConfig.t) (store : LatencyEstimateStore.t)
    (pm : ProviderManager.t) (n : Node) (cost : gmap Z Q) :
  (forall rc tiers, StronglySorted by_price (Workflow.preference_for rc tiers)) /\
  (forall crit,
     Scheduler.SelectOption cfg store pm n cost crit
     = match preference_list n with
       | [] => None
       | front :: _ =>
           Some (default front
                   (List.find
                      (eligible pm
                         (Scheduler.budget_left cfg cost (workflow_id n)))
                      (preference_list n)))
       end) /\
  (forall crit o,
     Scheduler.SelectOption cfg store pm n cost crit = Some o ->
     (exists o', o' ∈ preference_list n /\
        eligible pm (Scheduler.budget_left cfg cost (workflow_id n)) o'
        = true) ->
     (price_per_call o <= Scheduler.budget_left cfg cost (workflow_id n))%Q /\
     exists i x,
       ProviderManager.GetTier pm (provider o) (tier_id o) = Some (i, x) /\
       Tier.can_accept x = true) /\
  (forall crit o,
     Scheduler.SelectOption cfg store pm n cost crit = Some o ->
     (forall o', o' ∈ preference_list n ->
        eligible pm (Scheduler.budget_left cfg cost (workflow_id n)) o'
        = false) ->
     head (preference_list n) = Some o) /\
  (forall icp sn st wf,
     Scheduler.provider_mgr st = pm ->
     Scheduler.workflows st !! ScoredNode.workflow_id sn = Some wf ->
     Workflow.done_ wf = false ->
     Workflow.nodes wf !! ScoredNode.node_id sn = Some n ->
     state n = Runnable ->
     resource_class n <> cpu -> resource_class n <> io ->
     SchedulerConfig.enable_model_routing cfg = true ->
     preference_list n <> [] ->
     exists o,
       Scheduler.SelectOption cfg store pm n cost
         (match icp with
          | Some f => f (ScoredNode.node_id sn) (ScoredNode.workflow_id sn)
          | None => false
          end) = Some o /\
       match ProviderManager.GetTier pm (provider o) (tier_id o) with
       | Some (i, x) =>
           if Tier.can_accept x
           then exists st',
               Scheduler.dispatch_node cfg store cost icp sn st
               = Workflow.Ok st' /\
               Scheduler.dispatched st' = Scheduler.dispatched st + 1 /\
               ProviderManager.tiers (Scheduler.provider_mgr st') !! i
               = Some (Tier.Enqueue
                         (Scheduler.provider_attempt sn n (provider o)
                            (tier_id o) (timeout_ms o) (max_retries o)
                            (Scheduler.next_attempt_id st)) x)
           else Scheduler.dispatch_node cfg store cost icp sn st
                = Workflow.Ok st
       | None =>
           Scheduler.dispatch_node cfg store cost icp sn st = Workflow.Ok st
       end).
Proof.
  split; [exact preference_for_sorted|].
  split; [intros crit; apply SelectOption_find|].
  split; [|split].
  - intros crit o Hsel (o' & Hin & Hel). rewrite SelectOption_find in Hsel.
    destruct (preference_list n) as [|front rest]; [discriminate|].
    destruct (List.find _ _) as [c|] eqn:Ef.
    + injection Hsel as <-. apply List.find_some in Ef as [_ Hc].
      now apply eligible_spec.
    + exfalso. rewrite (proj1 (find_none_iff _ _) Ef o' Hin) in Hel.
      discriminate.
  - intros crit o Hsel Hnone. rewrite SelectOption_find in Hsel.
    destruct (preference_list n) as [|front rest]; [discriminate|].
    rewrite (proj2 (find_none_iff _ _) Hnone) in Hsel. exact Hsel.
  - intros icp sn st wf Hpm Hwf Hdone Hn Hs Hcpu Hio Hroute Hpl.
    set (crit := match icp with Some f => _ | None => false end).
    destruct (Scheduler.SelectOption cfg store pm n cost crit) as [o|] eqn:Hsel.
    2:{ rewrite SelectOption_find in Hsel.
        destruct (preference_list n); [congruence | discriminate]. }
    exists o. split; [reflexivity|].
    assert (Hstep : Scheduler.dispatch_node cfg store cost icp sn st
              = match Scheduler.route cfg store pm sn n cost icp with
                | None => Workflow.Ok st
                | Some (i, _, dp, dt, dto, dr) =>
                    Workflow.Ok
                      (Scheduler.mkPass
                         (<[ScoredNode.workflow_id sn :=
                              (Workflow.update_node (ScoredNode.node_id sn)
                                 (set_state Queued) wf).1]>
                            (Scheduler.workflows st))
                         (ProviderManager.mk
                            (alter
                               (Tier.Enqueue
                                  (Scheduler.provider_attempt sn n dp dt dto dr
                                     (Scheduler.next_attempt_id st))) i
                               (ProviderManager.tiers pm)))
                         (Scheduler.cpu_queue st) (Scheduler.io_queue st)
                         (u64 (Scheduler.next_attempt_id st + 1))
                         (<[Scheduler.flag_key (ScoredNode.workflow_id sn)
                              (ScoredNode.node_id sn) := false]>
                            (Scheduler.cancelled_flags st))
                         (Scheduler.in_flight st + 1)
                         (Scheduler.dispatched st + 1))
                end).
    { unfold Scheduler.dispatch_node. rewrite Hwf, Hdone.
      unfold Workflow.node. rewrite Hn, Hs, Hpm.
      rewrite (bool_decide_true (Runnable = Runnable)) by reflexivity.
      rewrite !bool_decide_false by assumption. cbn [negb orb].
      rewrite (MarkQueued_runnable _ n wf Hn Hs).
      destruct (Scheduler.route cfg store pm sn n cost icp)
        as [[[[[[i x] dp] dt] dto] dr]|]; reflexivity. }
    assert (Hr : Scheduler.route cfg store pm sn n cost icp
              = match ProviderManager.GetTier pm (provider o) (tier_id o) with
                | None => None
                | Some (i, x) =>
                    if negb (Tier.can_accept x) then None
                    else Some (i, x, provider o, tier_id o, timeout_ms o,
                               max_retries o)
                end).
    { unfold Scheduler.route. rewrite Hroute.
      rewrite bool_decide_false by assumption. cbn [negb andb].
      fold crit. rewrite Hsel. reflexivity. }
    rewrite Hstep, Hr.
    destruct (ProviderManager.GetTier pm (provider o) (tier_id o))
      as [[i x]|] eqn:Ht; [|reflexivity].
    destruct (Tier.can_accept x); cbn [negb]; [|reflexivity].
    eexists. split; [reflexivity|]. split; [reflexivity|].
    cbn [Scheduler.provider_mgr ProviderManager.tiers].
    rewrite list_lookup_alter_eq, (GetTier_lookup _ _ _ _ _ Ht). reflexivity.
Qed.

Lemma SelectOption_first_eligible_else_front_witness :
  exists o st',
    Scheduler.SelectOption Examples.no_budget Examples.flat_store
      Examples.idle_tiers Examples.root_plan ∅ false = Some o /\
    head (preference_list Examples.root_plan) = Some o /\
    Scheduler.dispatch_node Examples.no_budget Examples.flat_store ∅ None
      Examples.root_scored Examples.root_pass = Workflow.Ok st' /\
    Scheduler.dispatched st' = 1.
Proof.
  destruct (SelectOption_first_eligible_else_front Examples.no_budget
              Examples.flat_store Examples.idle_tiers Examples.root_plan ∅)
    as (_ & _ & _ & Hfront & Hdisp).
  destruct (Hdisp None Examples.root_scored Examples.root_pass Examples.wf_new)
    as (o & Hsel & Hrun);
    [vm_compute; reflexivity .. | discriminate | discriminate
    | vm_compute; reflexivity | discriminate |].
  assert (Ho : head (preference_list Examples.root_plan) = Some o).
  { apply (Hfront false o Hsel). intros o' Hin.
    vm_compute in Hin.
    apply elem_of_cons in Hin as [->|Hin]; [vm_compute; reflexivity|].
    apply elem_of_cons in Hin as [->|Hin]; [vm_compute; reflexivity|].
    inversion Hin. }
  vm_compute in Ho. injection Ho as <-.
  vm_compute ProviderManager.GetTier in Hrun.
  destruct Hrun as (st' & Hst & Hd & _).
  eexists _, st'. split; [exact Hsel|]. split; [vm_compute; reflexivity|].
  split; [exact Hst | exact Hd].
Defined.

Lemma SelectOption_over_budget_counterexample :
  (Scheduler.budget_left Examples.no_budget ∅ 1 <= 0)%Q /\
  match Scheduler.SelectOption Examples.no_budget Examples.flat_store
          Examples.idle_tiers Examples.root_plan ∅ false with
  | Some o =>
      ~ (price_per_call o <= Scheduler.budget_left Examples.no_budget ∅ 1)%Q
  | None => False
  end /\
  match Scheduler.Dispatch Examples.no_budget Examples.flat_store
          {[1 := Examples.wf_new]} Examples.idle_tiers
          Examples.idle_queue Examples.idle_queue ∅ 1 ∅ None
          [Examples.root_scored] with
  | Workflow.Ok st' =>
      Scheduler.dispatched st' = 1 /\
      length
        (concat (Tier.queue <$>
                   ProviderManager.tiers (Scheduler.provider_mgr st')))
      = 1%nat
  | Workflow.Throw _ => False
  end.
Proof.
  split; [|split].
  - apply Qle_bool_iff. vm_compute. reflexivity.
  - vm_compute. intros H. apply H. reflexivity.
  - vm_compute. split; reflexivity.
Qed.

(** ** The shape of an expansion *)

Import ExpansionSpec.

Ltac look :=
  repeat first
    [ rewrite lookup_insert_eq
    | rewrite lookup_alter_eq
    | rewrite lookup_insert_ne by lia
    | rewrite lookup_alter_ne by lia ].

Lemma with_graph_same (w : Workflow.t) :
  with_graph (Workflow.nodes w) (Workflow.next_node_id w) w = w.
Proof. now destruct w. Qed.

Section Steps.

Variables (m : gmap Z Node) (nx : Z) (w : Workflow.t).

Lemma NewNodeId_graph :
  0 <= nx -> nx + 1 < 2 ^ 64 ->
  Workflow.NewNodeId (with_graph m nx w)
  = (with_graph m (nx + 1) w, Workflow.Ok nx).
Proof.
  intros H0 H1. unfold Workflow.NewNodeId, with_graph, u64. cbn.
  rewrite Z.mod_small by lia. reflexivity.
Qed.

Lemma AddNode_graph (n : Node) :
  id n <> 0 -> workflow_id n = Workflow.id_ w -> m !! id n = None ->
  Workflow.AddNode n (with_graph m nx w)
  = (with_graph (<[id n := n]> m) nx w, Workflow.Ok (id n)).
Proof. intros. now rewrite AddNode_stored. Qed.

Lemma Populate_graph (nid : Z) :
  Workflow.PopulatePreferenceListForNode nid (with_graph m nx w)
  = (with_graph (alter (populate w) nid m) nx w, Workflow.Ok ()).
Proof. now rewrite PopulatePreferenceListForNode_eq. Qed.

Lemma AddEdge_graph (from to : Z) :
  is_Some (m !! from) -> is_Some (m !! to) ->
  Workflow.AddEdge from to (with_graph m nx w)
  = (with_graph
       (alter (fun b => set_deps (deps b ++ [from]) b) to
          (alter (fun a => set_children (children a ++ [to]) a) from m))
       nx w,
     Workflow.Ok ()).
Proof. intros. now rewrite AddEdge_eq. Qed.

Lemma get_graph :
  Workflow.get (with_graph m nx w)
  = (with_graph m nx w, Workflow.Ok (with_graph m nx w)).
Proof. reflexivity. Qed.

End Steps.

Ltac graph_proj :=
  cbn [Workflow.id_ Workflow.params_ Workflow.provider_config_
       Workflow.done_ Workflow.completed_iters_ Workflow.stop_iter_
       with_graph id Workflow.new_node Workflow.with_evidence_count_est
       Workflow.with_state set_state].

Lemma expand_subquery_graph (e it p q : Z) (acc : list Z)
    (m : gmap Z Node) (n0 : Z) (w : Workflow.t) :
  0 < n0 -> n0 + 2 < 2 ^ 64 ->
  m !! n0 = None -> m !! (n0 + 1) = None -> is_Some (m !! e) ->
  Workflow.expand_subquery e it p acc q (with_graph m n0 w)
  = (with_graph
       (<[n0 + 1 := linked [n0] [] (made_evidence w it p q (n0 + 1))]>
          (<[n0 := linked [e] [n0 + 1] (made w SimilaritySearch it p q n0)]>
             (alter (fun a => set_children (children a ++ [n0]) a) e m)))
       (n0 + 2) w,
     Workflow.Ok (acc ++ [n0 + 1])).
Proof.
  intros Hpos Hmax Hf0 Hf1 [en He].
  assert (Hne0 : e <> n0) by (intros ->; congruence).
  assert (Hne1 : e <> n0 + 1) by (intros ->; congruence).
  unfold Workflow.expand_subquery.
  rewrite (bind_ok _ _ _ _ _ (get_graph _ _ _)).
  erewrite bind_ok by (apply NewNodeId_graph; lia).
  erewrite bind_ok by (apply NewNodeId_graph; lia).
  graph_proj.
  erewrite bind_ok
    by (apply AddNode_graph; graph_proj; [lia | reflexivity | assumption]).
  erewrite bind_ok
    by (apply AddNode_graph; graph_proj; [lia | reflexivity | now look]).
  graph_proj.
  rewrite !bind_assoc.
  erewrite bind_ok by apply Populate_graph.
  erewrite bind_ok by apply Populate_graph.
  erewrite bind_ok by (apply AddEdge_graph; look; rewrite ?He; eauto).
  erewrite bind_ok by (apply AddEdge_graph; look; rewrite ?He; eauto).
  unfold Workflow.ret. f_equal. f_equal; [|lia].
  apply map_eq. intros j.
  destruct (decide (j = n0 + 1)) as [->|H1];
    [|destruct (decide (j = n0)) as [->|H0];
      [|destruct (decide (j = e)) as [->|H2]]];
    look; try reflexivity.
  - cbn. f_equal. unfold linked, made_evidence, populate.
    destruct (Workflow.provider_config_ w); reflexivity.
  - cbn. f_equal. unfold linked, made, populate.
    destruct (Workflow.provider_config_ w); reflexivity.
Qed.

Lemma foldM_seqZ {B} (I : Z -> B -> Workflow.t -> Prop)
    (f : B -> Z -> Workflow.M B) (n : Z) :
  0 <= n ->
  forall a,
  (forall i acc w, a <= i < a + n -> I i acc w ->
     exists acc' w', f acc i w = (w', Workflow.Ok acc') /\ I (i + 1) acc' w') ->
  forall acc w, I a acc w ->
  exists acc' w',
    Workflow.foldM f acc (seqZ a n) w = (w', Workflow.Ok acc') /\
    I (a + n) acc' w'.
Proof.
  intros Hn. pattern n. apply natlike_ind; [| |exact Hn]; clear n Hn.
  - intros a _ acc w HI. exists acc, w. rewrite Z.add_0_r. split; [|exact HI].
    reflexivity.
  - intros n Hn IH a Hf acc w HI.
    rewrite seqZ_cons by lia. cbn [Workflow.foldM].
    destruct (Hf a acc w ltac:(lia) HI) as (acc1 & w1 & Hstep & H1).
    rewrite (bind_ok _ _ _ _ _ Hstep).
    replace (Z.pred (Z.succ n)) with n by lia.
    destruct (IH (Z.succ a)) with (acc := acc1) (w := w1)
      as (acc' & w' & Hrun & H').
    + intros i acc0 w0 Hi. apply Hf. lia.
    + replace (Z.succ a) with (a + 1) by lia. exact H1.
    + exists acc', w'. split; [exact Hrun|].
      replace (a + Z.succ n) with (Z.succ a + n) by lia. exact H'.
Qed.

Lemma seqZ_snoc (a n : Z) : 0 <= n -> seqZ a (n + 1) = seqZ a n ++ [a + n].
Proof.
  intros Hn. rewrite seqZ_app by lia. f_equal.
Qed.

Lemma subqueries_loop (w : Workflow.t) (it p e n0 K : Z) (acc : list Z)
    (m : gmap Z Node) (e0 : Node) :
  0 <= K -> 0 < n0 -> n0 + 2 * K < 2 ^ 64 ->
  e < n0 -> m !! e = Some e0 -> (forall j, n0 <= j -> m !! j = None) ->
  exists m',
    Workflow.foldM (Workflow.expand_subquery e it p) acc (seqZ 0 K)
      (with_graph m n0 w)
    = (with_graph m' (n0 + 2 * K) w,
       Workflow.Ok (acc ++ ((fun i => n0 + 2 * i + 1) <$> seqZ 0 K))) /\
    subqueries_done w it p e n0 m e0 K m'.
Proof.
  intros HK Hpos Hmax He He0 Hfresh.
  destruct (foldM_seqZ
              (fun q acc' w' =>
                 acc' = acc ++ ((fun i => n0 + 2 * i + 1) <$> seqZ 0 q) /\
                 exists m', w' = with_graph m' (n0 + 2 * q) w /\
                            subqueries_done w it p e n0 m e0 q m')
              (Workflow.expand_subquery e it p) K HK 0)
    with (acc := acc) (w := with_graph m n0 w)
    as (acc' & w' & Hrun & -> & m' & -> & Hdone).
  - intros q acc1 w1 Hq (-> & m1 & -> & Hnone & Hold & Hemb & Hnew).
    eexists _, _. split.
    { apply expand_subquery_graph; [lia | lia | | | ].
      - apply Hnone. lia.
      - apply Hnone. lia.
      - rewrite Hemb. eauto. }
    split.
    { rewrite seqZ_snoc by lia. rewrite fmap_app, app_assoc. cbn.
      repeat f_equal. }
    eexists. split; [f_equal; lia|].
    split; [|split; [|split]].
    + intros j Hj. look. apply Hnone. lia.
    + intros j Hj Hje. look. now apply Hold.
    + look. rewrite Hemb. cbn. f_equal.
      rewrite seqZ_snoc by lia. rewrite fmap_app, app_assoc. cbn.
      unfold set_children. cbn. repeat f_equal; lia.
    + intros i Hi. destruct (decide (i = q)) as [->|Hne].
      * look. split; [reflexivity|]. reflexivity.
      * look. apply Hnew. lia.
  - split; [now rewrite app_nil_r|]. exists m.
    split; [f_equal; lia|].
    split; [|split; [|split]].
    + intros j Hj. apply Hfresh. lia.
    + reflexivity.
    + rewrite He0. cbn. rewrite app_nil_r. now destruct e0.
    + intros i Hi. lia.
  - exists m'. split; [|exact Hdone]. rewrite Hrun. reflexivity.
Qed.

Lemma set_children_linked cs ds cs' n :
  set_children cs (linked ds cs' n) = linked ds cs n.
Proof. reflexivity. Qed.

Lemma children_linked ds cs n : children (linked ds cs n) = cs.
Proof. reflexivity. Qed.

Lemma deps_linked ds cs n : deps (linked ds cs n) = ds.
Proof. reflexivity. Qed.

Lemma made_fresh_edges w ty it p q nid :
  deps (made w ty it p q nid) = [] /\ children (made w ty it p q nid) = [].
Proof.
  unfold made, populate. destruct (Workflow.provider_config_ w); auto.
Qed.

Lemma linked_made w ty it p q nid ds cs :
  set_deps ds (set_children cs (made w ty it p q nid))
  = linked ds cs (made w ty it p q nid).
Proof. reflexivity. Qed.

Lemma expand_pdf_graph (plan_node it p n0 : Z) (acc : list Z)
    (m : gmap Z Node) (pl : Node) (w : Workflow.t) :
  let K := WorkloadParams.subqueries_per_iter (Workflow.params_ w) in
  0 <= K -> 0 < n0 -> n0 + stride K < 2 ^ 64 ->
  plan_node < n0 -> m !! plan_node = Some pl ->
  (forall j, n0 <= j -> m !! j = None) ->
  exists m',
    Workflow.expand_pdf plan_node it acc p (with_graph m n0 w)
    = (with_graph m' (n0 + stride K) w,
       Workflow.Ok (acc ++ ((fun i => n0 + 3 + 2 * i + 1) <$> seqZ 0 K))) /\
    pdf_done w it plan_node p n0 K m pl m'.
Proof.
  intros K HK Hpos Hmax Hplan Hpl Hfresh. unfold stride in *.
  pose proof (Hfresh n0 ltac:(lia)) as Hf0.
  pose proof (Hfresh (n0 + 1) ltac:(lia)) as Hf1.
  pose proof (Hfresh (n0 + 2) ltac:(lia)) as Hf2.
  unfold Workflow.expand_pdf.
  rewrite (bind_ok _ _ _ _ _ (get_graph _ _ _)).
  erewrite bind_ok by (apply NewNodeId_graph; lia).
  erewrite bind_ok by (apply NewNodeId_graph; lia).
  erewrite bind_ok by (apply NewNodeId_graph; lia).
  graph_proj.
  do 3 erewrite bind_ok
    by (apply AddNode_graph; graph_proj;
        [lia | reflexivity | look; apply Hfresh; lia]).
  graph_proj.
  rewrite !bind_assoc.
  erewrite bind_ok by apply Populate_graph.
  erewrite bind_ok by apply Populate_graph.
  erewrite bind_ok by apply Populate_graph.
  erewrite bind_ok by (apply AddEdge_graph; look; rewrite ?Hpl; eauto).
  erewrite bind_ok by (apply AddEdge_graph; look; rewrite ?Hpl; eauto).
  erewrite bind_ok by (apply AddEdge_graph; look; rewrite ?Hpl; eauto).
  fold K.
  replace (n0 + 1 + 1) with (n0 + 2) by lia.
  replace (n0 + 2 + 1) with (n0 + 3) by lia.
  match goal with
  | |- context [with_graph ?m1 _ w] =>
      assert (Hm1 : m1
        = <[n0 + 2 := linked [n0 + 1] [] (made w Embed it p (-1) (n0 + 2))]>
            (<[n0 + 1 := linked [n0] [n0 + 2]
                            (made w Chunk it p (-1) (n0 + 1))]>
               (<[n0 := linked [plan_node] [n0 + 1]
                          (made w LoadPDF it p (-1) n0)]>
                  (alter (fun a => set_children (children a ++ [n0]) a)
                     plan_node m))))
  end.
  { apply map_eq. intros j.
    destruct (decide (j = n0 + 2)) as [->|H2];
      [|destruct (decide (j = n0 + 1)) as [->|H1];
        [|destruct (decide (j = n0)) as [->|H0];
          [|destruct (decide (j = plan_node)) as [->|H3]]]];
      look; try reflexivity;
      cbn; f_equal; unfold linked, made, populate;
      destruct (Workflow.provider_config_ w); reflexivity. }
  rewrite Hm1. clear Hm1.
  set (m1 := <[n0 + 2 := _]> _).
  assert (Hrun : forall s,
            (if bool_decide (K = 0) then Workflow.ret acc
             else Workflow.foldM (Workflow.expand_subquery (n0 + 2) it p) acc
                    (seqZ 0 K)) s
            = Workflow.foldM (Workflow.expand_subquery (n0 + 2) it p) acc
                (seqZ 0 K) s).
  { intros s. case_bool_decide as HK0; [|reflexivity]. now rewrite HK0. }
  rewrite Hrun. clear Hrun.
  destruct (subqueries_loop w it p (n0 + 2) (n0 + 3) K acc m1
              (linked [n0 + 1] [] (made w Embed it p (-1) (n0 + 2))))
    as (m' & Hloop & Hnone & Hold & Hemb & Hnew);
    [lia | lia | lia | lia | subst m1; now look
    | intros j Hj; subst m1; look; apply Hfresh; lia |].
  exists m'. split.
  { rewrite Hloop. replace (n0 + (3 + 2 * K)) with (n0 + 3 + 2 * K) by lia.
    reflexivity. }
  unfold pdf_done, pdf_nodes, stride.
  split; [|split; [|split; [|split; [|split; [|split]]]]].
  - intros j Hj. apply Hnone. lia.
  - intros j Hj Hne. rewrite Hold by lia. subst m1. now look.
  - rewrite Hold by lia. subst m1. look. now rewrite Hpl.
  - rewrite Hold by lia. subst m1. now look.
  - rewrite Hold by lia. subst m1. now look.
  - rewrite Hemb. reflexivity.
  - exact Hnew.
Qed.

Lemma pdf_nodes_frame w it plan_node p n0 K (m m' : gmap Z Node) :
  0 <= K ->
  (forall j, n0 <= j < n0 + stride K -> m' !! j = m !! j) ->
  pdf_nodes w it plan_node p n0 K m -> pdf_nodes w it plan_node p n0 K m'.
Proof.
  unfold stride. intros HK Hsame (Hl & Hc & He & Hq).
  split; [|split; [|split]].
  - rewrite Hsame by lia. exact Hl.
  - rewrite Hsame by lia. exact Hc.
  - rewrite Hsame by lia. exact He.
  - intros i Hi. rewrite !Hsame by lia. now apply Hq.
Qed.

Lemma pdfs_loop (w : Workflow.t) (it plan_node base P : Z)
    (m : gmap Z Node) (pl : Node) :
  let K := WorkloadParams.subqueries_per_iter (Workflow.params_ w) in
  0 <= P -> 0 <= K -> 0 < base -> base + P * stride K < 2 ^ 64 ->
  plan_node < base -> m !! plan_node = Some pl ->
  (forall j, base <= j -> m !! j = None) ->
  exists m',
    Workflow.foldM (Workflow.expand_pdf plan_node it) [] (seqZ 0 P)
      (with_graph m base w)
    = (with_graph m' (base + P * stride K) w,
       Workflow.Ok (ex_keys base K P)) /\
    pdfs_done w it plan_node base K m pl P m'.
Proof.
  intros K HP HK Hpos Hmax Hplan Hpl Hfresh.
  assert (Hs : 3 <= stride K) by (unfold stride; lia).
  destruct (foldM_seqZ
              (fun p acc' w' =>
                 acc' = ex_keys base K p /\
                 exists m', w' = with_graph m' (base + p * stride K) w /\
                            pdfs_done w it plan_node base K m pl p m')
              (Workflow.expand_pdf plan_node it) P HP 0)
    with (acc := @nil Z) (w := with_graph m base w)
    as (acc' & w' & Hrun & -> & m' & -> & Hdone).
  - intros p acc1 w1 Hp (-> & m1 & -> & Hnone & Hold & Hpn & Hnew).
    assert (Hn0 : base <= base + p * stride K) by nia.
    assert (Hn1 : base + p * stride K + stride K <= base + P * stride K)
      by nia.
    destruct (expand_pdf_graph plan_node it p (base + p * stride K)
                (ex_keys base K p) m1
                (set_children (children pl ++ load_ids base K p) pl) w)
      as (m2 & Hstep & Hnone2 & Hold2 & Hpn2 & Hnew2);
      [exact HK | lia | fold K; lia | lia | exact Hpn
      | intros j Hj; apply Hnone; lia |].
    fold K in Hstep, Hnone2, Hnew2.
    eexists _, _. split; [exact Hstep|].
    split.
    { unfold ex_keys. rewrite seqZ_snoc by lia. rewrite bind_app. cbn.
      rewrite app_nil_r. reflexivity. }
    exists m2. split; [f_equal; lia|].
    split; [|split; [|split]].
    + intros j Hj. apply Hnone2. lia.
    + intros j Hj Hne. rewrite Hold2 by lia. now apply Hold.
    + rewrite Hpn2. cbn. unfold load_ids, load_id.
      rewrite seqZ_snoc by lia. rewrite fmap_app, app_assoc. reflexivity.
    + intros p' Hp'. destruct (decide (p' = p)) as [->|Hne]; [exact Hnew2|].
      assert (Hlt : base + p' * stride K + stride K <= base + p * stride K)
        by nia.
      assert (Hge : base <= base + p' * stride K) by nia.
      apply (pdf_nodes_frame _ _ _ _ _ _ m1); [exact HK | | apply Hnew; lia].
      intros j Hj. apply Hold2; lia.
  - split; [reflexivity|]. exists m. split; [f_equal; lia|].
    split; [|split; [|split]].
    + intros j Hj. apply Hfresh. lia.
    + reflexivity.
    + rewrite Hpl. cbn. rewrite app_nil_r. now destruct pl.
    + intros p Hp. lia.
  - exists m'. split; [|exact Hdone]. rewrite Hrun. reflexivity.
Qed.

Lemma slot_unique (s p1 p2 r1 r2 : Z) :
  0 <= r1 < s -> 0 <= r2 < s -> p1 * s + r1 = p2 * s + r2 ->
  p1 = p2 /\ r1 = r2.
Proof.
  intros H1 H2 Heq.
  assert (p1 = p2) as ->; [|lia].
  destruct (Z.lt_trichotomy p1 p2) as [Hlt|[Heq'|Hgt]]; [|exact Heq'|]; nia.
Qed.

Lemma elem_of_ex_keys (base K P x : Z) :
  x ∈ ex_keys base K P <->
  exists p i, 0 <= p < P /\ 0 <= i < K /\
              x = base + p * stride K + 3 + 2 * i + 1.
Proof.
  unfold ex_keys. rewrite list_elem_of_bind. split.
  - intros (p & Hx & Hp). apply list_elem_of_fmap in Hx as (i & -> & Hi).
    apply elem_of_seqZ in Hp. apply elem_of_seqZ in Hi.
    exists p, i. repeat split; lia.
  - intros (p & i & Hp & Hi & ->). exists p. split.
    + apply list_elem_of_fmap. exists i. split; [reflexivity|].
      apply elem_of_seqZ. lia.
    + apply elem_of_seqZ. lia.
Qed.

Lemma ex_keys_NoDup (base K P : Z) : 0 <= K -> NoDup (ex_keys base K P).
Proof.
  intros HK. unfold ex_keys. apply NoDup_bind.
  - intros p1 p2 y _ _ H1 H2.
    apply list_elem_of_fmap in H1 as (i1 & -> & Hi1).
    apply list_elem_of_fmap in H2 as (i2 & Heq & Hi2).
    apply elem_of_seqZ in Hi1. apply elem_of_seqZ in Hi2.
    apply (slot_unique (stride K) p1 p2 (3 + 2 * i1 + 1) (3 + 2 * i2 + 1));
      unfold stride in *; lia.
  - intros p _. apply NoDup_fmap_2; [|apply NoDup_seqZ].
    intros i1 i2 Heq. lia.
  - apply NoDup_seqZ.
Qed.

Lemma ex_keys_nil (base K P : Z) :
  1 <= P -> 0 <= K -> (ex_keys base K P = [] <-> K = 0).
Proof.
  intros HP HK. split.
  - intros Hnil. destruct (decide (K = 0)) as [|Hne]; [assumption|].
    assert (Hin : base + 0 * stride K + 3 + 2 * 0 + 1 ∈ ex_keys base K P).
    { apply elem_of_ex_keys. exists 0, 0. repeat split; lia. }
    rewrite Hnil in Hin. inversion Hin.
  - intros ->. destruct (ex_keys base 0 P) as [|x l] eqn:E; [reflexivity|].
    assert (Hin : x ∈ ex_keys base 0 P) by (rewrite E; apply list_elem_of_here).
    apply elem_of_ex_keys in Hin as (p & i & _ & Hi & _). lia.
Qed.

(** The edges from the nodes of [l] into [a]. *)
Lemma edges_into (a nx : Z) (w : Workflow.t) (l : list Z) :
  forall m : gmap Z Node,
  NoDup l -> a ∉ l -> is_Some (m !! a) ->
  (forall x, x ∈ l -> is_Some (m !! x)) ->
  exists m',
    Workflow.forM_ l (fun x => Workflow.AddEdge x a) (with_graph m nx w)
    = (with_graph m' nx w, Workflow.Ok ()) /\
    (forall j, j ∉ l -> j <> a -> m' !! j = m !! j) /\
    (forall x, x ∈ l ->
       m' !! x = (fun n => set_children (children n ++ [a]) n) <$> m !! x) /\
    m' !! a = (fun n => set_deps (deps n ++ l) n) <$> m !! a.
Proof.
  unfold Workflow.forM_.
  induction l as [|x l IH]; intros m Hnd Ha Hma Hl.
  - exists m. split; [reflexivity|]. split; [reflexivity|].
    split; [intros x Hx; inversion Hx|].
    destruct Hma as [n ->]. cbn. rewrite app_nil_r. now destruct n.
  - apply NoDup_cons in Hnd as [Hx Hnd].
    apply not_elem_of_cons in Ha as [Hax Ha].
    cbn [Workflow.foldM].
    erewrite bind_ok
      by (apply AddEdge_graph; [apply Hl, list_elem_of_here | exact Hma]).
    destruct (IH (alter (fun b => set_deps (deps b ++ [x]) b) a
                    (alter (fun c => set_children (children c ++ [a]) c) x m)))
      as (m' & Hrun & Hother & Hsrc & Hdst); [exact Hnd | exact Ha | | |].
    { rewrite lookup_alter_eq, lookup_alter_ne by congruence.
      destruct Hma as [n ->]. eauto. }
    { intros y Hy. assert (y <> a) by (intros ->; contradiction).
      assert (y <> x) by (intros ->; contradiction).
      rewrite !lookup_alter_ne by congruence.
      apply Hl. now apply list_elem_of_further. }
    exists m'. split; [exact Hrun|]. split; [|split].
    + intros j Hj Hja. apply not_elem_of_cons in Hj as [Hjx Hj].
      rewrite Hother by assumption.
      now rewrite !lookup_alter_ne by congruence.
    + intros y Hy. apply elem_of_cons in Hy as [->|Hy].
      * rewrite Hother by congruence.
        rewrite lookup_alter_ne by congruence. now rewrite lookup_alter_eq.
      * rewrite Hsrc by assumption.
        assert (y <> a) by (intros ->; contradiction).
        assert (y <> x) by (intros ->; contradiction).
        now rewrite !lookup_alter_ne by congruence.
    + rewrite Hdst, lookup_alter_eq, lookup_alter_ne by congruence.
      destruct Hma as [n ->]. cbn. f_equal. unfold set_deps. cbn.
      now rewrite <- app_assoc.
Qed.

Lemma deps_succeeded_total (ds : list Z) (w : Workflow.t) :
  (forall d, d ∈ ds -> is_Some (Workflow.nodes w !! d)) ->
  exists b, Workflow.deps_succeeded ds w = (w, Workflow.Ok b).
Proof.
  induction ds as [|d ds IH]; intros Hds; cbn [Workflow.deps_succeeded].
  - exists true. reflexivity.
  - destruct (Hds d (list_elem_of_here _ _)) as [n Hn].
    unfold Workflow.bind, Workflow.node. rewrite Hn.
    destruct (bool_decide (state n <> Succeeded)).
    + exists false. reflexivity.
    + apply IH. intros d' Hd'. apply Hds. now apply list_elem_of_further.
Qed.

Lemma InitializeStateFromDeps_graph (nid nx : Z) (n : Node)
    (m : gmap Z Node) (w : Workflow.t) :
  m !! nid = Some n -> (forall d, d ∈ deps n -> is_Some (m !! d)) ->
  exists s,
    Workflow.InitializeStateFromDeps nid (with_graph m nx w)
    = (with_graph (<[nid := set_state s n]> m) nx w, Workflow.Ok ()).
Proof.
  intros Hn Hds. unfold Workflow.InitializeStateFromDeps.
  unfold Workflow.bind at 1. unfold Workflow.node.
  cbn [Workflow.nodes with_graph]. rewrite Hn.
  destruct (IsTerminal (state n)).
  - exists (state n). unfold Workflow.ret. f_equal. unfold with_graph.
    f_equal. rewrite set_state_same. now rewrite insert_id.
  - destruct (deps_succeeded_total (deps n) (with_graph m nx w) Hds)
      as [b Hb].
    unfold Workflow.DepsSatisfied. rewrite (bind_ok _ _ _ _ _ Hb).
    exists (if b then Runnable else WaitingDeps).
    unfold Workflow.update_node, Workflow.modify, Workflow.set_nodes.
    cbn. f_equal. unfold with_graph. f_equal.
    apply map_eq. intros j. destruct (decide (j = nid)) as [->|Hne].
    + now rewrite lookup_alter_eq, lookup_insert_eq, Hn.
    + now rewrite lookup_alter_ne, lookup_insert_ne by congruence.
Qed.

Lemma bind_congr {A B} (x y : Workflow.M A) (k : A -> Workflow.M B) s :
  x s = y s -> Workflow.bind x k s = Workflow.bind y k s.
Proof. unfold Workflow.bind. now intros ->. Qed.

Lemma edges_of_feeds (plan_node a : Z) (acc : list Z) s :
  match acc with
  | _ :: _ => Workflow.forM_ acc (fun x => Workflow.AddEdge x a)
  | [] => Workflow.AddEdge plan_node a
  end s
  = Workflow.forM_ (feeds plan_node acc) (fun x => Workflow.AddEdge x a) s.
Proof.
  destruct acc as [|x l]; [|reflexivity].
  cbn. unfold Workflow.bind, Workflow.ret.
  destruct (Workflow.AddEdge plan_node a s) as [s' [[]|msg]]; reflexivity.
Qed.

Lemma feeds_facts (w : Workflow.t) (it plan_node base K P : Z)
    (m : gmap Z Node) (pl : Node) (mP : gmap Z Node) :
  0 <= K -> plan_node < base -> 0 <= P ->
  pdfs_done w it plan_node base K m pl P mP ->
  NoDup (feeds plan_node (ex_keys base K P)) /\
  forall x, x ∈ feeds plan_node (ex_keys base K P) ->
    x < base + P * stride K /\ is_Some (mP !! x).
Proof.
  intros HK Hplan HP (_ & _ & Hpl & Hnew).
  assert (Hs : 3 + 2 * K = stride K) by reflexivity.
  destruct (ex_keys base K P) as [|x0 l] eqn:E; cbn [feeds].
  - split; [apply NoDup_singleton|].
    intros x Hx. apply list_elem_of_singleton in Hx as ->.
    split; [nia | rewrite Hpl; eauto].
  - rewrite <- E. split; [now apply ex_keys_NoDup|].
    intros x Hx. apply elem_of_ex_keys in Hx as (p & i & Hp & Hi & ->).
    split; [nia|].
    destruct (Hnew p Hp) as (_ & _ & _ & Hq).
    destruct (Hq i Hi) as [_ Hex]. rewrite Hex. eauto.
Qed.

Lemma expansion_graph (w : Workflow.t) (plan_node base : Z)
    (m : gmap Z Node) (pl : Node) :
  let P := WorkloadParams.pdfs (Workflow.params_ w) in
  let K := WorkloadParams.subqueries_per_iter (Workflow.params_ w) in
  let a := base + P * stride K in
  let F := feeds plan_node (ex_keys base K P) in
  0 <= P -> 0 <= K ->
  iter pl < WorkloadParams.max_iters (Workflow.params_ w) ->
  Workflow.has_aggregate (iter pl) (with_graph m base w) = false ->
  0 < base -> a + 2 < 2 ^ 64 ->
  m !! plan_node = Some pl -> (forall j, base <= j -> m !! j = None) ->
  exists m' mP s1 s2,
    Workflow.ExpandIterationFromPlan plan_node (with_graph m base w)
    = (with_graph m' (a + 2) w, Workflow.Ok ()) /\
    pdfs_done w (iter pl) plan_node base K m pl P mP /\
    (forall j, a + 2 <= j -> m' !! j = None) /\
    (forall j, j < a -> j ∉ F -> m' !! j = mP !! j) /\
    (forall x, x ∈ F ->
       m' !! x = (fun n => set_children (children n ++ [a]) n) <$> mP !! x) /\
    m' !! a
    = Some (set_state s1
              (linked F [a + 1]
                 (made w Aggregate (iter pl) (-1) (-1) a))) /\
    m' !! (a + 1)
    = Some (set_state s2
              (linked [a] []
                 (made w DecideNext (iter pl) (-1) (-1) (a + 1)))).
Proof.
  intros P K a F HP HK Hit Hagg Hpos Hmax Hpl Hfresh.
  assert (Hplan : plan_node < base).
  { destruct (Z.lt_ge_cases plan_node base) as [|Hge]; [assumption|].
    rewrite (Hfresh _ Hge) in Hpl. discriminate. }
  assert (Hs : 3 <= stride K) by (unfold stride; lia).
  assert (Hba : base <= a) by (unfold a; nia).
  destruct (pdfs_loop w (iter pl) plan_node base P m pl)
    as (mP & Hloop & Hdone); try assumption; [fold K a; lia|].
  fold K in Hloop, Hdone. fold a in Hloop.
  destruct (feeds_facts w (iter pl) plan_node base K P m pl mP)
    as [Hnd HF]; try assumption.
  fold F a in Hnd, HF.
  pose proof Hdone as (HnoneP & _ & HplP & _). fold a in HnoneP.
  unfold Workflow.ExpandIterationFromPlan.
  unfold Workflow.bind at 1. unfold Workflow.node at 1.
  cbn [Workflow.nodes with_graph]. rewrite Hpl.
  rewrite (bind_ok _ _ _ _ _ (get_graph _ _ _)).
  graph_proj.
  rewrite (proj2 (Z.leb_gt _ _) Hit), Hagg.
  fold P. rewrite (bind_ok _ _ _ _ _ Hloop).
  erewrite bind_ok by (apply NewNodeId_graph; lia).
  erewrite bind_ok by (apply NewNodeId_graph; lia).
  graph_proj.
  erewrite bind_ok
    by (apply AddNode_graph; graph_proj;
        [lia | reflexivity | apply HnoneP; lia]).
  erewrite bind_ok
    by (apply AddNode_graph; graph_proj;
        [lia | reflexivity | look; apply HnoneP; lia]).
  graph_proj.
  rewrite !bind_assoc.
  erewrite bind_ok by apply Populate_graph.
  erewrite bind_ok by apply Populate_graph.
  erewrite bind_congr by apply edges_of_feeds.
  fold F.
  replace (a + 1 + 1) with (a + 2) by lia.
  match goal with
  | |- context [with_graph ?m2 _ w] =>
      assert (Hm2 : m2
        = <[a + 1 := made w DecideNext (iter pl) (-1) (-1) (a + 1)]>
            (<[a := made w Aggregate (iter pl) (-1) (-1) a]> mP));
      [|rewrite Hm2; clear Hm2]
  end.
  { apply map_eq. intros j.
    destruct (decide (j = a + 1)) as [->|H1];
      [|destruct (decide (j = a)) as [->|H0]]; look; reflexivity. }
  set (m2 := <[a + 1 := _]> _).
  assert (HFlt : forall x, x ∈ F -> x <> a /\ x <> a + 1).
  { intros x Hx. destruct (HF x Hx). lia. }
  destruct (edges_into a (a + 2) w F m2) as (m3 & Hedges & Hoth & Hsrc & Hdst).
  { exact Hnd. }
  { intros Hin. destruct (HFlt a Hin). congruence. }
  { subst m2. look. eauto. }
  { intros x Hx. destruct (HF x Hx) as [Hlt Hsome]. subst m2. now look. }
  rewrite (bind_ok _ _ _ _ _ Hedges).
  assert (Ha3 : m3 !! a
            = Some (linked F [] (made w Aggregate (iter pl) (-1) (-1) a))).
  { rewrite Hdst. subst m2. look. cbn. f_equal.
    unfold linked, made, populate.
    destruct (Workflow.provider_config_ w); reflexivity. }
  assert (Hd3 : m3 !! (a + 1)
            = Some (made w DecideNext (iter pl) (-1) (-1) (a + 1))).
  { rewrite Hoth; [subst m2; now look | | lia].
    intros Hin. destruct (HFlt _ Hin). congruence. }
  erewrite bind_ok
    by (apply AddEdge_graph; [rewrite Ha3 | rewrite Hd3]; eauto).
  set (m4 := alter _ (a + 1) _).
  assert (Ha4 : m4 !! a
            = Some (linked F [a + 1]
                      (made w Aggregate (iter pl) (-1) (-1) a))).
  { subst m4. look. rewrite Ha3. reflexivity. }
  assert (Hd4 : m4 !! (a + 1)
            = Some (linked [a] []
                      (made w DecideNext (iter pl) (-1) (-1) (a + 1)))).
  { subst m4. look. rewrite Hd3. cbn. f_equal.
    unfold linked, made, populate.
    destruct (Workflow.provider_config_ w); reflexivity. }
  assert (Hf4 : forall x, x ∈ F -> is_Some (m4 !! x)).
  { intros x Hx. destruct (HFlt x Hx). destruct (HF x Hx) as [_ [n Hn]].
    subst m4. look. rewrite Hsrc by assumption. subst m2. look.
    rewrite Hn. eauto. }
  destruct (InitializeStateFromDeps_graph a (a + 2) _ m4 w Ha4) as [s1 Hi1].
  { intros d Hd. rewrite deps_linked in Hd. now apply Hf4. }
  rewrite (bind_ok _ _ _ _ _ Hi1).
  set (m5 := <[a := _]> m4).
  assert (Hd5 : m5 !! (a + 1)
            = Some (linked [a] []
                      (made w DecideNext (iter pl) (-1) (-1) (a + 1)))).
  { subst m5. look. exact Hd4. }
  destruct (InitializeStateFromDeps_graph (a + 1) (a + 2) _ m5 w Hd5)
    as [s2 Hi2].
  { intros d Hd. rewrite deps_linked in Hd.
    apply list_elem_of_singleton in Hd as ->. subst m5. look. eauto. }
  rewrite Hi2.
  eexists _, mP, s1, s2. split; [reflexivity|].
  split; [exact Hdone|].
  split; [|split; [|split; [|split]]].
  - intros j Hj. subst m5 m4. look. rewrite Hoth; [|intros Hin|lia].
    + subst m2. look. apply HnoneP. lia.
    + destruct (HF j Hin). lia.
  - intros j Hj HjF. subst m5 m4. look. rewrite Hoth; [|assumption|lia].
    subst m2. now look.
  - intros x Hx. destruct (HFlt x Hx). subst m5 m4. look.
    rewrite Hsrc by assumption. subst m2. now look.
  - subst m5. now look.
  - now look.
Qed.

Lemma ex_keys_all (base K P : Z) : ex_keys base K P = all_ex_ids base K P.
Proof. reflexivity. Qed.

Lemma feeds_agg_deps (plan_node base K P : Z) :
  1 <= P -> 0 <= K ->
  feeds plan_node (ex_keys base K P) = agg_deps plan_node base K P.
Proof.
  intros HP HK. unfold agg_deps.
  pose proof (ex_keys_nil base K P HP HK) as Hnil.
  destruct (decide (K = 0)) as [HK0|HK0].
  - now rewrite (proj2 Hnil HK0).
  - change (all_ex_ids base K P) with (ex_keys base K P).
    destruct (ex_keys base K P) as [|x l] eqn:E; [|reflexivity].
    exfalso. apply HK0, Hnil. reflexivity.
Qed.

Lemma not_agg_dep (plan_node base K P p r : Z) :
  1 <= P -> 0 <= K -> plan_node < base -> 0 <= p -> 0 <= r < stride K ->
  (forall i, 0 <= i < K -> r <> 3 + 2 * i + 1) ->
  base + p * stride K + r ∉ agg_deps plan_node base K P.
Proof.
  intros HP HK Hplan Hp Hr Hodd. unfold agg_deps.
  destruct (decide (K = 0)) as [HK0|HK0].
  - intros Hin. apply list_elem_of_singleton in Hin. nia.
  - change (all_ex_ids base K P) with (ex_keys base K P). intros Hin.
    apply elem_of_ex_keys in Hin as (p' & i & Hp' & Hi & Heq).
    destruct (slot_unique (stride K) p p' r (3 + 2 * i + 1)) as [_ Hrr];
      [lia | unfold stride; lia | lia |].
    now apply (Hodd i).
Qed.

Lemma expansion_lookups (w : Workflow.t) (plan_node base : Z)
    (m : gmap Z Node) (pl : Node) :
  let P := WorkloadParams.pdfs (Workflow.params_ w) in
  let K := WorkloadParams.subqueries_per_iter (Workflow.params_ w) in
  let it := iter pl in
  let a := agg_id base K P in
  1 <= P -> 0 <= K ->
  it < WorkloadParams.max_iters (Workflow.params_ w) ->
  Workflow.has_aggregate it (with_graph m base w) = false ->
  0 < base -> a + 2 < 2 ^ 64 ->
  m !! plan_node = Some pl -> (forall j, base <= j -> m !! j = None) ->
  exists m' s1 s2,
    Workflow.ExpandIterationFromPlan plan_node (with_graph m base w)
    = (with_graph m' (a + 2) w, Workflow.Ok ()) /\
    (forall j, a + 2 <= j -> m' !! j = None) /\
    (forall j, j < base -> j <> plan_node -> m' !! j = m !! j) /\
    m' !! plan_node
    = Some (set_children
              (children pl ++ load_ids base K P
               ++ (if decide (K = 0) then [a] else [])) pl) /\
    (forall p, 0 <= p < P ->
       m' !! load_id base K p
       = Some (linked [plan_node] [chunk_id base K p]
                 (made w LoadPDF it p (-1) (load_id base K p))) /\
       m' !! chunk_id base K p
       = Some (linked [load_id base K p] [embed_id base K p]
                 (made w Chunk it p (-1) (chunk_id base K p))) /\
       m' !! embed_id base K p
       = Some (linked [chunk_id base K p] (ss_ids base K p)
                 (made w Embed it p (-1) (embed_id base K p))) /\
       (forall q, 0 <= q < K ->
          m' !! ss_id base K p q
          = Some (linked [embed_id base K p] [ex_id base K p q]
                    (made w SimilaritySearch it p q (ss_id base K p q))) /\
          m' !! ex_id base K p q
          = Some (linked [ss_id base K p q] [a]
                    (made_evidence w it p q (ex_id base K p q))))) /\
    m' !! a
    = Some (set_state s1
              (linked (agg_deps plan_node base K P) [decide_id base K P]
                 (made w Aggregate it (-1) (-1) a))) /\
    m' !! decide_id base K P
    = Some (set_state s2
              (linked [a] []
                 (made w DecideNext it (-1) (-1) (decide_id base K P)))).
Proof.
  intros P K it a HP HK Hit Hagg Hpos Hmax Hpl Hfresh.
  assert (Hplan : plan_node < base).
  { destruct (Z.lt_ge_cases plan_node base) as [|Hge]; [assumption|].
    rewrite (Hfresh _ Hge) in Hpl. discriminate. }
  assert (Hs : 3 + 2 * K = stride K) by reflexivity.
  destruct (expansion_graph w plan_node base m pl)
    as (m' & mP & s1 & s2 & Hrun & (HnoneP & HoldP & HplP & HnewP)
        & Hnone & Hoth & Hsrc & Ha & Hd);
    try assumption; [lia|].
  fold P K it in Hrun, HnoneP, HoldP, HplP, HnewP, Hnone, Hoth, Hsrc, Ha, Hd.
  rewrite (feeds_agg_deps plan_node base K P HP HK) in Hoth, Hsrc, Ha.
  change (base + P * stride K) with a in *.
  assert (Hba : base <= a) by (unfold a, agg_id; nia).
  exists m', s1, s2. split; [exact Hrun|].
  split; [exact Hnone|].
  split; [|split; [|split; [|split]]].
  - intros j Hj Hne. rewrite Hoth; [now apply HoldP | lia |].
    unfold agg_deps. destruct (decide (K = 0)).
    + intros Hin. apply list_elem_of_singleton in Hin. congruence.
    + change (all_ex_ids base K P) with (ex_keys base K P). intros Hin.
      apply elem_of_ex_keys in Hin as (p & i & Hp & Hi & ->). nia.
  - unfold agg_deps in Hoth, Hsrc. destruct (decide (K = 0)) as [HK0|HK0].
    + rewrite Hsrc by apply list_elem_of_here. rewrite HplP. cbn.
      unfold set_children. cbn. now rewrite <- app_assoc.
    + rewrite Hoth; [rewrite HplP; now rewrite app_nil_r | lia |].
      change (all_ex_ids base K P) with (ex_keys base K P). intros Hin.
      apply elem_of_ex_keys in Hin as (p & i & Hp & Hi & Heq). nia.
  - intros p Hp. destruct (HnewP p Hp) as (Hl & Hc & He & Hq).
    assert (Hlt : base + p * stride K + stride K <= a)
      by (unfold a, agg_id; nia).
    unfold load_id, chunk_id, embed_id, ss_id, ex_id, ss_ids.
    split; [|split; [|split]].
    + rewrite Hoth; [exact Hl | lia |].
      replace (base + p * stride K) with (base + p * stride K + 0) by lia.
      apply not_agg_dep; try assumption; lia.
    + rewrite Hoth; [exact Hc | lia |].
      apply not_agg_dep; try assumption; lia.
    + rewrite Hoth; [exact He | lia |].
      apply not_agg_dep; try assumption; lia.
    + intros q Hq'. destruct (Hq q Hq') as [Hss Hex]. split.
      * rewrite Hoth; [exact Hss | lia |].
        replace (base + p * stride K + 3 + 2 * q)
          with (base + p * stride K + (3 + 2 * q)) by lia.
        apply not_agg_dep; try assumption; lia.
      * rewrite Hsrc, Hex; [reflexivity|].
        unfold agg_deps. rewrite decide_False by lia.
        change (all_ex_ids base K P) with (ex_keys base K P). apply elem_of_ex_keys. eauto.
  - exact Ha.
  - exact Hd.
Qed.

Lemma slot_cover (base s P j : Z) :
  0 < s -> base <= j < base + P * s ->
  exists p r, 0 <= p < P /\ 0 <= r < s /\ j = base + p * s + r.
Proof.
  intros Hs Hj. exists ((j - base) / s), ((j - base) mod s).
  pose proof (Z.div_mod (j - base) s ltac:(lia)) as Hdm.
  pose proof (Z.mod_pos_bound (j - base) s Hs) as Hr.
  assert (0 <= (j - base) / s) by (apply Z.div_pos; lia).
  repeat split; try lia. nia.
Qed.

Lemma pair_cover (K r : Z) :
  3 <= r < 3 + 2 * K ->
  exists q, 0 <= q < K /\ (r = 3 + 2 * q \/ r = 3 + 2 * q + 1).
Proof.
  intros Hr. exists ((r - 3) / 2).
  pose proof (Z.div_mod (r - 3) 2 ltac:(lia)) as Hdm.
  pose proof (Z.mod_pos_bound (r - 3) 2 ltac:(lia)) as Hm.
  lia.
Qed.

Lemma length_bind_const {A B} (f : A -> list B) (n : nat) (l : list A) :
  (forall x, x ∈ l -> length (f x) = n) ->
  length (l ≫= f) = (length l * n)%nat.
Proof.
  induction l as [|x l IH]; intros Hf; [reflexivity|].
  cbn. rewrite length_app, IH, Hf.
  - reflexivity.
  - apply list_elem_of_here.
  - intros y Hy. apply Hf. now apply list_elem_of_further.
Qed.

Lemma new_ids_count (base K P : Z) (ty : NodeType) :
  0 <= P -> 0 <= K ->
  NoDup (new_ids base K P ty) /\
  Z.of_nat (length (new_ids base K P ty)) = new_count K P ty.
Proof.
  intros HP HK.
  assert (Hs : 3 + 2 * K = stride K) by reflexivity.
  assert (Hrow : forall c, 0 <= c < stride K ->
            NoDup ((fun p => base + p * stride K + c) <$> seqZ 0 P) /\
            Z.of_nat (length ((fun p => base + p * stride K + c) <$> seqZ 0 P))
            = P).
  { intros c Hc. split.
    - apply NoDup_fmap_2; [|apply NoDup_seqZ]. intros p1 p2 Heq. nia.
    - rewrite length_fmap, length_seqZ. lia. }
  assert (Hgrid : forall c, 3 <= c <= 4 ->
            NoDup (seqZ 0 P ≫=
                     (fun p => (fun i => base + p * stride K + 2 * i + c)
                               <$> seqZ 0 K)) /\
            Z.of_nat (length (seqZ 0 P ≫=
                     (fun p => (fun i => base + p * stride K + 2 * i + c)
                               <$> seqZ 0 K)))
            = P * K).
  { intros c Hc. split.
    - apply NoDup_bind; [| |apply NoDup_seqZ].
      + intros p1 p2 y _ _ H1 H2.
        apply list_elem_of_fmap in H1 as (i1 & -> & Hi1).
        apply list_elem_of_fmap in H2 as (i2 & Heq & Hi2).
        apply elem_of_seqZ in Hi1. apply elem_of_seqZ in Hi2.
        apply (slot_unique (stride K) p1 p2 (2 * i1 + c) (2 * i2 + c)); lia.
      + intros p _. apply NoDup_fmap_2; [|apply NoDup_seqZ].
        intros i1 i2 Heq. lia.
    - rewrite (length_bind_const _ (Z.to_nat K)).
      + rewrite length_seqZ. nia.
      + intros p _. now rewrite length_fmap, length_seqZ. }
  destruct ty; cbn [new_ids new_count].
  - split; [constructor | reflexivity].
  - unfold load_ids, load_id.
    destruct (Hrow 0 ltac:(lia)) as [Hn Hl]. split.
    + erewrite list_fmap_ext; [exact Hn|]. intros _ p _. cbn beta. lia.
    + rewrite length_fmap, length_seqZ. lia.
  - unfold chunk_id. now apply Hrow; lia.
  - unfold embed_id. now apply Hrow; lia.
  - unfold all_ss_ids, ss_ids, ss_id.
    destruct (Hgrid 3 ltac:(lia)) as [Hn Hl]. split.
    + erewrite list_bind_ext; [exact Hn| |reflexivity].
      intros p. apply list_fmap_ext. intros _ i _. cbn beta. lia.
    + rewrite (length_bind_const _ (Z.to_nat K)).
      * rewrite length_seqZ. nia.
      * intros p _. now rewrite length_fmap, length_seqZ.
  - unfold all_ex_ids, ex_ids, ex_id.
    destruct (Hgrid 4 ltac:(lia)) as [Hn Hl]. split.
    + erewrite list_bind_ext; [exact Hn| |reflexivity].
      intros p. apply list_fmap_ext. intros _ i _. cbn beta. lia.
    + rewrite (length_bind_const _ (Z.to_nat K)).
      * rewrite length_seqZ. nia.
      * intros p _. now rewrite length_fmap, length_seqZ.
  - split; [apply NoDup_singleton | reflexivity].
  - split; [apply NoDup_singleton | reflexivity].
Qed.

Lemma node_is_made (m : gmap Z Node) w ty it p q nid ds cs s :
  m !! nid = Some (set_state s (linked ds cs (made w ty it p q nid))) ->
  node_is m nid ty it p q ds cs.
Proof.
  intros H. eexists. split; [exact H|].
  unfold linked, made, populate.
  destruct (Workflow.provider_config_ w); cbn; repeat split.
Qed.

Lemma node_is_made_evidence (m : gmap Z Node) w it p q nid ds cs :
  m !! nid = Some (linked ds cs (made_evidence w it p q nid)) ->
  node_is m nid ExtractEvidence it p q ds cs /\
  exists n, m !! nid = Some n /\
    evidence_count_est n
    = Workflow.evidence_hash (WorkloadParams.seed (Workflow.params_ w))
        (Workflow.id_ w) it p q mod 4 /\
    0 <= evidence_count_est n <= 3.
Proof.
  intros H. split.
  - eexists. split; [exact H|].
    unfold linked, made_evidence, populate.
    destruct (Workflow.provider_config_ w); cbn; repeat split.
  - eexists. split; [exact H|].
    assert (Hb : 0 <= Workflow.evidence_hash
                        (WorkloadParams.seed (Workflow.params_ w))
                        (Workflow.id_ w) it p q mod 4 < 4)
      by (apply Z.mod_pos_bound; lia).
    unfold linked, made_evidence, populate.
    destruct (Workflow.provider_config_ w); cbn; split; (reflexivity || lia).
Qed.

Lemma type_made w ty it p q nid ds cs s :
  type (set_state s (linked ds cs (made w ty it p q nid))) = ty.
Proof.
  unfold linked, made, populate.
  destruct (Workflow.provider_config_ w); reflexivity.
Qed.

Lemma type_made_evidence w it p q nid ds cs :
  type (linked ds cs (made_evidence w it p q nid)) = ExtractEvidence.
Proof.
  unfold linked, made_evidence, populate.
  destruct (Workflow.provider_config_ w); reflexivity.
Qed.

Lemma made_waiting w ty it p q nid ds cs :
  set_state WaitingDeps (linked ds cs (made w ty it p q nid))
  = linked ds cs (made w ty it p q nid).
Proof.
  unfold linked, made, populate.
  destruct (Workflow.provider_config_ w); reflexivity.
Qed.

Lemma set_state_linked ds cs n : set_state (state n) (linked ds cs n) = linked ds cs n.
Proof. now destruct n. Qed.

(** C4. Expanding iteration [k] from the plan node [plan_node] of a
    workflow with [P >= 1] pdfs and [K >= 0] subqueries, when [k] is below
    [max_iters], the iteration has no aggregate yet and the ids from
    [next_node_id] on are free, returns normally and adds exactly the nodes
    of [new_ids]: [P] LoadPDF, [P] Chunk, [P] Embed, [P * K]
    SimilaritySearch, [P * K] ExtractEvidence, one Aggregate and one
    DecideNext node.  Each of them is of iteration [k] and has exactly the
    edges Plan -> LoadPDF(p) -> Chunk(p) -> Embed(p), Embed(p) ->
    SimilaritySearch(p, q) -> ExtractEvidence(p, q) -> Aggregate (or Plan ->
    Aggregate when [K = 0]) and Aggregate -> DecideNext; the estimate of
    ExtractEvidence(p, q) is the hash of (seed, workflow id, [k], [p], [q])
    modulo 4; no other node changes, but for the new children of the
    plan. *)
Theorem ExpandIterationFromPlan_shape (w : Workflow.t) (plan_node : Z)
    (plan : Node) :
  let P := WorkloadParams.pdfs (Workflow.params_ w) in
  let K := WorkloadParams.subqueries_per_iter (Workflow.params_ w) in
  let k := iter plan in
  let base := Workflow.next_node_id w in
  Workflow.nodes w !! plan_node = Some plan ->
  1 <= P -> 0 <= K ->
  k < WorkloadParams.max_iters (Workflow.params_ w) ->
  Workflow.has_aggregate k w = false ->
  0 < base -> agg_id base K P + 2 < 2 ^ 64 ->
  (forall j, base <= j -> Workflow.nodes w !! j = None) ->
  exists w',
    Workflow.ExpandIterationFromPlan plan_node w = (w', Workflow.Ok ()) /\
    (forall ty,
       NoDup (new_ids base K P ty) /\
       Z.of_nat (length (new_ids base K P ty)) = new_count K P ty) /\
    (forall j n,
       Workflow.nodes w !! j = None -> Workflow.nodes w' !! j = Some n ->
       j ∈ new_ids base K P (type n)) /\
    (forall j n,
       Workflow.nodes w !! j = Some n -> j <> plan_node ->
       Workflow.nodes w' !! j = Some n) /\
    Workflow.nodes w' !! plan_node
    = Some (set_children
              (children plan ++ load_ids base K P
               ++ (if decide (K = 0) then [agg_id base K P] else []))
              plan) /\
    (forall p, 0 <= p < P ->
       node_is (Workflow.nodes w') (load_id base K p) LoadPDF k p (-1)
         [plan_node] [chunk_id base K p] /\
       node_is (Workflow.nodes w') (chunk_id base K p) Chunk k p (-1)
         [load_id base K p] [embed_id base K p] /\
       node_is (Workflow.nodes w') (embed_id base K p) Embed k p (-1)
         [chunk_id base K p] (ss_ids base K p) /\
       (forall q, 0 <= q < K ->
          node_is (Workflow.nodes w') (ss_id base K p q) SimilaritySearch
            k p q [embed_id base K p] [ex_id base K p q] /\
          node_is (Workflow.nodes w') (ex_id base K p q) ExtractEvidence
            k p q [ss_id base K p q] [agg_id base K P] /\
          exists n,
            Workflow.nodes w' !! ex_id base K p q = Some n /\
            evidence_count_est n
            = Workflow.evidence_hash
                (WorkloadParams.seed (Workflow.params_ w)) (Workflow.id_ w)
                k p q mod 4 /\
            0 <= evidence_count_est n <= 3)) /\
    node_is (Workflow.nodes w') (agg_id base K P) Aggregate k (-1) (-1)
      (agg_deps plan_node base K P) [decide_id base K P] /\
    node_is (Workflow.nodes w') (decide_id base K P) DecideNext k (-1) (-1)
      [agg_id base K P] [].
Proof.
  intros P K k base Hplan HP HK Hk Hagg Hpos Hmax Hfresh.
  assert (Hs : 3 + 2 * K = stride K) by reflexivity.
  assert (Hlt : plan_node < base).
  { destruct (Z.lt_ge_cases plan_node base) as [|Hge]; [assumption|].
    rewrite (Hfresh _ Hge) in Hplan. discriminate. }
  destruct (expansion_lookups w plan_node base (Workflow.nodes w) plan)
    as (m' & s1 & s2 & Hrun & Hnone & Hold & Hpl & Hnew & Ha & Hd);
    try assumption.
  unfold base in Hrun at 1. rewrite with_graph_same in Hrun.
  fold P K k in Hrun, Hnone, Hold, Hpl, Hnew, Ha, Hd.
  set (a := agg_id base K P) in *.
  change (decide_id base K P) with (a + 1) in *.
  exists (with_graph m' (a + 2) w). cbn [Workflow.nodes with_graph].
  split; [exact Hrun|].
  split; [intros ty; apply new_ids_count; lia|].
  split; [|split; [|split; [exact Hpl|split; [|split]]]].
  - intros j n Hj Hn.
    destruct (Z.lt_ge_cases j base) as [Hjb|Hjb].
    { rewrite Hold in Hn; [congruence | assumption |].
      intros ->. congruence. }
    destruct (Z.lt_ge_cases j (a + 2)) as [Hja|Hja];
      [|rewrite Hnone in Hn by assumption; discriminate].
    destruct (decide (j = a)) as [->|Hna].
    { rewrite Ha in Hn. injection Hn as <-. rewrite type_made.
      apply list_elem_of_here. }
    destruct (decide (j = a + 1)) as [->|Hnd].
    { rewrite Hd in Hn. injection Hn as <-. rewrite type_made.
      apply list_elem_of_here. }
    destruct (slot_cover base (stride K) P j) as (p & r & Hp & Hr & ->);
      [lia | unfold a, agg_id in *; lia |].
    destruct (Hnew p Hp) as (Hl & Hc & He & Hq).
    destruct (decide (r = 0)) as [->|Hr0].
    { rewrite Z.add_0_r in Hn. unfold load_id in Hl. rewrite Hl in Hn.
      injection Hn as <-.
      rewrite <- (set_state_linked [plan_node] [chunk_id base K p]).
      rewrite type_made. cbn [new_ids]. apply list_elem_of_fmap.
      exists p. split; [unfold load_id; lia | apply elem_of_seqZ; lia]. }
    destruct (decide (r = 1)) as [->|Hr1].
    { unfold chunk_id in Hc. rewrite Hc in Hn. injection Hn as <-.
      rewrite <- (set_state_linked [load_id base K p]).
      rewrite type_made. cbn [new_ids]. apply list_elem_of_fmap.
      exists p. split; [reflexivity | apply elem_of_seqZ; lia]. }
    destruct (decide (r = 2)) as [->|Hr2].
    { unfold embed_id in He. rewrite He in Hn. injection Hn as <-.
      rewrite <- (set_state_linked [chunk_id base K p]).
      rewrite type_made. cbn [new_ids]. apply list_elem_of_fmap.
      exists p. split; [reflexivity | apply elem_of_seqZ; lia]. }
    destruct (pair_cover K r) as (q & Hq' & [->| ->]); [lia| |].
    + destruct (Hq q Hq') as [Hss _]. unfold ss_id in Hss.
      replace (base + p * stride K + (3 + 2 * q))
        with (base + p * stride K + 3 + 2 * q) in Hn |- * by lia.
      rewrite Hss in Hn. injection Hn as <-.
      rewrite <- (set_state_linked [embed_id base K p]).
      rewrite type_made. cbn [new_ids]. apply list_elem_of_bind.
      exists p. split; [|apply elem_of_seqZ; lia].
      apply list_elem_of_fmap. exists q.
      split; [reflexivity | apply elem_of_seqZ; lia].
    + destruct (Hq q Hq') as [_ Hex]. unfold ex_id in Hex.
      replace (base + p * stride K + (3 + 2 * q + 1))
        with (base + p * stride K + 3 + 2 * q + 1) in Hn |- * by lia.
      rewrite Hex in Hn. injection Hn as <-.
      rewrite type_made_evidence. cbn [new_ids]. apply list_elem_of_bind.
      exists p. split; [|apply elem_of_seqZ; lia].
      apply list_elem_of_fmap. exists q.
      split; [reflexivity | apply elem_of_seqZ; lia].
  - intros j n Hj Hne. rewrite Hold; [exact Hj| |exact Hne].
    destruct (Z.lt_ge_cases j base) as [|Hge]; [assumption|].
    rewrite (Hfresh _ Hge) in Hj. discriminate.
  - intros p Hp. destruct (Hnew p Hp) as (Hl & Hc & He & Hq).
    split; [|split; [|split]].
    + apply (node_is_made _ w _ _ _ _ _ _ _ WaitingDeps).
      now rewrite made_waiting.
    + apply (node_is_made _ w _ _ _ _ _ _ _ WaitingDeps).
      now rewrite made_waiting.
    + apply (node_is_made _ w _ _ _ _ _ _ _ WaitingDeps).
      now rewrite made_waiting.
    + intros q Hq'. destruct (Hq q Hq') as [Hss Hex]. split.
      * apply (node_is_made _ w _ _ _ _ _ _ _ WaitingDeps).
        now rewrite made_waiting.
      * now apply node_is_made_evidence.
  - now apply (node_is_made _ w _ _ _ _ _ _ _ s1).
  - now apply (node_is_made _ w _ _ _ _ _ _ _ s2).
Qed.

Lemma ExpandIterationFromPlan_shape_witness :
  exists w',
    Workflow.ExpandIterationFromPlan 1 Examples.wf_new = (w', Workflow.Ok ()) /\
    node_is (Workflow.nodes w') 6 ExtractEvidence 0 0 0 [5] [12] /\
    node_is (Workflow.nodes w') 12 Aggregate 0 (-1) (-1) [6; 11] [13] /\
    node_is (Workflow.nodes w') 13 DecideNext 0 (-1) (-1) [12] [].
Proof.
  assert (Hnodes : Workflow.nodes Examples.wf_new
                   = {[1 := Examples.root_plan]})
    by (vm_compute; reflexivity).
  destruct (ExpandIterationFromPlan_shape Examples.wf_new 1 Examples.root_plan)
    as (w' & Hrun & _ & _ & _ & _ & Hpdf & Hagg & Hdec);
    [vm_compute; reflexivity | vm_compute; discriminate
    | vm_compute; discriminate | vm_compute; reflexivity
    | vm_compute; reflexivity | vm_compute; reflexivity
    | vm_compute; reflexivity | |].
  { intros j Hj. rewrite Hnodes. apply lookup_singleton_ne.
    change (Workflow.next_node_id Examples.wf_new) with 2 in Hj. lia. }
  exists w'. split; [exact Hrun|].
  destruct (Hpdf 0) as (_ & _ & _ & Hq); [vm_compute; split; congruence|].
  destruct (Hq 0) as (_ & Hex & _); [vm_compute; split; congruence|].
  split; [exact Hex|]. split; [exact Hagg | exact Hdec].
Defined.

(** ** The tier queue *)

Lemma Tier_step_config (o : Tier.op) (x : Tier.t) :
  Tier.config (Tier.step o x).1 = Tier.config x.
Proof.
  destruct o; cbn; try reflexivity.
  - unfold Tier.TryDequeue. destruct (Tier.queue x); [reflexivity|].
    destruct (_ <=? _); reflexivity.
  - unfold Tier.BlockingDequeue. destruct (Tier.queue x); [reflexivity|].
    destruct (_ <? _); reflexivity.
Qed.

Lemma Tier_step_cap (o : Tier.op) (x : Tier.t) :
  Tier.concurrency_cap (Tier.step o x).1 = Tier.concurrency_cap x.
Proof. unfold Tier.concurrency_cap. now rewrite Tier_step_config. Qed.

Lemma wrap_int_range (z : Z) : is_int (wrap_int z).
Proof.
  unfold is_int, wrap_int.
  pose proof (Z.mod_pos_bound (z + 2 ^ 31) (2 ^ 32) eq_refl). lia.
Qed.

Lemma wrap_int_id (z : Z) : is_int z -> wrap_int z = z.
Proof.
  unfold is_int, wrap_int. intros H.
  rewrite Z.mod_small by lia. lia.
Qed.

(** Below the range, by at most [2^32], the value comes back from above. *)
Lemma wrap_int_below (z : Z) :
  - 2 ^ 31 - 2 ^ 32 <= z < - 2 ^ 31 -> wrap_int z = z + 2 ^ 32.
Proof.
  unfold wrap_int. intros H.
  replace (z + 2 ^ 31) with (z + 2 ^ 32 + 2 ^ 31 + -1 * 2 ^ 32) by lia.
  rewrite Z.mod_add by lia. rewrite Z.mod_small by lia. lia.
Qed.

(** Each call moves attempts only from the back of the enqueue order to
    the front of the dequeue order. *)
Lemma Tier_step_fifo (o : Tier.op) (x : Tier.t) :
  Tier.queue x ++ Tier.enqueued [o]
  = match (Tier.step o x).2 with Some a => [a] | None => [] end
    ++ Tier.queue (Tier.step o x).1.
Proof.
  destruct o; cbn.
  - reflexivity.
  - unfold Tier.TryDequeue. destruct (Tier.queue x) as [|a rest] eqn:Eq.
    + cbn. now rewrite Eq.
    + destruct (_ <=? _); cbn; [now rewrite Eq, app_nil_r|].
      now rewrite app_nil_r.
  - unfold Tier.BlockingDequeue. destruct (Tier.queue x) as [|a rest] eqn:Eq.
    + cbn. now rewrite Eq.
    + destruct (_ <? _); cbn; [now rewrite app_nil_r|].
      now rewrite Eq, app_nil_r.
  - now rewrite app_nil_r.
Qed.

Lemma Tier_run_fifo (os : list Tier.op) (x : Tier.t) :
  Tier.queue x ++ Tier.enqueued os
  = (Tier.run os x).2 ++ Tier.queue (Tier.run os x).1.
Proof.
  revert x. induction os as [|o os IH]; intros x.
  - cbn. now rewrite app_nil_r.
  - cbn [Tier.run].
    pose proof (Tier_step_fifo o x) as Hq.
    destruct (Tier.step o x) as [x1 r] eqn:Es. cbn [fst snd] in *.
    specialize (IH x1).
    destruct (Tier.run os x1) as [x2 out] eqn:Er. cbn [fst snd] in *.
    replace (Tier.enqueued (o :: os))
      with (Tier.enqueued [o] ++ Tier.enqueued os)
      by (destruct o; reflexivity).
    rewrite app_assoc, Hq, <- app_assoc, IH.
    destruct r; reflexivity.
Qed.

Lemma Tier_run_app (os1 os2 : list Tier.op) (x : Tier.t) :
  Tier.run (os1 ++ os2) x
  = ((Tier.run os2 (Tier.run os1 x).1).1,
     (Tier.run os1 x).2 ++ (Tier.run os2 (Tier.run os1 x).1).2).
Proof.
  revert x. induction os1 as [|o os1 IH]; intros x.
  - cbn. now destruct (Tier.run os2 x).
  - cbn [app Tier.run]. destruct (Tier.step o x) as [x1 r].
    rewrite IH. destruct (Tier.run os1 x1) as [x2 out].
    cbn [fst snd]. now destruct r.
Qed.

Lemma Tier_finishes_app (os1 os2 : list Tier.op) :
  Tier.finishes (os1 ++ os2) = Tier.finishes os1 + Tier.finishes os2.
Proof.
  induction os1 as [|o os1 IH]; [reflexivity|].
  destruct o; cbn [app Tier.finishes]; lia.
Qed.

Lemma Tier_run_cap (os : list Tier.op) (x : Tier.t) :
  Tier.concurrency_cap (Tier.run os x).1 = Tier.concurrency_cap x.
Proof.
  revert x. induction os as [|o os IH]; intros x; [reflexivity|].
  cbn [Tier.run]. pose proof (Tier_step_cap o x) as H1.
  destruct (Tier.step o x) as [x1 r]. specialize (IH x1).
  destruct (Tier.run os x1). cbn [fst] in *. congruence.
Qed.

(** The counter is an [int] after every call. *)
Lemma Tier_step_int (o : Tier.op) (x : Tier.t) :
  is_int (Tier.in_flight x) -> is_int (Tier.in_flight (Tier.step o x).1).
Proof.
  intros Hi. destruct o; cbn.
  - exact Hi.
  - unfold Tier.TryDequeue. destruct (Tier.queue x); [exact Hi|].
    destruct (_ <=? _); [exact Hi | apply wrap_int_range].
  - unfold Tier.BlockingDequeue. destruct (Tier.queue x); [exact Hi|].
    destruct (_ <? _); [apply wrap_int_range | exact Hi].
  - apply wrap_int_range.
Qed.

Lemma Tier_run_int (os : list Tier.op) (x : Tier.t) :
  is_int (Tier.in_flight x) -> is_int (Tier.in_flight (Tier.run os x).1).
Proof.
  revert x. induction os as [|o os IH]; intros x Hi; [exact Hi|].
  cbn [Tier.run]. pose proof (Tier_step_int o x Hi) as H1.
  destruct (Tier.step o x) as [x1 r]. specialize (IH x1 H1).
  now destruct (Tier.run os x1).
Qed.

(** The dequeues that succeeded less the calls of [OnAttemptFinish] made
    by one call, and by a sequence of calls. *)
Definition Tier_step_balance (o : Tier.op) (x : Tier.t) : Z :=
  match (Tier.step o x).2 with Some _ => 1 | None => 0 end
  - Tier.finishes [o].

Definition Tier_run_balance (os : list Tier.op) (x : Tier.t) : Z :=
  Z.of_nat (length (Tier.run os x).2) - Tier.finishes os.

(** A counter that went below the range of [int] and came back from above
    is short of the balance [b] by [2^32] or more, and stays so. *)
Lemma Tier_step_wrapped (o : Tier.op) (x : Tier.t) (b : Z) :
  Tier.concurrency_cap x < 2 ^ 31 ->
  is_int (Tier.in_flight x) ->
  b <= Tier.in_flight x - 2 ^ 32 ->
  b + Tier_step_balance o x <= Tier.in_flight (Tier.step o x).1 - 2 ^ 32.
Proof.
  unfold Tier_step_balance, is_int. intros Hcap Hi Hb. destruct o; cbn.
  - lia.
  - unfold Tier.TryDequeue. destruct (Tier.queue x); cbn; [lia|].
    destruct (Z.leb_spec (Tier.concurrency_cap x) (Tier.in_flight x)); cbn;
      [lia|].
    rewrite wrap_int_id by (unfold is_int; lia). lia.
  - unfold Tier.BlockingDequeue. destruct (Tier.queue x); cbn; [lia|].
    destruct (Z.ltb_spec (Tier.in_flight x) (Tier.concurrency_cap x)); cbn;
      [|lia].
    rewrite wrap_int_id by (unfold is_int; lia). lia.
  - destruct (Z.eq_dec (Tier.in_flight x) (- 2 ^ 31)) as [E|E].
    + rewrite wrap_int_below by lia. lia.
    + rewrite wrap_int_id by (unfold is_int; lia). lia.
Qed.

Lemma Tier_run_wrapped (os : list Tier.op) (x : Tier.t) (b : Z) :
  Tier.concurrency_cap x < 2 ^ 31 ->
  is_int (Tier.in_flight x) ->
  b <= Tier.in_flight x - 2 ^ 32 ->
  b + Tier_run_balance os x <= Tier.in_flight (Tier.run os x).1 - 2 ^ 32.
Proof.
  unfold Tier_run_balance.
  revert x b. induction os as [|o os IH]; intros x b Hcap Hi Hb.
  - cbn. lia.
  - pose proof (Tier_step_wrapped o x b Hcap Hi Hb) as H1.
    pose proof (Tier_step_int o x Hi) as Hi1.
    pose proof (Tier_step_cap o x) as Hc1.
    unfold Tier_step_balance in H1.
    change (o :: os) with ([o] ++ os). rewrite Tier_finishes_app.
    cbn [app Tier.run].
    destruct (Tier.step o x) as [x1 r]. cbn [fst snd] in *.
    assert (Hcap1 : Tier.concurrency_cap x1 < 2 ^ 31) by lia.
    specialize (IH x1 _ Hcap1 Hi1 H1).
    destruct (Tier.run os x1) as [x2 out]. cbn [fst snd] in *.
    destruct r; cbn [length] in *; lia.
Qed.

(** A counter that equals the balance and is within the cap either stays
    so or goes below the range of [int]. *)
Lemma Tier_step_exact (o : Tier.op) (x : Tier.t) (b : Z) :
  Tier.concurrency_cap x < 2 ^ 31 ->
  is_int (Tier.in_flight x) ->
  b = Tier.in_flight x -> Tier.in_flight x <= Tier.concurrency_cap x ->
  (b + Tier_step_balance o x = Tier.in_flight (Tier.step o x).1 /\
   Tier.in_flight (Tier.step o x).1 <= Tier.concurrency_cap x) \/
  b + Tier_step_balance o x <= Tier.in_flight (Tier.step o x).1 - 2 ^ 32.
Proof.
  unfold Tier_step_balance, is_int. intros Hcap Hi -> Hle. destruct o; cbn.
  - left. lia.
  - unfold Tier.TryDequeue. destruct (Tier.queue x); cbn; [left; lia|].
    destruct (Z.leb_spec (Tier.concurrency_cap x) (Tier.in_flight x)); cbn;
      [left; lia|].
    rewrite wrap_int_id by (unfold is_int; lia). left. lia.
  - unfold Tier.BlockingDequeue. destruct (Tier.queue x); cbn; [left; lia|].
    destruct (Z.ltb_spec (Tier.in_flight x) (Tier.concurrency_cap x)); cbn;
      [|left; lia].
    rewrite wrap_int_id by (unfold is_int; lia). left. lia.
  - destruct (Z.eq_dec (Tier.in_flight x) (- 2 ^ 31)) as [E|E].
    + right. rewrite wrap_int_below by lia. lia.
    + left. rewrite wrap_int_id by (unfold is_int; lia). lia.
Qed.

Lemma Tier_run_exact (os : list Tier.op) (x : Tier.t) (b : Z) :
  Tier.concurrency_cap x < 2 ^ 31 ->
  is_int (Tier.in_flight x) ->
  b = Tier.in_flight x -> Tier.in_flight x <= Tier.concurrency_cap x ->
  (b + Tier_run_balance os x = Tier.in_flight (Tier.run os x).1 /\
   Tier.in_flight (Tier.run os x).1 <= Tier.concurrency_cap x) \/
  b + Tier_run_balance os x <= Tier.in_flight (Tier.run os x).1 - 2 ^ 32.
Proof.
  revert x b. induction os as [|o os IH]; intros x b Hcap Hi Hb Hle.
  - left. unfold Tier_run_balance. cbn. lia.
  - pose proof (Tier_step_exact o x b Hcap Hi Hb Hle) as H1.
    pose proof (Tier_step_int o x Hi) as Hi1.
    pose proof (Tier_step_cap o x) as Hc1.
    assert (Hsplit : Tier_run_balance (o :: os) x
                     = Tier_step_balance o x
                       + Tier_run_balance os (Tier.step o x).1
                     /\ (Tier.run (o :: os) x).1
                        = (Tier.run os (Tier.step o x).1).1).
    { unfold Tier_run_balance, Tier_step_balance.
      change (o :: os) with ([o] ++ os). rewrite Tier_finishes_app.
      cbn [app Tier.run]. destruct (Tier.step o x) as [x1 r].
      cbn [fst snd]. destruct (Tier.run os x1) as [x2 out].
      cbn [fst snd]. destruct r; cbn [length]; split; (reflexivity || lia). }
    destruct Hsplit as [-> ->].
    assert (Hcap1 : Tier.concurrency_cap (Tier.step o x).1 < 2 ^ 31) by lia.
    destruct H1 as [[He Hl] | Hw].
    + destruct (IH _ (b + Tier_step_balance o x) Hcap1 Hi1 He) as [[E L]|W];
        [lia | left; split; lia | right; lia].
    + right.
      pose proof (Tier_run_wrapped os _ _ Hcap1 Hi1 Hw). lia.
Qed.

(** C8 (as amended). [TryDequeue] refuses (and changes nothing) when the
    queue is empty
    or [in_flight >= concurrency_cap]; otherwise it hands out the front
    attempt, pops it and increments [in_flight] (by [fetch_add], which adds
    one whenever the counter and the cap are [int]s).  Consequently, from a
    fresh tier ([in_flight = 0]) whose cap is not negative and under any
    sequence of [Enqueue], [TryDequeue], [BlockingDequeue] and
    [OnAttemptFinish] calls in which the calls of [OnAttemptFinish] do not
    exceed the dequeues that succeeded, [in_flight] is at most
    [concurrency_cap] after every call, and the attempts that left the
    queue followed by those still queued are exactly the attempts enqueued,
    in enqueue order. *)
Theorem Tier_cap_and_fifo (c : TierConfig.t) (os : list Tier.op) :
  0 <= TierConfig.concurrency_cap c ->
  Tier.finishes os <= Z.of_nat (length (Tier.run os (Tier.make c)).2) ->
  (forall x : Tier.t,
      (Tier.queue x = [] \/ Tier.concurrency_cap x <= Tier.in_flight x ->
       Tier.TryDequeue x = (None, x)) /\
      (forall a rest,
          Tier.queue x = a :: rest ->
          Tier.in_flight x < Tier.concurrency_cap x ->
          Tier.TryDequeue x
          = (Some a,
             Tier.mk (Tier.config x) rest (wrap_int (Tier.in_flight x + 1)))
          /\ (is_int (Tier.in_flight x) ->
              is_int (Tier.concurrency_cap x) ->
              wrap_int (Tier.in_flight x + 1) = Tier.in_flight x + 1))) /\
  (forall os1 os2,
      os = os1 ++ os2 ->
      Tier.in_flight (Tier.run os1 (Tier.make c)).1
      <= TierConfig.concurrency_cap c) /\
  Tier.enqueued os
  = (Tier.run os (Tier.make c)).2 ++ Tier.queue (Tier.run os (Tier.make c)).1.
Proof.
  intros Hc Hbal. split; [|split].
  - intros x. unfold Tier.TryDequeue. split.
    + intros [Hq | Hf].
      * now rewrite Hq.
      * destruct (Tier.queue x); [reflexivity|].
        destruct (Z.leb_spec (Tier.concurrency_cap x) (Tier.in_flight x));
          [reflexivity | lia].
    + intros a rest Hq Hf. rewrite Hq.
      destruct (Z.leb_spec (Tier.concurrency_cap x) (Tier.in_flight x));
        [lia|].
      split; [reflexivity|]. unfold is_int. intros Hi Hcap.
      apply wrap_int_id. unfold is_int. lia.
  - intros os1 os2 ->.
    assert (Hi0 : is_int (Tier.in_flight (Tier.make c)))
      by (unfold is_int; cbn; lia).
    pose proof (Tier_run_int os1 _ Hi0) as Hi1.
    destruct (Z.lt_ge_cases (TierConfig.concurrency_cap c) (2 ^ 31))
      as [Hsmall | Hbig]; [|unfold is_int in Hi1; lia].
    assert (Hcap0 : Tier.concurrency_cap (Tier.make c) < 2 ^ 31)
      by exact Hsmall.
    pose proof (Tier_run_cap os1 (Tier.make c)) as Hcap1.
    rewrite Tier_run_app, Tier_finishes_app in Hbal. cbn [snd] in Hbal.
    rewrite length_app in Hbal.
    destruct (Tier_run_exact os1 (Tier.make c) 0 Hcap0 Hi0 eq_refl Hc)
      as [[_ Hle] | Hw]; [exact Hle|].
    exfalso.
    assert (Hcap1' : Tier.concurrency_cap (Tier.run os1 (Tier.make c)).1
                     < 2 ^ 31) by lia.
    pose proof (Tier_run_wrapped os2 _ _ Hcap1' Hi1 Hw) as Hw2.
    pose proof (Tier_run_int os2 _ Hi1) as Hi2.
    unfold Tier_run_balance, is_int in *. lia.
  - exact (Tier_run_fifo os (Tier.make c)).
Qed.

Lemma Tier_cap_and_fifo_witness :
  Tier.in_flight
    (Tier.run (take 5 Examples.tier_calls) (Tier.make Examples.llm_slow)).1
  <= 2 /\
  Tier.enqueued Examples.tier_calls
  = (Tier.run Examples.tier_calls (Tier.make Examples.llm_slow)).2
    ++ Tier.queue
         (Tier.run Examples.tier_calls (Tier.make Examples.llm_slow)).1.
Proof.
  assert (H : 0 <= TierConfig.concurrency_cap Examples.llm_slow)
    by (vm_compute; discriminate).
  assert (Hb : Tier.finishes Examples.tier_calls
               <= Z.of_nat
                    (length (Tier.run Examples.tier_calls
                               (Tier.make Examples.llm_slow)).2))
    by (vm_compute; discriminate).
  destruct (Tier_cap_and_fifo Examples.llm_slow Examples.tier_calls H Hb)
    as (_ & Hcap & Hfifo).
  split; [|exact Hfifo].
  apply (Hcap (take 5 Examples.tier_calls) (drop 5 Examples.tier_calls)).
  reflexivity.
Defined.

(** C8 (as stated) fails for a tier whose [concurrency_cap] is negative:
    the counter of the fresh tier is 0, the dequeue is refused, no attempt
    finishes, and [in_flight] exceeds the cap (-1). *)
Lemma Tier_negative_cap_counterexample :
  Tier.in_flight (Tier.make Examples.llm_no_slot) = 0 /\
  (Tier.run Examples.no_slot_calls (Tier.make Examples.llm_no_slot)).2 = [] /\
  Tier.finishes Examples.no_slot_calls = 0 /\
  ~ Tier.in_flight
      (Tier.run Examples.no_slot_calls (Tier.make Examples.llm_no_slot)).1
    <= Tier.concurrency_cap
         (Tier.run Examples.no_slot_calls (Tier.make Examples.llm_no_slot)).1.
Proof.
  split; [reflexivity|]. split; [reflexivity|]. split; [reflexivity|].
  vm_compute. intros H. apply H. reflexivity.
Qed.

(** ** The latency sampler *)

Section SamplerFacts.

Variable RngLognormal : Q -> Q -> SeededRng.t -> Q * SeededRng.t.
Variable RngGamma : Q -> Q -> SeededRng.t -> Q * SeededRng.t.

(** With a positive [tail_prob] the multiplier is applied exactly when the
    Bernoulli draw is true. *)
Lemma tail_step_positive (params : LatencyParams.t) (r : SeededRng.t) :
  (0 < LatencyParams.tail_prob params)%Q ->
  LatencySampler.tail_step params r
  = (Some (SeededRng.Bernoulli (LatencyParams.tail_prob params) r).1,
     (SeededRng.Bernoulli (LatencyParams.tail_prob params) r).1,
     (SeededRng.Bernoulli (LatencyParams.tail_prob params) r).2).
Proof.
  intros Hp. unfold LatencySampler.tail_step.
  assert (Hlt : Qlt_bool 0 (LatencyParams.tail_prob params) = true)
    by now apply Qlt_bool_iff.
  rewrite Hlt.
  destruct (SeededRng.Bernoulli _ r) as [b r']. cbn [fst snd].
  destruct b; [reflexivity|].
  rewrite bool_decide_eq_false_2 by discriminate.
  destruct (Qeq_bool (LatencyParams.tail_prob params) 0) eqn:E;
    [|reflexivity].
  apply Qeq_bool_iff in E. rewrite E in Hp. discriminate Hp.
Qed.

(** With [tail_prob = 0] no draw is made, and the multiplier is applied
    all the same as soon as it differs from 1. *)
Lemma tail_step_zero (params : LatencyParams.t) (r : SeededRng.t) :
  (LatencyParams.tail_prob params == 0)%Q ->
  ~ (LatencyParams.tail_multiplier params == 1)%Q ->
  LatencySampler.tail_step params r = (None, true, r).
Proof.
  intros Hp Hm. unfold LatencySampler.tail_step.
  assert (Hlt : Qlt_bool 0 (LatencyParams.tail_prob params) = false).
  { destruct (Qlt_bool 0 _) eqn:E; [|reflexivity].
    apply Qlt_bool_iff in E. rewrite Hp in E. discriminate E. }
  rewrite Hlt. rewrite bool_decide_eq_false_2 by discriminate.
  assert (H0 : Qeq_bool (LatencyParams.tail_prob params) 0 = true)
    by now apply Qeq_bool_iff.
  assert (H1 : Qeq_bool (LatencyParams.tail_multiplier params) 1 = false).
  { destruct (Qeq_bool _ 1) eqn:E; [|reflexivity].
    apply Qeq_bool_iff in E. contradiction. }
  now rewrite H0, H1.
Qed.

(** C5. At [tail_prob = 0] with [tail_multiplier = 3] (linear similarity
    search, 50 chunks) the raw time is 120 and no Bernoulli draw is made,
    yet [SampleServiceTime] multiplies and returns 360; the local worker's
    sampler returns 120 on the same parameters. *)
Theorem SampleServiceTime_multiplies_at_tail_prob_zero (r : SeededRng.t) :
  LatencySampler.raw_service_time RngLognormal RngGamma
    Examples.ss_params Examples.ss_ctx r = (120%Q, r) /\
  LatencySampler.tail_step Examples.ss_params r = (None, true, r) /\
  LatencySampler.SampleServiceTime RngLognormal RngGamma
    Examples.ss_params Examples.ss_ctx r = (360%Q, r) /\
  Worker.SampleLocalServiceTime RngLognormal RngGamma SimilaritySearch
    Examples.ss_ctx Examples.ss_config r = (120%Q, r).
Proof. repeat split; reflexivity. Qed.

(** C6 (as amended). [failed] is the Bernoulli([p_fail]) draw made after
    the service time was sampled; when it is true, [timeout] is false and
    the sampled time is returned whatever the timeout; when it is false,
    [timeout] is true exactly when [timeout_ms > 0] and the sampled time
    exceeds [timeout_ms], and then the returned time is [timeout_ms],
    otherwise it is the sampled time; [failed] and [timeout] are never
    both true. *)
Theorem Sample_failed_timeout (config : LatencyConfig.t)
    (ctx : LatencyContext.t) (timeout_ms : Z) (p_fail : Q)
    (r : SeededRng.t) :
  let sampled :=
    LatencySampler.SampleServiceTime RngLognormal RngGamma
      (LatencyConfig.Get config (LatencyContext.node_type ctx)) ctx r in
  let draw := SeededRng.Bernoulli p_fail sampled.2 in
  let out :=
    LatencySampler.Sample RngLognormal RngGamma config ctx timeout_ms
      p_fail r in
  out.2 = draw.2 /\
  LatencySample.failed out.1 = draw.1 /\
  (draw.1 = true ->
     LatencySample.timeout out.1 = false /\
     LatencySample.service_time_ms out.1 = sampled.1) /\
  (draw.1 = false ->
     (LatencySample.timeout out.1 = true <->
        0 < timeout_ms /\ (inject_Z timeout_ms < sampled.1)%Q) /\
     (LatencySample.timeout out.1 = true ->
        LatencySample.service_time_ms out.1 = inject_Z timeout_ms) /\
     (LatencySample.timeout out.1 = false ->
        LatencySample.service_time_ms out.1 = sampled.1)) /\
  LatencySample.failed out.1 && LatencySample.timeout out.1 = false.
Proof.
  cbv zeta. unfold LatencySampler.Sample.
  destruct (LatencySampler.SampleServiceTime _ _ _ ctx r) as [st r1].
  cbn [fst snd].
  destruct (SeededRng.Bernoulli p_fail r1) as [f r2]. cbn [fst snd].
  destruct f.
  { cbn. repeat split; try reflexivity; discriminate. }
  destruct ((0 <? timeout_ms) && Qlt_bool (inject_Z timeout_ms) st) eqn:Eb;
    cbn.
  - apply andb_true_iff in Eb as [E1 E2].
    apply Z.ltb_lt in E1. apply Qlt_bool_iff in E2.
    split; [reflexivity|]. split; [reflexivity|].
    split; [discriminate|]. split; [|reflexivity]. intros _.
    split; [|split]; [|reflexivity|discriminate].
    split; [intros _; split; assumption | reflexivity].
  - split; [reflexivity|]. split; [reflexivity|].
    split; [discriminate|]. split; [|reflexivity]. intros _.
    split; [|split]; [|discriminate|reflexivity].
    split; [discriminate|]. intros [H1 H2].
    apply Z.ltb_lt in H1. apply Qlt_bool_iff in H2.
    rewrite H1, H2 in Eb. discriminate Eb.
Qed.

End SamplerFacts.

Lemma Sample_failed_timeout_witness :
  let out :=
    LatencySampler.Sample Examples.unused_sampler Examples.unused_sampler
      Examples.plain_config Examples.ss_ctx 100 0 (SeededRng.init 1) in
  LatencySample.timeout out.1 = true /\
  LatencySample.service_time_ms out.1 = inject_Z 100.
Proof.
  destruct (Sample_failed_timeout Examples.unused_sampler
              Examples.unused_sampler Examples.plain_config Examples.ss_ctx
              100 0 (SeededRng.init 1)) as (_ & _ & _ & H & _).
  destruct H as (Hiff & Hto & _); [reflexivity|].
  assert (Ht : LatencySample.timeout
                 (LatencySampler.Sample Examples.unused_sampler
                    Examples.unused_sampler Examples.plain_config
                    Examples.ss_ctx 100 0 (SeededRng.init 1)).1 = true).
  { apply Hiff. split; [lia | reflexivity]. }
  split; [exact Ht | exact (Hto Ht)].
Defined.

(** C6 (as stated) fails at [timeout_ms = 0]: the attempt did not fail, the
    sampled service time (120) exceeds the timeout (0), and yet no timeout
    is reported and the service time is not replaced by [timeout_ms]. *)
Lemma Sample_timeout_zero_counterexample :
  let sampled :=
    LatencySampler.SampleServiceTime Examples.unused_sampler
      Examples.unused_sampler
      (LatencyConfig.Get Examples.plain_config SimilaritySearch)
      Examples.ss_ctx (SeededRng.init 1) in
  let out :=
    LatencySampler.Sample Examples.unused_sampler Examples.unused_sampler
      Examples.plain_config Examples.ss_ctx 0 0 (SeededRng.init 1) in
  LatencySample.failed out.1 = false /\
  (inject_Z 0 < sampled.1)%Q /\
  ~ (LatencySample.timeout out.1 = true /\
     LatencySample.service_time_ms out.1 = inject_Z 0).
Proof.
  cbv zeta. split; [reflexivity|]. split; [reflexivity|].
  intros [H _]. vm_compute in H. discriminate H.
Qed.

(* ===================================================================== *)
(** * Properties of the code around the claims                        *)
(* ===================================================================== *)

(** ** The workflow graph stays well formed *)

Import GraphSpec.

#[local] Instance grows_preorder : PreOrder grows.
Proof.
  split.
  - intros w. split; [reflexivity|]. split; [reflexivity|].
    split; [reflexivity|]. split; [lia|]. split; [|split; auto].
    intros k n Hn. exists n. repeat split; auto.
  - intros w1 w2 w3 (Hi1 & Hp1 & Hc1 & Hm1 & Hn1 & Hw1 & Hf1)
                    (Hi2 & Hp2 & Hc2 & Hm2 & Hn2 & Hw2 & Hf2).
    split; [congruence|]. split; [congruence|]. split; [congruence|].
    split; [lia|]. split; [|split; auto].
    intros k n Hn. destruct (Hn1 k n Hn) as (n2 & H2 & Hd2 & Hch2 & Ht2 & Hit2).
    destruct (Hn2 k n2 H2) as (n3 & H3 & Hd3 & Hch3 & Ht3 & Hit3).
    exists n3. split; [assumption|].
    split; [now transitivity (deps n2)|].
    split; [now transitivity (children n2)|]. split; congruence.
Qed.

Lemma grows_same_nodes (w w' : Workflow.t) :
  Workflow.nodes w' = Workflow.nodes w ->
  Workflow.id_ w' = Workflow.id_ w ->
  Workflow.params_ w' = Workflow.params_ w ->
  Workflow.provider_config_ w' = Workflow.provider_config_ w ->
  Workflow.completed_iters_ w <= Workflow.completed_iters_ w' ->
  Workflow.done_ w' = Workflow.done_ w ->
  Workflow.stop_iter_ w' = Workflow.stop_iter_ w ->
  grows w w'.
Proof.
  intros Hn Hi Hp Hc Hm Hdone Hstop.
  split; [exact Hi|]. split; [exact Hp|]. split; [exact Hc|].
  split; [exact Hm|]. split; [|split].
  - intros k n Hk. exists n. rewrite Hn. repeat split; auto.
  - unfold well_formed. now rewrite Hn.
  - unfold flags_agree. now rewrite Hdone, Hstop.
Qed.

Lemma grows_update_node nid (f : Node -> Node) :
  (forall n, id (f n) = id n /\ deps (f n) = deps n /\
             children (f n) = children n /\ type (f n) = type n /\
             iter (f n) = iter n) ->
  rel grows (Workflow.update_node nid f).
Proof.
  intros Hf w.
  assert (Hlook : forall j, Workflow.nodes (Workflow.update_node nid f w).1 !! j
                    = (if decide (nid = j) then f else fun n => n)
                      <$> Workflow.nodes w !! j).
  { intros j. rewrite lookup_update_node. destruct (decide (nid = j));
      [reflexivity | now destruct (_ !! j)]. }
  assert (Hg : forall j n, id ((if decide (nid = j) then f else fun n => n) n)
                 = id n /\
               deps ((if decide (nid = j) then f else fun n => n) n) = deps n /\
               children ((if decide (nid = j) then f else fun n => n) n)
                 = children n /\
               type ((if decide (nid = j) then f else fun n => n) n) = type n /\
               iter ((if decide (nid = j) then f else fun n => n) n) = iter n).
  { intros j n. destruct (decide (nid = j)); [apply Hf | auto]. }
  split; [reflexivity|]. split; [reflexivity|]. split; [reflexivity|].
  split; [cbn; lia|]. split; [|split; [|now unfold flags_agree]].
  - intros k n Hk. eexists. rewrite Hlook, Hk. split; [reflexivity|].
    destruct (Hg k n) as (_ & -> & -> & -> & ->). auto.
  - intros (Hkey & Hcl & Hsym). split; [|split].
    + intros k n'. rewrite Hlook.
      destruct (Workflow.nodes w !! k) as [n|] eqn:E; [|discriminate].
      intros [= <-]. destruct (Hg k n) as (-> & _). now apply Hkey.
    + intros k n' d. rewrite !Hlook.
      destruct (Workflow.nodes w !! k) as [n|] eqn:E; [|discriminate].
      intros [= <-]. destruct (Hg k n) as (_ & -> & -> & _).
      intros Hd. destruct (Hcl k n d E Hd) as [dn ->]. cbn. eauto.
    + intros a b na' nb'. rewrite !Hlook.
      destruct (Workflow.nodes w !! a) as [na|] eqn:Ea; [|discriminate].
      destruct (Workflow.nodes w !! b) as [nb|] eqn:Eb; [|discriminate].
      intros [= <-] [= <-].
      destruct (Hg a na) as (_ & _ & -> & _).
      destruct (Hg b nb) as (_ & -> & _). now apply Hsym.
Qed.

Lemma grows_insert_fresh (w w0 : Workflow.t) (n : Node) :
  Workflow.nodes w0 = Workflow.nodes w ->
  Workflow.id_ w0 = Workflow.id_ w ->
  Workflow.params_ w0 = Workflow.params_ w ->
  Workflow.provider_config_ w0 = Workflow.provider_config_ w ->
  Workflow.completed_iters_ w0 = Workflow.completed_iters_ w ->
  Workflow.done_ w0 = Workflow.done_ w ->
  Workflow.stop_iter_ w0 = Workflow.stop_iter_ w ->
  Workflow.nodes w !! id n = None -> deps n = [] -> children n = [] ->
  grows w (Workflow.set_nodes (<[id n := n]> (Workflow.nodes w)) w0).
Proof.
  intros Hn Hi Hp Hc Hm Hdone Hstop Hf Hd Hch.
  split; [exact Hi|]. split; [exact Hp|]. split; [exact Hc|].
  split; [cbn; lia|]. cbn [Workflow.nodes Workflow.set_nodes].
  split; [|split; [|unfold flags_agree; cbn; now rewrite Hdone, Hstop]].
  - intros k m Hk. exists m. rewrite lookup_insert_ne by congruence.
    repeat split; auto.
  - intros (Hkey & Hcl & Hsym). unfold well_formed.
    cbn [Workflow.nodes Workflow.set_nodes]. split; [|split].
    + intros k m. destruct (decide (id n = k)) as [<-|Hne].
      * rewrite lookup_insert_eq. now intros [= <-].
      * rewrite lookup_insert_ne by assumption. apply Hkey.
    + intros k m d. destruct (decide (id n = k)) as [<-|Hne].
      * rewrite lookup_insert_eq. intros [= <-]. rewrite Hd, Hch.
        intros [H|H]; inversion H.
      * rewrite lookup_insert_ne by assumption. intros Hk Hdm.
        destruct (Hcl k m d Hk Hdm) as [dn Hdn].
        rewrite lookup_insert_ne by congruence. eauto.
    + intros a b na nb.
      destruct (decide (id n = a)) as [<-|Ha];
        destruct (decide (id n = b)) as [<-|Hb].
      * rewrite lookup_insert_eq. intros [= <-] [= <-]. rewrite Hd, Hch.
        split; intros H; inversion H.
      * rewrite lookup_insert_eq, lookup_insert_ne by assumption.
        intros [= <-] Hnb. rewrite Hch. split; [intros H; inversion H|].
        intros Hin. destruct (Hcl b nb (id n) Hnb (or_introl Hin)) as [x Hx].
        congruence.
      * rewrite lookup_insert_eq, lookup_insert_ne by assumption.
        intros Hna [= <-]. rewrite Hd. split; [|intros H; inversion H].
        intros Hin. destruct (Hcl a na (id n) Hna (or_intror Hin)) as [x Hx].
        congruence.
      * rewrite !lookup_insert_ne by assumption. apply Hsym.
Qed.

Lemma grows_AddNode (n : Node) :
  deps n = [] -> children n = [] -> rel grows (Workflow.AddNode n).
Proof.
  intros Hd Hch w.
  destruct (AddNode_cases n w) as [[Hf ->] | [_ ->]]; cbn [fst].
  - match type of Hf with
    | Workflow.nodes w !! id ?n1 = None => set (n1' := n1) in *
    end.
    apply grows_insert_fresh; try assumption;
      try (now destruct (bool_decide (id n = 0)));
      subst n1'; repeat case_bool_decide; assumption.
  - apply grows_same_nodes; destruct (bool_decide (id n = 0)); cbn;
      (reflexivity || lia).
Qed.

Lemma AddEdge_cases (from to : Z) (w : Workflow.t) :
  (exists a b, Workflow.nodes w !! from = Some a /\
               Workflow.nodes w !! to = Some b /\
     Workflow.AddEdge from to w
     = (Workflow.set_nodes
          (alter (fun b => set_deps (deps b ++ [from]) b) to
             (alter (fun a => set_children (children a ++ [to]) a) from
                (Workflow.nodes w))) w, Workflow.Ok ())) \/
  ((Workflow.nodes w !! from = None \/ Workflow.nodes w !! to = None) /\
   exists msg, Workflow.AddEdge from to w = (w, Workflow.Throw msg)).
Proof.
  destruct (Workflow.nodes w !! from) as [a|] eqn:Ea.
  - destruct (Workflow.nodes w !! to) as [b|] eqn:Eb.
    + left. exists a, b. split; [reflexivity|]. split; [reflexivity|].
      apply AddEdge_eq; eauto.
    + right. split; [auto|].
      unfold Workflow.AddEdge, Workflow.bind, Workflow.node.
      rewrite Ea, Eb. eauto.
  - right. split; [auto|].
    unfold Workflow.AddEdge, Workflow.bind, Workflow.node.
    rewrite Ea. eauto.
Qed.

Lemma lookup_edge (from to j : Z) (m : gmap Z Node) :
  alter (fun b => set_deps (deps b ++ [from]) b) to
    (alter (fun a => set_children (children a ++ [to]) a) from m) !! j
  = (fun n =>
       set_deps (deps n ++ (if decide (j = to) then [from] else []))
         (set_children
            (children n ++ (if decide (j = from) then [to] else [])) n))
    <$> m !! j.
Proof.
  destruct (decide (j = to)) as [Et|Ht];
    destruct (decide (j = from)) as [Ef|Hf];
    subst;
    rewrite ?lookup_alter_eq, ?lookup_alter_ne by congruence;
    rewrite ?lookup_alter_eq, ?lookup_alter_ne by congruence;
    destruct (m !! _) as [n|]; cbn; try reflexivity; f_equal;
    destruct n; cbn; now rewrite ?app_nil_r.
Qed.

Lemma grows_AddEdge from to : rel grows (Workflow.AddEdge from to).
Proof.
  intros w.
  destruct (AddEdge_cases from to w)
    as [(a & b & Ha & Hb & ->) | (_ & msg & ->)]; [|reflexivity].
  cbn [fst].
  split; [reflexivity|]. split; [reflexivity|]. split; [reflexivity|].
  split; [cbn; lia|]. cbn [Workflow.nodes Workflow.set_nodes].
  split; [|split; [|now unfold flags_agree]].
  - intros k n Hk. rewrite lookup_edge, Hk. eexists. split; [reflexivity|].
    cbn. split; [now apply prefix_app_r|].
    split; [now apply prefix_app_r|]. auto.
  - intros (Hkey & Hcl & Hsym). unfold well_formed.
    cbn [Workflow.nodes Workflow.set_nodes].
    assert (Hsome : forall d, is_Some (Workflow.nodes w !! d) ->
              is_Some (alter (fun b => set_deps (deps b ++ [from]) b) to
                         (alter (fun a => set_children (children a ++ [to]) a)
                            from (Workflow.nodes w)) !! d)).
    { intros d [x Hx]. rewrite lookup_edge, Hx. cbn. eauto. }
    split; [|split].
    + intros k n'. rewrite lookup_edge.
      destruct (Workflow.nodes w !! k) as [n|] eqn:E; [|discriminate].
      intros [= <-]. cbn. now apply Hkey.
    + intros k n' d. rewrite lookup_edge.
      destruct (Workflow.nodes w !! k) as [n|] eqn:E; [|discriminate].
      intros [= <-]. cbn. rewrite !elem_of_app. intros Hd. apply Hsome.
      destruct Hd as [[Hd|Hd]|[Hd|Hd]].
      * eapply Hcl; eauto.
      * destruct (decide (k = to)); [|inversion Hd].
        apply list_elem_of_singleton in Hd as ->. eauto.
      * eapply Hcl; eauto.
      * destruct (decide (k = from)); [|inversion Hd].
        apply list_elem_of_singleton in Hd as ->. eauto.
    + intros x y nx' ny'. rewrite !lookup_edge.
      destruct (Workflow.nodes w !! x) as [nx|] eqn:Ex; [|discriminate].
      destruct (Workflow.nodes w !! y) as [ny|] eqn:Ey; [|discriminate].
      intros [= <-] [= <-]. cbn. rewrite !elem_of_app.
      rewrite (Hsym x y nx ny Ex Ey).
      destruct (decide (x = from)) as [->|Hx];
        destruct (decide (y = to)) as [->|Hy];
        rewrite ?list_elem_of_singleton, ?elem_of_nil; intuition congruence.
Qed.

Lemma grows_modify (f : Workflow.t -> Workflow.t) :
  (forall w, Workflow.nodes (f w) = Workflow.nodes w /\
             Workflow.id_ (f w) = Workflow.id_ w /\
             Workflow.params_ (f w) = Workflow.params_ w /\
             Workflow.provider_config_ (f w) = Workflow.provider_config_ w /\
             Workflow.completed_iters_ w <= Workflow.completed_iters_ (f w) /\
             Workflow.done_ (f w) = Workflow.done_ w /\
             Workflow.stop_iter_ (f w) = Workflow.stop_iter_ w) ->
  rel grows (Workflow.modify f).
Proof.
  intros Hf w. destruct (Hf w) as (H1 & H2 & H3 & H4 & H5 & H6 & H7).
  now apply grows_same_nodes.
Qed.

Lemma grows_set_stopped it :
  rel grows (Workflow.modify (Workflow.set_stopped it)).
Proof.
  intros w. cbn.
  split; [reflexivity|]. split; [reflexivity|]. split; [reflexivity|].
  split; [cbn; lia|]. split; [|split].
  - intros k n Hk. exists n. repeat split; auto.
  - now unfold well_formed.
  - intros _. unfold flags_agree. cbn. split; eauto.
Qed.

Lemma grows_NewNodeId : rel grows Workflow.NewNodeId.
Proof. intros w. apply grows_same_nodes; cbn; (reflexivity || lia). Qed.

Lemma grows_PopulatePreferenceListForNode nid :
  rel grows (Workflow.PopulatePreferenceListForNode nid).
Proof.
  intros w. unfold Workflow.PopulatePreferenceListForNode, Workflow.bind.
  cbn [Workflow.get]. destruct (Workflow.provider_config_ w).
  - apply grows_update_node. intros n. repeat split.
  - reflexivity.
Qed.

Ltac rel_grows :=
  repeat first
    [ progress cbv zeta
    | apply rel_get; apply _
    | apply rel_node; apply _
    | apply rel_ret; apply _
    | apply rel_throw; apply _
    | apply rel_require; apply _
    | apply rel_DepsSatisfied; apply _
    | apply grows_NewNodeId
    | apply grows_PopulatePreferenceListForNode
    | apply grows_AddEdge
    | apply grows_update_node; intros ?; repeat split
    | apply grows_AddNode; reflexivity
    | apply rel_if
    | apply rel_foldM; [apply _ | intros ? ?]
    | apply rel_forM_; [apply _ | intros ?]
    | apply rel_bind; [apply _ | | intros ?] ].

Lemma grows_SetState nid next : rel grows (Workflow.SetState nid next).
Proof. unfold Workflow.SetState. destruct next; rel_grows. Qed.

Lemma grows_refresh_node newly nid :
  rel grows (Workflow.refresh_node newly nid).
Proof. unfold Workflow.refresh_node. rel_grows. Qed.

Lemma grows_RefreshRunnable : rel grows Workflow.RefreshRunnable.
Proof.
  unfold Workflow.RefreshRunnable.
  apply rel_bind; [apply _ | apply rel_get; apply _ | intros w0].
  apply rel_foldM; [apply _ | intros ? ?; apply grows_refresh_node].
Qed.

Lemma grows_PruneAfterStop k : rel grows (Workflow.PruneAfterStop k).
Proof.
  unfold Workflow.PruneAfterStop.
  apply rel_bind; [apply _ | apply rel_get; apply _ | intros w0].
  apply rel_bind; [apply _ | | intros _; apply rel_ret; apply _].
  apply rel_bind; [apply _ | | intros _; apply grows_RefreshRunnable].
  apply rel_forM_; [apply _ | intros x].
  unfold Workflow.prune_node. rel_grows.
Qed.

Lemma grows_Cancel nid : rel grows (Workflow.Cancel nid).
Proof.
  unfold Workflow.Cancel.
  apply rel_bind; [apply _ | apply rel_node; apply _ | intros n].
  apply rel_if; [apply rel_ret; apply _|].
  apply rel_bind; [apply _ | | intros _; apply rel_ret; apply _].
  apply rel_bind; [apply _ | | intros _; apply grows_RefreshRunnable].
  apply grows_update_node. intros ?; repeat split.
Qed.

Lemma grows_InitializeStateFromDeps nid :
  rel grows (Workflow.InitializeStateFromDeps nid).
Proof. unfold Workflow.InitializeStateFromDeps. rel_grows. Qed.

Lemma grows_expand_subquery embed_id it p acc q :
  rel grows (Workflow.expand_subquery embed_id it p acc q).
Proof. unfold Workflow.expand_subquery. rel_grows. Qed.

Lemma grows_expand_pdf plan_node it acc p :
  rel grows (Workflow.expand_pdf plan_node it acc p).
Proof.
  unfold Workflow.expand_pdf.
  repeat first
    [ progress cbv zeta
    | apply rel_get; apply _
    | apply rel_ret; apply _
    | apply grows_NewNodeId
    | apply grows_AddNode; reflexivity
    | apply grows_PopulatePreferenceListForNode
    | apply grows_AddEdge
    | apply rel_if
    | apply rel_foldM; [apply _ | intros ? ?; apply grows_expand_subquery]
    | apply rel_bind; [apply _ | | intros ?] ].
Qed.

Lemma grows_ExpandIterationFromPlan plan_node :
  rel grows (Workflow.ExpandIterationFromPlan plan_node).
Proof.
  unfold Workflow.ExpandIterationFromPlan.
  apply rel_bind; [apply _ | apply rel_node; apply _ | intros plan].
  apply rel_bind; [apply _ | apply rel_get; apply _ | intros w0].
  apply rel_if; [apply rel_ret; apply _|].
  apply rel_if; [apply rel_ret; apply _|].
  apply rel_bind; [apply _ | | intros extract_nodes].
  { apply rel_foldM; [apply _ | intros ? ?; apply grows_expand_pdf]. }
  repeat first
    [ progress cbv zeta
    | apply grows_NewNodeId
    | apply grows_AddNode; reflexivity
    | apply grows_PopulatePreferenceListForNode
    | apply grows_AddEdge
    | apply grows_InitializeStateFromDeps
    | apply rel_bind; [apply _ | | intros ?] ].
  destruct extract_nodes; [apply grows_AddEdge|].
  apply rel_forM_; [apply _ | intros x; apply grows_AddEdge].
Qed.

Lemma grows_OnDecideNext nid : rel grows (Workflow.OnDecideNext nid).
Proof.
  unfold Workflow.OnDecideNext.
  apply rel_bind; [apply _ | apply rel_node; apply _ | intros dn].
  apply rel_bind; [apply _ | apply rel_get; apply _ | intros w0].
  destruct (Workflow.ComputeDecideAction w0 (iter dn)).
  - apply rel_bind; [apply _ | | intros _; apply grows_PruneAfterStop].
    apply grows_set_stopped.
  - repeat first
      [ progress cbv zeta
      | apply grows_NewNodeId
      | apply grows_AddNode; reflexivity
      | apply grows_PopulatePreferenceListForNode
      | apply grows_AddEdge
      | apply grows_InitializeStateFromDeps
      | apply rel_bind; [apply _ | | intros ?] ].
Qed.

Lemma grows_call (c : Workflow.mutator) : rel grows (Workflow.call c).
Proof.
  destruct c as [nid|nid|nid|nid|nid| |k]; cbn [Workflow.call].
  - apply grows_SetState.
  - apply grows_SetState.
  - unfold Workflow.MarkSucceeded.
    apply rel_bind; [apply _ | apply rel_node; apply _ | intros n].
    cbv zeta.
    apply rel_bind; [apply _ | | intros _; apply rel_ret; apply _].
    apply rel_bind; [apply _ | | intros _; apply grows_RefreshRunnable].
    apply rel_bind; [apply _ | apply grows_SetState | intros _].
    apply rel_if; [apply grows_ExpandIterationFromPlan|].
    apply rel_if; [|apply rel_ret; apply _].
    apply rel_bind; [apply _ | apply grows_OnDecideNext | intros _].
    apply grows_modify. intros w. cbn. repeat split; lia.
  - unfold Workflow.MarkFailed.
    apply rel_bind; [apply _ | | intros _; apply rel_ret; apply _].
    apply rel_bind; [apply _ | apply grows_SetState |].
    intros _; apply grows_RefreshRunnable.
  - apply grows_Cancel.
  - apply rel_bind; [apply _ | apply grows_RefreshRunnable |].
    intros _; apply rel_ret; apply _.
  - apply grows_PruneAfterStop.
Qed.

Lemma grows_calls (cs : list Workflow.mutator) (w : Workflow.t) :
  grows w (Workflow.calls cs w).
Proof.
  revert w. induction cs as [|c cs IH]; intros w; [reflexivity|].
  cbn [Workflow.calls foldl]. transitivity (Workflow.call c w).1.
  - apply grows_call.
  - apply IH.
Qed.

Lemma grows_constructor params : rel grows (Workflow.constructor params).
Proof.
  unfold Workflow.constructor.
  apply rel_bind; [apply _ | | intros _; apply rel_ret; apply _].
  apply rel_bind; [apply _ | | intros _; apply grows_RefreshRunnable].
  apply rel_bind; [apply _ | | intros _].
  { repeat first
      [ apply rel_if | apply rel_throw; apply _ | apply rel_ret; apply _
      | apply rel_bind; [apply _ | | intros ?] ]. }
  unfold Workflow.EnsureInitialPlan.
  repeat first
    [ progress cbv zeta
    | apply rel_get; apply _
    | apply grows_NewNodeId
    | apply grows_AddNode; reflexivity
    | apply grows_PopulatePreferenceListForNode
    | apply rel_bind; [apply _ | | intros ?] ].
Qed.

Lemma reachable_well_formed (w : Workflow.t) :
  reachable w -> well_formed w.
Proof.
  intros (wid & params & pc & cs & _ & ->).
  destruct (grows_calls cs (Workflow.construct wid params pc).1)
    as (_ & _ & _ & _ & _ & Hwf & _). apply Hwf.
  destruct (grows_constructor params
              (Workflow.mk wid params (Some pc) ∅ 1 false 0 None))
    as (_ & _ & _ & _ & _ & Hwf0 & _). apply Hwf0.
  split; [|split]; cbn; intros *; rewrite ?lookup_empty; discriminate.
Qed.

(** ** What [RefreshRunnable] computes *)

Lemma foldM_prefix {A B} (I : list A -> B -> Workflow.t -> Prop)
    (f : B -> A -> Workflow.M B) (l : list A) :
  (forall l1 x l2 acc w, l = l1 ++ x :: l2 -> I l1 acc w ->
     exists acc' w', f acc x w = (w', Workflow.Ok acc') /\
                     I (l1 ++ [x]) acc' w') ->
  forall acc w, I [] acc w ->
  exists acc' w',
    Workflow.foldM f acc l w = (w', Workflow.Ok acc') /\ I l acc' w'.
Proof.
  intros Hstep.
  assert (Hgen : forall l2 l1 acc w, l = l1 ++ l2 -> I l1 acc w ->
            exists acc' w',
              Workflow.foldM f acc l2 w = (w', Workflow.Ok acc') /\
              I l acc' w').
  { induction l2 as [|x l2 IH]; intros l1 acc w Hl HI.
    - rewrite app_nil_r in Hl. subst l1. exists acc, w. split; [reflexivity|].
      exact HI.
    - destruct (Hstep l1 x l2 acc w Hl HI) as (acc1 & w1 & Hf & HI1).
      cbn [Workflow.foldM]. rewrite (bind_ok _ _ _ _ _ Hf).
      apply (IH (l1 ++ [x])); [|exact HI1].
      now rewrite <- app_assoc. }
  intros acc w HI. now apply (Hgen l []).
Qed.

Lemma deps_succeeded_ok (ds : list Z) (w : Workflow.t) :
  (forall d, d ∈ ds -> is_Some (Workflow.nodes w !! d)) ->
  Workflow.deps_succeeded ds w
  = (w, Workflow.Ok
          (forallb (fun d =>
                      match Workflow.nodes w !! d with
                      | Some dn => bool_decide (state dn = Succeeded)
                      | None => false
                      end) ds)).
Proof.
  induction ds as [|d ds IH]; intros Hds; cbn [Workflow.deps_succeeded forallb].
  - reflexivity.
  - destruct (Hds d (list_elem_of_here _ _)) as [dn Hdn].
    unfold Workflow.bind, Workflow.node. rewrite Hdn.
    destruct (decide (state dn = Succeeded)) as [Hs|Hs].
    + rewrite (bool_decide_eq_false_2 (state dn <> Succeeded)) by auto.
      rewrite (bool_decide_eq_true_2 _ Hs). cbn [andb].
      apply IH. intros d' Hd'. apply Hds. now apply list_elem_of_further.
    + rewrite (bool_decide_eq_true_2 (state dn <> Succeeded)) by auto.
      now rewrite (bool_decide_eq_false_2 _ Hs).
Qed.

Lemma refresh_node_eq (newly : list Z) (nid : Z) (n : Node)
    (w : Workflow.t) :
  Workflow.nodes w !! nid = Some n ->
  (forall d, d ∈ deps n -> is_Some (Workflow.nodes w !! d)) ->
  Workflow.refresh_node newly nid w
  = (Workflow.set_nodes (<[nid := settle w n]> (Workflow.nodes w)) w,
     Workflow.Ok (newly ++ if becomes_runnable w n then [nid] else [])).
Proof.
  intros Hn Hds.
  assert (Hid : forall x, x = n ->
            Workflow.set_nodes (<[nid := x]> (Workflow.nodes w)) w = w).
  { intros x ->. rewrite insert_id by assumption. apply set_nodes_same. }
  assert (Hupd : forall s,
            (Workflow.update_node nid (set_state s) w).1
            = Workflow.set_nodes
                (<[nid := set_state s n]> (Workflow.nodes w)) w).
  { intros s. unfold Workflow.update_node, Workflow.modify. cbn [fst].
    f_equal. apply map_eq. intros j. destruct (decide (j = nid)) as [->|Hne].
    - now rewrite lookup_alter_eq, lookup_insert_eq, Hn.
    - now rewrite lookup_alter_ne, lookup_insert_ne by congruence. }
  unfold Workflow.refresh_node, becomes_runnable, settle.
  unfold Workflow.bind at 1, Workflow.node. rewrite Hn.
  destruct (IsTerminal (state n) || bool_decide (state n = Queued)
            || bool_decide (state n = Running)) eqn:Eskip.
  - rewrite Hid by reflexivity. unfold Workflow.ret.
    assert (Hbr : bool_decide (state n <> Runnable)
                  && bool_decide (state n = Runnable) = false)
      by (repeat case_bool_decide; (reflexivity || contradiction)).
    now rewrite Hbr, app_nil_r.
  - unfold Workflow.DepsSatisfied.
    rewrite (bind_ok _ _ _ _ _ (deps_succeeded_ok (deps n) w Hds)).
    fold (deps_ok w n). destruct (deps_ok w n); cbn [andb negb].
    + destruct (decide (state n = Runnable)) as [Hs|Hs].
      * rewrite (bool_decide_eq_false_2 (state n <> Runnable)) by tauto.
        cbn [andb]. unfold Workflow.ret. rewrite Hid; [now rewrite app_nil_r|].
        rewrite <- Hs. apply set_state_same.
      * rewrite (bool_decide_eq_true_2 (state n <> Runnable)) by assumption.
        cbn [andb state set_state].
        rewrite (bool_decide_eq_true_2 (Runnable = Runnable)) by reflexivity.
        unfold Workflow.bind, Workflow.update_node, Workflow.modify,
          Workflow.ret.
        f_equal. exact (Hupd Runnable).
    + destruct (decide (state n = WaitingDeps)) as [Hs|Hs].
      * rewrite (bool_decide_eq_false_2 (state n <> WaitingDeps)) by tauto.
        cbn [state set_state].
        rewrite (bool_decide_eq_false_2 (WaitingDeps = Runnable))
          by discriminate.
        rewrite andb_false_r. unfold Workflow.ret.
        rewrite Hid; [now rewrite app_nil_r|].
        rewrite <- Hs. apply set_state_same.
      * rewrite (bool_decide_eq_true_2 (state n <> WaitingDeps)) by assumption.
        cbn [state set_state].
        rewrite (bool_decide_eq_false_2 (WaitingDeps = Runnable))
          by discriminate.
        rewrite andb_false_r, app_nil_r.
        unfold Workflow.bind, Workflow.update_node, Workflow.modify,
          Workflow.ret.
        f_equal. exact (Hupd WaitingDeps).
Qed.

Lemma settle_succeeded (w : Workflow.t) (n : Node) :
  state (settle w n) = Succeeded <-> state n = Succeeded.
Proof.
  unfold settle.
  destruct (IsTerminal (state n) || bool_decide (state n = Queued)
            || bool_decide (state n = Running)) eqn:E; [reflexivity|].
  cbn. destruct (deps_ok w n); split; intros H; try discriminate;
    rewrite H in E; discriminate.
Qed.

Lemma settle_deps (w : Workflow.t) (n : Node) : deps (settle w n) = deps n.
Proof. unfold settle. now destruct (_ || _). Qed.

Lemma deps_ok_ext (w w' : Workflow.t) (n n' : Node) :
  deps n' = deps n ->
  (forall d, d ∈ deps n ->
     (exists x, Workflow.nodes w' !! d = Some x /\ state x = Succeeded) <->
     (exists x, Workflow.nodes w !! d = Some x /\ state x = Succeeded)) ->
  deps_ok w' n' = deps_ok w n.
Proof.
  intros Hd Hext. unfold deps_ok. rewrite Hd. revert Hext.
  generalize (deps n) as ds.
  induction ds as [|d ds IH]; intros Hext; [reflexivity|]. cbn [forallb].
  rewrite IH by (intros d' Hd'; apply Hext; now apply list_elem_of_further).
  f_equal. specialize (Hext d (list_elem_of_here _ _)).
  destruct (Workflow.nodes w' !! d) as [x'|] eqn:E';
    destruct (Workflow.nodes w !! d) as [x|] eqn:E.
  - apply bool_decide_ext. split; intros Hs.
    + destruct (proj1 Hext (ex_intro _ x' (conj eq_refl Hs)))
        as (y & [= <-] & ?).
      assumption.
    + destruct (proj2 Hext (ex_intro _ x (conj eq_refl Hs)))
        as (y & [= <-] & ?).
      assumption.
  - apply bool_decide_eq_false_2. intros Hs.
    destruct (proj1 Hext (ex_intro _ x' (conj eq_refl Hs))) as (y & Hy & _).
    discriminate.
  - symmetry. apply bool_decide_eq_false_2. intros Hs.
    destruct (proj2 Hext (ex_intro _ x (conj eq_refl Hs))) as (y & Hy & _).
    discriminate.
  - reflexivity.
Qed.

Lemma settle_ext (w w' : Workflow.t) (n : Node) :
  (forall d, d ∈ deps n ->
     (exists x, Workflow.nodes w' !! d = Some x /\ state x = Succeeded) <->
     (exists x, Workflow.nodes w !! d = Some x /\ state x = Succeeded)) ->
  settle w' n = settle w n.
Proof.
  intros Hext. unfold settle. now rewrite (deps_ok_ext w w' n n eq_refl Hext).
Qed.

Lemma settle_idem (w w' : Workflow.t) (n : Node) :
  deps_ok w' (settle w n) = deps_ok w n -> settle w' (settle w n) = settle w n.
Proof.
  intros Hd. unfold settle at 1. rewrite Hd. unfold settle.
  destruct (IsTerminal (state n) || bool_decide (state n = Queued)
            || bool_decide (state n = Running)) eqn:E.
  - now rewrite E.
  - destruct (deps_ok w n); cbn; reflexivity.
Qed.

Lemma RefreshRunnable_eq (w : Workflow.t) :
  (forall k n d, Workflow.nodes w !! k = Some n -> d ∈ deps n ->
     is_Some (Workflow.nodes w !! d)) ->
  Workflow.RefreshRunnable w
  = (Workflow.set_nodes (settle w <$> Workflow.nodes w) w,
     Workflow.Ok
       (omap (fun kn : Z * Node =>
                if becomes_runnable w kn.2 then Some kn.1 else None)
             (map_to_list (Workflow.nodes w)))).
Proof.
  intros Hcl. unfold Workflow.RefreshRunnable.
  unfold Workflow.bind at 1. cbn [Workflow.get]. unfold Workflow.node_ids.
  set (kns := map_to_list (Workflow.nodes w)).
  assert (Hkns : forall k n, (k, n) ∈ kns <-> Workflow.nodes w !! k = Some n)
    by (intros; apply elem_of_map_to_list).
  assert (Hnd : NoDup kns.*1) by apply NoDup_fst_map_to_list.
  destruct (foldM_prefix
    (fun l1 newly w1 =>
       exists pre, l1 = pre.*1 /\ pre `prefix_of` kns /\
         newly = omap (fun kn : Z * Node =>
                         if becomes_runnable w kn.2 then Some kn.1 else None)
                      pre /\
         Workflow.set_nodes (Workflow.nodes w1) w = w1 /\
         forall j, Workflow.nodes w1 !! j
                   = (if decide (j ∈ l1) then settle w else fun n => n)
                     <$> Workflow.nodes w !! j)
    Workflow.refresh_node (kns.*1)) with (acc := @nil Z) (w := w)
    as (newly & w' & Hrun & pre & Hpre & Hpk & -> & Hw' & Hlook).
  - intros l1 x l2 acc w1 Hl (pre & -> & [suf Hsuf] & -> & Hw1 & Hlook).
    assert (Hx : exists n rest, suf = (x, n) :: rest /\ l2 = rest.*1).
    { rewrite Hsuf, fmap_app in Hl. apply app_inv_head in Hl.
      destruct suf as [|[k n] rest]; [discriminate|]. cbn in Hl.
      injection Hl as <- <-. eauto. }
    destruct Hx as (n & rest & -> & ->).
    assert (Hn : Workflow.nodes w !! x = Some n).
    { apply Hkns. rewrite Hsuf. apply elem_of_app. right.
      apply list_elem_of_here. }
    assert (Hxpre : x ∉ pre.*1).
    { rewrite Hsuf, fmap_app in Hnd. apply NoDup_app in Hnd as (_ & Hdis & _).
      intros Hin. apply (Hdis x Hin). cbn. apply list_elem_of_here. }
    assert (Hn1 : Workflow.nodes w1 !! x = Some n).
    { rewrite Hlook, decide_False, Hn by assumption. reflexivity. }
    assert (Hsucc : forall d,
              (exists y, Workflow.nodes w1 !! d = Some y /\ state y = Succeeded)
              <-> (exists y, Workflow.nodes w !! d = Some y /\
                             state y = Succeeded)).
    { intros d. rewrite Hlook. destruct (Workflow.nodes w !! d) as [y|];
        [|split; intros (? & ? & ?); discriminate].
      cbn. destruct (decide (d ∈ pre.*1)).
      - split; intros (z & [= <-] & Hz); eexists; (split; [reflexivity|]);
          now apply settle_succeeded in Hz || now apply settle_succeeded.
      - reflexivity. }
    eexists _, _. split.
    { apply (refresh_node_eq _ x n w1 Hn1). intros d Hd.
      rewrite Hlook. destruct (Hcl x n d Hn Hd) as [y ->]. cbn. eauto. }
    exists (pre ++ [(x, n)]). split; [now rewrite fmap_app|].
    split; [exists rest; now rewrite Hsuf, <- app_assoc|].
    assert (Hbr : becomes_runnable w1 n = becomes_runnable w n).
    { unfold becomes_runnable.
      now rewrite (settle_ext w w1 n (fun d _ => Hsucc d)). }
    split.
    { rewrite omap_app. cbn. rewrite Hbr.
      now destruct (becomes_runnable w n). }
    split.
    { assert (HM : forall M, Workflow.set_nodes M w1 = Workflow.set_nodes M w)
        by (intros M; rewrite <- Hw1; reflexivity).
      symmetry. apply HM. }
    intros j. cbn [Workflow.nodes Workflow.set_nodes].
    rewrite (settle_ext w w1 n (fun d _ => Hsucc d)).
    destruct (decide (j = x)) as [->|Hne].
    + rewrite lookup_insert_eq, Hn.
      rewrite decide_True by (rewrite ?fmap_app; apply elem_of_app; right;
                              apply list_elem_of_here).
      reflexivity.
    + rewrite lookup_insert_ne by congruence. rewrite Hlook.
      destruct (decide (j ∈ pre.*1)) as [Hin|Hnin].
      * rewrite decide_True; [reflexivity|].
        rewrite ?fmap_app. apply elem_of_app. now left.
      * rewrite decide_False; [reflexivity|].
        rewrite ?fmap_app, elem_of_app. intros [?|Hj]; [contradiction|].
        apply list_elem_of_singleton in Hj. cbn in Hj. congruence.
  - exists []. split; [reflexivity|]. split; [apply prefix_nil|].
    split; [reflexivity|]. split; [apply set_nodes_same|].
    intros j. rewrite decide_False by (intros H; inversion H).
    now destruct (Workflow.nodes w !! j).
  - rewrite Hrun. f_equal.
    + rewrite <- Hw'. f_equal. apply map_eq. intros j.
      rewrite Hlook, lookup_fmap.
      destruct (Workflow.nodes w !! j) as [n|] eqn:E; [|reflexivity].
      rewrite decide_True; [reflexivity|].
      apply list_elem_of_fmap. exists (j, n). split; [reflexivity|].
      now apply Hkns.
    + f_equal. f_equal.
      assert (Hlen : length pre = length kns).
      { rewrite <- (length_fmap fst pre), <- Hpre. now rewrite length_fmap. }
      destruct Hpk as [suf Hsuf]. rewrite Hsuf, length_app in Hlen.
      destruct suf; [now rewrite Hsuf, app_nil_r | cbn in Hlen; lia].
Qed.

(** ** The graph, the flags and the re-evaluation of states *)

Lemma deps_ok_parents (w : Workflow.t) (n : Node) :
  deps_ok w n = true <-> parents_succeeded w n.
Proof.
  unfold deps_ok, parents_succeeded. rewrite forallb_forall. split.
  - intros H d Hd. apply list_elem_of_In in Hd. specialize (H d Hd).
    destruct (Workflow.nodes w !! d) as [dn|]; [|discriminate].
    exists dn. split; [reflexivity|]. now apply bool_decide_eq_true in H.
  - intros H d Hd. apply list_elem_of_In in Hd.
    destruct (H d Hd) as (dn & -> & Hs). now apply bool_decide_eq_true.
Qed.

Lemma well_formed_closed (w : Workflow.t) :
  well_formed w ->
  forall k n d, Workflow.nodes w !! k = Some n -> d ∈ deps n ->
    is_Some (Workflow.nodes w !! d).
Proof. intros (_ & Hcl & _) k n d Hk Hd. eapply Hcl; eauto. Qed.

Lemma refreshed_lookup (w : Workflow.t) (j : Z) :
  Workflow.nodes (Workflow.set_nodes (settle w <$> Workflow.nodes w) w) !! j
  = settle w <$> Workflow.nodes w !! j.
Proof. cbn. apply lookup_fmap. Qed.

Lemma succeeded_refreshed (w : Workflow.t) (d : Z) :
  (exists x, Workflow.nodes
               (Workflow.set_nodes (settle w <$> Workflow.nodes w) w) !! d
             = Some x /\ state x = Succeeded) <->
  (exists x, Workflow.nodes w !! d = Some x /\ state x = Succeeded).
Proof.
  rewrite refreshed_lookup. split.
  - intros (x & Hx & Hs). destruct (Workflow.nodes w !! d) as [y|];
      [|discriminate]. injection Hx as <-. exists y. split; [reflexivity|].
    now apply settle_succeeded in Hs.
  - intros (x & -> & Hs). exists (settle w x). split; [reflexivity|].
    now apply settle_succeeded.
Qed.

Lemma parents_refreshed (w : Workflow.t) (n : Node) :
  parents_succeeded (Workflow.set_nodes (settle w <$> Workflow.nodes w) w)
                    (settle w n)
  <-> parents_succeeded w n.
Proof.
  unfold parents_succeeded. rewrite settle_deps.
  split; intros H d Hd; apply succeeded_refreshed; auto.
Qed.

Lemma ready_after_refresh (w : Workflow.t) :
  ready_iff_runnable (Workflow.set_nodes (settle w <$> Workflow.nodes w) w).
Proof.
  intros k n' Hk. rewrite refreshed_lookup in Hk.
  destruct (Workflow.nodes w !! k) as [n|] eqn:E; [|discriminate].
  injection Hk as <-. rewrite parents_refreshed, <- deps_ok_parents.
  unfold settle.
  destruct (IsTerminal (state n) || bool_decide (state n = Queued)
            || bool_decide (state n = Running)) eqn:Es.
  - split; intros Hs; rewrite Hs in Es; discriminate.
  - destruct (deps_ok w n); cbn; split; intros; congruence.
Qed.

Lemma NoDup_omap_fst {A} (P : Z * A -> bool) (l : list (Z * A)) :
  NoDup l.*1 ->
  NoDup (omap (fun kn : Z * A => if P kn then Some kn.1 else None) l).
Proof.
  induction l as [|[k a] l IH]; cbn; [constructor|].
  intros Hnd. apply NoDup_cons in Hnd as [Hk Hnd].
  destruct (P (k, a)); [|auto]. cbn. apply NoDup_cons. split; [|auto].
  intros Hin. apply list_elem_of_omap in Hin as ([k' a'] & Hin & Hf).
  destruct (P (k', a')); [|discriminate]. cbn in Hf. injection Hf as ->.
  apply Hk. apply list_elem_of_fmap. exists (k, a'). auto.
Qed.

Lemma refreshed_well_formed (w : Workflow.t) :
  well_formed w ->
  well_formed (Workflow.set_nodes (settle w <$> Workflow.nodes w) w).
Proof.
  intros Hwf. pose proof (RefreshRunnable_eq w (well_formed_closed w Hwf)) as E.
  destruct (grows_RefreshRunnable w) as (_ & _ & _ & _ & _ & H & _).
  rewrite E in H. now apply H.
Qed.

Lemma settle_fixed (w : Workflow.t) (n : Node) :
  settle (Workflow.set_nodes (settle w <$> Workflow.nodes w) w) (settle w n)
  = settle w n.
Proof.
  apply settle_idem. apply deps_ok_ext; [apply settle_deps|].
  intros d _. apply succeeded_refreshed.
Qed.

Lemma RefreshRunnable_twice (w : Workflow.t) :
  well_formed w ->
  let w1 := Workflow.set_nodes (settle w <$> Workflow.nodes w) w in
  Workflow.RefreshRunnable w1 = (w1, Workflow.Ok []).
Proof.
  intros Hwf w1.
  rewrite (RefreshRunnable_eq w1)
    by (apply well_formed_closed, refreshed_well_formed, Hwf).
  assert (Hfix : forall k n1, Workflow.nodes w1 !! k = Some n1 ->
                   settle w1 n1 = n1).
  { intros k n1 Hk. unfold w1 in Hk. rewrite refreshed_lookup in Hk.
    destruct (Workflow.nodes w !! k) as [n|]; [|discriminate].
    injection Hk as <-. apply settle_fixed. }
  f_equal.
  - transitivity (Workflow.set_nodes (Workflow.nodes w1) w1);
      [|apply set_nodes_same].
    f_equal. apply map_eq. intros j. rewrite lookup_fmap.
    destruct (Workflow.nodes w1 !! j) as [n1|] eqn:E; [|reflexivity].
    cbn. f_equal. eauto.
  - f_equal.
    assert (Hnone : forall l : list (Z * Node),
              (forall kn, kn ∈ l -> settle w1 kn.2 = kn.2) ->
              omap (fun kn : Z * Node =>
                      if becomes_runnable w1 kn.2 then Some kn.1 else None) l
              = []).
    { induction l as [|kn l IH]; intros Hl; [reflexivity|]. cbn.
      assert (Hb : becomes_runnable w1 kn.2 = false).
      { unfold becomes_runnable. rewrite Hl by apply list_elem_of_here.
        destruct (decide (state kn.2 = Runnable)) as [Hr|Hr].
        - rewrite (bool_decide_eq_false_2 (state kn.2 <> Runnable)) by tauto.
          reflexivity.
        - rewrite (bool_decide_eq_false_2 (state kn.2 = Runnable)) by tauto.
          apply andb_false_r. }
      rewrite Hb. apply IH. intros kn' Hin. apply Hl.
      now apply list_elem_of_further. }
    apply Hnone. intros [k n1] Hin. apply elem_of_map_to_list in Hin.
    cbn. eauto.
Qed.

Lemma ends_with_refresh {A} (m : Workflow.M A) (w w' : Workflow.t) :
  rel grows m -> well_formed w ->
  Workflow.bind (Workflow.bind m (fun _ => Workflow.RefreshRunnable))
    (fun _ => Workflow.ret ()) w = (w', Workflow.Ok ()) ->
  ready_iff_runnable w'.
Proof.
  intros Hm Hwf. unfold Workflow.bind. pose proof (Hm w) as Hg.
  destruct (m w) as [w1 [a|msg]]; cbn in Hg; [|discriminate].
  assert (Hwf1 : well_formed w1)
    by (destruct Hg as (_ & _ & _ & _ & _ & H & _); auto).
  rewrite (RefreshRunnable_eq w1) by (apply well_formed_closed, Hwf1).
  cbn. intros [= <-]. apply ready_after_refresh.
Qed.

Lemma ready_SetState_in_flight (nid : Z) (next : NodeState)
    (w w' : Workflow.t) :
  next = Queued \/ next = Running ->
  ready_iff_runnable w ->
  Workflow.SetState nid next w = (w', Workflow.Ok ()) ->
  ready_iff_runnable w'.
Proof.
  intros Hnext Hr E.
  destruct (SetState_cases nid next w)
    as [(r & E') | (n & Hn & Hne & Hterm & _ & E')].
  { assert (w' = w) as -> by congruence. assumption. }
  assert (w' = (Workflow.update_node nid (set_state next) w).1) as ->
    by congruence.
  clear E E'.
  assert (Hsucc : forall x : Node,
            parents_succeeded
              (Workflow.update_node nid (set_state next) w).1 x
            <-> parents_succeeded w x).
  { intros x. unfold parents_succeeded.
    assert (Hd : forall d,
              (exists dn, Workflow.nodes
                            (Workflow.update_node nid (set_state next) w).1
                          !! d = Some dn /\ state dn = Succeeded) <->
              (exists dn, Workflow.nodes w !! d = Some dn /\
                          state dn = Succeeded)).
    { intros d. rewrite lookup_update_node.
      destruct (decide (nid = d)) as [<-|]; [|reflexivity].
      rewrite Hn. cbn. split.
      - intros (dn & [= <-] & Hs). cbn in Hs.
        destruct Hnext; congruence.
      - intros (dn & [= <-] & Hs). rewrite Hs in Hterm. discriminate. }
    split; intros H d Hin; apply Hd; auto. }
  intros k n' Hk. rewrite lookup_update_node in Hk. rewrite Hsucc.
  destruct (decide (nid = k)) as [<-|Hnk].
  - rewrite Hn in Hk. injection Hk as <-. cbn.
    split; intros Hs; destruct Hnext; congruence.
  - apply (Hr k n' Hk).
Qed.

Lemma grows_MarkSucceeded_body (ty : NodeType) (it nid : Z) :
  rel grows
    (Workflow.bind (Workflow.SetState nid Succeeded)
       (fun _ =>
          if bool_decide (ty = Plan) then Workflow.ExpandIterationFromPlan nid
          else if bool_decide (ty = DecideNext) then
            Workflow.bind (Workflow.OnDecideNext nid)
              (fun _ =>
                 Workflow.modify (fun w =>
                   Workflow.set_completed_iters
                     (Z.max (Workflow.completed_iters_ w) (it + 1)) w))
          else Workflow.ret ())).
Proof.
  apply rel_bind; [apply _ | apply grows_SetState | intros _].
  apply rel_if; [apply grows_ExpandIterationFromPlan|].
  apply rel_if; [|apply rel_ret; apply _].
  apply rel_bind; [apply _ | apply grows_OnDecideNext | intros _].
  apply grows_modify. intros w. cbn. repeat split; lia.
Qed.

Lemma ready_call (c : Workflow.mutator) (w w' : Workflow.t) :
  well_formed w -> ready_iff_runnable w ->
  Workflow.call c w = (w', Workflow.Ok ()) -> ready_iff_runnable w'.
Proof.
  intros Hwf Hr.
  destruct c as [nid|nid|nid|nid|nid| |k]; cbn [Workflow.call].
  - apply ready_SetState_in_flight; auto.
  - apply ready_SetState_in_flight; auto.
  - unfold Workflow.MarkSucceeded. unfold Workflow.bind at 1, Workflow.node.
    destruct (Workflow.nodes w !! nid) as [n|]; [|discriminate].
    cbv zeta. apply ends_with_refresh; [|assumption].
    apply grows_MarkSucceeded_body.
  - unfold Workflow.MarkFailed. apply ends_with_refresh; [|assumption].
    apply grows_SetState.
  - unfold Workflow.Cancel. unfold Workflow.bind at 1, Workflow.node.
    destruct (Workflow.nodes w !! nid) as [n|]; [|discriminate].
    destruct (IsTerminal (state n)).
    + now intros [= <-].
    + apply ends_with_refresh; [|assumption].
      apply grows_update_node. intros ?; repeat split.
  - unfold Workflow.bind.
    rewrite (RefreshRunnable_eq w) by (apply well_formed_closed, Hwf).
    cbn. intros [= <-]. apply ready_after_refresh.
  - unfold Workflow.PruneAfterStop. unfold Workflow.bind at 1.
    cbn [Workflow.get]. apply ends_with_refresh; [|assumption].
    apply rel_forM_; [apply _ | intros x].
    unfold Workflow.prune_node. rel_grows.
Qed.

Lemma blocked_step (c : Workflow.mutator) (w : Workflow.t) (k d : Z)
    (n dn : Node) :
  Workflow.nodes w !! k = Some n ->
  state n = WaitingDeps \/ state n = Cancelled ->
  d ∈ deps n ->
  Workflow.nodes w !! d = Some dn ->
  state dn = Failed \/ state dn = Cancelled ->
  exists n' dn',
    Workflow.nodes (Workflow.call c w).1 !! k = Some n' /\
    (state n' = WaitingDeps \/ state n' = Cancelled) /\
    d ∈ deps n' /\
    Workflow.nodes (Workflow.call c w).1 !! d = Some dn' /\
    (state dn' = Failed \/ state dn' = Cancelled).
Proof.
  intros Hn Hs Hd Hdn Hds.
  destruct (respects_call c w) as [Hkeep _].
  destruct (grows_call c w) as (_ & _ & _ & _ & Hnodes & _).
  destruct (Hkeep k n Hn) as (n' & Hn' & Hst).
  destruct (Hkeep d dn Hdn) as (dn' & Hdn' & Hdst).
  destruct (Hnodes k n Hn) as (n'' & Hn'' & [l Hl] & _).
  rewrite Hn' in Hn''. injection Hn'' as <-.
  assert (Hd' : d ∈ deps n') by (rewrite Hl; apply elem_of_app; now left).
  assert (Hds' : state dn' = Failed \/ state dn' = Cancelled).
  { destruct Hdst as [->|[Ht _]]; [assumption|].
    destruct Hds as [E|E]; rewrite E in Ht; discriminate. }
  exists n', dn'. split; [assumption|]. split; [|auto].
  destruct Hst as [->|[Ht Hp]]; [assumption|].
  destruct Hs as [E|E]; rewrite E in Ht, Hp; [|discriminate].
  destruct (state n') eqn:En'; auto; cbn in Hp.
  - destruct (Hp d Hd') as (x & Hx & Hxs). rewrite Hdn' in Hx.
    injection Hx as <-. destruct Hds'; congruence.
  - discriminate.
  - destruct Hp; discriminate.
  - destruct Hp as [|[|]]; discriminate.
  - destruct Hp as [|[|]]; discriminate.
Qed.

Lemma StronglySorted_le_lt (l : list Z) :
  StronglySorted Z.le l -> NoDup l -> StronglySorted Z.lt l.
Proof.
  induction 1 as [|x l Hs IH Hall]; intros Hnd; constructor.
  - apply IH. now apply NoDup_cons in Hnd as [_ ?].
  - apply NoDup_cons in Hnd as [Hx _]. rewrite Forall_forall in Hall |- *.
    intros y Hy. specialize (Hall y Hy).
    assert (x <> y) by (intros ->; contradiction). lia.
Qed.

Lemma construct_valid (wid : Z) (params : WorkloadParams.t)
    (pc : ProviderConfig.t) :
  0 < WorkloadParams.pdfs params ->
  0 <= WorkloadParams.subqueries_per_iter params ->
  0 < WorkloadParams.max_iters params ->
  let w0 := Workflow.mk wid params (Some pc) ∅ 2 false 0 None in
  let plan :=
    populate w0
      (Workflow.with_output_size_est
         (u64 (200 + 10 * WorkloadParams.subqueries_per_iter params
               + 3 * WorkloadParams.pdfs params))
         (Workflow.with_state Runnable
            (Workflow.new_node 1 wid Plan llm 0 (-1) (-1)))) in
  Workflow.construct wid params pc
  = (Workflow.set_nodes {[1 := plan]} w0, Workflow.Ok ()).
Proof.
  intros Hp Hk Hi w0 plan. unfold Workflow.construct, Workflow.constructor.
  rewrite (proj2 (Z.leb_gt _ _)) by lia.
  rewrite (proj2 (Z.ltb_ge _ _)) by lia.
  rewrite (proj2 (Z.leb_gt _ _)) by lia.
  set (wi := Workflow.mk wid params (Some pc) ∅ 1 false 0 None).
  assert (He : Workflow.EnsureInitialPlan wi
               = (Workflow.set_nodes {[1 := plan]} w0, Workflow.Ok ())).
  { unfold Workflow.EnsureInitialPlan.
    erewrite bind_ok by reflexivity. erewrite bind_ok by reflexivity.
    cbv zeta.
    erewrite bind_ok.
    2:{ apply AddNode_stored; cbn; [lia | reflexivity | apply lookup_empty]. }
    rewrite PopulatePreferenceListForNode_eq.
    cbn [Workflow.nodes Workflow.set_nodes].
    rewrite alter_insert_eq. subst wi.
    cbn [Workflow.nodes Workflow.set_nodes Workflow.id_ Workflow.params_
         Workflow.provider_config_ Workflow.next_node_id Workflow.done_
         Workflow.completed_iters_ Workflow.stop_iter_ id
         Workflow.with_output_size_est Workflow.with_state
         Workflow.new_node set_state].
    rewrite insert_empty. change (u64 (1 + 1)) with 2.
    unfold plan, w0, populate, Workflow.set_nodes.
    cbn [Workflow.nodes Workflow.id_ Workflow.params_
         Workflow.provider_config_ Workflow.next_node_id Workflow.done_
         Workflow.completed_iters_ Workflow.stop_iter_].
    reflexivity. }
  assert (Hr : Workflow.RefreshRunnable (Workflow.set_nodes {[1 := plan]} w0)
               = (Workflow.set_nodes {[1 := plan]} w0, Workflow.Ok [])).
  { rewrite RefreshRunnable_eq.
    2:{ cbn. intros k n d Hkn Hd. apply lookup_singleton_Some in Hkn as [_ <-].
        unfold plan, populate in Hd. cbn in Hd. inversion Hd. }
    cbn [Workflow.nodes Workflow.set_nodes].
    assert (Hs : settle (Workflow.set_nodes {[1 := plan]} w0) plan = plan).
    { unfold settle, deps_ok, plan, populate. cbn. reflexivity. }
    rewrite map_fmap_singleton, map_to_list_singleton, Hs.
    reflexivity. }
  rewrite !bind_assoc.
  do 3 (erewrite bind_ok by reflexivity).
  erewrite bind_ok by exact He. erewrite bind_ok by exact Hr.
  reflexivity.
Qed.

(** X1. The constructor returns normally exactly when [pdfs > 0],
    [subqueries_per_iter >= 0] and [max_iters > 0]; the workflow it then
    leaves holds one node, stored under id 1: the [Plan] of iteration 0,
    [Runnable], without edges, of this workflow; the next free id is 2, the
    workflow is not done and no iteration is completed. *)
Theorem constructor_outcome (wid : Z) (params : WorkloadParams.t)
    (pc : ProviderConfig.t) :
  ((Workflow.construct wid params pc).2 = Workflow.Ok () <->
   0 < WorkloadParams.pdfs params /\
   0 <= WorkloadParams.subqueries_per_iter params /\
   0 < WorkloadParams.max_iters params) /\
  ((Workflow.construct wid params pc).2 = Workflow.Ok () ->
   exists plan,
     Workflow.nodes (Workflow.construct wid params pc).1 = {[1 := plan]} /\
     id plan = 1 /\ workflow_id plan = wid /\ type plan = Plan /\
     iter plan = 0 /\ state plan = Runnable /\
     deps plan = [] /\ children plan = [] /\
     Workflow.next_node_id (Workflow.construct wid params pc).1 = 2 /\
     Workflow.done_ (Workflow.construct wid params pc).1 = false /\
     Workflow.completed_iters_ (Workflow.construct wid params pc).1 = 0).
Proof.
  assert (Hbad : ~ (0 < WorkloadParams.pdfs params /\
                    0 <= WorkloadParams.subqueries_per_iter params /\
                    0 < WorkloadParams.max_iters params) ->
                 exists msg, (Workflow.construct wid params pc).2
                             = Workflow.Throw msg).
  { intros Hn. unfold Workflow.construct, Workflow.constructor.
    rewrite !bind_assoc.
    destruct (WorkloadParams.pdfs params <=? 0) eqn:E1;
      [eexists; reflexivity|].
    erewrite bind_ok by reflexivity.
    destruct (WorkloadParams.subqueries_per_iter params <? 0) eqn:E2;
      [eexists; reflexivity|].
    erewrite bind_ok by reflexivity.
    destruct (WorkloadParams.max_iters params <=? 0) eqn:E3;
      [eexists; reflexivity|].
    exfalso. apply Hn. lia. }
  destruct (decide (0 < WorkloadParams.pdfs params /\
                    0 <= WorkloadParams.subqueries_per_iter params /\
                    0 < WorkloadParams.max_iters params))
    as [(Hp & Hk & Hi) | Hn].
  - rewrite (construct_valid wid params pc Hp Hk Hi). cbn [fst snd].
    split; [tauto|]. intros _. eexists. split; [reflexivity|].
    unfold populate. cbn. repeat split; reflexivity.
  - destruct (Hbad Hn) as [msg ->].
    split; [split; [discriminate | tauto] | discriminate].
Qed.

(** X2. Every workflow obtained from the constructor by calls of the
    mutators has a well-formed graph: each node is stored under its own
    id, every dependency and every child of a node is a stored node, and
    [b] is a child of [a] exactly when [a] is a dependency of [b]. *)
Theorem reachable_graph_well_formed (w : Workflow.t) :
  reachable w -> well_formed w.
Proof. apply reachable_well_formed. Qed.

Lemma reachable_graph_well_formed_witness :
  well_formed Examples.wf_extracted.
Proof.
  apply reachable_graph_well_formed.
  exists 1, (WorkloadParams.mk 2 1 2 1), Examples.providers,
    (Workflow.CallMarkSucceeded 1
     :: (Workflow.CallMarkSucceeded <$> seqZ 2 10)).
  split; vm_compute; reflexivity.
Defined.

(** X3. On a well-formed graph [RefreshRunnable] does not throw.  It
    leaves every terminal, [Queued] or [Running] node as it is and makes
    every other node [Runnable] when all its dependencies are [Succeeded]
    and [WaitingDeps] otherwise, whatever the order in which the nodes are
    visited; it returns, each once, the ids of the nodes that were not
    [Runnable] before and are [Runnable] now; afterwards the [Runnable]
    nodes are those whose dependencies have all succeeded. *)
Theorem RefreshRunnable_settles (w : Workflow.t) :
  well_formed w ->
  exists newly,
    Workflow.RefreshRunnable w
    = (Workflow.set_nodes (settle w <$> Workflow.nodes w) w,
       Workflow.Ok newly) /\
    NoDup newly /\
    (forall k, k ∈ newly <->
       exists n, Workflow.nodes w !! k = Some n /\ state n <> Runnable /\
                 state (settle w n) = Runnable) /\
    ready_iff_runnable (Workflow.RefreshRunnable w).1.
Proof.
  intros Hwf. rewrite (RefreshRunnable_eq w (well_formed_closed w Hwf)).
  eexists. split; [reflexivity|]. split; [|split].
  - apply (NoDup_omap_fst (fun kn => becomes_runnable w kn.2)).
    apply NoDup_fst_map_to_list.
  - intros k. rewrite list_elem_of_omap. unfold becomes_runnable. split.
    + intros ([k' n] & Hin & Hf). cbn in Hf.
      destruct (bool_decide (state n <> Runnable)) eqn:E1; [|discriminate].
      destruct (bool_decide (state (settle w n) = Runnable)) eqn:E2;
        [|discriminate].
      cbn in Hf. injection Hf as ->. exists n.
      apply elem_of_map_to_list in Hin.
      apply bool_decide_eq_true in E1. apply bool_decide_eq_true in E2.
      auto.
    + intros (n & Hn & H1 & H2). exists (k, n).
      split; [now apply elem_of_map_to_list|]. cbn.
      rewrite (bool_decide_eq_true_2 _ H1), (bool_decide_eq_true_2 _ H2).
      reflexivity.
  - apply ready_after_refresh.
Qed.

Lemma RefreshRunnable_settles_witness :
  exists newly,
    Workflow.RefreshRunnable Examples.wf_load_failed
    = (Workflow.set_nodes
         (settle Examples.wf_load_failed
          <$> Workflow.nodes Examples.wf_load_failed)
         Examples.wf_load_failed,
       Workflow.Ok newly) /\
    NoDup newly /\
    (forall k, k ∈ newly <->
       exists n, Workflow.nodes Examples.wf_load_failed !! k = Some n /\
                 state n <> Runnable /\
                 state (settle Examples.wf_load_failed n) = Runnable) /\
    ready_iff_runnable (Workflow.RefreshRunnable Examples.wf_load_failed).1.
Proof.
  apply RefreshRunnable_settles. apply reachable_well_formed.
  exists 1, (WorkloadParams.mk 2 1 2 1), Examples.providers,
    [Workflow.CallMarkSucceeded 1; Workflow.CallMarkFailed 2].
  split; vm_compute; reflexivity.
Defined.

(** X4. [RefreshRunnable] is idempotent on a well-formed graph: run
    right after itself it changes nothing and reports no node. *)
Theorem RefreshRunnable_idempotent (w : Workflow.t) :
  well_formed w ->
  Workflow.RefreshRunnable (Workflow.RefreshRunnable w).1
  = ((Workflow.RefreshRunnable w).1, Workflow.Ok []).
Proof.
  intros Hwf. rewrite (RefreshRunnable_eq w (well_formed_closed w Hwf)).
  cbn [fst]. now apply RefreshRunnable_twice.
Qed.

Lemma RefreshRunnable_idempotent_witness :
  Workflow.RefreshRunnable (Workflow.RefreshRunnable Examples.wf_expanded).1
  = ((Workflow.RefreshRunnable Examples.wf_expanded).1, Workflow.Ok []).
Proof.
  apply RefreshRunnable_idempotent. apply reachable_well_formed.
  exists 1, (WorkloadParams.mk 2 1 2 1), Examples.providers,
    [Workflow.CallMarkSucceeded 1].
  split; vm_compute; reflexivity.
Defined.

(** X5. No sequence of mutator calls, exceptions included, changes the
    id, the workload parameters or the provider configuration of a
    workflow, and [completed_iters_] never decreases. *)
Theorem calls_keep_identity (cs : list Workflow.mutator) (w : Workflow.t) :
  Workflow.id_ (Workflow.calls cs w) = Workflow.id_ w /\
  Workflow.params_ (Workflow.calls cs w) = Workflow.params_ w /\
  Workflow.provider_config_ (Workflow.calls cs w)
  = Workflow.provider_config_ w /\
  Workflow.completed_iters_ w
  <= Workflow.completed_iters_ (Workflow.calls cs w).
Proof.
  destruct (grows_calls cs w) as (H1 & H2 & H3 & H4 & _). auto.
Qed.

(** X6. No sequence of mutator calls removes a node, changes its type
    or its iteration, or removes or reorders an edge: the dependencies and
    the children a node had are a prefix of those it has afterwards. *)
Theorem calls_keep_nodes (cs : list Workflow.mutator) (w : Workflow.t)
    (k : Z) (n : Node) :
  Workflow.nodes w !! k = Some n ->
  exists n', Workflow.nodes (Workflow.calls cs w) !! k = Some n' /\
    deps n `prefix_of` deps n' /\ children n `prefix_of` children n' /\
    type n' = type n /\ iter n' = iter n.
Proof.
  intros Hn. destruct (grows_calls cs w) as (_ & _ & _ & _ & H & _).
  now apply H.
Qed.

Lemma calls_keep_nodes_witness :
  exists n', Workflow.nodes Examples.wf_expanded !! 1 = Some n' /\
    deps Examples.root_plan `prefix_of` deps n' /\
    children Examples.root_plan `prefix_of` children n' /\
    type n' = type Examples.root_plan /\ iter n' = iter Examples.root_plan.
Proof.
  apply (calls_keep_nodes [Workflow.CallMarkSucceeded 1] Examples.wf_new 1
           Examples.root_plan).
  vm_compute. reflexivity.
Defined.

(** X7. A node that waits for a dependency that has failed or was
    cancelled is never run: whatever mutators are called, it stays in
    [WaitingDeps] or becomes [Cancelled]. *)
Theorem failed_parent_blocks (cs : list Workflow.mutator) (w : Workflow.t)
    (k d : Z) (n dn : Node) :
  Workflow.nodes w !! k = Some n -> state n = WaitingDeps ->
  d ∈ deps n ->
  Workflow.nodes w !! d = Some dn ->
  state dn = Failed \/ state dn = Cancelled ->
  exists n', Workflow.nodes (Workflow.calls cs w) !! k = Some n' /\
             (state n' = WaitingDeps \/ state n' = Cancelled).
Proof.
  intros Hn Hs Hd Hdn Hds.
  assert (Hgen : forall cs w n dn,
            Workflow.nodes w !! k = Some n ->
            state n = WaitingDeps \/ state n = Cancelled ->
            d ∈ deps n ->
            Workflow.nodes w !! d = Some dn ->
            state dn = Failed \/ state dn = Cancelled ->
            exists n', Workflow.nodes (Workflow.calls cs w) !! k = Some n' /\
                       (state n' = WaitingDeps \/ state n' = Cancelled)).
  { clear. induction cs as [|c cs IH]; intros w n dn Hn Hs Hd Hdn Hds.
    - exists n. auto.
    - cbn [Workflow.calls foldl].
      destruct (blocked_step c w k d n dn Hn Hs Hd Hdn Hds)
        as (n1 & dn1 & Hn1 & Hs1 & Hd1 & Hdn1 & Hds1).
      exact (IH _ n1 dn1 Hn1 Hs1 Hd1 Hdn1 Hds1). }
  eapply Hgen; eauto.
Qed.

Lemma failed_parent_blocks_witness :
  exists n',
    Workflow.nodes
      (Workflow.calls [Workflow.CallMarkSucceeded 3;
                       Workflow.CallRefreshRunnable;
                       Workflow.CallMarkQueued 3] Examples.wf_load_failed) !! 3
    = Some n' /\
    (state n' = WaitingDeps \/ state n' = Cancelled).
Proof.
  apply (failed_parent_blocks _ Examples.wf_load_failed 3 2
           (Examples.node_of Examples.wf_load_failed 3)
           (Examples.node_of Examples.wf_load_failed 2)).
  - vm_compute. reflexivity.
  - vm_compute. reflexivity.
  - vm_compute. apply list_elem_of_here.
  - vm_compute. reflexivity.
  - left. vm_compute. reflexivity.
Defined.

(** X8. [SetState] (and so [MarkQueued] and [MarkRunning]) gives the
    strong exception guarantee: when it throws, for an unknown id or a
    transition that the state machine forbids, the workflow is exactly as
    it was before the call. *)
Theorem SetState_throw_unchanged (nid : Z) (next : NodeState)
    (w w' : Workflow.t) (msg : string) :
  Workflow.SetState nid next w = (w', Workflow.Throw msg) -> w' = w.
Proof.
  intros E.
  destruct (SetState_cases nid next w)
    as [(r & E') | (n & _ & _ & _ & _ & E')]; congruence.
Qed.

Lemma SetState_throw_unchanged_witness :
  (Workflow.SetState 3 Queued Examples.wf_expanded).1 = Examples.wf_expanded.
Proof.
  apply (SetState_throw_unchanged 3 Queued Examples.wf_expanded _
           "Invalid node transition: Queued only allowed from Runnable").
  vm_compute. reflexivity.
Defined.

(** X9. [RunnableNodes] returns the ids of the [Runnable] nodes and
    nothing else, in strictly increasing order (so each id once). *)
Theorem RunnableNodes_sorted_exact (w : Workflow.t) :
  StronglySorted Z.lt (Workflow.RunnableNodes w) /\
  forall k, k ∈ Workflow.RunnableNodes w <->
            exists n, Workflow.nodes w !! k = Some n /\ state n = Runnable.
Proof.
  unfold Workflow.RunnableNodes.
  set (l := omap _ (map_to_list (Workflow.nodes w))).
  pose proof (merge_sort_Permutation Z.le l) as Hperm.
  assert (Hnd : NoDup l).
  { apply (NoDup_omap_fst (fun kn => bool_decide (state kn.2 = Runnable))).
    apply NoDup_fst_map_to_list. }
  split.
  - apply StronglySorted_le_lt.
    + apply StronglySorted_merge_sort; apply _.
    + now rewrite Hperm.
  - intros k. rewrite Hperm. unfold l. rewrite list_elem_of_omap. split.
    + intros ([k' n] & Hin & Hf). cbn in Hf.
      case_bool_decide as Hs; [|discriminate]. injection Hf as ->.
      exists n. split; [now apply elem_of_map_to_list | assumption].
    + intros (n & Hn & Hs). exists (k, n).
      split; [now apply elem_of_map_to_list|]. cbn.
      now rewrite bool_decide_eq_true_2.
Qed.

(** X10. In every workflow obtained from the constructor by calls of
    the mutators, [done()] is true exactly when a stop iteration has been
    recorded. *)
Theorem done_iff_stop_iter (w : Workflow.t) :
  reachable w ->
  (Workflow.done_ w = true <-> is_Some (Workflow.stop_iter_ w)).
Proof.
  intros (wid & params & pc & cs & _ & ->).
  destruct (grows_calls cs (Workflow.construct wid params pc).1)
    as (_ & _ & _ & _ & _ & _ & Hf). apply Hf.
  destruct (grows_constructor params
              (Workflow.mk wid params (Some pc) ∅ 1 false 0 None))
    as (_ & _ & _ & _ & _ & _ & Hf0). apply Hf0.
  unfold flags_agree. cbn. split; [discriminate | intros [? ?]; discriminate].
Qed.

Lemma done_iff_stop_iter_witness :
  Workflow.done_ Examples.wf_last = true
  <-> is_Some (Workflow.stop_iter_ Examples.wf_last).
Proof.
  apply done_iff_stop_iter.
  exists 1, (WorkloadParams.mk 2 1 2 1), Examples.providers,
    (Workflow.CallMarkSucceeded <$> ([1] ++ seqZ 2 10 ++ [12] ++ seqZ 13 13)).
  split; vm_compute; reflexivity.
Defined.

(** X11. A mutator call that returns normally on a well-formed graph
    keeps the [Runnable] nodes in step with the dependencies: if before
    the call every [Runnable] node had all its parents [Succeeded] and
    every [WaitingDeps] node had a parent that was not, the same holds
    after it. *)
Theorem runnable_iff_ready_kept (c : Workflow.mutator) (w : Workflow.t) :
  well_formed w -> ready_iff_runnable w ->
  (Workflow.call c w).2 = Workflow.Ok () ->
  ready_iff_runnable (Workflow.call c w).1.
Proof.
  intros Hwf Hr E. destruct (Workflow.call c w) as [w' r] eqn:Ec.
  cbn in E |- *. subst r. exact (ready_call c w w' Hwf Hr Ec).
Qed.

Lemma runnable_iff_ready_kept_witness :
  ready_iff_runnable
    (Workflow.call (Workflow.CallMarkQueued 2)
       (Workflow.RefreshRunnable Examples.wf_expanded).1).1.
Proof.
  assert (Hwf : well_formed Examples.wf_expanded).
  { apply reachable_well_formed.
    exists 1, (WorkloadParams.mk 2 1 2 1), Examples.providers,
      [Workflow.CallMarkSucceeded 1].
    split; vm_compute; reflexivity. }
  apply runnable_iff_ready_kept.
  - rewrite (RefreshRunnable_eq _ (well_formed_closed _ Hwf)).
    apply refreshed_well_formed, Hwf.
  - rewrite (RefreshRunnable_eq _ (well_formed_closed _ Hwf)).
    apply ready_after_refresh.
  - vm_compute. reflexivity.
Defined.

(** ** The dispatch pass *)

Import DispatchSpec.

Lemma tier_index_spec (p : string) (t : Z) (ts : list Tier.t) (i j : nat) :
  ProviderManager.tier_index p t ts i = Some j ->
  (i <= j)%nat /\
  exists x, ts !! (j - i)%nat = Some x /\
            Tier.provider x = p /\ Tier.tier_id x = t.
Proof.
  revert i. induction ts as [|x rest IH]; intros i; cbn; [discriminate|].
  destruct (ProviderManager.tier_index p t rest (S i)) as [j'|] eqn:E.
  - intros [= ->]. destruct (IH (S i) E) as (Hle & y & Hy & Hp & Ht).
    split; [lia|]. exists y. split; [|auto].
    replace (j - i)%nat with (S (j - S i)) by lia. exact Hy.
  - destruct (bool_decide (Tier.provider x = p)) eqn:Ep; [|discriminate].
    destruct (bool_decide (Tier.tier_id x = t)) eqn:Et; [|discriminate].
    cbn. intros [= ->]. split; [lia|]. exists x.
    rewrite Nat.sub_diag. split; [reflexivity|].
    apply bool_decide_eq_true in Ep. apply bool_decide_eq_true in Et. auto.
Qed.

Lemma tier_index_none (p : string) (t : Z) (ts : list Tier.t) (i : nat) :
  ProviderManager.tier_index p t ts i = None <->
  forall x, x ∈ ts -> ~ (Tier.provider x = p /\ Tier.tier_id x = t).
Proof.
  revert i. induction ts as [|x rest IH]; intros i; cbn.
  - split; [|reflexivity]. intros _ x Hx. inversion Hx.
  - destruct (ProviderManager.tier_index p t rest (S i)) as [j'|] eqn:E.
    + split; [discriminate|]. intros H. exfalso.
      destruct (tier_index_spec p t rest (S i) j' E) as (_ & y & Hy & Hp).
      apply (H y); [|assumption].
      apply list_elem_of_further. eapply list_elem_of_lookup_2. exact Hy.
    + pose proof (proj1 (IH (S i)) E) as Hrest.
      destruct (bool_decide (Tier.provider x = p)) eqn:Ep;
        destruct (bool_decide (Tier.tier_id x = t)) eqn:Et; cbn;
        try apply bool_decide_eq_true in Ep;
        try apply bool_decide_eq_true in Et;
        try apply bool_decide_eq_false in Ep;
        try apply bool_decide_eq_false in Et.
      * split; [discriminate|]. intros H. exfalso.
        apply (H x); [apply list_elem_of_here | auto].
      * split; [|reflexivity]. intros _ y Hy.
        apply elem_of_cons in Hy as [->|Hy]; [tauto | auto].
      * split; [|reflexivity]. intros _ y Hy.
        apply elem_of_cons in Hy as [->|Hy]; [tauto | auto].
      * split; [|reflexivity]. intros _ y Hy.
        apply elem_of_cons in Hy as [->|Hy]; [tauto | auto].
Qed.

Lemma GetTier_spec (pm : ProviderManager.t) (p : string) (t : Z) (i : nat)
    (x : Tier.t) :
  ProviderManager.GetTier pm p t = Some (i, x) ->
  ProviderManager.tiers pm !! i = Some x /\
  Tier.provider x = p /\ Tier.tier_id x = t.
Proof.
  intros H. pose proof (GetTier_lookup pm p t i x H) as Hl.
  split; [exact Hl|]. unfold ProviderManager.GetTier in H.
  destruct (ProviderManager.tier_index p t (ProviderManager.tiers pm) 0)
    as [j|] eqn:E; [|discriminate].
  destruct (tier_index_spec p t _ 0 j E) as (_ & y & Hy & Hp).
  rewrite Nat.sub_0_r in Hy. rewrite Hy in H. injection H as <- <-.
  exact Hp.
Qed.

Lemma first_accepting_spec (name : string) (ts : list Tier.t) (i j : nat)
    (x : Tier.t) :
  ProviderManager.first_accepting name ts i = Some (j, x) ->
  (i <= j)%nat /\ ts !! (j - i)%nat = Some x /\
  Tier.provider x = name /\ Tier.can_accept x = true.
Proof.
  revert i. induction ts as [|y rest IH]; intros i; cbn; [discriminate|].
  destruct (bool_decide (Tier.provider y = name)) eqn:Ep; cbn.
  - destruct (Tier.can_accept y) eqn:Ea.
    + intros [= <- <-]. rewrite Nat.sub_diag.
      apply bool_decide_eq_true in Ep. auto.
    + intros H. destruct (IH (S i) H) as (Hle & Hl & Hx).
      split; [lia|]. split; [|exact Hx].
      replace (j - i)%nat with (S (j - S i)) by lia. exact Hl.
  - intros H. destruct (IH (S i) H) as (Hle & Hl & Hx).
    split; [lia|]. split; [|exact Hx].
    replace (j - i)%nat with (S (j - S i)) by lia. exact Hl.
Qed.

Lemma route_spec cfg store pm sn n cost crit i x p t tmo retries :
  Scheduler.route cfg store pm sn n cost crit
  = Some (i, x, p, t, tmo, retries) ->
  ProviderManager.tiers pm !! i = Some x /\ Tier.can_accept x = true /\
  p = Tier.provider x /\ t = Tier.tier_id x.
Proof.
  unfold Scheduler.route.
  destruct (SchedulerConfig.enable_model_routing cfg
            && negb (bool_decide (preference_list n = []))).
  - destruct (Scheduler.SelectOption _ _ _ _ _ _) as [opt|]; [|discriminate].
    destruct (ProviderManager.GetTier pm (provider opt) (tier_id opt))
      as [[j y]|] eqn:E; [|discriminate].
    destruct (Tier.can_accept y) eqn:Ea; [|discriminate]. cbn.
    intros [= <- <- <- <- _ _].
    destruct (GetTier_spec pm _ _ _ _ E) as (Hl & Hp & Ht). auto.
  - destruct (ProviderManager.first_accepting _ _ 0) as [[j y]|] eqn:E;
      [|discriminate].
    intros [= <- <- <- <- _ _].
    destruct (first_accepting_spec _ _ _ _ _ E) as (_ & Hl & _ & Ha).
    rewrite Nat.sub_0_r in Hl. auto.
Qed.

(** What one round of the loop does when it does not throw. *)
Lemma dispatch_node_cases cfg store cost crit sn st st' :
  Scheduler.dispatch_node cfg store cost crit sn st = Workflow.Ok st' ->
  st' = st \/
  exists wf n,
    Scheduler.workflows st !! ScoredNode.workflow_id sn = Some wf /\
    Workflow.done_ wf = false /\
    Workflow.nodes wf !! ScoredNode.node_id sn = Some n /\
    state n = Runnable /\
    Scheduler.workflows st'
    = <[ScoredNode.workflow_id sn :=
          (Workflow.update_node (ScoredNode.node_id sn) (set_state Queued)
             wf).1]> (Scheduler.workflows st) /\
    Scheduler.in_flight st' = Scheduler.in_flight st + 1 /\
    Scheduler.dispatched st' = Scheduler.dispatched st + 1 /\
    Scheduler.next_attempt_id st' = u64 (Scheduler.next_attempt_id st + 1) /\
    ((Scheduler.provider_mgr st' = Scheduler.provider_mgr st /\
      Scheduler.cancelled_flags st' = Scheduler.cancelled_flags st /\
      exists task,
        (Scheduler.cpu_queue st'
         = LocalQueue.Push task (Scheduler.cpu_queue st) /\
         Scheduler.io_queue st' = Scheduler.io_queue st) \/
        (Scheduler.cpu_queue st' = Scheduler.cpu_queue st /\
         Scheduler.io_queue st'
         = LocalQueue.Push task (Scheduler.io_queue st))) \/
     (Scheduler.cpu_queue st' = Scheduler.cpu_queue st /\
      Scheduler.io_queue st' = Scheduler.io_queue st /\
      Scheduler.cancelled_flags st'
      = <[Scheduler.flag_key (ScoredNode.workflow_id sn)
            (ScoredNode.node_id sn) := false]>
          (Scheduler.cancelled_flags st) /\
      exists i x a,
        ProviderManager.tiers (Scheduler.provider_mgr st) !! i = Some x /\
        Tier.can_accept x = true /\ addressed_to x a /\
        Scheduler.provider_mgr st'
        = ProviderManager.mk
            (alter (Tier.Enqueue a) i
               (ProviderManager.tiers (Scheduler.provider_mgr st))))).
Proof.
  unfold Scheduler.dispatch_node.
  destruct (Scheduler.workflows st !! ScoredNode.workflow_id sn) as [wf|]
    eqn:Ewf; [|intros [= <-]; now left].
  destruct (Workflow.done_ wf) eqn:Ed; [intros [= <-]; now left|].
  unfold Workflow.node.
  destruct (Workflow.nodes wf !! ScoredNode.node_id sn) as [n|] eqn:En;
    [|discriminate].
  destruct (decide (state n = Runnable)) as [Hs|Hs].
  2:{ rewrite (bool_decide_eq_false_2 _ Hs). cbn. intros [= <-]. now left. }
  rewrite (bool_decide_eq_true_2 _ Hs). cbn [negb].
  rewrite (MarkQueued_runnable _ n wf En Hs).
  destruct (bool_decide (resource_class n = cpu)
            || bool_decide (resource_class n = io)) eqn:Eloc.
  - intros [= <-]. right. exists wf, n. cbn.
    repeat (split; [reflexivity || assumption|]).
    left. split; [reflexivity|]. split; [reflexivity|].
    eexists. destruct (bool_decide (resource_class n = cpu));
      [left | right]; split; reflexivity.
  - destruct (Scheduler.route cfg store (Scheduler.provider_mgr st) sn n cost
                crit) as [[[[[[i x] p] t] tmo] retries]|] eqn:Er;
      [|intros [= <-]; now left].
    intros [= <-]. right. exists wf, n. cbn.
    repeat (split; [reflexivity || assumption|]).
    right. split; [reflexivity|]. split; [reflexivity|].
    split; [reflexivity|].
    destruct (route_spec _ _ _ _ _ _ _ _ _ _ _ _ _ Er) as (Hl & Ha & -> & ->).
    exists i, x. eexists. split; [exact Hl|]. split; [exact Ha|].
    split; [|reflexivity]. repeat split.
Qed.

(** A property of the pass that every admitted round keeps holds when
    the loop ends. *)
Lemma dispatch_loop_preserves cfg store cost crit
    (P : Scheduler.pass -> Prop) :
  (forall sn st st',
      P st ->
      Scheduler.in_flight st < SchedulerConfig.max_in_flight_global cfg ->
      Scheduler.dispatch_node cfg store cost crit sn st = Workflow.Ok st' ->
      P st') ->
  forall scored st st',
    P st ->
    Scheduler.dispatch_loop cfg store cost crit scored st = Workflow.Ok st' ->
    P st'.
Proof.
  intros Hstep. induction scored as [|sn rest IH]; intros st st' HP; cbn.
  - now intros [= <-].
  - destruct (SchedulerConfig.max_in_flight_global cfg
              <=? Scheduler.in_flight st) eqn:E; [now intros [= <-]|].
    apply Z.leb_gt in E.
    destruct (Scheduler.dispatch_node cfg store cost crit sn st) as [st1|]
      eqn:E1; [|discriminate].
    apply IH. eapply Hstep; eauto.
Qed.







(** X12. A dispatch pass that returns counts what it dispatches: its
    counter of nodes in flight ends at the number of [Queued] and
    [Running] nodes found at the start plus the number of nodes dispatched,
    and a node is dispatched only while that counter is below
    [max_in_flight_global], so that a pass that dispatched anything ends
    with the counter at most [max_in_flight_global]. *)
Theorem Dispatch_admission cfg store wfs pm cpu_q io_q cost next flags crit
    scored st' :
  Scheduler.Dispatch cfg store wfs pm cpu_q io_q cost next flags crit scored
  = Workflow.Ok st' ->
  0 <= Scheduler.dispatched st' /\
  Scheduler.in_flight st'
  = Scheduler.count_in_flight wfs + Scheduler.dispatched st' /\
  (0 < Scheduler.dispatched st' ->
   Scheduler.in_flight st' <= SchedulerConfig.max_in_flight_global cfg).
Proof.
  unfold Scheduler.Dispatch.
  apply (dispatch_loop_preserves cfg store cost crit
           (fun st =>
              0 <= Scheduler.dispatched st /\
              Scheduler.in_flight st
              = Scheduler.count_in_flight wfs + Scheduler.dispatched st /\
              (0 < Scheduler.dispatched st ->
               Scheduler.in_flight st
               <= SchedulerConfig.max_in_flight_global cfg))).
  - intros sn st st1 (H0 & Hf & Hc) Hlt Hn.
    destruct (dispatch_node_cases _ _ _ _ _ _ _ Hn)
      as [-> | (wf & n & _ & _ & _ & _ & _ & Hi & Hd & _)]; [auto|].
    rewrite Hi, Hd. lia.
  - cbn. lia.
Qed.

Lemma Dispatch_admission_witness :
  0 <= Scheduler.dispatched (Examples.pass_of Examples.dispatch_root) /\
  Scheduler.in_flight (Examples.pass_of Examples.dispatch_root)
  = Scheduler.count_in_flight {[1 := Examples.wf_new]}
    + Scheduler.dispatched (Examples.pass_of Examples.dispatch_root) /\
  (0 < Scheduler.dispatched (Examples.pass_of Examples.dispatch_root) ->
   Scheduler.in_flight (Examples.pass_of Examples.dispatch_root)
   <= SchedulerConfig.max_in_flight_global Examples.with_budget).
Proof.
  apply (Dispatch_admission Examples.with_budget Examples.flat_store
           {[1 := Examples.wf_new]} Examples.idle_tiers
           Examples.idle_queue Examples.idle_queue ∅ 1 ∅ None
           [Examples.root_scored]).
  vm_compute. reflexivity.
Defined.



Lemma queued_only_refl (wf : Workflow.t) : queued_only wf wf.
Proof.
  split; [symmetry; apply set_nodes_same|].
  intros k. destruct (Workflow.nodes wf !! k); auto.
Qed.

Lemma queued_only_step (wf wf1 : Workflow.t) (nid : Z) (n : Node) :
  queued_only wf wf1 ->
  Workflow.nodes wf1 !! nid = Some n -> state n = Runnable ->
  queued_only wf (Workflow.update_node nid (set_state Queued) wf1).1.
Proof.
  intros [Heq Hk] Hn Hs. split.
  - rewrite Heq at 1. reflexivity.
  - intros k. specialize (Hk k). rewrite lookup_update_node.
    destruct (decide (nid = k)) as [<-|Hne]; [|exact Hk].
    rewrite Hn in *. cbn.
    destruct (Workflow.nodes wf !! nid) as [n0|]; [|discriminate].
    destruct Hk as [[= ->] | [_ [= ->]]]; [auto|discriminate].
Qed.

(** X14. A dispatch pass that returns touches the workflows in one way
    only: some nodes that were [Runnable] are now [Queued].  No workflow is
    added or dropped, no other node and no other field of a node changes,
    and a workflow that is done is left as it is. *)
Theorem Dispatch_queues_runnable_only cfg store wfs pm cpu_q io_q cost next
    flags crit scored st' :
  Scheduler.Dispatch cfg store wfs pm cpu_q io_q cost next flags crit scored
  = Workflow.Ok st' ->
  forall wid,
    match wfs !! wid with
    | Some wf =>
        exists wf', Scheduler.workflows st' !! wid = Some wf' /\
                    queued_only wf wf' /\
                    (Workflow.done_ wf = true -> wf' = wf)
    | None => Scheduler.workflows st' !! wid = None
    end.
Proof.
  unfold Scheduler.Dispatch.
  apply (dispatch_loop_preserves cfg store cost crit
           (fun st =>
              forall wid,
                match wfs !! wid with
                | Some wf =>
                    exists wf', Scheduler.workflows st !! wid = Some wf' /\
                                queued_only wf wf' /\
                                (Workflow.done_ wf = true -> wf' = wf)
                | None => Scheduler.workflows st !! wid = None
                end)).
  - intros sn st st1 HP _ Hn wid.
    destruct (dispatch_node_cases _ _ _ _ _ _ _ Hn)
      as [-> | (wf1 & n & Hwf1 & Hd1 & Hn1 & Hs & -> & _)]; [apply HP|].
    destruct (decide (ScoredNode.workflow_id sn = wid)) as [<-|Hne].
    + specialize (HP (ScoredNode.workflow_id sn)).
      rewrite lookup_insert_eq.
      destruct (wfs !! ScoredNode.workflow_id sn) as [wf|]; [|congruence].
      destruct HP as (wf' & Hwf' & Hq & Hdone).
      rewrite Hwf1 in Hwf'. injection Hwf' as <-.
      eexists. split; [reflexivity|]. split.
      * now apply (queued_only_step wf wf1 _ n).
      * intros Hd. rewrite (Hdone Hd) in Hd1. congruence.
    + rewrite lookup_insert_ne by assumption. apply HP.
  - intros wid. cbn. destruct (wfs !! wid) as [wf|]; [|reflexivity].
    exists wf. split; [reflexivity|]. split; [apply queued_only_refl|auto].
Qed.

Lemma Dispatch_queues_runnable_only_witness :
  match ({[1 := Examples.wf_new]} : gmap Z Workflow.t) !! 1 with
  | Some wf =>
      exists wf',
        Scheduler.workflows (Examples.pass_of Examples.dispatch_root) !! 1
        = Some wf' /\
        queued_only wf wf' /\ (Workflow.done_ wf = true -> wf' = wf)
  | None =>
      Scheduler.workflows (Examples.pass_of Examples.dispatch_root) !! 1
      = None
  end.
Proof.
  apply (Dispatch_queues_runnable_only Examples.with_budget
           Examples.flat_store {[1 := Examples.wf_new]} Examples.idle_tiers
           Examples.idle_queue Examples.idle_queue ∅ 1 ∅ None
           [Examples.root_scored]).
  vm_compute. reflexivity.
Defined.

Lemma dispatch_node_total cfg store cost crit sn st :
  (forall wf, Scheduler.workflows st !! ScoredNode.workflow_id sn = Some wf ->
     is_Some (Workflow.nodes wf !! ScoredNode.node_id sn)) ->
  exists st', Scheduler.dispatch_node cfg store cost crit sn st
              = Workflow.Ok st'.
Proof.
  intros Hk. unfold Scheduler.dispatch_node.
  destruct (Scheduler.workflows st !! ScoredNode.workflow_id sn) as [wf|];
    [|eauto].
  destruct (Workflow.done_ wf); [eauto|].
  destruct (Hk wf eq_refl) as [n Hn]. unfold Workflow.node. rewrite Hn.
  destruct (decide (state n = Runnable)) as [Hs|Hs].
  2:{ rewrite (bool_decide_eq_false_2 _ Hs). cbn. eauto. }
  rewrite (bool_decide_eq_true_2 _ Hs). cbn [negb].
  rewrite (MarkQueued_runnable _ n wf Hn Hs).
  destruct (_ || _); [eauto|].
  destruct (Scheduler.route _ _ _ _ _ _ _) as [[[[[[i x] p] t] tmo] r]|];
    eauto.
Qed.

(** X15. A dispatch pass throws only for a scored node that its workflow
    does not store: when every scored node is a stored node of its
    workflow, as it is for the list that [ScoreAndSort] builds from
    [RunnableNodes], the pass returns. *)
Theorem Dispatch_total cfg store wfs pm cpu_q io_q cost next flags crit
    scored :
  scored_known wfs scored ->
  exists st',
    Scheduler.Dispatch cfg store wfs pm cpu_q io_q cost next flags crit scored
    = Workflow.Ok st'.
Proof.
  unfold Scheduler.Dispatch.
  intros Hknown.
  assert (Hgen : forall scored st,
            scored_known (Scheduler.workflows st) scored ->
            exists st', Scheduler.dispatch_loop cfg store cost crit scored st
                        = Workflow.Ok st').
  { clear. induction scored as [|sn rest IH]; intros st Hk; cbn; [eauto|].
    destruct (_ <=? _); [eauto|].
    destruct (dispatch_node_total cfg store cost crit sn st) as [st1 E1].
    { intros wf Hwf. apply (Hk sn wf); [apply list_elem_of_here | exact Hwf]. }
    rewrite E1. apply IH. intros sn' wf' Hin Hwf'.
    destruct (dispatch_node_cases _ _ _ _ _ _ _ E1)
      as [-> | (wf & n & Hwf & _ & Hn & _ & Hw & _)].
    - apply (Hk sn' wf'); [now apply list_elem_of_further | exact Hwf'].
    - rewrite Hw in Hwf'.
      destruct (decide (ScoredNode.workflow_id sn
                        = ScoredNode.workflow_id sn')) as [Heq|Hne].
      + rewrite <- Heq, lookup_insert_eq in Hwf'.
        apply (inj Some) in Hwf'. subst wf'.
        rewrite lookup_update_node.
        destruct (Hk sn' wf) as [m Hm];
          [now apply list_elem_of_further | now rewrite <- Heq |].
        rewrite Hm. destruct (decide _); cbn; eauto.
      + rewrite lookup_insert_ne in Hwf' by assumption.
        apply (Hk sn' wf'); [now apply list_elem_of_further | exact Hwf']. }
  apply Hgen. exact Hknown.
Qed.

Lemma Dispatch_total_witness :
  exists st',
    Scheduler.Dispatch Examples.with_budget Examples.flat_store
      {[1 := Examples.wf_new]} Examples.idle_tiers
      Examples.idle_queue Examples.idle_queue ∅ 1 ∅ None
      [Examples.root_scored]
    = Workflow.Ok st'.
Proof.
  apply Dispatch_total. intros sn wf Hin Hwf.
  apply list_elem_of_singleton in Hin as ->.
  apply lookup_singleton_Some in Hwf as [_ <-].
  vm_compute. eauto.
Defined.

(** The nodes of a workflow that are [Queued] or [Running]. *)
Lemma in_flight_fold_acc (m : gmap Z Node) (acc : Z) :
  map_fold (fun (_ : Z) (n : Node) (a : Z) =>
              if bool_decide (state n = Queued)
                 || bool_decide (state n = Running)
              then a + 1 else a) acc m
  = acc
    + map_fold (fun (_ : Z) (n : Node) (a : Z) =>
                  if bool_decide (state n = Queued)
                     || bool_decide (state n = Running)
                  then a + 1 else a) 0 m.
Proof.
  replace acc with (acc + 0) at 1 by lia.
  apply (map_fold_comm_acc _ (Z.add acc)).
  intros j z y. destruct (_ || _); lia.
Qed.

Lemma in_flight_fold_queued (m : gmap Z Node) (nid : Z) (n : Node) :
  m !! nid = Some n -> state n = Runnable ->
  map_fold (fun (_ : Z) (n : Node) (a : Z) =>
              if bool_decide (state n = Queued)
                 || bool_decide (state n = Running)
              then a + 1 else a) 0 (alter (set_state Queued) nid m)
  = map_fold (fun (_ : Z) (n : Node) (a : Z) =>
                if bool_decide (state n = Queued)
                   || bool_decide (state n = Running)
                then a + 1 else a) 0 m + 1.
Proof.
  intros Hn Hs.
  assert (Hcomm : forall (m' : gmap Z Node) (j1 j2 : Z) (z1 z2 : Node)
                    (y : Z), j1 <> j2 ->
            m' !! j1 = Some z1 -> m' !! j2 = Some z2 ->
            (if bool_decide (state z1 = Queued)
                || bool_decide (state z1 = Running)
             then (if bool_decide (state z2 = Queued)
                      || bool_decide (state z2 = Running)
                   then y + 1 else y) + 1
             else (if bool_decide (state z2 = Queued)
                      || bool_decide (state z2 = Running)
                   then y + 1 else y))
            = (if bool_decide (state z2 = Queued)
                  || bool_decide (state z2 = Running)
               then (if bool_decide (state z1 = Queued)
                        || bool_decide (state z1 = Running)
                     then y + 1 else y) + 1
               else (if bool_decide (state z1 = Queued)
                        || bool_decide (state z1 = Running)
                     then y + 1 else y))).
  { intros m' j1 j2 z1 z2 y _ _ _.
    destruct (_ || _); destruct (_ || _); reflexivity. }
  rewrite (map_fold_delete_L _ 0 nid n m (Hcomm m) Hn).
  rewrite (alter_alt_Some _ m nid n Hn), <- insert_delete_eq.
  rewrite map_fold_insert_L; [|apply Hcomm | apply lookup_delete_eq].
  rewrite Hs. cbn. reflexivity.
Qed.

Lemma count_in_flight_queued (wfs : gmap Z Workflow.t) (wid nid : Z)
    (wf : Workflow.t) (n : Node) :
  wfs !! wid = Some wf -> Workflow.done_ wf = false ->
  Workflow.nodes wf !! nid = Some n -> state n = Runnable ->
  Scheduler.count_in_flight
    (<[wid := (Workflow.update_node nid (set_state Queued) wf).1]> wfs)
  = Scheduler.count_in_flight wfs + 1.
Proof.
  intros Hwf Hd Hn Hs. unfold Scheduler.count_in_flight.
  set (f := fun (_ : Z) (wf : Workflow.t) (acc : Z) =>
              if Workflow.done_ wf then acc
              else map_fold _ acc (Workflow.nodes wf)).
  assert (Hadd : forall j z y, f j z y = y + f j z 0).
  { intros j z y. unfold f. destruct (Workflow.done_ z); [lia|].
    apply in_flight_fold_acc. }
  assert (Hcomm : forall (m' : gmap Z Workflow.t) (j1 j2 : Z)
                    (z1 z2 : Workflow.t) (y : Z), j1 <> j2 ->
            m' !! j1 = Some z1 -> m' !! j2 = Some z2 ->
            f j1 z1 (f j2 z2 y) = f j2 z2 (f j1 z1 y)).
  { intros m' j1 j2 z1 z2 y _ _ _.
    rewrite (Hadd j1 z1 (f j2 z2 y)), (Hadd j2 z2 y),
      (Hadd j2 z2 (f j1 z1 y)), (Hadd j1 z1 y). lia. }
  rewrite (map_fold_delete_L f 0 wid wf wfs (Hcomm wfs) Hwf).
  rewrite <- insert_delete_eq.
  rewrite map_fold_insert_L; [|apply Hcomm | apply lookup_delete_eq].
  rewrite (Hadd wid wf), (Hadd wid _ (map_fold f 0 (delete wid wfs))).
  cbn [Workflow.update_node Workflow.modify fst].
  generalize (map_fold f 0 (delete wid wfs)). intros rest.
  unfold f. cbn [Workflow.done_ Workflow.set_nodes Workflow.nodes].
  rewrite Hd. rewrite (in_flight_fold_queued _ nid n Hn Hs). lia.
Qed.

(** X16. The counter of a dispatch pass is exact: when the pass returns,
    it equals the number of [Queued] and [Running] nodes of the workflows
    that are not done, as the pass leaves them. *)
Theorem Dispatch_counter_exact cfg store wfs pm cpu_q io_q cost next flags
    crit scored st' :
  Scheduler.Dispatch cfg store wfs pm cpu_q io_q cost next flags crit scored
  = Workflow.Ok st' ->
  Scheduler.in_flight st'
  = Scheduler.count_in_flight (Scheduler.workflows st').
Proof.
  unfold Scheduler.Dispatch.
  apply (dispatch_loop_preserves cfg store cost crit
           (fun st => Scheduler.in_flight st
                      = Scheduler.count_in_flight (Scheduler.workflows st))).
  - intros sn st st1 HP _ Hn.
    destruct (dispatch_node_cases _ _ _ _ _ _ _ Hn)
      as [-> | (wf & n & Hwf & Hd & Hnode & Hs & -> & -> & _)]; [exact HP|].
    rewrite (count_in_flight_queued _ _ _ wf n Hwf Hd Hnode Hs). lia.
  - reflexivity.
Qed.

Lemma Dispatch_counter_exact_witness :
  Scheduler.in_flight (Examples.pass_of Examples.dispatch_root)
  = Scheduler.count_in_flight
      (Scheduler.workflows (Examples.pass_of Examples.dispatch_root)).
Proof.
  apply (Dispatch_counter_exact Examples.with_budget Examples.flat_store
           {[1 := Examples.wf_new]} Examples.idle_tiers
           Examples.idle_queue Examples.idle_queue ∅ 1 ∅ None
           [Examples.root_scored]).
  vm_compute. reflexivity.
Defined.

Lemma land_high_low (a b : Z) :
  0 <= a -> 0 <= b < 2 ^ 32 -> Z.land (a * 2 ^ 32) b = 0.
Proof.
  intros Ha Hb. apply Z.bits_inj'. intros n Hn.
  rewrite Z.land_spec, Z.bits_0.
  destruct (Z.lt_ge_cases n 32) as [Hlt|Hge].
  - rewrite Z.mul_pow2_bits_low by lia. reflexivity.
  - destruct (Z.eq_dec b 0) as [->|Hb0].
    + rewrite Z.bits_0. apply andb_false_r.
    + rewrite (Z.bits_above_log2 b n); [apply andb_false_r | lia |].
      apply Z.log2_lt_pow2; [lia|].
      apply Z.lt_le_trans with (2 ^ 32); [lia|].
      apply Z.pow_le_mono_r; lia.
Qed.

Lemma flag_key_sum (wid nid : Z) :
  0 <= wid < 2 ^ 32 -> 0 <= nid < 2 ^ 32 ->
  Scheduler.flag_key wid nid = wid * 2 ^ 32 + nid.
Proof.
  intros Hw Hn. unfold Scheduler.flag_key, u64.
  rewrite Z.shiftl_mul_pow2 by lia. rewrite Z.mod_small by lia.
  rewrite <- Z.lxor_lor by (apply land_high_low; lia).
  symmetry. apply Z.add_nocarry_lxor. apply land_high_low; lia.
Qed.

(** X17. The key of a cancellation flag, [(wf_id << 32) | node_id],
    identifies the node as long as node ids stay below 2^32: two pairs of a
    workflow id and such a node id that have the same key are the same
    pair. *)
Theorem flag_key_injective (wid nid wid' nid' : Z) :
  0 <= wid < 2 ^ 32 -> 0 <= nid < 2 ^ 32 ->
  0 <= wid' < 2 ^ 32 -> 0 <= nid' < 2 ^ 32 ->
  Scheduler.flag_key wid nid = Scheduler.flag_key wid' nid' ->
  wid = wid' /\ nid = nid'.
Proof.
  intros Hw Hn Hw' Hn'. rewrite !flag_key_sum by assumption. lia.
Qed.

Lemma flag_key_injective_witness : 1 = 1 /\ 13 = 13.
Proof.
  apply (flag_key_injective 1 13 1 13); first [lia | reflexivity].
Defined.

Lemma tier_index_last (p : string) (t : Z) (ts : list Tier.t) (i j : nat) :
  ProviderManager.tier_index p t ts i = Some j ->
  forall k y, (j - i < k)%nat -> ts !! k = Some y ->
    ~ (Tier.provider y = p /\ Tier.tier_id y = t).
Proof.
  revert i. induction ts as [|x rest IH]; intros i; cbn; [discriminate|].
  destruct (ProviderManager.tier_index p t rest (S i)) as [j'|] eqn:E.
  - intros [= ->] k y Hk Hy.
    destruct (tier_index_spec p t rest (S i) j E) as (Hle & _).
    destruct k as [|k]; [lia|]. cbn in Hy.
    apply (IH (S i) E k y); [lia | exact Hy].
  - destruct (bool_decide (Tier.provider x = p)
              && bool_decide (Tier.tier_id x = t)); [|discriminate].
    intros [= <-] k y Hk Hy. destruct k as [|k]; [lia|]. cbn in Hy.
    apply (proj1 (tier_index_none p t rest (S i)) E y).
    eapply list_elem_of_lookup_2. exact Hy.
Qed.

(** X18. [GetTier] returns the tier that the manager holds for the given
    provider and tier id, the last one when several tiers share them, and
    a null pointer exactly when the manager holds no such tier. *)
Theorem GetTier_finds_last (pm : ProviderManager.t) (p : string) (t : Z) :
  match ProviderManager.GetTier pm p t with
  | Some (i, x) =>
      ProviderManager.tiers pm !! i = Some x /\
      Tier.provider x = p /\ Tier.tier_id x = t /\
      forall j y, (i < j)%nat -> ProviderManager.tiers pm !! j = Some y ->
        ~ (Tier.provider y = p /\ Tier.tier_id y = t)
  | None =>
      forall y, y ∈ ProviderManager.tiers pm ->
        ~ (Tier.provider y = p /\ Tier.tier_id y = t)
  end.
Proof.
  destruct (ProviderManager.GetTier pm p t) as [[i x]|] eqn:E.
  - destruct (GetTier_spec pm p t i x E) as (Hl & Hp & Ht).
    split; [exact Hl|]. split; [exact Hp|]. split; [exact Ht|].
    unfold ProviderManager.GetTier in E.
    destruct (ProviderManager.tier_index p t (ProviderManager.tiers pm) 0)
      as [j|] eqn:Ej; [|discriminate].
    destruct (ProviderManager.tiers pm !! j) as [z|]; [|discriminate].
    injection E as -> ->. intros k y Hk.
    apply (tier_index_last p t _ 0 i Ej). lia.
  - unfold ProviderManager.GetTier in E.
    destruct (ProviderManager.tier_index p t (ProviderManager.tiers pm) 0)
      as [j|] eqn:Ej.
    + destruct (tier_index_spec p t _ 0 j Ej) as (_ & y & Hy & _).
      rewrite Nat.sub_0_r in Hy. rewrite Hy in E. discriminate.
    + now apply (tier_index_none p t _ 0).
Qed.

(** ** The token bucket *)

Lemma Qmin_d_le_l (a b : Q) : (Workflow.Qmin_d a b <= a)%Q.
Proof.
  unfold Workflow.Qmin_d. destruct (Qlt_bool b a) eqn:E.
  - apply Qlt_bool_iff in E. lra.
  - lra.
Qed.

Lemma Qmin_d_glb (a b c : Q) :
  (c <= a)%Q -> (c <= b)%Q -> (c <= Workflow.Qmin_d a b)%Q.
Proof. intros Ha Hb. unfold Workflow.Qmin_d. now destruct (Qlt_bool b a). Qed.

Lemma Qlt_bool_false (a b : Q) : Qlt_bool a b = false <-> (b <= a)%Q.
Proof.
  unfold Qlt_bool. rewrite negb_false_iff. apply Qle_bool_iff.
Qed.

Section Bucket.

Variable fl : Q -> Q.
Hypothesis fl_mono : forall x y : Q, (x <= y)%Q -> (fl x <= fl y)%Q.
Hypothesis fl_zero : (fl 0 == 0)%Q.

Lemma fl_nonneg (x : Q) : (0 <= x)%Q -> (0 <= fl x)%Q.
Proof. intros H. rewrite <- fl_zero. now apply fl_mono. Qed.

Lemma Refill_bounds (now : Q) (b : TokenBucket.t) :
  (0 <= TokenBucket.rate_per_sec_ b)%Q ->
  (0 <= TokenBucket.tokens_ b <= TokenBucket.capacity_ b)%Q ->
  (TokenBucket.last_refill_ b <= now)%Q ->
  (0 <= TokenBucket.tokens_ (TokenBucket.Refill fl now b)
   <= TokenBucket.capacity_ b)%Q.
Proof.
  intros Hr [H0 Hc] Hnow. cbn. split; [|apply Qmin_d_le_l].
  apply Qmin_d_glb; [lra|]. apply fl_nonneg.
  assert (He : (0 <= fl (now - TokenBucket.last_refill_ b))%Q)
    by (apply fl_nonneg; lra).
  assert (Hp : (0 <= fl (fl (now - TokenBucket.last_refill_ b)
                         * TokenBucket.rate_per_sec_ b))%Q)
    by (apply fl_nonneg; now apply Qmult_le_0_compat).
  lra.
Qed.

Lemma acquire_loop_bounds (tokens : Q) (clock : list Q)
    (b b' : TokenBucket.t) :
  (0 <= TokenBucket.rate_per_sec_ b)%Q ->
  (0 <= TokenBucket.tokens_ b <= TokenBucket.capacity_ b)%Q ->
  Sorted Qle (TokenBucket.last_refill_ b :: clock) ->
  TokenBucket.acquire_loop fl tokens clock b = Some b' ->
  TokenBucket.rate_per_sec_ b' = TokenBucket.rate_per_sec_ b /\
  TokenBucket.capacity_ b' = TokenBucket.capacity_ b /\
  (0 <= TokenBucket.tokens_ b' <= TokenBucket.capacity_ b)%Q /\
  (tokens <= TokenBucket.tokens_ b')%Q.
Proof.
  revert b. induction clock as [|now rest IH]; intros b Hr Hb Hs; cbn.
  - destruct (Qlt_bool (TokenBucket.tokens_ b) tokens) eqn:E; [discriminate|].
    intros [= <-]. apply Qlt_bool_false in E. auto.
  - destruct (Qlt_bool (TokenBucket.tokens_ b) tokens) eqn:E.
    + intros H. apply Sorted_inv in Hs as [Hs Hhd].
      apply HdRel_inv in Hhd.
      destruct (IH (TokenBucket.Refill fl now b) Hr
                  (Refill_bounds now b Hr Hb Hhd) Hs H)
        as (H1 & H2 & H3 & H4).
      auto.
    + intros [= <-]. apply Qlt_bool_false in E. auto.
Qed.

End Bucket.

Lemma acquire_loop_oversized (fl : Q -> Q) (tokens : Q) (clock : list Q)
    (b : TokenBucket.t) :
  (TokenBucket.tokens_ b <= TokenBucket.capacity_ b)%Q ->
  (TokenBucket.capacity_ b < tokens)%Q ->
  TokenBucket.acquire_loop fl tokens clock b = None.
Proof.
  revert b. induction clock as [|now rest IH]; intros b Hb Ht; cbn.
  - rewrite (proj2 (Qlt_bool_iff _ _)) by lra. reflexivity.
  - rewrite (proj2 (Qlt_bool_iff _ _)) by lra.
    apply IH; [apply Qmin_d_le_l | exact Ht].
Qed.

(** X19. With a rounding that is monotone and keeps 0, the capacity
    being a double, the bucket keeps [0 <= tokens_ <= capacity_]: from a
    bucket within these bounds, an [Acquire] that returns, whatever the
    non-decreasing readings of the clock, leaves a bucket within them, with
    the same rate and the same capacity. *)
Theorem TokenBucket_bounds (fl : Q -> Q) (tokens : Q) (clock : list Q)
    (b b' : TokenBucket.t) :
  (forall x y : Q, (x <= y)%Q -> (fl x <= fl y)%Q) ->
  (fl 0 == 0)%Q ->
  (fl (TokenBucket.capacity_ b) == TokenBucket.capacity_ b)%Q ->
  (0 <= TokenBucket.rate_per_sec_ b)%Q ->
  (0 <= TokenBucket.tokens_ b <= TokenBucket.capacity_ b)%Q ->
  Sorted Qle (TokenBucket.last_refill_ b :: clock) ->
  TokenBucket.Acquire fl tokens clock b = Some b' ->
  TokenBucket.rate_per_sec_ b' = TokenBucket.rate_per_sec_ b /\
  TokenBucket.capacity_ b' = TokenBucket.capacity_ b /\
  (0 <= TokenBucket.tokens_ b' <= TokenBucket.capacity_ b')%Q.
Proof.
  intros Hmono Hzero Hcap Hr Hb Hs. unfold TokenBucket.Acquire.
  destruct (Qle_bool tokens 0) eqn:E0; [intros [= <-]; auto|].
  destruct (TokenBucket.acquire_loop fl tokens clock b) as [b1|] eqn:E;
    [|discriminate].
  intros [= <-]. cbn.
  destruct (acquire_loop_bounds fl Hmono Hzero tokens clock b b1 Hr Hb Hs E)
    as (H1 & H2 & [H3 H4] & H5).
  assert (Ht : (0 < tokens)%Q).
  { apply Qnot_le_lt. intros Hle. apply Qle_bool_iff in Hle. congruence. }
  split; [exact H1|]. split; [exact H2|]. rewrite H2. split.
  - apply (fl_nonneg fl Hmono Hzero). lra.
  - rewrite <- Hcap. apply Hmono. lra.
Qed.

Lemma TokenBucket_bounds_witness :
  TokenBucket.rate_per_sec_
    (TokenBucket.mk 5 20 19 0) = TokenBucket.rate_per_sec_ Examples.llm_bucket
  /\
  TokenBucket.capacity_ (TokenBucket.mk 5 20 19 0)
  = TokenBucket.capacity_ Examples.llm_bucket /\
  (0 <= TokenBucket.tokens_ (TokenBucket.mk 5 20 19 0)
   <= TokenBucket.capacity_ (TokenBucket.mk 5 20 19 0))%Q.
Proof.
  apply (TokenBucket_bounds Examples.exact 1 [1%Q] Examples.llm_bucket).
  - intros x y H. exact H.
  - reflexivity.
  - reflexivity.
  - vm_compute. discriminate.
  - split; vm_compute; discriminate.
  - repeat constructor; vm_compute; discriminate.
  - vm_compute. reflexivity.
Defined.

(** X20. A request for more tokens than the capacity of the bucket is
    never served: whatever the rounding and however far the clock advances,
    [Acquire] does not return. *)
Theorem TokenBucket_oversized_blocks (fl : Q -> Q) (tokens : Q)
    (clock : list Q) (b : TokenBucket.t) :
  (0 <= TokenBucket.capacity_ b)%Q ->
  (TokenBucket.tokens_ b <= TokenBucket.capacity_ b)%Q ->
  (TokenBucket.capacity_ b < tokens)%Q ->
  TokenBucket.Acquire fl tokens clock b = None.
Proof.
  intros H0 Hb Ht. unfold TokenBucket.Acquire.
  destruct (Qle_bool tokens 0) eqn:E0.
  - apply Qle_bool_iff in E0. lra.
  - now rewrite acquire_loop_oversized.
Qed.

Lemma TokenBucket_oversized_blocks_witness :
  TokenBucket.Acquire Examples.exact 21 [1%Q; 100%Q; 10000%Q]
    Examples.llm_bucket = None.
Proof.
  apply TokenBucket_oversized_blocks; vm_compute; first [discriminate
                                                        | reflexivity].
Defined.

Lemma ctor_loop (now : Q) (l : list TierConfig.t) (pre : list Tier.t) :
  foldl (fun acc tc =>
           match acc with
           | Workflow.Throw msg => Workflow.Throw msg
           | Workflow.Ok pm =>
               match TokenBucket.make (TierConfig.rate_per_sec tc)
                       (TierConfig.capacity tc) now with
               | Workflow.Throw msg => Workflow.Throw msg
               | Workflow.Ok _ =>
                   Workflow.Ok
                     (ProviderManager.mk
                        (ProviderManager.tiers pm ++ [Tier.make tc]))
               end
           end)
        (Workflow.Ok (ProviderManager.mk pre)) l
  = if forallb (fun tc =>
                  Qlt_bool 0 (TierConfig.rate_per_sec tc)
                  && Qlt_bool 0 (TierConfig.capacity tc)) l
    then Workflow.Ok (ProviderManager.mk (pre ++ (Tier.make <$> l)))
    else Workflow.Throw "TokenBucket: rate and capacity must be positive".
Proof.
  assert (Hthrow : forall (l : list TierConfig.t) msg,
            foldl (fun acc tc =>
                     match acc with
                     | Workflow.Throw msg => Workflow.Throw msg
                     | Workflow.Ok pm =>
                         match TokenBucket.make (TierConfig.rate_per_sec tc)
                                 (TierConfig.capacity tc) now with
                         | Workflow.Throw msg => Workflow.Throw msg
                         | Workflow.Ok _ =>
                             Workflow.Ok
                               (ProviderManager.mk
                                  (ProviderManager.tiers pm
                                   ++ [Tier.make tc]))
                         end
                     end) (Workflow.Throw msg) l
            = Workflow.Throw msg).
  { induction l0 as [|tc l0 IH0]; intros msg; [reflexivity|]. apply IH0. }
  revert pre. induction l as [|tc l IH]; intros pre; cbn [foldl forallb].
  - cbn. now rewrite app_nil_r.
  - cbn [ProviderManager.tiers].
    destruct (TokenBucket.make (TierConfig.rate_per_sec tc)
                (TierConfig.capacity tc) now) as [bk|msg] eqn:Em;
      unfold TokenBucket.make, Qlt_bool in *;
      destruct (Qle_bool (TierConfig.rate_per_sec tc) 0);
      destruct (Qle_bool (TierConfig.capacity tc) 0);
      cbn in Em; try discriminate; cbn [negb andb].
    + rewrite IH. cbn [fmap list_fmap]. now rewrite <- app_assoc.
    + injection Em as <-. apply Hthrow.
    + injection Em as <-. apply Hthrow.
    + injection Em as <-. apply Hthrow.
Qed.

(** X21. The constructor of the provider manager throws exactly when
    some tier of the configuration has a rate or a capacity that is not
    positive; otherwise it builds the tiers of the configuration, in order,
    each with an empty queue and nothing in flight. *)
Theorem ProviderManager_ctor_outcome (c : ProviderConfig.t) (now : Q) :
  (Forall (fun tc => (0 < TierConfig.rate_per_sec tc)%Q /\
                     (0 < TierConfig.capacity tc)%Q)
          (ProviderConfig.tiers c) ->
   ProviderManager_ctor c now = Workflow.Ok (ProviderManager.make c)) /\
  (~ Forall (fun tc => (0 < TierConfig.rate_per_sec tc)%Q /\
                       (0 < TierConfig.capacity tc)%Q)
            (ProviderConfig.tiers c) ->
   ProviderManager_ctor c now
   = Workflow.Throw "TokenBucket: rate and capacity must be positive").
Proof.
  unfold ProviderManager_ctor. rewrite ctor_loop. cbn [app].
  assert (Hiff : forallb (fun tc =>
                            Qlt_bool 0 (TierConfig.rate_per_sec tc)
                            && Qlt_bool 0 (TierConfig.capacity tc))
                         (ProviderConfig.tiers c) = true
                 <-> Forall (fun tc => (0 < TierConfig.rate_per_sec tc)%Q /\
                                       (0 < TierConfig.capacity tc)%Q)
                            (ProviderConfig.tiers c)).
  { rewrite forallb_forall, Forall_forall. split; intros H tc Htc.
    - apply list_elem_of_In in Htc. specialize (H tc Htc).
      apply andb_true_iff in H as [H1 H2].
      split; now apply Qlt_bool_iff.
    - apply list_elem_of_In in Htc. destruct (H tc Htc) as [H1 H2].
      apply andb_true_iff. split; now apply Qlt_bool_iff. }
  destruct (forallb _ _).
  - split; [reflexivity|]. intros Hn. exfalso. apply Hn, Hiff. reflexivity.
  - split; [|reflexivity]. intros Hf. apply Hiff in Hf. discriminate.
Qed.

(** ** The uniform draw and the two service-time samplers *)

Lemma u64_range (x : Z) : 0 <= u64 x < 2 ^ 64.
Proof. unfold u64. apply Z.mod_pos_bound. lia. Qed.

(** X22. [Uniform01] returns a value in [[0, 1)], whatever the state of
    the generator. *)
Theorem Uniform01_range (r : SeededRng.t) :
  (0 <= (SeededRng.Uniform01 r).1)%Q /\ ((SeededRng.Uniform01 r).1 < 1)%Q.
Proof.
  unfold SeededRng.Uniform01, SeededRng.U64. cbn [fst].
  set (w := u64 _). pose proof (u64_range (SeededRng.Rotl
    (u64 (SeededRng.s0 r + SeededRng.s3 r)) 23 + SeededRng.s0 r)) as Hw.
  fold w in Hw. unfold Qle, Qlt. cbn [Qnum Qden].
  rewrite Z.shiftr_div_pow2 by lia.
  assert (H0 : 0 <= w / 2 ^ 11) by (apply Z.div_pos; lia).
  assert (H1 : w / 2 ^ 11 < 2 ^ 53)
    by (apply Z.div_lt_upper_bound; lia).
  split; lia.
Qed.

(** X23. On the node types that run locally (resource class cpu or io)
    the sampler of the local workers and the sampler of the provider
    workers are the same function of the parameters, the context and the
    random stream, unless [tail_prob] is 0 while [tail_multiplier] is not
    1. *)
Theorem local_sampler_agrees
    (RngLognormal RngGamma : Q -> Q -> SeededRng.t -> Q * SeededRng.t)
    (ty : NodeType) (ctx : LatencyContext.t) (config : LatencyConfig.t)
    (r : SeededRng.t) :
  LatencyContext.node_type ctx = ty ->
  ResourceForType ty = cpu \/ ResourceForType ty = io ->
  ~ ((LatencyParams.tail_prob (LatencyConfig.Get config ty) == 0)%Q /\
     ~ (LatencyParams.tail_multiplier (LatencyConfig.Get config ty) == 1)%Q)
  ->
  Worker.SampleLocalServiceTime RngLognormal RngGamma ty ctx config r
  = LatencySampler.SampleServiceTime RngLognormal RngGamma
      (LatencyConfig.Get config ty) ctx r.
Proof.
  intros Hty Hrc Htail.
  unfold Worker.SampleLocalServiceTime, LatencySampler.SampleServiceTime,
    LatencySampler.raw_service_time, LatencySampler.tail_step.
  rewrite Hty. set (params := LatencyConfig.Get config ty) in *.
  assert (Hllm : bool_decide (ty = Plan) || bool_decide (ty = ExtractEvidence)
                 || bool_decide (ty = DecideNext) = false).
  { destruct ty; try reflexivity; destruct Hrc; discriminate. }
  rewrite Hllm.
  assert (Hbug : Qeq_bool (LatencyParams.tail_prob params) 0
                 && negb (Qeq_bool (LatencyParams.tail_multiplier params) 1)
                 = false).
  { destruct (Qeq_bool (LatencyParams.tail_prob params) 0) eqn:E1;
      [|reflexivity].
    destruct (Qeq_bool (LatencyParams.tail_multiplier params) 1) eqn:E2;
      [reflexivity|].
    exfalso. apply Htail. split; [now apply Qeq_bool_iff|].
    intros H. apply Qeq_bool_iff in H. congruence. }
  rewrite Hbug.
  set (raw := match LatencyParams.dist params with
              | Lognormal => _ | Gamma => _ | Linear => _ end).
  destruct raw as [x r1].
  destruct (Qlt_bool 0 (LatencyParams.tail_prob params)).
  - destruct (SeededRng.Bernoulli (LatencyParams.tail_prob params) r1)
      as [[|] r2]; reflexivity.
  - reflexivity.
Qed.

Lemma local_sampler_agrees_witness :
  Worker.SampleLocalServiceTime Examples.unused_sampler
    Examples.unused_sampler SimilaritySearch Examples.ss_ctx
    Examples.plain_config (SeededRng.init 1)
  = LatencySampler.SampleServiceTime Examples.unused_sampler
      Examples.unused_sampler
      (LatencyConfig.Get Examples.plain_config SimilaritySearch)
      Examples.ss_ctx (SeededRng.init 1).
Proof.
  apply local_sampler_agrees.
  - reflexivity.
  - left. reflexivity.
  - intros [_ H]. apply H. reflexivity.
Defined.

(** ** The queues of the workers *)

Lemma LocalQueue_run_conserves {A} (os : list (LocalQueue.op A))
    (q : LocalQueue.t A) :
  (LocalQueue.run os q).2 ++ LocalQueue.queue_ (LocalQueue.run os q).1
  = LocalQueue.queue_ q
    ++ (if LocalQueue.shutdown_ q then [] else LocalQueue.accepted os).
Proof.
  revert q. induction os as [|o os IH]; intros q.
  - cbn. now destruct (LocalQueue.shutdown_ q); rewrite ?app_nil_r.
  - cbn [LocalQueue.run].
    destruct (LocalQueue.step o q) as [q1 r] eqn:Es.
    specialize (IH q1).
    destruct (LocalQueue.run os q1) as [q2 out]. cbn [fst snd] in *.
    destruct q as [items down].
    destruct o as [x| | | |]; cbn in Es.
    + unfold LocalQueue.Push in Es. cbn in Es.
      destruct down; injection Es as <- <-; cbn in *; rewrite IH;
        [reflexivity | now rewrite <- app_assoc].
    + unfold LocalQueue.TryPop in Es. cbn in Es.
      destruct items as [|y rest]; [|destruct down];
        injection Es as <- <-; cbn in *; rewrite ?IH; reflexivity.
    + unfold LocalQueue.BlockingPop in Es. cbn in Es.
      destruct items as [|y rest]; [destruct down|];
        injection Es as <- <-; cbn in *; rewrite ?IH; reflexivity.
    + unfold LocalQueue.TimedPop in Es. cbn in Es.
      destruct items as [|y rest];
        injection Es as <- <-; cbn in *; rewrite ?IH; reflexivity.
    + injection Es as <- <-. cbn in *. rewrite IH.
      now destruct down; rewrite ?app_nil_r.
Qed.

(** X24. The queues of the workers are FIFO and lose nothing they
    accepted: after any sequence of [Push], [TryPop], [BlockingPop],
    [TimedPop] and [Shutdown] calls on a new queue, the items handed out,
    followed by the items still queued, are the items pushed before the
    first [Shutdown], in the order of the pushes; an item pushed after
    [Shutdown] is dropped. *)
Theorem LocalQueue_fifo {A} (os : list (LocalQueue.op A)) :
  (LocalQueue.run os (LocalQueue.mk [] false)).2
  ++ LocalQueue.queue_ (LocalQueue.run os (LocalQueue.mk [] false)).1
  = LocalQueue.accepted os.
Proof. now rewrite LocalQueue_run_conserves. Qed.

(** ** The rolling quantile estimator *)

#[local] Instance Qle_transitive : Transitive Qle := Qle_trans.

#[local] Instance Qle_total : Total Qle.
Proof.
  intros x y. destruct (Qlt_le_dec y x) as [H|H]; [right | left]; lra.
Qed.

Lemma tail_drop {A} (k : nat) (l : list A) : tail (drop k l) = drop (S k) l.
Proof.
  revert l. induction k as [|k IH]; intros [|x l]; cbn; try reflexivity.
  apply IH.
Qed.

Lemma Add_all_window (m : nat) (vs : list Q) :
  foldl (fun e v => QuantileEstimator.Add v e) (QuantileEstimator.make m) vs
  = QuantileEstimator.mk (drop (length vs - m) vs) m.
Proof.
  induction vs as [|v vs IH] using rev_ind; [reflexivity|].
  rewrite foldl_app. cbn [foldl]. rewrite IH.
  unfold QuantileEstimator.Add. cbn [QuantileEstimator.samples_
                                      QuantileEstimator.max_samples_].
  f_equal. rewrite !length_app, length_drop. cbn [length].
  destruct (Nat.ltb_spec m (length vs - (length vs - m) + 1)) as [Hlt|Hge].
  - assert (Hm : (m <= length vs)%nat) by lia.
    replace (length vs + 1 - m)%nat with (S (length vs - m)) by lia.
    destruct (decide (m = 0%nat)) as [->|Hm0].
    + rewrite Nat.sub_0_r, drop_all. cbn.
      rewrite drop_ge by (rewrite length_app; cbn; lia). reflexivity.
    + rewrite (drop_app_le vs [v]) by lia.
      rewrite <- tail_drop.
      destruct (drop (length vs - m) vs) as [|x l] eqn:E; [|reflexivity].
      apply (f_equal length) in E. rewrite length_drop in E. cbn in E. lia.
  - replace (length vs - m)%nat with 0%nat by lia.
    replace (length vs + 1 - m)%nat with 0%nat by lia. reflexivity.
Qed.

(** X25. The estimator is a sliding window: after any sequence of [Add]
    calls on a new estimator it holds the last [max_samples] values added,
    or all of them when fewer were added, in the order in which they were
    added. *)
Theorem Add_keeps_last (m : nat) (vs : list Q) :
  QuantileEstimator.samples_
    (foldl (fun e v => QuantileEstimator.Add v e)
           (QuantileEstimator.make m) vs)
  = drop (length vs - m) vs /\
  (length (QuantileEstimator.samples_
             (foldl (fun e v => QuantileEstimator.Add v e)
                    (QuantileEstimator.make m) vs))
   = Nat.min (length vs) m)%nat.
Proof.
  rewrite Add_all_window. cbn. split; [reflexivity|].
  rewrite length_drop. lia.
Qed.

(** X26. [P50] is 100 as long as no sample was added; otherwise it is
    the upper median of the samples: the samples can be split into
    [size / 2] samples that are at most [P50], [P50] itself, and samples
    that are at least [P50]. *)
Theorem P50_upper_median (e : QuantileEstimator.t) :
  (QuantileEstimator.samples_ e = [] -> QuantileEstimator.P50 e = 100%Q) /\
  (QuantileEstimator.samples_ e <> [] ->
   exists below above,
     below ++ QuantileEstimator.P50 e :: above
     ≡ₚ QuantileEstimator.samples_ e /\
     length below = (length (QuantileEstimator.samples_ e) / 2)%nat /\
     Forall (fun x => (x <= QuantileEstimator.P50 e)%Q) below /\
     Forall (fun x => (QuantileEstimator.P50 e <= x)%Q) above).
Proof.
  split.
  - unfold QuantileEstimator.P50. now intros ->.
  - intros Hne. unfold QuantileEstimator.P50.
    destruct (QuantileEstimator.samples_ e) as [|v vs] eqn:Es;
      [contradiction|]. rewrite <- Es. clear Hne. cbv zeta.
    unfold QuantileEstimator.sorted.
    set (s := merge_sort Qle (QuantileEstimator.samples_ e)).
    assert (Hperm : s ≡ₚ QuantileEstimator.samples_ e)
      by apply merge_sort_Permutation.
    assert (Hsorted : StronglySorted Qle s)
      by (apply StronglySorted_merge_sort; apply _).
    assert (Hlen : length s = length (QuantileEstimator.samples_ e))
      by now rewrite Hperm.
    assert (Hpos : (0 < length s)%nat) by (rewrite Hlen, Es; cbn; lia).
    assert (Hidx : Nat.min (length s / 2) (length s - 1)
                   = (length s / 2)%nat).
    { apply Nat.min_l.
      pose proof (Nat.div_lt (length s) 2 Hpos ltac:(lia)). lia. }
    rewrite Hidx.
    destruct (lookup_lt_is_Some_2 s (length s / 2)) as [x Hx].
    { apply Nat.div_lt; lia. }
    rewrite (nth_lookup_Some _ _ _ _ Hx).
    exists (take (length s / 2) s), (drop (S (length s / 2)) s).
    rewrite (take_drop_middle _ _ _ Hx).
    split; [exact Hperm|].
    split.
    { rewrite length_take, <- Hlen.
      pose proof (Nat.div_lt (length s) 2 Hpos ltac:(lia)). lia. }
    rewrite <- (take_drop_middle _ _ _ Hx) in Hsorted.
    apply StronglySorted_app in Hsorted as (Hcross & _ & Hright).
    split.
    + apply Forall_forall. intros y Hy. apply (Hcross y x Hy).
      apply list_elem_of_here.
    + now apply StronglySorted_inv in Hright as [_ ?].
Qed.

(** ** The command line and the creation of the workflows *)

(** X27. [ParsePolicy] and [ToString] are inverse to each other: the
    name of a policy parses to that policy, and a string that parses to a
    policy is the name of that policy. *)
Theorem ParsePolicy_ToString_inverse :
  (forall p, Cli.ParsePolicy (Cli.ToString p) = Some p) /\
  (forall s p, Cli.ParsePolicy s = Some p -> s = Cli.ToString p).
Proof.
  split.
  - intros []; reflexivity.
  - intros s p. unfold Cli.ParsePolicy.
    repeat case_bool_decide; intros [= <-]; assumption.
Qed.

Lemma Validate_ok (o : Cli.CliOptions) :
  Cli.Validate o = Workflow.Ok () ->
  0 < Cli.workflows o /\ 0 < Cli.pdfs o /\ 0 < Cli.iters o /\
  0 <= Cli.subqueries o /\ 0 < Cli.time_scale o /\ Cli.out_dir o <> "".
Proof.
  unfold Cli.Validate, Cli.require_pos.
  destruct (Cli.workflows o <=? 0) eqn:E1; [discriminate|].
  destruct (Cli.pdfs o <=? 0) eqn:E2; [discriminate|].
  destruct (Cli.iters o <=? 0) eqn:E3; [discriminate|].
  destruct (Cli.subqueries o <? 0) eqn:E4; [discriminate|].
  destruct (Cli.time_scale o <=? 0) eqn:E5; [discriminate|].
  case_bool_decide as E6; [discriminate|]. intros _.
  repeat split; try lia. exact E6.
Qed.

Lemma create_loop (cfg : ControllerConfig.t) (pc : ProviderConfig.t)
    (l : list Z) (m : gmap Z Workflow.t) :
  0 < ControllerConfig.pdfs cfg -> 0 <= ControllerConfig.subqueries cfg ->
  0 < ControllerConfig.iters cfg ->
  foldl (Controller.add_workflow cfg pc) (Workflow.Ok m) l
  = Workflow.Ok
      (foldl (fun m i =>
                <[i + 1 :=
                    (Workflow.construct (i + 1)
                       (WorkloadParams.mk (ControllerConfig.pdfs cfg)
                          (ControllerConfig.subqueries cfg)
                          (ControllerConfig.iters cfg)
                          (ControllerConfig.seed cfg)) pc).1]> m) m l).
Proof.
  intros Hp Hk Hi. revert m. induction l as [|i l IH]; intros m;
    [reflexivity|].
  cbn [foldl]. rewrite <- IH. f_equal.
  unfold Controller.add_workflow. cbv zeta.
  rewrite (construct_valid (i + 1)
             (WorkloadParams.mk (ControllerConfig.pdfs cfg)
                (ControllerConfig.subqueries cfg)
                (ControllerConfig.iters cfg) (ControllerConfig.seed cfg))
             pc Hp Hk Hi).
  reflexivity.
Qed.

Lemma lookup_created (W : Z -> Workflow.t) (l : list Z)
    (m : gmap Z Workflow.t) (j : Z) :
  foldl (fun m i => <[i + 1 := W (i + 1)]> m) m l !! j
  = if decide (j - 1 ∈ l) then Some (W j) else m !! j.
Proof.
  revert m. induction l as [|i l IH]; intros m; cbn [foldl].
  - rewrite decide_False by (intros H; inversion H). reflexivity.
  - rewrite IH. destruct (decide (j - 1 ∈ l)) as [Hin|Hnin].
    + rewrite decide_True by now apply list_elem_of_further. reflexivity.
    + destruct (decide (j - 1 = i)) as [<-|Hne].
      * rewrite decide_True by apply list_elem_of_here.
        replace (j - 1 + 1) with j by lia. now rewrite lookup_insert_eq.
      * rewrite decide_False
          by (intros H; apply elem_of_cons in H as [?|?]; auto).
        rewrite lookup_insert_ne by lia. reflexivity.
Qed.

(** X28. Options that [Validate] accepts never make the constructor of
    a workflow throw: the controller creates the workflows [1 .. workflows]
    and no other, each of them as its constructor leaves it for the
    workload of the options. *)
Theorem Validate_guards_workflows (o : Cli.CliOptions)
    (pc : ProviderConfig.t) :
  Cli.Validate o = Workflow.Ok () ->
  exists m,
    Controller.create_workflows (Controller.config_of o) pc = Workflow.Ok m /\
    forall i,
      (Workflow.construct i
         (WorkloadParams.mk (Cli.pdfs o) (Cli.subqueries o) (Cli.iters o)
            (Cli.seed o)) pc).2 = Workflow.Ok () /\
      m !! i
      = if bool_decide (1 <= i <= Cli.workflows o)
        then Some (Workflow.construct i
                     (WorkloadParams.mk (Cli.pdfs o) (Cli.subqueries o)
                        (Cli.iters o) (Cli.seed o)) pc).1
        else None.
Proof.
  intros Hv. destruct (Validate_ok o Hv) as (Hw & Hp & Hi & Hk & _).
  unfold Controller.create_workflows.
  rewrite create_loop by assumption. eexists. split; [reflexivity|].
  intros i. split.
  - now rewrite (construct_valid i
                   (WorkloadParams.mk (Cli.pdfs o) (Cli.subqueries o)
                      (Cli.iters o) (Cli.seed o)) pc Hp Hk Hi).
  - cbn [Controller.config_of ControllerConfig.pdfs
         ControllerConfig.subqueries ControllerConfig.iters
         ControllerConfig.seed ControllerConfig.workflows].
    rewrite (lookup_created
               (fun j => (Workflow.construct j
                            (WorkloadParams.mk (Cli.pdfs o) (Cli.subqueries o)
                               (Cli.iters o) (Cli.seed o)) pc).1)).
    rewrite lookup_empty.
    destruct (decide (i - 1 ∈ seqZ 0 (Cli.workflows o))) as [Hin|Hnin].
    + rewrite bool_decide_eq_true_2; [reflexivity|].
      apply elem_of_seqZ in Hin. lia.
    + rewrite bool_decide_eq_false_2; [reflexivity|].
      intros H. apply Hnin. apply elem_of_seqZ. lia.
Qed.

Lemma Validate_guards_workflows_witness :
  exists m,
    Controller.create_workflows
      (Controller.config_of Examples.three_workflows) Examples.providers
    = Workflow.Ok m /\
    forall i,
      (Workflow.construct i (WorkloadParams.mk 2 1 2 1)
         Examples.providers).2 = Workflow.Ok () /\
      m !! i
      = if bool_decide (1 <= i <= 3)
        then Some (Workflow.construct i (WorkloadParams.mk 2 1 2 1)
                     Examples.providers).1
        else None.
Proof.
  apply (Validate_guards_workflows Examples.three_workflows
           Examples.providers).
  vm_compute. reflexivity.
Defined.

(** ** The preference list *)

Lemma insert_by_price_perm (o : ExecutionOption) (l : list ExecutionOption) :
  insert_by_price o l ≡ₚ o :: l.
Proof.
  induction l as [|x l IH]; cbn; [reflexivity|].
  destruct (Qlt_bool (price_per_call o) (price_per_call x)); [reflexivity|].
  rewrite IH. apply Permutation_swap.
Qed.

Lemma sort_by_price_perm (l : list ExecutionOption) : sort_by_price l ≡ₚ l.
Proof.
  unfold sort_by_price. induction l as [|x l IH]; cbn; [reflexivity|].
  now rewrite insert_by_price_perm, IH.
Qed.

Lemma omap_cons {A B} (f : A -> option B) (x : A) (l : list A) :
  omap f (x :: l)
  = match f x with Some y => y :: omap f l | None => omap f l end.
Proof. reflexivity. Qed.

(** X29. The preference list that [PopulatePreferenceListForNode] gives
    a node holds one option for every tier that serves the resource class
    of the node, with the provider, tier id, price, timeout and retries of
    that tier, and nothing else, in the order of increasing price; for a
    cpu or io node it is empty. *)
Theorem preference_list_contents (rc : ResourceClass)
    (tiers : list TierConfig.t) :
  Workflow.preference_for rc tiers
  ≡ₚ option_of <$> filter (fun tc => serves rc tc = true) tiers /\
  StronglySorted by_price (Workflow.preference_for rc tiers) /\
  (rc = cpu \/ rc = io -> Workflow.preference_for rc tiers = []).
Proof.
  assert (Hc : omap (fun tc =>
                       if bool_decide (rc = embed)
                          && bool_decide
                               (TierConfig.provider tc = "embed_provider")
                       then Some (mkExecutionOption (TierConfig.provider tc)
                                    (TierConfig.tier_id tc)
                                    (TierConfig.price_per_call tc)
                                    (TierConfig.default_timeout_ms tc)
                                    (TierConfig.default_max_retries tc))
                       else if bool_decide (rc = llm)
                               && bool_decide
                                    (TierConfig.provider tc = "llm_provider")
                       then Some (mkExecutionOption (TierConfig.provider tc)
                                    (TierConfig.tier_id tc)
                                    (TierConfig.price_per_call tc)
                                    (TierConfig.default_timeout_ms tc)
                                    (TierConfig.default_max_retries tc))
                       else None) tiers
                = option_of <$> filter (fun tc => serves rc tc = true) tiers).
  { induction tiers as [|tc tiers IH]; [reflexivity|].
    rewrite omap_cons, IH, filter_cons.
    destruct (decide (serves rc tc = true)) as [Hs|Hs]; unfold serves in Hs.
    - destruct (bool_decide (rc = embed)
                && bool_decide (TierConfig.provider tc = "embed_provider"));
        [reflexivity|].
      destruct (bool_decide (rc = llm)
                && bool_decide (TierConfig.provider tc = "llm_provider"));
        [reflexivity | discriminate].
    - destruct (bool_decide (rc = embed)
                && bool_decide (TierConfig.provider tc = "embed_provider"));
        [now destruct Hs|].
      destruct (bool_decide (rc = llm)
                && bool_decide (TierConfig.provider tc = "llm_provider"));
        [now destruct Hs | reflexivity]. }
  split; [|split].
  - unfold Workflow.preference_for. now rewrite sort_by_price_perm, Hc.
  - apply preference_for_sorted.
  - intros Hrc. unfold Workflow.preference_for. rewrite Hc.
    assert (Hn : filter (fun tc => serves rc tc = true) tiers = []).
    { clear Hc. induction tiers as [|tc tiers IH]; [reflexivity|].
      rewrite filter_cons, decide_False; [exact IH|].
      unfold serves. destruct Hrc as [-> | ->]; discriminate. }
    rewrite Hn. reflexivity.
Qed.

(** ** The replay of a decision *)

Lemma MarkSucceeded_decide_again (nid : Z) (n : Node) (w : Workflow.t) :
  Workflow.nodes w !! nid = Some n -> type n = DecideNext ->
  state n = Succeeded ->
  Workflow.MarkSucceeded nid w
  = Workflow.bind (Workflow.OnDecideNext nid)
      (fun _ => Workflow.bind
         (Workflow.modify (fun w =>
            Workflow.set_completed_iters
              (Z.max (Workflow.completed_iters_ w) (iter n + 1)) w))
         (fun _ => Workflow.bind Workflow.RefreshRunnable
                     (fun _ => Workflow.ret ()))) w.
Proof.
  intros Hn Hty Hs. unfold Workflow.MarkSucceeded.
  unfold Workflow.bind at 1, Workflow.node. rewrite Hn. cbv zeta.
  rewrite Hty. rewrite bool_decide_eq_false_2 by discriminate.
  rewrite bool_decide_eq_true_2 by reflexivity.
  rewrite !bind_assoc.
  assert (Hset : Workflow.SetState nid Succeeded w = (w, Workflow.Ok ())).
  { unfold Workflow.SetState. unfold Workflow.bind at 1, Workflow.node.
    rewrite Hn. now rewrite bool_decide_eq_true_2. }
  rewrite (bind_ok _ _ _ _ _ Hset).
  unfold Workflow.bind.
  destruct (Workflow.OnDecideNext nid _) as [w1 [[]|msg]]; reflexivity.
Qed.

(** X30. [MarkSucceeded] is not guarded against the replay of a
    decision: called again on a [DecideNext] node that has already
    succeeded, with a decision to continue, it creates one more [Plan] of
    the next iteration, so that a workflow that had such a plan has two of
    them afterwards. *)
Theorem MarkSucceeded_decide_replay_duplicates (w : Workflow.t) (nid : Z)
    (n : Node) :
  Workflow.nodes w !! nid = Some n -> type n = DecideNext ->
  state n = Succeeded ->
  Workflow.ComputeDecideAction w (iter n) = Continue ->
  Workflow.next_node_id w <> 0 ->
  Workflow.nodes w !! Workflow.next_node_id w = None ->
  has_kind Plan (iter n + 1) w ->
  (exists p,
     Workflow.nodes (Workflow.MarkSucceeded nid w).1
       !! Workflow.next_node_id w = Some p /\
     type p = Plan /\ iter p = iter n + 1) /\
  ~ one_per_iteration Plan (Workflow.MarkSucceeded nid w).1.
Proof.
  intros Hn Hty Hs Hcont Hnz Hfresh (j & q & Hq & Hqt & Hqi).
  rewrite (MarkSucceeded_decide_again nid n w Hn Hty Hs).
  destruct (OnDecideNext_continue nid n w Hn Hs Hcont Hnz Hfresh)
    as (w4 & Heq & _ & (p & Hp & Hpt & Hpi & _) & _ & Hoth).
  rewrite (bind_ok _ _ _ _ _ Heq).
  set (rest := Workflow.bind _ _).
  assert (Hrest : grows w4 (rest w4).1).
  { apply rel_bind; [apply _ | | intros _].
    - apply grows_modify. intros w0. cbn. repeat split; lia.
    - apply rel_bind; [apply _ | apply grows_RefreshRunnable |].
      intros _. apply rel_ret; apply _. }
  destruct Hrest as (_ & _ & _ & _ & Hnodes & _).
  destruct (Hnodes _ p Hp) as (p' & Hp' & _ & _ & Hpt' & Hpi').
  assert (Hjn : j <> Workflow.next_node_id w) by congruence.
  assert (Hjd : j <> nid) by (intros ->; congruence).
  assert (Hq4 : Workflow.nodes w4 !! j = Some q)
    by (rewrite (Hoth j Hjn Hjd); exact Hq).
  destruct (Hnodes _ q Hq4) as (q' & Hq' & _ & _ & Hqt' & Hqi').
  split.
  - exists p'. split; [exact Hp'|]. split; congruence.
  - intros Hone. apply Hjn.
    apply (Hone j (Workflow.next_node_id w) q' p' Hq' Hp'); congruence.
Qed.

Lemma MarkSucceeded_decide_replay_duplicates_witness :
  (exists p,
     Workflow.nodes (Workflow.MarkSucceeded 13 Examples.wf_decided).1
       !! Workflow.next_node_id Examples.wf_decided = Some p /\
     type p = Plan /\
     iter p = iter (Examples.node_of Examples.wf_decided 13) + 1) /\
  ~ one_per_iteration Plan
      (Workflow.MarkSucceeded 13 Examples.wf_decided).1.
Proof.
  apply (MarkSucceeded_decide_replay_duplicates Examples.wf_decided 13
           (Examples.node_of Examples.wf_decided 13)).
  - vm_compute. reflexivity.
  - vm_compute. reflexivity.
  - vm_compute. reflexivity.
  - vm_compute. reflexivity.
  - vm_compute. discriminate.
  - vm_compute. reflexivity.
  - exists 14, (Examples.node_of Examples.wf_decided 14).
    split; [|split]; vm_compute; reflexivity.
Defined.
